(** * Hearts server: the rules engine and round state machine

    A shallow embedding of the TypeScript sources [types.ts], [card.ts],
    [player.ts] and [game.ts], followed by the properties of the play
    validator, the legal-move enumeration, the trick resolver, the passing
    coordinator and the scoring code, and by invariants of whole sessions:
    joins and departures, the deal, turns, tricks, timers and points.

    Conventions of the embedding.
    - JavaScript numbers that hold scores, indices and round counters are [Z].
    - A [Card] is the pair of enum values of the TypeScript interface; the
      enums [Suit] and [Rank] are inductive types, and [Object.values] of an
      enum is the list of its members in declaration order.
    - [Game.players] (a [Map] iterated in insertion order) is a list of
      [Player] records searched by id; [Game.playerOrder] is kept as the
      separate list of ids that the source keeps.
    - The callbacks [broadcast], [sendToPlayer] and [onGameEnd] append to an
      outbox; [setTimeout] appends its callback to a list of pending timers
      that a later [fireTimer] event runs.
    - A [Player] object deleted from the player map is kept beside the game:
      the timer callback of [endTrick] captured the object of the trick
      winner and reads it when it runs, also after that player has left.
    - [Math.random] is an oracle [nat -> nat] handed to the shuffle.
    - Methods run in a state-and-exception monad over [World]; a thrown
      exception keeps the mutations made before it, as in JavaScript. *)

From Stdlib Require Import List ZArith Bool String Ascii Lia Permutation Arith.
Import ListNotations.
Local Open Scope Z_scope.

(** ** types.ts *)

Inductive Suit : Type := Hearts | Diamonds | Clubs | Spades.

Inductive Rank : Type :=
  | Two | Three | Four | Five | Six | Seven | Eight | Nine | Ten
  | Jack | Queen | King | Ace.

Scheme Equality for Suit.
Scheme Equality for Rank.

(** [Object.values(Suit)] and [Object.values(Rank)]. *)
Definition Suit_values : list Suit := [Hearts; Diamonds; Clubs; Spades].

Definition Rank_values : list Rank :=
  [Two; Three; Four; Five; Six; Seven; Eight; Nine; Ten; Jack; Queen; King; Ace].

(** The string value of each enum member. *)
Definition suitStr (s : Suit) : string :=
  match s with
  | Hearts => "H" | Diamonds => "D" | Clubs => "C" | Spades => "S"
  end%string.

Definition rankStr (r : Rank) : string :=
  match r with
  | Two => "2" | Three => "3" | Four => "4" | Five => "5" | Six => "6"
  | Seven => "7" | Eight => "8" | Nine => "9" | Ten => "T" | Jack => "J"
  | Queen => "Q" | King => "K" | Ace => "A"
  end%string.

Record Card : Type := mkCard { suit : Suit; rank : Rank }.

Record PlayerInfo : Type := mkPlayerInfo {
  i_id : string;
  i_name : string;
  i_score : Z;
  i_roundScore : Z
}.

Record PlayedCard : Type := mkPlayed { playerId : string; card : Card }.

Record Trick : Type := mkTrick {
  leadingSuit : option Suit;
  cards : list PlayedCard;
  trickWinnerId : option string
}.

Inductive GamePhase : Type :=
  | WaitingForPlayers | Passing | PassingComplete | PlayingTrick
  | TrickComplete | RoundScoring | RoundOver | GameOver.

Inductive PassingDirection : Type := Left | Right | Across | Hold.

Scheme Equality for GamePhase.
Scheme Equality for PassingDirection.

(** ** card.ts *)

(** [Array.prototype.indexOf]: the first position of [x], or [-1]. *)
Fixpoint indexOfFrom {A : Type} (eqb : A -> A -> bool) (x : A) (l : list A) (i : Z) : Z :=
  match l with
  | [] => -1
  | y :: l' => if eqb y x then i else indexOfFrom eqb x l' (i + 1)
  end.

Definition indexOf {A : Type} (eqb : A -> A -> bool) (x : A) (l : list A) : Z :=
  indexOfFrom eqb x l 0.

Definition createDeck : list Card :=
  flat_map (fun s => map (fun r => mkCard s r) Rank_values) Suit_values.

(** [[deck[i], deck[j]] = [deck[j], deck[i]]]. *)
Definition swap (i j : nat) (deck : list Card) : list Card :=
  match nth_error deck i, nth_error deck j with
  | Some ci, Some cj =>
      let d1 := firstn i deck ++ cj :: skipn (S i) deck in
      firstn j d1 ++ ci :: skipn (S j) d1
  | _, _ => deck
  end.

(** The Fisher-Yates loop, [i] running from [length - 1] down to [1]; the
    draw [Math.floor(Math.random() * (i + 1))] at index [i] is
    [rnd i mod (i + 1)]. *)
Fixpoint shuffleLoop (rnd : nat -> nat) (i : nat) (deck : list Card) : list Card :=
  match i with
  | O => deck
  | S i' => shuffleLoop rnd i' (swap i (Nat.modulo (rnd i) (S i)) deck)
  end.

Definition shuffleDeck (rnd : nat -> nat) (deck : list Card) : list Card :=
  shuffleLoop rnd (Nat.pred (List.length deck)) deck.

Definition suitOrder : list Suit := [Clubs; Diamonds; Spades; Hearts].

Definition rankIndex (r : Rank) : Z := indexOf Rank_beq r Rank_values.

Definition compareCards (a b : Card) : Z :=
  let suitDiff := indexOf Suit_beq (suit a) suitOrder - indexOf Suit_beq (suit b) suitOrder in
  if negb (suitDiff =? 0) then suitDiff
  else rankIndex (rank a) - rankIndex (rank b).

Definition getCardValue (c : Card) : Z :=
  if Suit_beq (suit c) Hearts then 1
  else if Suit_beq (suit c) Spades && Rank_beq (rank c) Queen then 13
  else 0.

Definition isQueenOfSpades (c : Card) : bool :=
  Suit_beq (suit c) Spades && Rank_beq (rank c) Queen.

(** [c.suit === d.suit && c.rank === d.rank], the comparison the game code
    writes out wherever it looks a card up. *)
Definition sameCard (c d : Card) : bool :=
  Suit_beq (suit c) (suit d) && Rank_beq (rank c) (rank d).

(** [Array.prototype.sort] with a comparator: a stable sort. *)
Fixpoint insertBy (cmp : Card -> Card -> Z) (x : Card) (l : list Card) : list Card :=
  match l with
  | [] => [x]
  | y :: l' => if cmp x y <=? 0 then x :: y :: l' else y :: insertBy cmp x l'
  end.

Definition sortBy (cmp : Card -> Card -> Z) (l : list Card) : list Card :=
  fold_right (insertBy cmp) [] l.

(** ** player.ts *)

Record Player : Type := mkPlayer {
  p_id : string;
  p_name : string;
  hand : list Card;
  score : Z;
  roundScore : Z;
  cardsToPass : option (list Card);
  receivedCards : option (list Card)
}.

Definition newPlayer (id name : string) : Player :=
  mkPlayer id name [] 0 0 None None.

Definition set_hand (h : list Card) (p : Player) : Player :=
  mkPlayer (p_id p) (p_name p) h (score p) (roundScore p) (cardsToPass p) (receivedCards p).

Definition set_score (s : Z) (p : Player) : Player :=
  mkPlayer (p_id p) (p_name p) (hand p) s (roundScore p) (cardsToPass p) (receivedCards p).

Definition set_roundScore (s : Z) (p : Player) : Player :=
  mkPlayer (p_id p) (p_name p) (hand p) (score p) s (cardsToPass p) (receivedCards p).

Definition set_cardsToPass (cs : option (list Card)) (p : Player) : Player :=
  mkPlayer (p_id p) (p_name p) (hand p) (score p) (roundScore p) cs (receivedCards p).

Definition set_receivedCards (cs : option (list Card)) (p : Player) : Player :=
  mkPlayer (p_id p) (p_name p) (hand p) (score p) (roundScore p) (cardsToPass p) cs.

Definition resetForNewRound (p : Player) : Player :=
  mkPlayer (p_id p) (p_name p) [] (score p) 0 None None.

Definition addReceivedCardsToHand (p : Player) : Player :=
  match receivedCards p with
  | Some rc => set_receivedCards None (set_hand (sortBy compareCards (hand p ++ rc)) p)
  | None => p
  end.

Definition getPlayerInfo (p : Player) : PlayerInfo :=
  mkPlayerInfo (p_id p) (p_name p) (score p) (roundScore p).

(** ** game.ts: state *)

Definition MAX_PLAYERS : Z := 4.
Definition SCORE_LIMIT : Z := 100.
Definition PASS_COUNT : Z := 3.

Record Game : Type := mkGame {
  players : list Player;
  playerOrder : list string;
  deck : list Card;
  roundNumber : Z;
  passingDirection : option PassingDirection;
  currentPlayerIndex : Z;
  currentTrick : Trick;
  heartsBroken : bool;
  phase : GamePhase
}.

Definition set_players (x : list Player) (g : Game) : Game :=
  mkGame x (playerOrder g) (deck g) (roundNumber g) (passingDirection g)
    (currentPlayerIndex g) (currentTrick g) (heartsBroken g) (phase g).

Definition set_playerOrder (x : list string) (g : Game) : Game :=
  mkGame (players g) x (deck g) (roundNumber g) (passingDirection g)
    (currentPlayerIndex g) (currentTrick g) (heartsBroken g) (phase g).

Definition set_deck (x : list Card) (g : Game) : Game :=
  mkGame (players g) (playerOrder g) x (roundNumber g) (passingDirection g)
    (currentPlayerIndex g) (currentTrick g) (heartsBroken g) (phase g).

Definition set_roundNumber (x : Z) (g : Game) : Game :=
  mkGame (players g) (playerOrder g) (deck g) x (passingDirection g)
    (currentPlayerIndex g) (currentTrick g) (heartsBroken g) (phase g).

Definition set_passingDirection (x : option PassingDirection) (g : Game) : Game :=
  mkGame (players g) (playerOrder g) (deck g) (roundNumber g) x
    (currentPlayerIndex g) (currentTrick g) (heartsBroken g) (phase g).

Definition set_currentPlayerIndex (x : Z) (g : Game) : Game :=
  mkGame (players g) (playerOrder g) (deck g) (roundNumber g) (passingDirection g)
    x (currentTrick g) (heartsBroken g) (phase g).

Definition set_currentTrick (x : Trick) (g : Game) : Game :=
  mkGame (players g) (playerOrder g) (deck g) (roundNumber g) (passingDirection g)
    (currentPlayerIndex g) x (heartsBroken g) (phase g).

Definition set_heartsBroken (x : bool) (g : Game) : Game :=
  mkGame (players g) (playerOrder g) (deck g) (roundNumber g) (passingDirection g)
    (currentPlayerIndex g) (currentTrick g) x (phase g).

Definition set_phase (x : GamePhase) (g : Game) : Game :=
  mkGame (players g) (playerOrder g) (deck g) (roundNumber g) (passingDirection g)
    (currentPlayerIndex g) (currentTrick g) (heartsBroken g) x.

(** The per-player snapshot built by [getGameStateForPlayer]. *)
Record GameState : Type := mkGameState {
  s_players : list PlayerInfo;
  s_currentPlayerId : option string;
  s_phase : GamePhase;
  s_roundNumber : Z;
  s_passingDirection : option PassingDirection;
  s_currentTrick : Trick;
  s_heartsBroken : bool;
  s_hand : list Card;
  s_cardsToPass : option (list Card)
}.

Inductive ServerMessage : Type :=
  | GameJoined (pid : string)
  | GameStateUpdate (st : GameState)
  | YourTurn (validMoves : list Card)
  | CardsPassed (received : option (list Card))
  | TrickWon (winnerId winnerName : string) (pointsTaken : Z) (trickCards : list PlayedCard)
  | RoundScored (scores : list PlayerInfo) (shooterId : option string)
  | GameOverMsg (winner : option PlayerInfo) (finalScores : list PlayerInfo) (reason : string)
  | ErrorMsg (message : string).

Inductive ClientMessage : Type :=
  | SelectCardsToPass (cs : list Card)
  | PlayCard (c : Card)
  | OtherMessage.

(** What the game hands to its three callbacks. *)
Inductive Outgoing : Type :=
  | SendToPlayer (pid : string) (m : ServerMessage)
  | Broadcast (m : ServerMessage)
  | OnGameEnd.

(** The two [setTimeout] callbacks, with the variables they capture. *)
Inductive Timer : Type :=
  | NextTrickTimer (winnerId : string)
  | NextRoundTimer (gameOver : bool).

(** The state a call works on: the game object, what was handed to the
    callbacks, the pending timers, and the [Player] objects that were
    deleted from the player map. A deleted object is no longer reachable
    from the game, but a timer callback that captured it still holds it. *)
Record World : Type := mkWorld {
  game : Game;
  outbox : list Outgoing;
  timers : list Timer;
  departed : list Player
}.

(** ** The monad of method bodies *)

Inductive Res (A : Type) : Type :=
  | Ret (a : A) (w : World)
  | Throw (e : string) (w : World).

Arguments Ret {A} a w.
Arguments Throw {A} e w.

Definition M (A : Type) : Type := World -> Res A.

Definition ret {A : Type} (a : A) : M A := fun w => Ret a w.

Definition bind {A B : Type} (m : M A) (k : A -> M B) : M B :=
  fun w => match m w with
           | Ret a w' => k a w'
           | Throw e w' => Throw e w'
           end.

Definition throw {A : Type} (e : string) : M A := fun w => Throw e w.

Declare Scope hearts_scope.
Delimit Scope hearts_scope with hearts.
Notation "x <- m ;; k" := (bind m (fun x => k))
  (at level 61, m at next level, right associativity) : hearts_scope.
Notation "m ;; k" := (bind m (fun _ => k))
  (at level 61, right associativity) : hearts_scope.
Local Open Scope hearts_scope.

Definition getGame : M Game := fun w => Ret (game w) w.

Definition modifyGame (f : Game -> Game) : M unit :=
  fun w => Ret tt (mkWorld (f (game w)) (outbox w) (timers w) (departed w)).

Definition emit (o : Outgoing) : M unit :=
  fun w => Ret tt (mkWorld (game w) (outbox w ++ [o]) (timers w) (departed w)).

Definition setTimeout (t : Timer) : M unit :=
  fun w => Ret tt (mkWorld (game w) (outbox w) (timers w ++ [t]) (departed w)).

Definition final {A : Type} (r : Res A) : World :=
  match r with
  | Ret _ w => w
  | Throw _ w => w
  end.

Fixpoint forEachM {A : Type} (f : A -> M unit) (l : list A) : M unit :=
  match l with
  | [] => ret tt
  | x :: l' => f x ;; forEachM f l'
  end.

Fixpoint mapM {A B : Type} (f : A -> M B) (l : list A) : M (list B) :=
  match l with
  | [] => ret []
  | x :: l' => y <- f x ;; ys <- mapM f l' ;; ret (y :: ys)
  end.

(** The message of the [TypeError] raised by a property access on
    [undefined]. *)
Definition typeError : string := "Cannot read properties of undefined"%string.

(** ** Map and array helpers *)

Definition len {A : Type} (l : list A) : Z := Z.of_nat (List.length l).

(** [arr[i]] for a number [i]: [undefined] outside the array. *)
Definition at_ {A : Type} (l : list A) (i : Z) : option A :=
  if i <? 0 then None else nth_error l (Z.to_nat i).

(** [players.get(id)]. *)
Definition getPlayer (id : string) (ps : list Player) : option Player :=
  find (fun p => String.eqb (p_id p) id) ps.

(** A mutation of the player object stored under [id]. *)
Definition updatePlayer (id : string) (f : Player -> Player) (ps : list Player) : list Player :=
  map (fun p => if String.eqb (p_id p) id then f p else p) ps.

(** [map.set(k, v)] on an insertion-ordered map. *)
Fixpoint mapSet {V : Type} (k : string) (v : V) (key : V -> string) (m : list V) : list V :=
  match m with
  | [] => [v]
  | x :: m' => if String.eqb (key x) k then v :: m' else x :: mapSet k v key m'
  end.

Definition sendToPlayer (pid : string) (m : ServerMessage) : M unit :=
  emit (SendToPlayer pid m).

Definition broadcast (m : ServerMessage) : M unit := emit (Broadcast m).

Definition sendError (pid : string) (message : string) : M unit :=
  sendToPlayer pid (ErrorMsg message).

Definition createEmptyTrick : Trick := mkTrick None [] None.

(** The state a [new Game(...)] starts in. *)
Definition newGame : Game :=
  mkGame [] [] [] 0 None (-1) createEmptyTrick false WaitingForPlayers.

Definition newWorld : World := mkWorld newGame [] [] [].

(** ** game.ts: queries *)

Definition isTwoOfClubs (c : Card) : bool :=
  Rank_beq (rank c) Two && Suit_beq (suit c) Clubs.

Definition isFirstTrick (g : Game) : bool :=
  match at_ (playerOrder g) 0 with
  | Some id0 =>
      match getPlayer id0 (players g) with
      | Some p => len (hand p) =? 13
      | None => false
      end
  | None => false
  end.

Definition getCurrentPlayerId (g : Game) : option string :=
  if (currentPlayerIndex g <? 0) || (currentPlayerIndex g >=? len (playerOrder g))
  then None
  else at_ (playerOrder g) (currentPlayerIndex g).

Definition getPassingDirection (round : Z) : PassingDirection :=
  let directionIndex := Z.rem (round - 1) 4 in
  if directionIndex =? 0 then Left
  else if directionIndex =? 1 then Right
  else if directionIndex =? 2 then Across
  else Hold.

Fixpoint findTwoOfClubsFrom (ps : list Player) (ids : list string) (i : Z) : Z :=
  match ids with
  | [] => 0
  | id :: rest =>
      if match getPlayer id ps with
         | Some p => existsb isTwoOfClubs (hand p)
         | None => false
         end
      then i
      else findTwoOfClubsFrom ps rest (i + 1)
  end.

Definition findPlayerWithTwoOfClubs (g : Game) : Z :=
  findTwoOfClubsFrom (players g) (playerOrder g) 0.

(** The decision of [isValidPlay]: [None] when the play is valid, the
    message passed to [sendError] when it is not. *)
Definition playVerdict (g : Game) (player : Player) (c : Card) : option string :=
  let hand := hand player in
  let isFirstPlayerInTrick := len (cards (currentTrick g)) =? 0 in
  let leadingSuit := leadingSuit (currentTrick g) in
  if negb (existsb (fun h => sameCard h c) hand) then
    Some "Invalid play: Card not in hand."%string
  else if isFirstTrick g && isFirstPlayerInTrick then
    if negb (Suit_beq (suit c) Clubs) || negb (Rank_beq (rank c) Two) then
      Some "Invalid play: Must lead with the 2 of Clubs on the first trick."%string
    else None
  else if isFirstTrick g && (getCardValue c >? 0)
          && negb (forallb (fun h => getCardValue h >? 0) hand) then
    Some "Invalid play: Cannot play Hearts or Queen of Spades on the first trick unless it's all you have."%string
  else if negb isFirstPlayerInTrick
          && match leadingSuit with
             | Some ls => existsb (fun h => Suit_beq (suit h) ls) hand
                          && negb (Suit_beq (suit c) ls)
             | None => false
             end then
    Some (String.append "Invalid play: Must follow the leading suit ("
            (String.append (match leadingSuit with Some ls => suitStr ls | None => "" end)
               ")."))%string
  else if isFirstPlayerInTrick && Suit_beq (suit c) Hearts && negb (heartsBroken g)
          && negb (forallb (fun h => Suit_beq (suit h) Hearts) hand) then
    Some "Invalid play: Cannot lead with Hearts until they are broken (or it's all you have)."%string
  else None.

(** The first loop of [calculateValidMoves]: every card of the hand
    checked against the three rules, collected in [validMoves]. *)
Definition naiveMoves (g : Game) (player : Player) : list Card :=
  let hand := hand player in
  let isFirstPlayerInTrick := len (cards (currentTrick g)) =? 0 in
  let leadingSuit := leadingSuit (currentTrick g) in
  let canFollowSuit :=
    match leadingSuit with
    | Some ls => existsb (fun c => Suit_beq (suit c) ls) hand
    | None => false
    end in
  let isFirst := isFirstTrick g in
  let canPlayPointsOnFirstTrick := forallb (fun c => getCardValue c >? 0) hand in
  let canLeadHearts :=
    heartsBroken g || forallb (fun c => Suit_beq (suit c) Hearts) hand in
  filter (fun card =>
      negb (isFirst && (getCardValue card >? 0) && negb canPlayPointsOnFirstTrick)
      && negb (match leadingSuit with
               | Some ls => canFollowSuit && negb (Suit_beq (suit card) ls)
               | None => false
               end)
      && negb (isFirstPlayerInTrick && Suit_beq (suit card) Hearts && negb canLeadHearts))
    hand.

Definition calculateValidMoves (g : Game) (player : Player) : list Card :=
  let hand := hand player in
  let isFirstPlayerInTrick := len (cards (currentTrick g)) =? 0 in
  let leadingSuit := leadingSuit (currentTrick g) in
  if isFirstTrick g && isFirstPlayerInTrick then
    match find isTwoOfClubs hand with
    | Some twoOfClubs => [twoOfClubs]
    | None => []
    end
  else
    let canFollowSuit :=
      match leadingSuit with
      | Some ls => existsb (fun c => Suit_beq (suit c) ls) hand
      | None => false
      end in
    let isFirst := isFirstTrick g in
    let canPlayPointsOnFirstTrick := forallb (fun c => getCardValue c >? 0) hand in
    let validMoves := naiveMoves g player in
    if match leadingSuit with Some _ => negb canFollowSuit | None => false end then
      let nonFollowMoves :=
        filter (fun card =>
            negb (isFirst && (getCardValue card >? 0) && negb canPlayPointsOnFirstTrick))
          hand in
      if len nonFollowMoves >? 0 then nonFollowMoves else hand
    else if (len validMoves =? 0) && (len hand >? 0) then hand
    else validMoves.

(** ** game.ts: the trick resolver *)

(** The loop [for (let i = 1; i < cards.length; i++)] of
    [calculateTrickWinner]; [n] counts the iterations left. *)
Fixpoint winnerLoop (ls : Suit) (cs : list PlayedCard) (n : nat) (i : Z)
    (win : string * Card) : string * Card :=
  match n with
  | O => win
  | S n' =>
      match at_ cs i with
      | Some currentPlayed =>
          let currentCard := card currentPlayed in
          winnerLoop ls cs n' (i + 1)
            (if Suit_beq (suit currentCard) ls
                && (rankIndex (rank currentCard) >? rankIndex (rank (snd win)))
             then (playerId currentPlayed, currentCard)
             else win)
      | None => win
      end
  end.

(** [calculateTrickWinner] as a function of the trick: the thrown message,
    or the pair [(winnerId, winningCard)]. *)
Definition trickWinner (t : Trick) : string + (string * Card) :=
  match leadingSuit t, cards t with
  | Some ls, first :: _ =>
      inr (winnerLoop ls (cards t) (Nat.pred (List.length (cards t))) 1
             (playerId first, card first))
  | _, _ => inl "Cannot determine winner of an empty or non-started trick."%string
  end.

Definition calculateTrickWinner : M (string * Card) :=
  g <- getGame ;;
  match trickWinner (currentTrick g) with
  | inr r => ret r
  | inl e => throw e
  end.

(** ** game.ts: scoring *)

(** The search for the shooter in [endRound]. *)
Definition findShooter (ps : list Player) : option Player :=
  find (fun p => roundScore p =? 26) ps.

(** The score update of [endRound]. *)
Definition applyRoundScores (ps : list Player) : list Player :=
  match findShooter ps with
  | Some shooter =>
      map (fun p => if String.eqb (p_id p) (p_id shooter)
                    then set_score (score p + 0) p
                    else set_score (score p + 26) p) ps
  | None => map (fun p => set_score (score p + roundScore p) p) ps
  end.

(** The winner search of [endGame]; [None] in the first component is the
    initial [Infinity]. *)
Definition lowestScorer (ps : list Player) : option PlayerInfo :=
  snd (fold_left
         (fun (acc : option Z * option PlayerInfo) p =>
            let info := getPlayerInfo p in
            if match fst acc with
               | None => true
               | Some lowestScore => i_score info <? lowestScore
               end
            then (Some (i_score info), Some info)
            else acc)
         ps (None, None)).

(** ** game.ts: communication helpers *)

Definition getAllPlayerInfo : M (list PlayerInfo) :=
  g <- getGame ;;
  mapM (fun id => match getPlayer id (players g) with
                  | Some p => ret (getPlayerInfo p)
                  | None => throw typeError
                  end)
       (playerOrder g).

Definition getGameStateForPlayer (pid : string) : M GameState :=
  g <- getGame ;;
  match getPlayer pid (players g) with
  | None => throw "Player not found for state generation"%string
  | Some player =>
      publicPlayerInfo <- getAllPlayerInfo ;;
      ret (mkGameState publicPlayerInfo (getCurrentPlayerId g) (phase g)
             (roundNumber g) (passingDirection g)
             (mkTrick (leadingSuit (currentTrick g)) (cards (currentTrick g)) None)
             (heartsBroken g) (hand player) (cardsToPass player))
  end.

Definition broadcastGameState : M unit :=
  g <- getGame ;;
  forEachM (fun p => state <- getGameStateForPlayer (p_id p) ;;
                     sendToPlayer (p_id p) (GameStateUpdate state))
           (players g).

Definition notifyCurrentPlayerTurn : M unit :=
  g <- getGame ;;
  match getCurrentPlayerId g with
  | Some currentPlayerId =>
      if negb (String.eqb currentPlayerId "") && GamePhase_beq (phase g) PlayingTrick then
        match getPlayer currentPlayerId (players g) with
        | Some player =>
            sendToPlayer currentPlayerId (YourTurn (calculateValidMoves g player))
        | None => throw typeError
        end
      else ret tt
  | None => ret tt
  end.

(** ** game.ts: game flow *)

(** The [forEach] of [dealCards]; the accumulator carries [playerIndex]. *)
Definition dealLoop (order : list string) (d : list Card) (ps : list Player) : list Player :=
  snd (fold_left
         (fun (acc : Z * list Player) c =>
            let playerIndex := fst acc in
            (playerIndex + 1,
             match at_ order (Z.rem playerIndex MAX_PLAYERS) with
             | Some pid => updatePlayer pid (fun p => set_hand (hand p ++ [c]) p) (snd acc)
             | None => snd acc
             end))
         d (0, ps)).

Definition dealCards : M unit :=
  modifyGame (fun g =>
    set_players
      (map (fun p => set_hand (sortBy compareCards (hand p)) p)
           (dealLoop (playerOrder g) (deck g) (players g)))
      g).

Definition startNewRound (rnd : nat -> nat) : M unit :=
  g <- getGame ;;
  if negb (len (players g) =? MAX_PLAYERS) then ret tt
  else
    modifyGame (fun g => set_roundNumber (roundNumber g + 1) g) ;;
    modifyGame (set_heartsBroken false) ;;
    modifyGame (set_currentTrick createEmptyTrick) ;;
    modifyGame (fun g => set_players (map resetForNewRound (players g)) g) ;;
    modifyGame (fun g =>
      set_passingDirection (Some (getPassingDirection (roundNumber g))) g) ;;
    modifyGame (set_deck (shuffleDeck rnd createDeck)) ;;
    dealCards ;;
    g <- getGame ;;
    match passingDirection g with
    | Some Hold =>
        modifyGame (set_phase PlayingTrick) ;;
        modifyGame (fun g => set_currentPlayerIndex (findPlayerWithTwoOfClubs g) g) ;;
        broadcastGameState ;;
        notifyCurrentPlayerTurn
    | _ =>
        modifyGame (set_phase Passing) ;;
        broadcastGameState
    end.

(** The key [`${c.suit}${c.rank}`] of the hand set in [handlePassCards]. *)
Definition cardKey (c : Card) : string :=
  String.append (suitStr (suit c)) (rankStr (rank c)).

(** One iteration of the first loop of [executePassing]. *)
Definition passOne (dir : PassingDirection) (playerIds : list string)
    (tempReceived : list (string * option (list Card)))
    (ic : Z * string) : M (list (string * option (list Card))) :=
  let i := fst ic in
  let currentPlayerId := snd ic in
  let numPlayers := len playerIds in
  g <- getGame ;;
  match getPlayer currentPlayerId (players g) with
  | None => throw typeError
  | Some currentPlayer =>
      let cs := cardsToPass currentPlayer in
      let targetPlayerIndex :=
        match dir with
        | Left => Z.rem (i + 1) numPlayers
        | Right => Z.rem (i - 1 + numPlayers) numPlayers
        | Across => Z.rem (i + 2) numPlayers
        | Hold => i
        end in
      let tempReceived' :=
        match at_ playerIds targetPlayerIndex with
        | Some targetPlayerId => mapSet targetPlayerId (targetPlayerId, cs) fst tempReceived
        | None => tempReceived
        end in
      modifyGame (fun g =>
        set_players (updatePlayer currentPlayerId (set_cardsToPass None) (players g)) g) ;;
      ret tempReceived'
  end.

Fixpoint passLoop (dir : PassingDirection) (playerIds : list string)
    (todo : list (Z * string))
    (tempReceived : list (string * option (list Card)))
    : M (list (string * option (list Card))) :=
  match todo with
  | [] => ret tempReceived
  | ic :: rest =>
      tempReceived' <- passOne dir playerIds tempReceived ic ;;
      passLoop dir playerIds rest tempReceived'
  end.

(** The indices [0 .. length - 1] paired with the elements. *)
Fixpoint indexed {A : Type} (i : Z) (l : list A) : list (Z * A) :=
  match l with
  | [] => []
  | x :: l' => (i, x) :: indexed (i + 1) l'
  end.

(** [tempReceived.get(playerId) || []]. *)
Definition receivedFor (tempReceived : list (string * option (list Card)))
    (pid : string) : list Card :=
  match find (fun kv => String.eqb (fst kv) pid) tempReceived with
  | Some (_, Some cs) => cs
  | _ => []
  end.

Definition executePassing : M unit :=
  g <- getGame ;;
  match passingDirection g with
  | None => ret tt
  | Some Hold => ret tt
  | Some dir =>
      let playerIds := playerOrder g in
      tempReceived <- passLoop dir playerIds (indexed 0 playerIds) [] ;;
      g <- getGame ;;
      forEachM (fun p =>
          modifyGame (fun g =>
            set_players
              (updatePlayer (p_id p)
                 (fun q => addReceivedCardsToHand
                             (set_receivedCards (Some (receivedFor tempReceived (p_id p))) q))
                 (players g)) g) ;;
          g <- getGame ;;
          match getPlayer (p_id p) (players g) with
          | Some q => sendToPlayer (p_id p) (CardsPassed (receivedCards q))
          | None => throw typeError
          end)
        (players g) ;;
      modifyGame (set_phase PlayingTrick) ;;
      modifyGame (fun g => set_currentPlayerIndex (findPlayerWithTwoOfClubs g) g) ;;
      broadcastGameState ;;
      notifyCurrentPlayerTurn
  end.

Definition handlePassCards (player : Player) (cardsToPass_ : list Card) : M unit :=
  if negb (len cardsToPass_ =? PASS_COUNT) then
    throw "Invalid number of cards selected. Please select 3."%string
  else
    match cardsToPass player with
    | Some _ => throw "You have already selected cards to pass."%string
    | None =>
        let handSet := map cardKey (hand player) in
        if negb (forallb (fun c => existsb (String.eqb (cardKey c)) handSet) cardsToPass_) then
          throw "Invalid card selected or card not in hand."%string
        else
          modifyGame (fun g =>
            set_players
              (updatePlayer (p_id player)
                 (fun q =>
                    set_hand
                      (filter (fun handCard =>
                                 negb (existsb (fun passCard => sameCard passCard handCard)
                                         cardsToPass_))
                              (hand q))
                      (set_cardsToPass (Some cardsToPass_) q))
                 (players g)) g) ;;
          state <- getGameStateForPlayer (p_id player) ;;
          sendToPlayer (p_id player) (GameStateUpdate state) ;;
          g <- getGame ;;
          if forallb (fun p => match cardsToPass p with Some _ => true | None => false end)
               (players g)
          then executePassing
          else broadcastGameState
    end.

Definition endGame (reason : string) : M unit :=
  modifyGame (set_phase GameOver) ;;
  g <- getGame ;;
  let winner := lowestScorer (players g) in
  finalScores <- getAllPlayerInfo ;;
  broadcast (GameOverMsg winner finalScores reason) ;;
  emit OnGameEnd.

Definition endRound : M unit :=
  modifyGame (set_phase RoundScoring) ;;
  g <- getGame ;;
  let shooter := findShooter (players g) in
  modifyGame (fun g => set_players (applyRoundScores (players g)) g) ;;
  scores <- getAllPlayerInfo ;;
  broadcast (RoundScored scores (option_map p_id shooter)) ;;
  g <- getGame ;;
  let gameOver := existsb (fun p => score p >=? SCORE_LIMIT) (players g) in
  setTimeout (NextRoundTimer gameOver).

Definition endTrick : M unit :=
  modifyGame (set_phase TrickComplete) ;;
  winnerInfo <- calculateTrickWinner ;;
  modifyGame (fun g =>
    set_currentTrick
      (mkTrick (leadingSuit (currentTrick g)) (cards (currentTrick g))
         (Some (fst winnerInfo))) g) ;;
  g <- getGame ;;
  let trickPoints :=
    fold_left (fun acc playedCard => acc + getCardValue (card playedCard))
      (cards (currentTrick g)) 0 in
  match getPlayer (fst winnerInfo) (players g) with
  | None => throw typeError
  | Some winningPlayer =>
      modifyGame (fun g =>
        set_players
          (updatePlayer (fst winnerInfo)
             (fun q => set_roundScore (roundScore q + trickPoints) q) (players g)) g) ;;
      broadcast (TrickWon (fst winnerInfo) (p_name winningPlayer) trickPoints
                   (cards (currentTrick g))) ;;
      setTimeout (NextTrickTimer (fst winnerInfo))
  end.

Definition isValidPlay (player : Player) (c : Card) : M bool :=
  g <- getGame ;;
  match playVerdict g player c with
  | Some message => sendError (p_id player) message ;; ret false
  | None => ret true
  end.

(** [hand.findIndex(...)] followed by [hand.splice(cardIndex, 1)]; [None]
    is the index [-1]. *)
Fixpoint removeFirst (c : Card) (h : list Card) : option (list Card) :=
  match h with
  | [] => None
  | x :: h' =>
      if sameCard x c then Some h'
      else option_map (cons x) (removeFirst c h')
  end.

Definition handlePlayCard (player : Player) (c : Card) : M unit :=
  ok <- isValidPlay player c ;;
  if negb ok then ret tt
  else
    match removeFirst c (hand player) with
    | None => sendError (p_id player) "Card not found in your hand."%string
    | Some hand' =>
        modifyGame (fun g =>
          set_players (updatePlayer (p_id player) (set_hand hand') (players g)) g) ;;
        modifyGame (fun g =>
          let t := currentTrick g in
          let cards' := cards t ++ [mkPlayed (p_id player) c] in
          set_currentTrick
            (mkTrick (if len cards' =? 1 then Some (suit c) else leadingSuit t)
               cards' (trickWinnerId t)) g) ;;
        modifyGame (fun g =>
          if Suit_beq (suit c) Hearts && negb (heartsBroken g)
          then set_heartsBroken true g else g) ;;
        (* the [if (isQueenOfSpades(card) && ...)] that follows in the source
           has a body of comments only *)
        g <- getGame ;;
        if len (cards (currentTrick g)) =? len (players g) then
          broadcastGameState ;;
          endTrick
        else
          modifyGame (fun g =>
            set_currentPlayerIndex
              (Z.rem (currentPlayerIndex g + 1) (len (players g))) g) ;;
          broadcastGameState ;;
          notifyCurrentPlayerTurn
    end.

Definition tryCatch (m : M unit) (handler : string -> M unit) : M unit :=
  fun w => match m w with
           | Ret a w' => Ret a w'
           | Throw e w' => handler e w'
           end.

Definition handleMessage (pid : string) (message : ClientMessage) (w : World) : World :=
  match getPlayer pid (players (game w)) with
  | None => w
  | Some player =>
      final
        (tryCatch
           (match message with
            | SelectCardsToPass cs =>
                g <- getGame ;;
                if GamePhase_beq (phase g) Passing && String.eqb pid (p_id player)
                then handlePassCards player cs
                else throw "Cannot pass cards at this time."%string
            | PlayCard c =>
                g <- getGame ;;
                if GamePhase_beq (phase g) PlayingTrick
                   && match getCurrentPlayerId g with
                      | Some cur => String.eqb cur pid
                      | None => false
                      end
                then handlePlayCard player c
                else throw "Not your turn or not in playing phase."%string
            | OtherMessage => ret tt
            end)
           (fun e => sendError pid e)
           w)
  end.

Definition addPlayer (pid playerName : string) (rnd : nat -> nat) : M (option Player) :=
  g <- getGame ;;
  if len (players g) >=? MAX_PLAYERS then ret None
  else if negb (GamePhase_beq (phase g) WaitingForPlayers) then ret None
  else
    let player := newPlayer pid playerName in
    modifyGame (fun g => set_players (mapSet pid player p_id (players g)) g) ;;
    modifyGame (fun g => set_playerOrder (playerOrder g ++ [pid]) g) ;;
    sendToPlayer pid (GameJoined pid) ;;
    broadcastGameState ;;
    g <- getGame ;;
    (if len (players g) =? MAX_PLAYERS then startNewRound rnd else ret tt) ;;
    (* [return player]: the object is the one stored in the map, so the
       caller receives it as a round that was just started has left it *)
    g <- getGame ;;
    ret (Some (match getPlayer pid (players g) with
               | Some seated => seated
               | None => player
               end)).

(** The [Player] object a callback captured under [id]: the object of the
    player map while the player is in the game, and the deleted object
    once the player has left. *)
Definition heldPlayer (id : string) (w : World) : option Player :=
  match getPlayer id (players (game w)) with
  | Some p => Some p
  | None => getPlayer id (departed w)
  end.

Definition capturedPlayer (id : string) : M (option Player) :=
  fun w => Ret (heldPlayer id w) w.

(** The body of the callback each timer runs. The callback of [endTrick]
    reads [winningPlayer], the object it captured; [endTrick] can only set
    the timer for a player of the map, so the object is in the map or among
    the deleted ones, and the case [None] stands for no run of the code. *)
Definition timerBody (t : Timer) (rnd : nat -> nat) : M unit :=
  match t with
  | NextTrickTimer winnerId =>
      captured <- capturedPlayer winnerId ;;
      match captured with
      | None => throw typeError
      | Some winningPlayer =>
          if len (hand winningPlayer) =? 0 then endRound
          else
            modifyGame (set_phase PlayingTrick) ;;
            modifyGame (fun g =>
              set_currentPlayerIndex (indexOf String.eqb winnerId (playerOrder g)) g) ;;
            modifyGame (set_currentTrick createEmptyTrick) ;;
            broadcastGameState ;;
            notifyCurrentPlayerTurn
      end
  | NextRoundTimer gameOver =>
      if gameOver then endGame "Score limit reached."%string
      else startNewRound rnd
  end.

(** The oldest pending timer expires. *)
Definition fireTimer (rnd : nat -> nat) (w : World) : World :=
  match timers w with
  | [] => w
  | t :: rest => final (timerBody t rnd (mkWorld (game w) (outbox w) rest (departed w)))
  end.

(** ** Runs of a session *)

Inductive Event : Type :=
  | Join (pid name : string) (rnd : nat -> nat)
  | Message (pid : string) (m : ClientMessage)
  | TimerFires (rnd : nat -> nat).

Definition step (ev : Event) (w : World) : World :=
  match ev with
  | Join pid name rnd => final (addPlayer pid name rnd w)
  | Message pid m => handleMessage pid m w
  | TimerFires rnd => fireTimer rnd w
  end.

Definition run (evs : list Event) (w : World) : World :=
  fold_left (fun w ev => step ev w) evs w.


(** ** Vocabulary of the statements *)

Scheme Equality for Card.

(** A trick entry as the pair the resolver returns. *)
Definition entry (e : PlayedCard) : string * Card := (playerId e, card e).

(** The rank order of the specification, [2 < 3 < ... < 10 < J < Q < K < A],
    written out as the value of each rank; it is not derived from the enum
    order the code compares by. *)
Definition rankValue (r : Rank) : Z :=
  match r with
  | Two => 2 | Three => 3 | Four => 4 | Five => 5 | Six => 6 | Seven => 7
  | Eight => 8 | Nine => 9 | Ten => 10 | Jack => 11 | Queen => 12 | King => 13
  | Ace => 14
  end.

(** The resolution rule in the words of the specification: a later entry
    takes over when its card is of the leading suit and strictly outranks,
    in the rank order of the specification, the card that is winning so
    far. *)
Definition beats (ls : Suit) (win : string * Card) (e : PlayedCard) : bool :=
  Suit_beq (suit (card e)) ls
  && (rankValue (rank (card e)) >? rankValue (rank (snd win))).

Definition challenge (ls : Suit) (win : string * Card) (e : PlayedCard) : string * Card :=
  if beats ls win e then entry e else win.

(** ** Sample data *)

(** The trick of the acceptance scenario: Nine of Clubs led, then King of
    Clubs, Two of Diamonds and Ace of Clubs. *)
Definition fourClubsTrick : Trick :=
  mkTrick (Some Clubs)
    [mkPlayed "A" (mkCard Clubs Nine); mkPlayed "B" (mkCard Clubs King);
     mkPlayed "C" (mkCard Diamonds Two); mkPlayed "D" (mkCard Clubs Ace)]
    None.


(** ** Closed forms of the communication helpers *)

Definition hasPlayer (id : string) (ps : list Player) : Prop := In id (map p_id ps).

(** Every id of the seating order is a key of the player map. *)
Definition idsOk (g : Game) : Prop :=
  forall id, In id (playerOrder g) -> hasPlayer id (players g).

(** What [getAllPlayerInfo] returns. *)
Definition publicInfo (g : Game) : list PlayerInfo :=
  flat_map (fun id => match getPlayer id (players g) with
                      | Some p => [getPlayerInfo p]
                      | None => []
                      end)
           (playerOrder g).

(** What [getGameStateForPlayer] returns for the player object [player]. *)
Definition stateFor (g : Game) (player : Player) : GameState :=
  mkGameState (publicInfo g) (getCurrentPlayerId g) (phase g) (roundNumber g)
    (passingDirection g)
    (mkTrick (leadingSuit (currentTrick g)) (cards (currentTrick g)) None)
    (heartsBroken g) (hand player) (cardsToPass player).

Definition stateUpdatesFor (g : Game) (ps : list Player) : list Outgoing :=
  flat_map (fun p => match getPlayer (p_id p) (players g) with
                     | Some q => [SendToPlayer (p_id p) (GameStateUpdate (stateFor g q))]
                     | None => []
                     end)
           ps.

(** What [broadcastGameState] sends. *)
Definition stateUpdates (g : Game) : list Outgoing := stateUpdatesFor g (players g).

(** What [notifyCurrentPlayerTurn] sends. *)
Definition turnNotice (g : Game) : list Outgoing :=
  match getCurrentPlayerId g with
  | Some cur =>
      if negb (String.eqb cur "") && GamePhase_beq (phase g) PlayingTrick then
        match getPlayer cur (players g) with
        | Some player => [SendToPlayer cur (YourTurn (calculateValidMoves g player))]
        | None => []
        end
      else []
  | None => []
  end.

Definition addOut (outs : list Outgoing) (w : World) : World :=
  mkWorld (game w) (outbox w ++ outs) (timers w) (departed w).

Definition withGame (g : Game) (w : World) : World :=
  mkWorld g (outbox w) (timers w) (departed w).

(** ** Frame properties of method bodies *)

(** [keeps R m]: the world [m] ends in, returning or throwing, is related
    by [R] to the world it starts in. *)
Definition keeps {A : Type} (R : World -> World -> Prop) (m : M A) : Prop :=
  forall w, R w (final (m w)).

(** The game is not touched. *)
Definition sameGame (w w' : World) : Prop := game w' = game w.

(** ** Vocabulary of the scoring statements *)



(** The winner field of the game-over notices of an outbox. *)
Definition announcedWinners (out : list Outgoing) : list PlayerInfo :=
  flat_map (fun o => match o with
                     | Broadcast (GameOverMsg (Some info) _ _) => [info]
                     | _ => []
                     end) out.

(** A 26-point round score on two seats. *)
Definition twoMoonsWorld : World :=
  mkWorld
    (mkGame
       [mkPlayer "n" "North" [] 10 26 None None;
        mkPlayer "e" "East" [] 20 26 None None;
        mkPlayer "s" "South" [] 30 0 None None;
        mkPlayer "w" "West" [] 40 0 None None]
       ["n"; "e"; "s"; "w"]%string [] 1 (Some Left) 0
       createEmptyTrick true TrickComplete)
    [] [] [].

(** A finished game in which two seats share the lowest total. *)
Definition tiedWorld : World :=
  mkWorld
    (mkGame
       [mkPlayer "n" "North" [] 100 0 None None;
        mkPlayer "e" "East" [] 50 0 None None;
        mkPlayer "s" "South" [] 50 0 None None;
        mkPlayer "w" "West" [] 70 0 None None]
       ["n"; "e"; "s"; "w"]%string [] 5 (Some Left) 0
       createEmptyTrick true RoundScoring)
    [] [] [].

(** Seat [k] of [ps], holding [p], is the first seat with the lowest total
    score. *)
Definition firstLowest (ps : list Player) (k : nat) (p : Player) : Prop :=
  nth_error ps k = Some p
  /\ (forall q, In q ps -> score p <= score q)
  /\ (forall j q, (j < k)%nat -> nth_error ps j = Some q -> score p < score q).

(** ** Vocabulary of the play statements *)

(** The conditions under which [handleMessage] carries out a [PlayCard]
    command of [pid]: playing phase, [pid]'s turn, and a play that
    [isValidPlay] accepts. *)
Definition playAccepted (g : Game) (pid : string) (c : Card) : bool :=
  GamePhase_beq (phase g) PlayingTrick
  && match getCurrentPlayerId g with
     | Some cur => String.eqb cur pid
     | None => false
     end
  && match getPlayer pid (players g) with
     | Some player => match playVerdict g player c with
                      | None => true
                      | Some _ => false
                      end
     | None => false
     end.

(** Neither the hearts-broken flag nor the entries of the current trick
    are touched. *)
Definition sameTable (w w' : World) : Prop :=
  heartsBroken (game w') = heartsBroken (game w)
  /\ cards (currentTrick (game w')) = cards (currentTrick (game w)).

(** Every card some seat holds. *)
Definition allHands (g : Game) : list Card := flat_map hand (players g).

(** The cards lying in the current trick. *)
Definition trickCards (g : Game) : list Card := map card (cards (currentTrick g)).

(** The cards in pass staging: selected to pass, or received. *)
Definition staged (p : Player) : list Card :=
  match cardsToPass p with Some cs => cs | None => [] end
  ++ match receivedCards p with Some cs => cs | None => [] end.

Definition allStaged (g : Game) : list Card := flat_map staged (players g).

(** Hands, current trick and pass staging together. *)
Definition cardsInPlay (g : Game) : list Card :=
  allHands g ++ trickCards g ++ allStaged g.

(** ** A sample session

    Four participants join; the shuffle oracle [fun i => i] draws [j = i]
    at every step, so the deck is dealt in the order [createDeck] builds
    it. Round 1 passes to the left. *)

Definition noShuffle : nat -> nat := fun i => i.

Definition joins : list Event :=
  [Join "a" "Ann" noShuffle; Join "b" "Bob" noShuffle;
   Join "c" "Cy" noShuffle; Join "d" "Dee" noShuffle]%string.

(** Bob passes his three clubs and is left without any. *)
Definition passes : list Event :=
  [Message "a" (SelectCardsToPass [mkCard Diamonds Five; mkCard Diamonds Nine; mkCard Diamonds King]);
   Message "b" (SelectCardsToPass [mkCard Clubs Five; mkCard Clubs Nine; mkCard Clubs King]);
   Message "c" (SelectCardsToPass [mkCard Diamonds Three; mkCard Diamonds Seven; mkCard Diamonds Jack]);
   Message "d" (SelectCardsToPass [mkCard Diamonds Four; mkCard Diamonds Eight; mkCard Diamonds Queen])]%string.

(** The first three plays of the first trick: Cy leads the Two of Clubs,
    Dee and Ann follow suit. *)
Definition firstPlays : list Event :=
  [Message "c" (PlayCard (mkCard Clubs Two));
   Message "d" (PlayCard (mkCard Clubs Three));
   Message "a" (PlayCard (mkCard Clubs Four))]%string.

(** The state after the deal. *)
Definition dealtWorld : World := run joins newWorld.

(** The state at the opening lead of round 1. *)
Definition openingWorld : World := run passes dealtWorld.

(** The state in which Bob is to play the last card of the first trick. *)
Definition lastToPlayWorld : World := run firstPlays openingWorld.

(** Ann selects the Two of Hearts three times over; the others select
    three different cards each. *)
Definition repeatedPass : Event :=
  Message "a" (SelectCardsToPass [mkCard Hearts Two; mkCard Hearts Two; mkCard Hearts Two]).

Definition passesAfterRepeat : list Event :=
  [Message "b" (SelectCardsToPass [mkCard Clubs Five; mkCard Clubs Nine; mkCard Clubs King]);
   Message "c" (SelectCardsToPass [mkCard Diamonds Three; mkCard Diamonds Seven; mkCard Diamonds Jack]);
   Message "d" (SelectCardsToPass [mkCard Diamonds Four; mkCard Diamonds Eight; mkCard Diamonds Queen])]%string.

(** Error notices in a list of outgoing messages. *)
Definition isErrorOut (o : Outgoing) : bool :=
  match o with
  | SendToPlayer _ (ErrorMsg _) => true
  | Broadcast (ErrorMsg _) => true
  | _ => false
  end.

(** What was sent while going from [w] to [w']. *)
Definition newOutput (w w' : World) : list Outgoing :=
  skipn (List.length (outbox w)) (outbox w').

(** ** Closed forms of the game flow *)

(** The game [startNewRound] leaves behind once the cards are dealt,
    before the phase is set. *)
Definition dealtGame (rnd : nat -> nat) (g : Game) : Game :=
  let g1 := set_roundNumber (roundNumber g + 1) g in
  let g2 := set_heartsBroken false g1 in
  let g3 := set_currentTrick createEmptyTrick g2 in
  let g4 := set_players (map resetForNewRound (players g3)) g3 in
  let g5 := set_passingDirection (Some (getPassingDirection (roundNumber g4))) g4 in
  let g6 := set_deck (shuffleDeck rnd createDeck) g5 in
  set_players
    (map (fun p => set_hand (sortBy compareCards (hand p)) p)
       (dealLoop (playerOrder g6) (deck g6) (players g6)))
    g6.

Definition isHold (d : option PassingDirection) : bool :=
  match d with
  | Some Hold => true
  | _ => false
  end.

(** The game a started round begins with. *)
Definition roundGame (rnd : nat -> nat) (g : Game) : Game :=
  let d := dealtGame rnd g in
  if isHold (passingDirection d) then
    let d1 := set_phase PlayingTrick d in
    set_currentPlayerIndex (findPlayerWithTwoOfClubs d1) d1
  else set_phase Passing d.

(** What [startNewRound] sends. *)
Definition roundOuts (rnd : nat -> nat) (g : Game) : list Outgoing :=
  let r := roundGame rnd g in
  stateUpdates r ++ (if isHold (passingDirection r) then turnNotice r else []).

(** The players of the two games have the same ids in the same order, and
    the seating order is the same. *)
Definition sameIds (g g' : Game) : Prop :=
  map p_id (players g') = map p_id (players g) /\ playerOrder g' = playerOrder g.

(** The game after an accepted [addPlayer], before a round is started. *)
Definition joinedGame (pid name : string) (g : Game) : Game :=
  let g1 := set_players (mapSet pid (newPlayer pid name) p_id (players g)) g in
  set_playerOrder (playerOrder g1 ++ [pid]) g1.

(** The player object [addPlayer] returns, as it is when the call returns. *)
Definition returnedPlayer (pid name : string) (g : Game) : Player :=
  match getPlayer pid (players g) with
  | Some seated => seated
  | None => newPlayer pid name
  end.

(** The validation of [handlePassCards]: the message it throws, or [None]
    when the selection is accepted. *)
Definition passRejection (player : Player) (cs : list Card) : option string :=
  if negb (len cs =? PASS_COUNT) then
    Some "Invalid number of cards selected. Please select 3."%string
  else
    match cardsToPass player with
    | Some _ => Some "You have already selected cards to pass."%string
    | None =>
        if negb (forallb (fun c => existsb (String.eqb (cardKey c))
                                     (map cardKey (hand player))) cs)
        then Some "Invalid card selected or card not in hand."%string
        else None
    end.

(** The game after [handlePassCards] has stored an accepted selection. *)
Definition selectGame (g : Game) (pid : string) (cs : list Card) : Game :=
  set_players
    (updatePlayer pid
       (fun q =>
          set_hand
            (filter (fun handCard =>
                       negb (existsb (fun passCard => sameCard passCard handCard) cs))
                    (hand q))
            (set_cardsToPass (Some cs) q))
       (players g)) g.

Definition allSelected (g : Game) : bool :=
  forallb (fun p => match cardsToPass p with Some _ => true | None => false end)
    (players g).

(** The state update [handlePassCards] sends to the sender. *)
Definition selfUpdate (g : Game) (pid : string) : list Outgoing :=
  match getPlayer pid (players g) with
  | Some q => [SendToPlayer pid (GameStateUpdate (stateFor g q))]
  | None => []
  end.

(** The cards a player has selected to pass. *)
Definition passOf (p : Player) : list Card :=
  match cardsToPass p with
  | Some cs => cs
  | None => []
  end.

(** A player after the pass: the cards of [src] merged into the hand. *)
Definition receive (p : Player) (src : list Card) : Player :=
  set_receivedCards None
    (set_hand (sortBy compareCards (hand p ++ src)) (set_cardsToPass None p)).

(** The four players after the pass in direction [dir]. *)
Definition passedPlayers (dir : PassingDirection) (p0 p1 p2 p3 : Player) : list Player :=
  match dir with
  | Left => [receive p0 (passOf p3); receive p1 (passOf p0);
             receive p2 (passOf p1); receive p3 (passOf p2)]
  | Right => [receive p0 (passOf p1); receive p1 (passOf p2);
              receive p2 (passOf p3); receive p3 (passOf p0)]
  | Across => [receive p0 (passOf p2); receive p1 (passOf p3);
               receive p2 (passOf p0); receive p3 (passOf p1)]
  | Hold => [p0; p1; p2; p3]
  end.

(** The game after [executePassing] at a table of four. *)
Definition passedGame (dir : PassingDirection) (p0 p1 p2 p3 : Player) (g : Game) : Game :=
  let g1 := set_phase PlayingTrick (set_players (passedPlayers dir p0 p1 p2 p3) g) in
  set_currentPlayerIndex (findPlayerWithTwoOfClubs g1) g1.

(** The game after an accepted play has moved the card to the trick. *)
Definition playedGame (g : Game) (pid : string) (c : Card) (hand' : list Card) : Game :=
  let g1 := set_players (updatePlayer pid (set_hand hand') (players g)) g in
  let t := currentTrick g1 in
  let cards' := cards t ++ [mkPlayed pid c] in
  let g2 :=
    set_currentTrick
      (mkTrick (if len cards' =? 1 then Some (suit c) else leadingSuit t)
         cards' (trickWinnerId t)) g1 in
  if Suit_beq (suit c) Hearts && negb (heartsBroken g2)
  then set_heartsBroken true g2 else g2.

(** The turn pointer moved to the next seat. *)
Definition advancedGame (g : Game) : Game :=
  set_currentPlayerIndex (Z.rem (currentPlayerIndex g + 1) (len (players g))) g.

Definition trickPoints (g : Game) : Z :=
  fold_left (fun acc playedCard => acc + getCardValue (card playedCard))
    (cards (currentTrick g)) 0.

(** The game after [endTrick] has credited the winner [wid]. *)
Definition trickDoneGame (g : Game) (wid : string) : Game :=
  let g1 := set_phase TrickComplete g in
  let g2 :=
    set_currentTrick
      (mkTrick (leadingSuit (currentTrick g1)) (cards (currentTrick g1)) (Some wid)) g1 in
  set_players
    (updatePlayer wid (fun q => set_roundScore (roundScore q + trickPoints g2) q)
       (players g2)) g2.

(** The game after [endRound]. *)
Definition scoredGame (g : Game) : Game :=
  let g1 := set_phase RoundScoring g in
  set_players (applyRoundScores (players g1)) g1.

(** The game in which the winner [wid] leads a fresh trick. *)
Definition nextTrickGame (g : Game) (wid : string) : Game :=
  let g1 := set_phase PlayingTrick g in
  set_currentTrick createEmptyTrick
    (set_currentPlayerIndex (indexOf String.eqb wid (playerOrder g1)) g1).

(** ** Well-formed worlds *)

Definition started (g : Game) : Prop := phase g <> WaitingForPlayers.

Record wf (w : World) : Prop := mkWf {
  wf_order : playerOrder (game w) = map p_id (players (game w));
  wf_nodup : NoDup (playerOrder (game w));
  wf_four : started (game w) -> List.length (players (game w)) = 4%nat;
  wf_lead : cards (currentTrick (game w)) <> [] ->
            leadingSuit (currentTrick (game w)) <> None;
  wf_trick : forall e, In e (cards (currentTrick (game w))) ->
                       hasPlayer (playerId e) (players (game w));
  wf_timer : forall id, In (NextTrickTimer id) (timers w) ->
                        hasPlayer id (players (game w));
  wf_pending : timers w <> [] -> started (game w)
}.

(** The command [m] of participant [player] is turned down: the reason
    sent back, or [None] when the command is carried out. *)
Definition rejection (g : Game) (player : Player) (m : ClientMessage) : option string :=
  match m with
  | SelectCardsToPass cs =>
      if GamePhase_beq (phase g) Passing
      then passRejection player cs
      else Some "Cannot pass cards at this time."%string
  | PlayCard c =>
      if GamePhase_beq (phase g) PlayingTrick
         && match getCurrentPlayerId g with
            | Some cur => String.eqb cur (p_id player)
            | None => false
            end
      then playVerdict g player c
      else Some "Not your turn or not in playing phase."%string
  | OtherMessage => None
  end.

(** What [executePassing] sends at a table of four. *)
Definition passOuts (dir : PassingDirection) (p0 p1 p2 p3 : Player) (g : Game)
    : list Outgoing :=
  map (fun p => SendToPlayer (p_id p) (CardsPassed None)) [p0; p1; p2; p3]
  ++ stateUpdates (passedGame dir p0 p1 p2 p3 g)
  ++ turnNotice (passedGame dir p0 p1 p2 p3 g).

(** ** Outcomes of the events

    What each event leaves behind in a well-formed world, case by case;
    [outs] stands for the notices sent, none of which is an error. *)

Definition noErr (outs : list Outgoing) : Prop := existsb isErrorOut outs = false.

Inductive msgOutcome (w : World) (pid : string) (player : Player)
    : ClientMessage -> World -> Prop :=
  | out_other : msgOutcome w pid player OtherMessage w
  | out_selected (cs : list Card) (outs : list Outgoing) :
      passRejection player cs = None -> noErr outs ->
      msgOutcome w pid player (SelectCardsToPass cs)
        (mkWorld (selectGame (game w) pid cs) (outbox w ++ outs) (timers w) (departed w))
  | out_passed (cs : list Card) (dir : PassingDirection) (p0 p1 p2 p3 : Player)
      (outs : list Outgoing) :
      passRejection player cs = None ->
      players (selectGame (game w) pid cs) = [p0; p1; p2; p3] ->
      dir <> Hold -> noErr outs ->
      msgOutcome w pid player (SelectCardsToPass cs)
        (mkWorld (passedGame dir p0 p1 p2 p3 (selectGame (game w) pid cs))
           (outbox w ++ outs) (timers w) (departed w))
  | out_played (c : Card) (h' : list Card) (outs : list Outgoing) :
      playVerdict (game w) player c = None ->
      removeFirst c (hand player) = Some h' -> noErr outs ->
      msgOutcome w pid player (PlayCard c)
        (mkWorld (advancedGame (playedGame (game w) pid c h'))
           (outbox w ++ outs) (timers w) (departed w))
  | out_trick (c : Card) (h' : list Card) (wid : string) (outs : list Outgoing) :
      playVerdict (game w) player c = None ->
      removeFirst c (hand player) = Some h' ->
      hasPlayer wid (players (game w)) -> noErr outs ->
      msgOutcome w pid player (PlayCard c)
        (mkWorld (trickDoneGame (playedGame (game w) pid c h') wid)
           (outbox w ++ outs) (timers w ++ [NextTrickTimer wid]) (departed w)).

Inductive timerOutcome (w : World) (rnd : nat -> nat) : World -> Prop :=
  | tout_idle : timers w = [] -> timerOutcome w rnd w
  | tout_round_end (wid : string) (wp : Player) (rest : list Timer)
      (outs : list Outgoing) (gameOver : bool) :
      timers w = NextTrickTimer wid :: rest ->
      getPlayer wid (players (game w)) = Some wp -> hand wp = [] -> noErr outs ->
      timerOutcome w rnd
        (mkWorld (scoredGame (game w)) (outbox w ++ outs)
           (rest ++ [NextRoundTimer gameOver]) (departed w))
  | tout_next_trick (wid : string) (wp : Player) (rest : list Timer)
      (outs : list Outgoing) :
      timers w = NextTrickTimer wid :: rest ->
      getPlayer wid (players (game w)) = Some wp -> hand wp <> [] -> noErr outs ->
      timerOutcome w rnd
        (mkWorld (nextTrickGame (game w) wid) (outbox w ++ outs) rest (departed w))
  | tout_game_over (rest : list Timer) (outs : list Outgoing) :
      timers w = NextRoundTimer true :: rest -> noErr outs ->
      timerOutcome w rnd
        (mkWorld (set_phase GameOver (game w)) (outbox w ++ outs) rest (departed w))
  | tout_new_round (rest : list Timer) (outs : list Outgoing) :
      timers w = NextRoundTimer false :: rest -> noErr outs ->
      timerOutcome w rnd
        (mkWorld (roundGame rnd (game w)) (outbox w ++ outs) rest (departed w)).

Inductive joinOutcome (w : World) (pid name : string) (rnd : nat -> nat)
    : World -> Prop :=
  | jout_refused :
      (len (players (game w)) >=? MAX_PLAYERS) = true
      \/ phase (game w) <> WaitingForPlayers ->
      joinOutcome w pid name rnd w
  | jout_seated (outs : list Outgoing) :
      phase (game w) = WaitingForPlayers ->
      List.length (players (joinedGame pid name (game w))) <> 4%nat -> noErr outs ->
      joinOutcome w pid name rnd
        (mkWorld (joinedGame pid name (game w)) (outbox w ++ outs) (timers w) (departed w))
  | jout_started (outs : list Outgoing) :
      phase (game w) = WaitingForPlayers ->
      List.length (players (joinedGame pid name (game w))) = 4%nat -> noErr outs ->
      joinOutcome w pid name rnd
        (mkWorld (roundGame rnd (joinedGame pid name (game w)))
           (outbox w ++ outs) (timers w) (departed w)).

(** ** Reachable worlds

    [reach ok w pile]: the world [w] is reached from a new game by joins of
    participants with fresh ids, by client messages satisfying [ok], and by
    timer expiries; [pile] collects the cards of the tricks of the current
    round that were cleared off the table, which the game keeps nowhere. *)

Definition pileAfterTimer (w : World) (pile : list Card) : list Card :=
  match timers w with
  | NextTrickTimer wid :: _ =>
      match getPlayer wid (players (game w)) with
      | Some wp => if len (hand wp) =? 0 then pile else pile ++ trickCards (game w)
      | None => pile
      end
  | NextRoundTimer false :: _ => []
  | _ => pile
  end.

Inductive reach (ok : ClientMessage -> Prop) : World -> list Card -> Prop :=
  | reach_new : reach ok newWorld []
  | reach_join (w : World) (pile : list Card) (pid name : string) (rnd : nat -> nat) :
      reach ok w pile ->
      ~ In pid (playerOrder (game w)) ->
      reach ok (step (Join pid name rnd) w) pile
  | reach_message (w : World) (pile : list Card) (pid : string) (m : ClientMessage) :
      reach ok w pile ->
      ok m ->
      reach ok (step (Message pid m) w) pile
  | reach_timer (w : World) (pile : list Card) (rnd : nat -> nat) :
      reach ok w pile ->
      reach ok (step (TimerFires rnd) w) (pileAfterTimer w pile).

Definition anyMessage (m : ClientMessage) : Prop := True.

(** Every world a session can be in. *)
Definition reachable (w : World) : Prop := exists pile, reach anyMessage w pile.

(** A pass selection that names no card twice. *)
Definition distinctSelection (m : ClientMessage) : Prop :=
  match m with
  | SelectCardsToPass cs => NoDup cs
  | _ => True
  end.

(** ** Card conservation *)

Record conserved (w : World) (pile : list Card) : Prop := mkConserved {
  cons_cards : started (game w) ->
               Permutation (cardsInPlay (game w) ++ pile) createDeck;
  cons_received : Forall (fun p => receivedCards p = None) (players (game w));
  cons_pile : ~ started (game w) -> pile = []
}.

(** The state after the first trick of the sample session has been
    resolved and cleared off the table. *)
Definition secondTrickWorld : World :=
  run [Message "b" (PlayCard (mkCard Spades Queen)); TimerFires noShuffle]
    lastToPlayWorld.

(** The pile after the events [evs], started from [w] with [pile]. *)
Fixpoint pileAfter (evs : list Event) (w : World) (pile : list Card) : list Card :=
  match evs with
  | [] => pile
  | ev :: rest =>
      pileAfter rest (step ev w)
        match ev with
        | TimerFires _ => pileAfterTimer w pile
        | _ => pile
        end
  end.

(** The events [evs] may follow one another from [w]: every join brings a
    fresh id and every message satisfies [ok]. *)
Fixpoint admissible (ok : ClientMessage -> Prop) (evs : list Event) (w : World) : Prop :=
  match evs with
  | [] => True
  | ev :: rest =>
      match ev with
      | Join pid _ _ => ~ In pid (playerOrder (game w))
      | Message _ m => ok m
      | TimerFires _ => True
      end
      /\ admissible ok rest (step ev w)
  end.

(** The state after Ann's repeated selection, and after the three other
    selections have set the pass off. *)
Definition repeatedSelectionWorld : World := step repeatedPass dealtWorld.

Definition repeatedPassWorld : World := run passesAfterRepeat repeatedSelectionWorld.

(** The cards of the first trick of the sample session. *)
Definition firstTrickPile : list Card :=
  [mkCard Clubs Two; mkCard Clubs Three; mkCard Clubs Four; mkCard Spades Queen].


(** ** game.ts: departures *)

From Stdlib Require Import Sorted.

(** [map.delete(k)] on an insertion-ordered map. *)
Fixpoint mapDelete {V : Type} (k : string) (key : V -> string) (m : list V) : list V :=
  match m with
  | [] => []
  | x :: m' => if String.eqb (key x) k then m' else x :: mapDelete k key m'
  end.

(** The world in which the object [p] has left the player map and is kept
    only by the callbacks that captured it. *)
Definition leaving (p : Player) (w : World) : World :=
  mkWorld (game w) (outbox w) (timers w) (p :: departed w).

(** [this.players.delete(id)]: the object stored under [id] leaves the
    map. *)
Definition deletePlayer (pid : string) : M unit :=
  fun w =>
    match getPlayer pid (players (game w)) with
    | Some p =>
        Ret tt (leaving p
                  (mkWorld (set_players (mapDelete pid p_id (players (game w))) (game w))
                     (outbox w) (timers w) (departed w)))
    | None => Ret tt w
    end.

(** [removePlayer]. *)
Definition removePlayer (pid : string) : M unit :=
  g <- getGame ;;
  match getPlayer pid (players g) with
  | None => ret tt
  | Some player =>
      deletePlayer pid ;;
      modifyGame (fun g =>
        set_playerOrder
          (filter (fun id => negb (String.eqb id pid)) (playerOrder g)) g) ;;
      g <- getGame ;;
      if negb (GamePhase_beq (phase g) WaitingForPlayers)
         && negb (GamePhase_beq (phase g) GameOver)
      then endGame (String.append "Player "
                      (String.append (p_name player) " left the game."))
      else if GamePhase_beq (phase g) WaitingForPlayers then broadcastGameState
      else ret tt
  end.

(** ** Vocabulary of the further statements *)

(** The points of a list of cards, added up as [endTrick] adds them. *)
Definition points (l : list Card) : Z :=
  fold_left (fun acc c => acc + getCardValue c) l 0.

(** Ascending in the order of [compareCards]. *)
Definition ascending (l : list Card) : Prop :=
  StronglySorted (fun a b => compareCards a b <= 0) l.

(** The test of [findPlayerWithTwoOfClubs] on the seat [id]:
    [player?.hand.some(c => c.rank === Rank.Two && c.suit === Suit.Clubs)]. *)
Definition holdsTwoOfClubs (g : Game) (id : string) : bool :=
  match getPlayer id (players g) with
  | Some p => existsb isTwoOfClubs (hand p)
  | None => false
  end.

(** The directions in the order the rounds go through them. *)
Definition directionCycle : list PassingDirection := [Left; Right; Across; Hold].

(** The position of a suit in the [suitOrder] of [compareCards]. *)
Definition suitIndex (s : Suit) : Z := indexOf Suit_beq s suitOrder.

(** The number of cards that seat [k] gets when [n] cards are dealt one
    by one, the first of them to the seat with index [i] modulo 4. *)
Fixpoint share (k : nat) (i : Z) (n : nat) : nat :=
  match n with
  | O => O
  | S n' =>
      Nat.add (if Z.rem i MAX_PLAYERS =? Z.of_nat k then 1%nat else 0%nat)
        (share k (i + 1) n')
  end.

(** What a deal leaves a seat with, given the total score it had. *)
Definition freshlyDealt (total : Z) (p : Player) : Prop :=
  List.length (hand p) = 13%nat
  /\ ascending (hand p)
  /\ score p = total
  /\ roundScore p = 0
  /\ cardsToPass p = None
  /\ receivedCards p = None.

(** A seat during the passing phase: thirteen cards and no selection yet,
    or a selection of three cards and the ten other cards in the hand. *)
Definition seatInPassing (p : Player) : Prop :=
  (cardsToPass p = None /\ List.length (hand p) = 13%nat)
  \/ (exists cs, cardsToPass p = Some cs /\ List.length cs = 3%nat
                 /\ List.length (hand p) = 10%nat).

(** What holds of every state in the passing phase that a session reaches. *)
Definition passingInv (w : World) (pile : list Card) : Prop :=
  phase (game w) = Passing ->
  (exists dir, passingDirection (game w) = Some dir /\ dir <> Hold)
  /\ cards (currentTrick (game w)) = []
  /\ pile = []
  /\ Forall seatInPassing (players (game w)).

(** The sample session with the selections of Ann, Bob and Cy made and
    Dee's still to come. *)
Definition threeSelectedWorld : World := run (removelast passes) dealtWorld.

Definition lastSelection : list Card :=
  [mkCard Diamonds Four; mkCard Diamonds Eight; mkCard Diamonds Queen].

(** The game after the player [pid] has been taken out of the map and of
    the seating order. *)
Definition departedGame (pid : string) (g : Game) : Game :=
  set_playerOrder (filter (fun id => negb (String.eqb id pid)) (playerOrder g))
    (set_players (mapDelete pid p_id (players g)) g).

(** The reason [removePlayer] gives for ending the game. *)
Definition leftReason (player : Player) : string :=
  String.append "Player " (String.append (p_name player) " left the game.").

(** A game in progress: neither waiting for players nor over. *)
Definition inProgress (g : Game) : bool :=
  negb (GamePhase_beq (phase g) WaitingForPlayers)
  && negb (GamePhase_beq (phase g) GameOver).

(** Cy at the opening lead of the sample session. *)
Definition cyAtOpening : Player :=
  mkPlayer "c" "Cy"
    [mkCard Clubs Two; mkCard Clubs Five; mkCard Clubs Six; mkCard Clubs Nine;
     mkCard Clubs Ten; mkCard Clubs King; mkCard Clubs Ace;
     mkCard Spades Five; mkCard Spades Nine; mkCard Spades King;
     mkCard Hearts Four; mkCard Hearts Eight; mkCard Hearts Queen]
    0 0 None None.

(** Bob when he is to play the last card of the first trick. *)
Definition bobLastToPlay : Player :=
  mkPlayer "b" "Bob"
    [mkCard Diamonds Two; mkCard Diamonds Five; mkCard Diamonds Six;
     mkCard Diamonds Nine; mkCard Diamonds Ten; mkCard Diamonds King;
     mkCard Diamonds Ace; mkCard Spades Four; mkCard Spades Eight;
     mkCard Spades Queen; mkCard Hearts Three; mkCard Hearts Seven;
     mkCard Hearts Jack]
    0 0 None None.

(** The state of the sample session once Bob has played the Queen of
    Spades to the first trick. *)
Definition firstTrickDoneWorld : World :=
  handleMessage "b" (PlayCard (mkCard Spades Queen)) lastToPlayWorld.

(** Ann after the first trick of the sample session, which she has won. *)
Definition annAfterFirstTrick : Player :=
  mkPlayer "a" "Ann"
    [mkCard Clubs Eight; mkCard Clubs Queen; mkCard Diamonds Four;
     mkCard Diamonds Eight; mkCard Diamonds Queen; mkCard Spades Three;
     mkCard Spades Seven; mkCard Spades Jack; mkCard Hearts Two;
     mkCard Hearts Six; mkCard Hearts Ten; mkCard Hearts Ace]
    0 13 None None.

(** The end of a round: the last trick has been resolved, all hands are
    empty and the timer of the trick is pending. *)
Definition roundEndWorld : World :=
  mkWorld (game twoMoonsWorld) [] [NextTrickTimer "n"] [].

(** How many seats further, in seating order, the cards of a seat go. *)
Definition passOffset (dir : PassingDirection) : nat :=
  match dir with
  | Left => 1
  | Right => 3
  | Across => 2
  | Hold => 0
  end.

(** The pending timers against the phase: no timer outside the phases
    trick-complete and round-scoring, and in these the one timer that
    [endTrick], respectively [endRound], has set. *)
Definition timerInv (w : World) : Prop :=
  match timers w with
  | [] => phase (game w) <> TrickComplete /\ phase (game w) <> RoundScoring
  | [NextTrickTimer wid] => phase (game w) = TrickComplete
  | [NextRoundTimer _] => phase (game w) = RoundScoring
  | _ => False
  end.

(** The phases the game code assigns. *)
Definition assignedPhase (p : GamePhase) : bool :=
  match p with
  | PassingComplete | RoundOver => false
  | _ => true
  end.

Definition sumRoundScores (ps : list Player) : Z :=
  fold_right (fun p acc => roundScore p + acc) 0 ps.

(** The current trick has been resolved and its points credited. *)
Definition trickResolved (g : Game) : bool :=
  match phase g with
  | TrickComplete | RoundScoring | GameOver => true
  | _ => false
  end.

(** The round scores are the points of the tricks taken in the round. *)
Definition takenInv (w : World) (pile : list Card) : Prop :=
  started (game w) ->
  sumRoundScores (players (game w))
  = points pile + (if trickResolved (game w) then points (trickCards (game w)) else 0).

(** What a method call answers: the value it returns or the message of
    the error it throws. *)
Definition answer {A : Type} (r : Res A) : string + A :=
  match r with
  | Ret a _ => inr a
  | Throw e _ => inl e
  end.

(** The game with every player object replaced by its image under [f]. *)
Definition mapPlayers (f : Player -> Player) (w : World) : World :=
  withGame (set_players (map f (players (game w))) (game w)) w.

(** Ann after the deal of round 1 of the sample session. *)
Definition annAtDeal : Player :=
  mkPlayer "a" "Ann"
    [mkCard Clubs Four; mkCard Clubs Eight; mkCard Clubs Queen;
     mkCard Diamonds Five; mkCard Diamonds Nine; mkCard Diamonds King;
     mkCard Spades Three; mkCard Spades Seven; mkCard Spades Jack;
     mkCard Hearts Two; mkCard Hearts Six; mkCard Hearts Ten; mkCard Hearts Ace]
    0 0 None None.

Definition annSelection : list Card :=
  [mkCard Diamonds Five; mkCard Diamonds Nine; mkCard Diamonds King].

(** The game while it waits for players: no round was started, the table
    is not full, nobody has a score and no trick was cleared. *)
Definition lobbyInv (g : Game) (pile : list Card) : Prop :=
  phase g = WaitingForPlayers ->
  roundNumber g = 0
  /\ (List.length (players g) < 4)%nat
  /\ Forall (fun p => score p = 0) (players g)
  /\ pile = [].

(** The sample session when three players are seated. *)
Definition threeSeatedWorld : World := run (removelast joins) newWorld.

(** Whether the player [id] has a card in the current trick. *)
Definition hasPlayed (g : Game) (id : string) : bool :=
  existsb (fun e => String.eqb (playerId e) id) (cards (currentTrick g)).

(** The seats read round the table, starting at the seat [lead]. *)
Definition seatsFrom {A : Type} (lead : nat) (l : list A) : list A :=
  skipn lead l ++ firstn lead l.

(** A trick in progress, with [n] cards in every hand at its start: the
    cards in the trick were played by consecutive seats, the turn is at the
    seat after them, and exactly the hands of those who played are one card
    short. *)
Definition inTrick (g : Game) (n : nat) : Prop :=
  (1 <= n)%nat
  /\ (List.length (cards (currentTrick g)) < 4)%nat
  /\ (exists lead,
        (lead < 4)%nat
        /\ map playerId (cards (currentTrick g))
           = firstn (List.length (cards (currentTrick g))) (seatsFrom lead (playerOrder g))
        /\ currentPlayerIndex g
           = Z.of_nat ((lead + List.length (cards (currentTrick g))) mod 4))
  /\ Forall (fun p => List.length (hand p)
                      = if hasPlayed g (p_id p) then (n - 1)%nat else n)
       (players g).

(** A complete trick on the table, with [n] cards left in every hand. *)
Definition trickFull (g : Game) (n : nat) : Prop :=
  List.length (cards (currentTrick g)) = 4%nat
  /\ Permutation (map playerId (cards (currentTrick g))) (playerOrder g)
  /\ Forall (fun p => List.length (hand p) = n) (players g).

(** Hands, trick and the pile of cleared tricks, phase by phase. *)
Definition levelInv (w : World) (pile : list Card) : Prop :=
  (phase (game w) = PlayingTrick ->
   exists n, inTrick (game w) n /\ (List.length pile + 4 * n = 52)%nat)
  /\ (phase (game w) = TrickComplete ->
      exists n, trickFull (game w) n /\ (List.length pile + 4 * n + 4 = 52)%nat)
  /\ (phase (game w) = RoundScoring ->
      trickFull (game w) 0 /\ List.length pile = 48%nat).

(** A card of the suit hearts. *)
Definition isHeart (c : Card) : bool := Suit_beq (suit c) Hearts.

(** The bookkeeping of the table: the hearts-broken flag against the cards
    played in the round, and the leading suit against the first card of
    the trick. *)
Definition tableInv (g : Game) (pile : list Card) : Prop :=
  heartsBroken g = existsb isHeart (pile ++ map card (cards (currentTrick g)))
  /\ leadingSuit (currentTrick g)
     = option_map (fun e => suit (card e)) (head (cards (currentTrick g))).







(** * Properties *)

(** ** Enumerations and cards *)

Lemma Suit_beq_eq (a b : Suit) : Suit_beq a b = true <-> a = b.
Proof. destruct a, b; simpl; split; intro H; try reflexivity; discriminate H. Qed.

Lemma Rank_beq_eq (a b : Rank) : Rank_beq a b = true <-> a = b.
Proof. destruct a, b; simpl; split; intro H; try reflexivity; discriminate H. Qed.

Lemma Suit_beq_refl (a : Suit) : Suit_beq a a = true.
Proof. now apply Suit_beq_eq. Qed.

Lemma Rank_beq_refl (a : Rank) : Rank_beq a a = true.
Proof. now apply Rank_beq_eq. Qed.

Lemma sameCard_eq (c d : Card) : sameCard c d = true <-> c = d.
Proof.
  unfold sameCard. rewrite andb_true_iff, Suit_beq_eq, Rank_beq_eq.
  destruct c, d; simpl. split.
  - intros [-> ->]. reflexivity.
  - intros H. injection H as -> ->. split; reflexivity.
Qed.

Lemma sameCard_refl (c : Card) : sameCard c c = true.
Proof. now apply sameCard_eq. Qed.

Lemma len_app {A : Type} (l1 l2 : list A) : len (l1 ++ l2) = len l1 + len l2.
Proof. unfold len. rewrite length_app. lia. Qed.

Lemma len_nonneg {A : Type} (l : list A) : 0 <= len l.
Proof. unfold len. lia. Qed.

Lemma at_app_here {A : Type} (pre : list A) (x : A) (post : list A) :
  at_ (pre ++ x :: post) (len pre) = Some x.
Proof.
  unfold at_, len.
  destruct (Z.ltb_spec (Z.of_nat (List.length pre)) 0) as [E|E]; [lia|].
  rewrite Nat2Z.id, nth_error_app2 by apply Nat.le_refl.
  now rewrite Nat.sub_diag.
Qed.

(** ** The trick resolver *)

(** The position of a rank in [Object.values(Rank)], which the resolver
    compares, against the rank order of the specification. *)
Lemma rankIndex_value (r : Rank) : rankIndex r = rankValue r - 2.
Proof. destruct r; reflexivity. Qed.

Lemma rankIndex_gtb (a b : Rank) :
  (rankIndex a >? rankIndex b) = (rankValue a >? rankValue b).
Proof.
  rewrite !rankIndex_value.
  destruct (Z.gtb_spec (rankValue a - 2) (rankValue b - 2)),
           (Z.gtb_spec (rankValue a) (rankValue b)); try reflexivity; lia.
Qed.

Section Resolver.

Variable ls : Suit.

Let rk (w : string * Card) : Z := rankValue (rank (snd w)).

(** The index loop of the source visits the entries after the first in
    order, applying the rule of the specification to each. *)
Lemma winnerLoop_fold (rest pre : list PlayedCard) (win : string * Card) :
  winnerLoop ls (pre ++ rest) (List.length rest) (len pre) win
  = fold_left (challenge ls) rest win.
Proof.
  revert pre win. induction rest as [|e rest IH]; intros pre win; simpl.
  - reflexivity.
  - rewrite at_app_here, rankIndex_gtb.
    replace (len pre + 1) with (len (pre ++ [e]))
      by (rewrite len_app; reflexivity).
    replace (pre ++ e :: rest) with ((pre ++ [e]) ++ rest)
      by (rewrite <- app_assoc; reflexivity).
    rewrite IH. reflexivity.
Qed.

Lemma challenge_rank (win : string * Card) (e : PlayedCard) :
  rk win <= rk (challenge ls win e).
Proof.
  unfold challenge, beats, rk.
  destruct (Suit_beq (suit (card e)) ls); simpl; [|lia].
  destruct (rankValue (rank (card e)) >? rankValue (rank (snd win))) eqn:E;
    simpl; lia.
Qed.

Lemma fold_challenge_rank (rest : list PlayedCard) (win : string * Card) :
  rk win <= rk (fold_left (challenge ls) rest win).
Proof.
  revert win. induction rest as [|e rest IH]; intros win; simpl; [lia|].
  pose proof (challenge_rank win e). pose proof (IH (challenge ls win e)). lia.
Qed.

(** No entry of the leading suit outranks the final winning card. *)
Lemma fold_challenge_max (rest : list PlayedCard) (win : string * Card) (e : PlayedCard) :
  In e rest -> suit (card e) = ls ->
  rankValue (rank (card e)) <= rk (fold_left (challenge ls) rest win).
Proof.
  revert win. induction rest as [|x rest IH]; intros win Hin Hs; simpl in *; [easy|].
  destruct Hin as [->|Hin].
  - pose proof (fold_challenge_rank rest (challenge ls win e)) as H.
    assert (rankValue (rank (card e)) <= rk (challenge ls win e)); [|lia].
    unfold challenge, beats, rk. rewrite Hs, Suit_beq_refl. simpl.
    destruct (rankValue (rank (card e)) >? rankValue (rank (snd win))) eqn:E;
      simpl; lia.
  - now apply IH.
Qed.

(** The first entry keeps the trick exactly when no later entry of the
    leading suit strictly outranks it. *)
Lemma fold_challenge_keeps (rest : list PlayedCard) (win : string * Card) :
  fold_left (challenge ls) rest win = win <->
  (forall e, In e rest -> suit (card e) = ls ->
             rankValue (rank (card e)) <= rk win).
Proof.
  revert win. induction rest as [|x rest IH]; intros win; simpl.
  - split; [intros _ e []|reflexivity].
  - split.
    + intros Heq e [->|Hin] Hs.
      * pose proof (fold_challenge_max (e :: rest) win e (or_introl eq_refl) Hs) as H.
        simpl in H. rewrite Heq in H. exact H.
      * pose proof (fold_challenge_max (x :: rest) win e (or_intror Hin) Hs) as H.
        simpl in H. rewrite Heq in H. exact H.
    + intros Hall.
      assert (Hx : challenge ls win x = win).
      { unfold challenge, beats.
        destruct (Suit_beq (suit (card x)) ls) eqn:Es; simpl; [|reflexivity].
        apply Suit_beq_eq in Es.
        specialize (Hall x (or_introl eq_refl) Es). unfold rk in Hall.
        destruct (rankValue (rank (card x)) >? rankValue (rank (snd win))) eqn:E;
          [lia|reflexivity]. }
      rewrite Hx. apply IH. intros e Hin Hs. apply Hall; auto.
Qed.

(** Whoever displaced the first entry played the leading suit, and is
    one of the later entries. *)
Lemma fold_challenge_origin (rest : list PlayedCard) (win : string * Card) :
  fold_left (challenge ls) rest win = win \/
  (suit (snd (fold_left (challenge ls) rest win)) = ls /\
   exists e, In e rest /\ fold_left (challenge ls) rest win = entry e).
Proof.
  revert win. induction rest as [|x rest IH]; intros win; simpl; [now left|].
  destruct (IH (challenge ls win x)) as [Heq|[Hs [e [Hin He]]]].
  - rewrite Heq. unfold challenge, beats.
    destruct (Suit_beq (suit (card x)) ls) eqn:Es; simpl; [|now left].
    destruct (rankValue (rank (card x)) >? rankValue (rank (snd win))); [|now left].
    right. split; [now apply Suit_beq_eq in Es|].
    exists x. split; [now left|reflexivity].
  - right. split; [exact Hs|]. exists e. split; [now right|exact He].
Qed.

(** An entry off the leading suit never takes over, whatever its rank. *)
Lemma challenge_off_suit (win : string * Card) (e : PlayedCard) :
  suit (card e) <> ls -> challenge ls win e = win.
Proof.
  intros Hs. unfold challenge, beats.
  destruct (Suit_beq (suit (card e)) ls) eqn:E; [|reflexivity].
  apply Suit_beq_eq in E. contradiction.
Qed.

End Resolver.

(** C4. For a completed trick with leading suit [ls] and entries
    [e0; e1; e2; e3], the resolver returns the result of letting each later
    entry in turn challenge the current winner, starting from the first
    entry: the first entry wins unless a later entry of the leading suit
    strictly outranks the card winning so far, which then takes over; an
    entry off the leading suit never takes over; and the winning card is at
    least as high as every leading-suit card of the trick. Ranks are
    compared in the order of the specification, Two lowest and Ace
    highest. *)
Theorem trick_winner_rule (ls : Suit) (e0 e1 e2 e3 : PlayedCard) (tw : option string) :
  let later := [e1; e2; e3] in
  exists w : string * Card,
    trickWinner (mkTrick (Some ls) (e0 :: later) tw) = inr w /\
    w = fold_left (challenge ls) later (entry e0) /\
    (w = entry e0 <->
     forall e, In e later -> suit (card e) = ls ->
               rankValue (rank (card e)) <= rankValue (rank (card e0))) /\
    (w <> entry e0 ->
     suit (snd w) = ls /\ exists e, In e later /\ w = entry e) /\
    (forall win e, suit (card e) <> ls -> challenge ls win e = win) /\
    (forall e, In e later -> suit (card e) = ls ->
               rankValue (rank (card e)) <= rankValue (rank (snd w))) /\
    rankValue (rank (card e0)) <= rankValue (rank (snd w)).
Proof.
  intros later. exists (fold_left (challenge ls) later (entry e0)).
  split; [|split; [reflexivity|split; [|split; [|split; [|split]]]]].
  - unfold trickWinner. cbn [leadingSuit cards].
    pose proof (winnerLoop_fold ls later [e0] (entry e0)) as H.
    cbn [app] in H. exact (f_equal (@inr string (string * Card)) H).
  - apply (fold_challenge_keeps ls later (entry e0)).
  - intros Hne. destruct (fold_challenge_origin ls later (entry e0)) as [H|H];
      [contradiction|exact H].
  - intros win e. apply challenge_off_suit.
  - intros e. apply fold_challenge_max.
  - apply (fold_challenge_rank ls later (entry e0)).
Qed.

(** C4 at the trick of the acceptance scenario: with Nine of Clubs led,
    then King of Clubs, Two of Diamonds and Ace of Clubs, the seat that
    played the Ace of Clubs wins. *)
Lemma trick_winner_rule_witness :
  trickWinner fourClubsTrick = inr ("D"%string, mkCard Clubs Ace)
  /\ rankValue Nine < rankValue King < rankValue Ace.
Proof.
  pose proof (trick_winner_rule Clubs
                (mkPlayed "A" (mkCard Clubs Nine)) (mkPlayed "B" (mkCard Clubs King))
                (mkPlayed "C" (mkCard Diamonds Two)) (mkPlayed "D" (mkCard Clubs Ace))
                None) as H.
  cbv zeta in H. destruct H as [w [H1 [H2 _]]].
  split; [|split; reflexivity].
  unfold fourClubsTrick. rewrite H1, H2. reflexivity.
Defined.




(** ** The player map *)

Lemma getPlayer_some (id : string) (ps : list Player) (p : Player) :
  getPlayer id ps = Some p -> In p ps /\ p_id p = id.
Proof.
  unfold getPlayer. intros H. apply find_some in H. destruct H as [Hin He].
  apply String.eqb_eq in He. auto.
Qed.

Lemma getPlayer_has (id : string) (ps : list Player) :
  hasPlayer id ps -> exists p, getPlayer id ps = Some p.
Proof.
  unfold hasPlayer, getPlayer. intros H. apply in_map_iff in H.
  destruct H as [p [Hid Hin]].
  destruct (find (fun q => String.eqb (p_id q) id) ps) as [q|] eqn:E.
  - now exists q.
  - exfalso. pose proof (find_none _ _ E p Hin) as Hn. simpl in Hn.
    rewrite Hid, String.eqb_refl in Hn. discriminate.
Qed.

Lemma getPlayer_has_iff (id : string) (ps : list Player) :
  hasPlayer id ps <-> getPlayer id ps <> None.
Proof.
  split.
  - intros H. destruct (getPlayer_has id ps H) as [p Hp]. congruence.
  - intros H. destruct (getPlayer id ps) as [p|] eqn:E; [|congruence].
    apply getPlayer_some in E. destruct E as [Hin Hid].
    unfold hasPlayer. apply in_map_iff. now exists p.
Qed.

Lemma updatePlayer_ids (id : string) (f : Player -> Player) (ps : list Player) :
  (forall p, p_id (f p) = p_id p) ->
  map p_id (updatePlayer id f ps) = map p_id ps.
Proof.
  intros Hf. unfold updatePlayer. rewrite map_map. apply map_ext.
  intros p. destruct (String.eqb (p_id p) id); [apply Hf|reflexivity].
Qed.

(** ** The monad *)

Lemma bind_ret {A B : Type} (m : M A) (k : A -> M B) (w w' : World) (a : A) :
  m w = Ret a w' -> bind m k w = k a w'.
Proof. intros H. unfold bind. now rewrite H. Qed.

Lemma bind_throw {A B : Type} (m : M A) (k : A -> M B) (w w' : World) (e : string) :
  m w = Throw e w' -> bind m k w = Throw e w'.
Proof. intros H. unfold bind. now rewrite H. Qed.

Section Keeps.

Variable R : World -> World -> Prop.
Hypothesis R_refl : forall w, R w w.
Hypothesis R_trans : forall a b c, R a b -> R b c -> R a c.

Lemma keeps_ret {A : Type} (a : A) : keeps R (ret a).
Proof. intros w. apply R_refl. Qed.

Lemma keeps_throw {A : Type} (e : string) : keeps R (@throw A e).
Proof. intros w. apply R_refl. Qed.

Lemma keeps_getGame : keeps R getGame.
Proof. intros w. apply R_refl. Qed.

Lemma keeps_bind {A B : Type} (m : M A) (k : A -> M B) :
  keeps R m -> (forall a, keeps R (k a)) -> keeps R (bind m k).
Proof.
  intros Hm Hk w. unfold bind. specialize (Hm w).
  destruct (m w) as [a w'|e w']; simpl in *.
  - eapply R_trans; [exact Hm|apply Hk].
  - exact Hm.
Qed.

Lemma keeps_forEachM {A : Type} (f : A -> M unit) (l : list A) :
  (forall x, keeps R (f x)) -> keeps R (forEachM f l).
Proof.
  intros Hf. induction l as [|x l IH]; simpl.
  - apply keeps_ret.
  - apply keeps_bind; [apply Hf|intros _; exact IH].
Qed.

Lemma keeps_mapM {A B : Type} (f : A -> M B) (l : list A) :
  (forall x, keeps R (f x)) -> keeps R (mapM f l).
Proof.
  intros Hf. induction l as [|x l IH]; simpl.
  - apply keeps_ret.
  - apply keeps_bind; [apply Hf|intros y].
    apply keeps_bind; [exact IH|intros ys; apply keeps_ret].
Qed.

Lemma keeps_tryCatch (m : M unit) (h : string -> M unit) :
  keeps R m -> (forall e, keeps R (h e)) -> keeps R (tryCatch m h).
Proof.
  intros Hm Hh w. unfold tryCatch. specialize (Hm w).
  destruct (m w) as [a w'|e w']; simpl in *.
  - exact Hm.
  - eapply R_trans; [exact Hm|apply Hh].
Qed.

End Keeps.

Lemma sameGame_refl (w : World) : sameGame w w.
Proof. reflexivity. Qed.

Lemma sameGame_trans (a b c : World) : sameGame a b -> sameGame b c -> sameGame a c.
Proof. unfold sameGame. congruence. Qed.

Ltac keeps_step R_refl R_trans :=
  first
    [ apply (keeps_ret _ R_refl)
    | apply (keeps_throw _ R_refl)
    | apply (keeps_getGame _ R_refl)
    | apply (keeps_bind _ R_trans); [|intros ?]
    | apply (keeps_forEachM _ R_refl R_trans); intros ?
    | apply (keeps_mapM _ R_refl R_trans); intros ?
    | match goal with |- keeps _ (let _ := _ in _) => cbv zeta end
    | match goal with |- keeps _ (match ?x with _ => _ end) => destruct x end
    | match goal with |- keeps _ (if ?x then _ else _) => destruct x end ].

Lemma sameGame_emit (o : Outgoing) : keeps sameGame (emit o).
Proof. intros w. reflexivity. Qed.

Lemma sameGame_setTimeout (t : Timer) : keeps sameGame (setTimeout t).
Proof. intros w. reflexivity. Qed.

Lemma sameGame_getAllPlayerInfo : keeps sameGame getAllPlayerInfo.
Proof.
  unfold getAllPlayerInfo. repeat keeps_step sameGame_refl sameGame_trans.
Qed.

Lemma sameGame_getGameStateForPlayer (pid : string) :
  keeps sameGame (getGameStateForPlayer pid).
Proof.
  unfold getGameStateForPlayer.
  repeat first [apply sameGame_getAllPlayerInfo | keeps_step sameGame_refl sameGame_trans].
Qed.

Lemma sameGame_broadcastGameState : keeps sameGame broadcastGameState.
Proof.
  unfold broadcastGameState, sendToPlayer.
  repeat first [apply sameGame_getGameStateForPlayer | apply sameGame_emit
               | keeps_step sameGame_refl sameGame_trans].
Qed.

Lemma sameGame_notifyCurrentPlayerTurn : keeps sameGame notifyCurrentPlayerTurn.
Proof.
  unfold notifyCurrentPlayerTurn, sendToPlayer.
  repeat first [apply sameGame_emit | keeps_step sameGame_refl sameGame_trans].
Qed.

(** ** Closed forms of the communication helpers *)

Lemma getAllPlayerInfo_eq (w : World) :
  idsOk (game w) -> getAllPlayerInfo w = Ret (publicInfo (game w)) w.
Proof.
  unfold idsOk, getAllPlayerInfo, publicInfo, bind, getGame.
  generalize (playerOrder (game w)) as ids.
  induction ids as [|id ids IH]; intros Hok; simpl.
  - reflexivity.
  - destruct (getPlayer_has id (players (game w))) as [p Hp].
    { apply Hok. now left. }
    rewrite Hp. unfold bind at 1. simpl.
    unfold bind at 1. rewrite IH by (intros i Hi; apply Hok; now right).
    reflexivity.
Qed.

Lemma getGameStateForPlayer_eq (w : World) (pid : string) (p : Player) :
  idsOk (game w) -> getPlayer pid (players (game w)) = Some p ->
  getGameStateForPlayer pid w = Ret (stateFor (game w) p) w.
Proof.
  intros Hok Hp. unfold getGameStateForPlayer, bind, getGame. rewrite Hp.
  rewrite getAllPlayerInfo_eq by exact Hok. reflexivity.
Qed.

Lemma addOut_app (o1 o2 : list Outgoing) (w : World) :
  addOut o2 (addOut o1 w) = addOut (o1 ++ o2) w.
Proof. unfold addOut. simpl. now rewrite app_assoc. Qed.

Lemma addOut_nil (w : World) : addOut [] w = w.
Proof. unfold addOut. rewrite app_nil_r. now destruct w. Qed.

Lemma forEach_stateUpdates (w : World) (l : list Player) :
  idsOk (game w) ->
  (forall p, In p l -> hasPlayer (p_id p) (players (game w))) ->
  forEachM (fun p => state <- getGameStateForPlayer (p_id p) ;;
                     sendToPlayer (p_id p) (GameStateUpdate state)) l w
  = Ret tt (addOut (stateUpdatesFor (game w) l) w).
Proof.
  intros Hok. revert w Hok. induction l as [|p l IH]; intros w Hok Hl; simpl.
  - unfold ret. now rewrite addOut_nil.
  - destruct (getPlayer_has (p_id p) (players (game w))) as [q Hq].
    { apply Hl. now left. }
    unfold bind at 1. unfold bind at 1.
    rewrite (getGameStateForPlayer_eq w (p_id p) q Hok Hq).
    change (sendToPlayer (p_id p) (GameStateUpdate (stateFor (game w) q)) w)
      with (Ret tt (addOut [SendToPlayer (p_id p) (GameStateUpdate (stateFor (game w) q))] w)).
    cbv iota.
    rewrite IH; [|exact Hok|intros p0 Hp0; apply Hl; now right].
    simpl game. rewrite Hq, addOut_app. reflexivity.
Qed.

Lemma broadcastGameState_eq (w : World) :
  idsOk (game w) ->
  broadcastGameState w = Ret tt (addOut (stateUpdates (game w)) w).
Proof.
  intros Hok. unfold broadcastGameState, bind, getGame.
  apply forEach_stateUpdates; [exact Hok|].
  intros p Hp. unfold hasPlayer. now apply in_map.
Qed.

Lemma at_in {A : Type} (l : list A) (i : Z) (x : A) : at_ l i = Some x -> In x l.
Proof.
  unfold at_. destruct (i <? 0); [discriminate|]. apply nth_error_In.
Qed.

Lemma getCurrentPlayerId_in (g : Game) (cur : string) :
  getCurrentPlayerId g = Some cur -> In cur (playerOrder g).
Proof.
  unfold getCurrentPlayerId.
  destruct ((currentPlayerIndex g <? 0) || (currentPlayerIndex g >=? len (playerOrder g)));
    [discriminate|]. apply at_in.
Qed.

Lemma notifyCurrentPlayerTurn_eq (w : World) :
  idsOk (game w) ->
  notifyCurrentPlayerTurn w = Ret tt (addOut (turnNotice (game w)) w).
Proof.
  intros Hok. unfold notifyCurrentPlayerTurn, turnNotice, bind, getGame.
  destruct (getCurrentPlayerId (game w)) as [cur|] eqn:Ec.
  - destruct (negb (String.eqb cur "") && GamePhase_beq (phase (game w)) PlayingTrick).
    + destruct (getPlayer_has cur (players (game w))) as [p Hp].
      { apply Hok. now apply getCurrentPlayerId_in. }
      rewrite Hp. reflexivity.
    + unfold ret. now rewrite addOut_nil.
  - unfold ret. now rewrite addOut_nil.
Qed.


(** ** Round scoring *)







(** ** Game over *)

Lemma lowest_fold (ps pre : list Player) (k : nat) (p : Player) :
  firstLowest pre k p ->
  exists k' p',
    firstLowest (pre ++ ps) k' p'
    /\ fold_left
         (fun (acc : option Z * option PlayerInfo) q =>
            let info := getPlayerInfo q in
            if match fst acc with
               | None => true
               | Some lowestScore => i_score info <? lowestScore
               end
            then (Some (i_score info), Some info)
            else acc)
         ps (Some (score p), Some (getPlayerInfo p))
       = (Some (score p'), Some (getPlayerInfo p')).
Proof.
  revert pre k p. induction ps as [|x ps IH]; intros pre k p Hfl.
  - exists k, p. rewrite app_nil_r. split; [exact Hfl|reflexivity].
  - destruct Hfl as [Hk [Hmin Hfirst]].
    assert (Hklt : (k < List.length pre)%nat) by (apply nth_error_Some; congruence).
    cbn [fold_left fst getPlayerInfo i_score].
    destruct (Z.ltb_spec (score x) (score p)) as [Hlt|Hge].
    + destruct (IH (pre ++ [x]) (List.length pre) x) as [k' [p' [H1 H2]]].
      { split; [|split].
        - rewrite nth_error_app2 by lia. now rewrite Nat.sub_diag.
        - intros q Hq. apply in_app_or in Hq. destruct Hq as [Hq|[->|[]]]; [|lia].
          specialize (Hmin q Hq). lia.
        - intros j q Hj Hq. rewrite nth_error_app1 in Hq by exact Hj.
          apply nth_error_In in Hq. specialize (Hmin q Hq). lia. }
      exists k', p'. rewrite <- app_assoc in H1. split; [exact H1|exact H2].
    + destruct (IH (pre ++ [x]) k p) as [k' [p' [H1 H2]]].
      { split; [|split].
        - rewrite nth_error_app1 by exact Hklt. exact Hk.
        - intros q Hq. apply in_app_or in Hq. destruct Hq as [Hq|[->|[]]]; [|lia].
          apply Hmin; exact Hq.
        - intros j q Hj Hq. rewrite nth_error_app1 in Hq by lia.
          apply (Hfirst j q Hj Hq). }
      exists k', p'. rewrite <- app_assoc in H1. split; [exact H1|exact H2].
Qed.

Lemma lowestScorer_first (ps : list Player) :
  ps <> [] -> exists k p, firstLowest ps k p /\ lowestScorer ps = Some (getPlayerInfo p).
Proof.
  destruct ps as [|x ps]; [congruence|]. intros _.
  unfold lowestScorer. cbn [fold_left fst].
  destruct (lowest_fold ps [x] 0 x) as [k [p [H1 H2]]].
  - split; [reflexivity|split].
    + intros q [->|[]]. lia.
    + intros j q Hj. lia.
  - exists k, p. split; [exact H1|].
    cbn [getPlayerInfo i_score] in *. rewrite H2. reflexivity.
Qed.

Lemma endGame_eq (reason : string) (w : World) :
  idsOk (game w) ->
  endGame reason w
  = Ret tt
      (addOut [Broadcast (GameOverMsg (lowestScorer (players (game w)))
                            (publicInfo (set_phase GameOver (game w))) reason);
               OnGameEnd]
         (withGame (set_phase GameOver (game w)) w)).
Proof.
  intros Hok. unfold endGame.
  unfold bind at 1. cbn [modifyGame]. unfold bind at 1. cbn [getGame].
  unfold bind at 1. rewrite getAllPlayerInfo_eq by exact Hok.
  unfold bind, broadcast, emit, addOut, withGame. simpl.
  now rewrite <- app_assoc.
Qed.

(** C9, counterexample. East and South both finish on the lowest total, 50;
    the game-over notice names East alone as the winner. *)
Lemma game_over_tie_one_winner :
  announcedWinners (outbox (final (endGame "Score limit reached." tiedWorld)))
  = [mkPlayerInfo "e" "East" 50 0]
  /\ exists p,
       In p (players (game tiedWorld))
       /\ (forall q, In q (players (game tiedWorld)) -> score p <= score q)
       /\ ~ In (getPlayerInfo p)
              (announcedWinners
                 (outbox (final (endGame "Score limit reached." tiedWorld)))).
Proof.
  split; [reflexivity|].
  exists (mkPlayer "s" "South" [] 50 0 None None).
  split; [simpl; tauto|]. split.
  - intros q Hq. simpl in Hq.
    destruct Hq as [<-|[<-|[<-|[<-|[]]]]]; simpl; lia.
  - vm_compute. intros [H|[]]. discriminate H.
Qed.

(** C9, amended. When the game ends, the game-over notice names a single
    winner: the first seat, in seating order, whose total score is the
    minimum over all seats. Seats tied with it further down the seating
    order are not named. *)
Theorem game_over_first_lowest (reason : string) (w : World) :
  idsOk (game w) ->
  players (game w) <> [] ->
  exists k p,
    firstLowest (players (game w)) k p
    /\ exists finalScores,
         outbox (final (endGame reason w))
         = outbox w ++ [Broadcast (GameOverMsg (Some (getPlayerInfo p)) finalScores reason);
                        OnGameEnd]
    /\ announcedWinners (outbox (final (endGame reason w)))
       = announcedWinners (outbox w) ++ [getPlayerInfo p].
Proof.
  intros Hok Hne.
  destruct (lowestScorer_first (players (game w)) Hne) as [k [p [Hfl Hlow]]].
  exists k, p. split; [exact Hfl|].
  rewrite (endGame_eq reason w Hok), Hlow. cbn [final addOut withGame outbox].
  eexists. split; [reflexivity|].
  unfold announcedWinners. rewrite flat_map_app. reflexivity.
Qed.


(** ** Sorting and permutations *)

Lemma insertBy_perm (cmp : Card -> Card -> Z) (x : Card) (l : list Card) :
  Permutation (insertBy cmp x l) (x :: l).
Proof.
  induction l as [|y l IH]; simpl; [reflexivity|].
  destruct (cmp x y <=? 0); [reflexivity|].
  rewrite IH. apply perm_swap.
Qed.

Lemma sortBy_perm (cmp : Card -> Card -> Z) (l : list Card) :
  Permutation (sortBy cmp l) l.
Proof.
  induction l as [|x l IH]; simpl; [reflexivity|].
  rewrite insertBy_perm. now constructor.
Qed.

(** Two lists with the same sorted form have the same cards. *)
Lemma perm_by_sort (l l' : list Card) :
  sortBy compareCards l = sortBy compareCards l' -> Permutation l l'.
Proof.
  intros H. rewrite <- (sortBy_perm compareCards l), H. apply sortBy_perm.
Qed.

Lemma createDeck_NoDup : NoDup createDeck.
Proof.
  apply (NoDup_map_inv
           (fun c => Z.to_nat (indexOf Suit_beq (suit c) Suit_values * 13
                               + rankIndex (rank c)))).
  change (NoDup (seq 0 52)). apply seq_NoDup.
Qed.

Lemma createDeck_all (c : Card) : In c createDeck.
Proof. destruct c as [s r]. destruct s, r; simpl; tauto. Qed.

(** ** The play validator on the first trick *)

(** C1, the code at the failing input. In round 1, before any trick has
    been resolved (all 52 cards are in the hands and the trick, three cards
    lie in the trick), Bob holds cards without points and is void in the
    leading suit; he plays the Queen of Spades. [isFirstTrick] looks at the
    hand of the first seat of the seating order, Ann, who has already
    played, so it answers [false]; the validator accepts the play and the
    Queen of Spades goes into the first trick. *)
Theorem first_trick_points_accepted :
  let g := game lastToPlayWorld in
  let queen := mkCard Spades Queen in
  let w' := handleMessage "b" (PlayCard queen) lastToPlayWorld in
  roundNumber g = 1
  /\ Permutation (cardsInPlay g) createDeck
  /\ List.length (cards (currentTrick g)) = 3%nat
  /\ getCurrentPlayerId g = Some "b"%string
  /\ (getCardValue queen >? 0) = true
  /\ isFirstTrick g = false
  /\ (exists bob,
        getPlayer "b" (players g) = Some bob
        /\ forallb (fun h => getCardValue h >? 0) (hand bob) = false
        /\ playVerdict g bob queen = None)
  /\ map card (cards (currentTrick (game w'))) =
     [mkCard Clubs Two; mkCard Clubs Three; mkCard Clubs Four; queen]
  /\ existsb isErrorOut (newOutput lastToPlayWorld w') = false.
Proof.
  cbv zeta.
  split; [vm_compute; reflexivity|].
  split; [apply perm_by_sort; vm_compute; reflexivity|].
  do 4 (split; [vm_compute; reflexivity|]).
  split.
  - eexists. split; [vm_compute; reflexivity|].
    split; vm_compute; reflexivity.
  - split; vm_compute; reflexivity.
Qed.

(** What the validator does guarantee: whenever [isFirstTrick] answers
    [true], a card with points is rejected unless the whole hand has
    points. *)
Lemma first_trick_points_rejected_when_detected (g : Game) (player : Player) (c : Card) :
  isFirstTrick g = true ->
  (getCardValue c >? 0) = true ->
  forallb (fun h => getCardValue h >? 0) (hand player) = false ->
  playVerdict g player c <> None.
Proof.
  intros Hf Hv Hp. unfold playVerdict. rewrite Hf, Hv, Hp. cbn [andb negb].
  destruct (negb (existsb (fun h => sameCard h c) (hand player))); [discriminate|].
  destruct (len (cards (currentTrick g)) =? 0).
  - destruct c as [s r]. unfold getCardValue in Hv. simpl in *.
    destruct s, r; simpl in *; discriminate.
  - discriminate.
Qed.

(** ** The legal-move enumeration *)

Lemma isTwoOfClubs_eq (c : Card) : isTwoOfClubs c = true <-> c = mkCard Clubs Two.
Proof.
  unfold isTwoOfClubs. rewrite andb_true_iff, Rank_beq_eq, Suit_beq_eq.
  destruct c as [s r]; simpl. split.
  - intros [-> ->]. reflexivity.
  - intros H. injection H as -> ->. auto.
Qed.

Lemma len_zero_nil {A : Type} (l : list A) : (len l =? 0) = true -> l = [].
Proof.
  unfold len. intros H. apply Z.eqb_eq in H. destruct l; [reflexivity|].
  cbn [List.length] in H. lia.
Qed.

Lemma len_pos_nonnil {A : Type} (l : list A) : l <> [] -> (len l >? 0) = true.
Proof.
  unfold len. intros H. destruct l; [congruence|]. cbn [List.length].
  apply Z.gtb_lt. lia.
Qed.

Lemma len_pos_false_nil {A : Type} (l : list A) : (len l >? 0) = false -> l = [].
Proof.
  unfold len. intros H. destruct l; [reflexivity|]. cbn [List.length] in H.
  rewrite Z.gtb_ltb in H. apply Z.ltb_ge in H. lia.
Qed.

(** C2, counterexample. At the opening lead of round 1 (playing phase,
    empty trick) Ann holds thirteen cards, the Two of Clubs not among them,
    and the enumeration returns the empty list for her. *)
Lemma valid_moves_empty_at_opening :
  phase (game openingWorld) = PlayingTrick
  /\ exists ann,
       getPlayer "a" (players (game openingWorld)) = Some ann
       /\ List.length (hand ann) = 13%nat
       /\ calculateValidMoves (game openingWorld) ann = [].
Proof.
  split; [vm_compute; reflexivity|]. eexists. split; [vm_compute; reflexivity|].
  split; vm_compute; reflexivity.
Qed.

(** C2, amended. For a seat with a non-empty hand: at the opening lead (the
    code's first-trick test holds and the trick is empty) the enumeration
    returns the Two of Clubs alone when the seat holds it and the empty list
    when it does not; in every other situation it returns a non-empty list
    of cards of the hand, which is the full hand whenever applying the rules
    card by card leaves nothing. *)
Theorem valid_moves_nonempty_except_opening (g : Game) (player : Player) :
  hand player <> [] ->
  if isFirstTrick g && (len (cards (currentTrick g)) =? 0)
  then
    (In (mkCard Clubs Two) (hand player) ->
     calculateValidMoves g player = [mkCard Clubs Two])
    /\ (~ In (mkCard Clubs Two) (hand player) ->
        calculateValidMoves g player = [])
  else
    calculateValidMoves g player <> []
    /\ incl (calculateValidMoves g player) (hand player)
    /\ (naiveMoves g player = [] -> calculateValidMoves g player = hand player).
Proof.
  intros Hne. unfold calculateValidMoves.
  destruct (isFirstTrick g && (len (cards (currentTrick g)) =? 0)) eqn:Eopen.
  - destruct (find isTwoOfClubs (hand player)) as [c|] eqn:Ef.
    + apply find_some in Ef. destruct Ef as [Hin Hc].
      apply isTwoOfClubs_eq in Hc. subst c. split; [reflexivity|].
      intros Hn. contradiction.
    + split; [|reflexivity]. intros Hin. exfalso.
      pose proof (find_none _ _ Ef _ Hin) as H. simpl in H. discriminate H.
  - destruct (leadingSuit (currentTrick g)) as [ls|] eqn:Els.
    + destruct (existsb (fun c => Suit_beq (suit c) ls) (hand player)) eqn:Efollow;
        cbn [negb].
      * (* the seat can follow suit *)
        destruct (len (naiveMoves g player) =? 0) eqn:En.
        -- rewrite (len_pos_nonnil _ Hne). cbn [andb].
           split; [exact Hne|]. split; [apply incl_refl|]. reflexivity.
        -- cbn [andb]. split; [|split].
           ++ intros H. rewrite H in En. discriminate En.
           ++ unfold naiveMoves. apply incl_filter.
           ++ intros H. rewrite H in En. discriminate En.
      * (* the seat is void in the leading suit *)
        set (nonFollow := filter _ (hand player)).
        assert (Hnaive : naiveMoves g player = [] -> nonFollow = [] \/ nonFollow = hand player).
        { intros Hn. unfold naiveMoves in Hn. rewrite Els, Efollow in Hn.
          destruct (len (cards (currentTrick g)) =? 0) eqn:Elead.
          - rewrite andb_true_r in Eopen. right. subst nonFollow.
            rewrite Eopen. cbn [andb negb].
            clear. induction (hand player) as [|x l IH]; simpl; [reflexivity|].
            now rewrite IH.
          - left. subst nonFollow. rewrite <- Hn. apply filter_ext.
            intros c. cbn [andb negb]. now rewrite !andb_true_r. }
        destruct (len nonFollow >? 0) eqn:Enf.
        -- split; [|split].
           ++ intros H. rewrite H in Enf. discriminate Enf.
           ++ subst nonFollow. apply incl_filter.
           ++ intros Hn. destruct (Hnaive Hn) as [H|H]; [|exact H].
              rewrite H in Enf. discriminate Enf.
        -- split; [exact Hne|]. split; [apply incl_refl|]. reflexivity.
    + destruct (len (naiveMoves g player) =? 0) eqn:En.
      * rewrite (len_pos_nonnil _ Hne). cbn [andb].
        split; [exact Hne|]. split; [apply incl_refl|]. reflexivity.
      * cbn [andb]. split; [|split].
        -- intros H. rewrite H in En. discriminate En.
        -- unfold naiveMoves. apply incl_filter.
        -- intros H. rewrite H in En. discriminate En.
Qed.


(** ** The hearts-broken flag *)

Lemma keeps_weaken {A : Type} (R R' : World -> World -> Prop) (m : M A) :
  (forall w w', R w w' -> R' w w') -> keeps R m -> keeps R' m.
Proof. intros H Hm w. apply H, Hm. Qed.

Lemma keeps_modifyGame (R : World -> World -> Prop) (f : Game -> Game) :
  (forall w, R w (withGame (f (game w)) w)) -> keeps R (modifyGame f).
Proof. intros H w. apply H. Qed.

Lemma sameTable_refl (w : World) : sameTable w w.
Proof. split; reflexivity. Qed.

Lemma sameTable_trans (a b c : World) : sameTable a b -> sameTable b c -> sameTable a c.
Proof. unfold sameTable. intros [H1 H2] [H3 H4]. split; congruence. Qed.

Lemma sameGame_sameTable (w w' : World) : sameGame w w' -> sameTable w w'.
Proof. unfold sameGame, sameTable. intros ->. split; reflexivity. Qed.

Ltac table_keeps :=
  repeat first
    [ apply (keeps_weaken _ _ _ sameGame_sameTable);
      first [ apply sameGame_broadcastGameState
            | apply sameGame_notifyCurrentPlayerTurn
            | apply sameGame_getAllPlayerInfo
            | apply sameGame_emit
            | apply sameGame_setTimeout ]
    | apply keeps_modifyGame; intros ?; split; reflexivity
    | keeps_step sameTable_refl sameTable_trans ].

Lemma sameTable_endTrick : keeps sameTable endTrick.
Proof. unfold endTrick, calculateTrickWinner, broadcast. table_keeps. Qed.

Lemma removeFirst_some (c : Card) (h : list Card) :
  existsb (fun x => sameCard x c) h = true -> exists h', removeFirst c h = Some h'.
Proof.
  induction h as [|x h IH]; simpl; [discriminate|].
  destruct (sameCard x c); simpl.
  - intros _. eexists. reflexivity.
  - intros H. destruct (IH H) as [h' Hh']. rewrite Hh'. eexists. reflexivity.
Qed.

Lemma playVerdict_in_hand (g : Game) (player : Player) (c : Card) :
  playVerdict g player c = None ->
  existsb (fun h => sameCard h c) (hand player) = true.
Proof.
  unfold playVerdict.
  destruct (existsb (fun h => sameCard h c) (hand player)); [reflexivity|].
  discriminate.
Qed.

Lemma tryCatch_sendError_game (m : M unit) (pid : string) (w : World) :
  game (final (tryCatch m (fun e => sendError pid e) w)) = game (final (m w)).
Proof. unfold tryCatch. destruct (m w); reflexivity. Qed.

Lemma orb_hearts (hb hearts : bool) :
  (if hearts && negb hb then true else hb) = hb || hearts.
Proof. destruct hb, hearts; reflexivity. Qed.

(** An accepted play moves the card into the trick and raises the flag
    exactly for a Heart. *)
Lemma handlePlayCard_table (player : Player) (c : Card) (w : World) :
  playVerdict (game w) player c = None ->
  let w' := final (handlePlayCard player c w) in
  heartsBroken (game w') = heartsBroken (game w) || Suit_beq (suit c) Hearts
  /\ cards (currentTrick (game w'))
     = cards (currentTrick (game w)) ++ [mkPlayed (p_id player) c].
Proof.
  intros Hv. cbv zeta.
  remember (final (handlePlayCard player c w)) as w' eqn:Ew.
  unfold handlePlayCard, isValidPlay in Ew.
  unfold bind at 1 in Ew. unfold bind at 1 in Ew. cbn [getGame] in Ew.
  rewrite Hv in Ew. cbn [ret negb] in Ew.
  destruct (removeFirst_some c (hand player) (playVerdict_in_hand _ _ _ Hv)) as [h' Hh'].
  rewrite Hh' in Ew.
  unfold bind at 1 in Ew. cbn [modifyGame] in Ew.
  unfold bind at 1 in Ew. cbn [modifyGame] in Ew.
  unfold bind at 1 in Ew. cbn [modifyGame] in Ew.
  match type of Ew with _ = final (?m ?w1) => assert (H : keeps sameTable m) end.
  { intros w0. unfold bind at 1. cbn [getGame].
    match goal with |- sameTable _ (final (?m' _)) =>
      assert (H' : keeps sameTable m'); [|apply H'] end.
    destruct (len (cards (currentTrick (game w0))) =? len (players (game w0))).
    - apply (keeps_bind _ sameTable_trans); [table_keeps|intros _].
      apply sameTable_endTrick.
    - table_keeps. }
  match type of Ew with _ = final (?m ?w1) => destruct (H w1) as [H1 H2] end.
  rewrite <- Ew in H1, H2. rewrite H1, H2. clear.
  cbn [game heartsBroken currentTrick cards set_currentTrick set_players].
  split.
  - destruct (heartsBroken (game w)) eqn:E1, (Suit_beq (suit c) Hearts) eqn:E2;
      cbn [andb negb orb heartsBroken set_heartsBroken set_currentTrick set_players];
      rewrite ?E1; reflexivity.
  - destruct (Suit_beq (suit c) Hearts && negb (heartsBroken (game w))); reflexivity.
Qed.

(** C10. For every accepted card play, the hearts-broken flag afterwards
    is the flag before or-ed with "the card is a Heart"; the Queen of
    Spades, not being a Heart, leaves the flag as it was. The accepted card
    is the new last entry of the trick. *)
Theorem hearts_broken_after_play (w : World) (pid : string) (c : Card) :
  playAccepted (game w) pid c = true ->
  let w' := handleMessage pid (PlayCard c) w in
  heartsBroken (game w') = heartsBroken (game w) || Suit_beq (suit c) Hearts
  /\ (isQueenOfSpades c = true -> heartsBroken (game w') = heartsBroken (game w))
  /\ cards (currentTrick (game w')) = cards (currentTrick (game w)) ++ [mkPlayed pid c].
Proof.
  unfold playAccepted. intros Hacc. cbv zeta.
  apply andb_true_iff in Hacc. destruct Hacc as [Hacc Hv].
  destruct (getPlayer pid (players (game w))) as [player|] eqn:Ep; [|discriminate Hv].
  destruct (playVerdict (game w) player c) as [msg|] eqn:Ever; [discriminate Hv|].
  assert (Hid : p_id player = pid) by (apply getPlayer_some in Ep; tauto).
  assert (Hg : game (handleMessage pid (PlayCard c) w)
               = game (final (handlePlayCard player c w))).
  { unfold handleMessage. rewrite Ep, tryCatch_sendError_game.
    unfold bind at 1. cbn [getGame]. rewrite Hacc. reflexivity. }
  rewrite Hg.
  destruct (handlePlayCard_table player c w Ever) as [H1 H2].
  rewrite H1, H2, Hid. split; [reflexivity|]. split; [|reflexivity].
  unfold isQueenOfSpades. intros Hq. apply andb_true_iff in Hq.
  destruct Hq as [Hs _]. apply Suit_beq_eq in Hs. rewrite Hs. cbn.
  now rewrite orb_false_r.
Qed.


(** ** Identities of the players *)


Lemma sameIds_refl (g : Game) : sameIds g g.
Proof. split; reflexivity. Qed.

Lemma sameIds_trans (a b c : Game) : sameIds a b -> sameIds b c -> sameIds a c.
Proof. unfold sameIds. intros [H1 H2] [H3 H4]. split; congruence. Qed.

Lemma sameIds_hasPlayer (g g' : Game) (id : string) :
  sameIds g g' -> hasPlayer id (players g) -> hasPlayer id (players g').
Proof. unfold sameIds, hasPlayer. intros [H _]. now rewrite H. Qed.

Lemma sameIds_idsOk (g g' : Game) : sameIds g g' -> idsOk g -> idsOk g'.
Proof.
  intros Hs Hok id Hin. destruct Hs as [H1 H2]. rewrite H2 in Hin.
  unfold hasPlayer. rewrite H1. now apply Hok.
Qed.

Lemma sameIds_set_players_update (g : Game) (id : string) (f : Player -> Player) :
  (forall p, p_id (f p) = p_id p) ->
  sameIds g (set_players (updatePlayer id f (players g)) g).
Proof.
  intros Hf. split; [|reflexivity]. cbn [players set_players].
  now apply updatePlayer_ids.
Qed.

Lemma map_ids_ext (f : Player -> Player) (ps : list Player) :
  (forall p, p_id (f p) = p_id p) -> map p_id (map f ps) = map p_id ps.
Proof. intros Hf. rewrite map_map. apply map_ext. exact Hf. Qed.

Lemma dealLoop_ids (order : list string) (d : list Card) (ps : list Player) :
  map p_id (dealLoop order d ps) = map p_id ps.
Proof.
  unfold dealLoop.
  assert (H : forall acc,
    map p_id (snd (fold_left
      (fun (acc : Z * list Player) c =>
         (fst acc + 1,
          match at_ order (Z.rem (fst acc) MAX_PLAYERS) with
          | Some pid => updatePlayer pid (fun p => set_hand (hand p ++ [c]) p) (snd acc)
          | None => snd acc
          end)) d acc)) = map p_id (snd acc)).
  { induction d as [|c d IH]; intros acc; simpl; [reflexivity|].
    rewrite IH. simpl. destruct (at_ order (Z.rem (fst acc) MAX_PLAYERS)); [|reflexivity].
    apply updatePlayer_ids. reflexivity. }
  apply (H (0, ps)).
Qed.

(** The deck and the deal are not computed in what follows. *)
Opaque createDeck shuffleDeck dealLoop sortBy.

Lemma dealtGame_sameIds (rnd : nat -> nat) (g : Game) : sameIds g (dealtGame rnd g).
Proof.
  split; [|reflexivity]. unfold dealtGame. cbn [players set_players].
  rewrite map_ids_ext by reflexivity. rewrite dealLoop_ids.
  cbn [players set_players set_deck set_passingDirection].
  apply map_ids_ext. reflexivity.
Qed.

Lemma roundGame_sameIds (rnd : nat -> nat) (g : Game) : sameIds g (roundGame rnd g).
Proof.
  unfold roundGame. cbv zeta.
  apply (sameIds_trans _ _ _ (dealtGame_sameIds rnd g)).
  generalize (dealtGame rnd g) as d. intros d.
  destruct (isHold (passingDirection d)); split; reflexivity.
Qed.

(** ** Starting a round *)

Lemma startNewRound_skip (rnd : nat -> nat) (w : World) :
  (len (players (game w)) =? MAX_PLAYERS) = false ->
  startNewRound rnd w = Ret tt w.
Proof.
  intros H. unfold startNewRound, bind, getGame. rewrite H. reflexivity.
Qed.

(** Symbolic execution of the primitive steps. *)
Lemma run_modify {B : Type} (f : Game -> Game) (k : unit -> M B) (w : World) :
  bind (modifyGame f) k w = k tt (withGame (f (game w)) w).
Proof. reflexivity. Qed.

Lemma run_get {B : Type} (k : Game -> M B) (w : World) :
  bind getGame k w = k (game w) w.
Proof. reflexivity. Qed.

Lemma run_captured {B : Type} (id : string) (k : option Player -> M B) (w : World) :
  bind (capturedPlayer id) k w
  = k (heldPlayer id w) w.
Proof. reflexivity. Qed.

Lemma run_ret {A B : Type} (a : A) (k : A -> M B) (w : World) :
  bind (ret a) k w = k a w.
Proof. reflexivity. Qed.

Lemma run_emit {B : Type} (o : Outgoing) (k : unit -> M B) (w : World) :
  bind (emit o) k w = k tt (addOut [o] w).
Proof. reflexivity. Qed.

Lemma run_modify_last (f : Game -> Game) (w : World) :
  modifyGame f w = Ret tt (withGame (f (game w)) w).
Proof. reflexivity. Qed.

Lemma run_emit_last (o : Outgoing) (w : World) :
  emit o w = Ret tt (addOut [o] w).
Proof. reflexivity. Qed.

Lemma game_withGame (g : Game) (w : World) : game (withGame g w) = g.
Proof. reflexivity. Qed.

Lemma game_addOut (o : list Outgoing) (w : World) : game (addOut o w) = game w.
Proof. reflexivity. Qed.

Lemma withGame_withGame (g g' : Game) (w : World) :
  withGame g' (withGame g w) = withGame g' w.
Proof. reflexivity. Qed.

Lemma withGame_addOut (g : Game) (o : list Outgoing) (w : World) :
  withGame g (addOut o w) = addOut o (withGame g w).
Proof. reflexivity. Qed.

Lemma run_broadcastGameState {B : Type} (k : unit -> M B) (w : World) :
  idsOk (game w) ->
  bind broadcastGameState k w = k tt (addOut (stateUpdates (game w)) w).
Proof. intros H. unfold bind. now rewrite broadcastGameState_eq. Qed.

Lemma startNewRound_deal (rnd : nat -> nat) (w : World) :
  (len (players (game w)) =? MAX_PLAYERS) = true ->
  startNewRound rnd w
  = match passingDirection (dealtGame rnd (game w)) with
    | Some Hold =>
        modifyGame (set_phase PlayingTrick) ;;
        modifyGame (fun g => set_currentPlayerIndex (findPlayerWithTwoOfClubs g) g) ;;
        broadcastGameState ;;
        notifyCurrentPlayerTurn
    | _ =>
        modifyGame (set_phase Passing) ;;
        broadcastGameState
    end (withGame (dealtGame rnd (game w)) w).
Proof.
  intros H4. unfold startNewRound. rewrite run_get, H4. cbn [negb].
  unfold dealCards.
  rewrite !run_modify, !withGame_withGame, !game_withGame, run_get, !game_withGame.
  reflexivity.
Qed.

Lemma startNewRound_eq (rnd : nat -> nat) (w : World) :
  idsOk (game w) ->
  (len (players (game w)) =? MAX_PLAYERS) = true ->
  startNewRound rnd w
  = Ret tt (addOut (roundOuts rnd (game w)) (withGame (roundGame rnd (game w)) w)).
Proof.
  intros Hok H4.
  assert (Hokd : idsOk (dealtGame rnd (game w)))
    by (eapply sameIds_idsOk; [apply dealtGame_sameIds|exact Hok]).
  rewrite (startNewRound_deal rnd w H4).
  unfold roundOuts, roundGame. cbv zeta.
  generalize dependent (dealtGame rnd (game w)). intros d Hokd.
  assert (Hok1 : idsOk (set_currentPlayerIndex
                           (findPlayerWithTwoOfClubs (set_phase PlayingTrick d))
                           (set_phase PlayingTrick d))) by exact Hokd.
  assert (Hok2 : idsOk (set_phase Passing d)) by exact Hokd.
  destruct (passingDirection d) as [[]|] eqn:Hd; cbn [isHold];
    rewrite !run_modify, ?withGame_withGame, ?game_withGame; cbv beta.
  - rewrite broadcastGameState_eq by exact Hok2. rewrite game_withGame.
    cbn [passingDirection set_phase]. rewrite Hd. cbn [isHold].
    now rewrite app_nil_r.
  - rewrite broadcastGameState_eq by exact Hok2. rewrite game_withGame.
    cbn [passingDirection set_phase]. rewrite Hd. cbn [isHold].
    now rewrite app_nil_r.
  - rewrite broadcastGameState_eq by exact Hok2. rewrite game_withGame.
    cbn [passingDirection set_phase]. rewrite Hd. cbn [isHold].
    now rewrite app_nil_r.
  - rewrite run_broadcastGameState by exact Hok1.
    rewrite notifyCurrentPlayerTurn_eq by exact Hok1.
    rewrite addOut_app, game_addOut, game_withGame.
    cbn [passingDirection set_currentPlayerIndex set_phase]. rewrite Hd. reflexivity.
  - rewrite broadcastGameState_eq by exact Hok2. rewrite game_withGame.
    cbn [passingDirection set_phase]. rewrite Hd. cbn [isHold].
    now rewrite app_nil_r.
Qed.


(** ** Closed forms of the command handlers *)

Lemma handlePassCards_reject (player : Player) (cs : list Card) (msg : string) (w : World) :
  passRejection player cs = Some msg ->
  handlePassCards player cs w = Throw msg w.
Proof.
  unfold passRejection, handlePassCards. intros H.
  destruct (negb (len cs =? PASS_COUNT)).
  - injection H as <-. reflexivity.
  - destruct (cardsToPass player).
    + injection H as <-. reflexivity.
    + destruct (negb (forallb _ cs)); [|discriminate H].
      injection H as <-. reflexivity.
Qed.

Lemma selectGame_sameIds (g : Game) (pid : string) (cs : list Card) :
  sameIds g (selectGame g pid cs).
Proof. apply sameIds_set_players_update. reflexivity. Qed.

Lemma idsOk_of_order (g : Game) :
  playerOrder g = map p_id (players g) -> idsOk g.
Proof. intros H id Hin. unfold hasPlayer. now rewrite <- H. Qed.

Lemma handlePassCards_accept (player : Player) (cs : list Card) (w : World) :
  passRejection player cs = None ->
  idsOk (game w) ->
  hasPlayer (p_id player) (players (game w)) ->
  let g1 := selectGame (game w) (p_id player) cs in
  let w1 := addOut (selfUpdate g1 (p_id player)) (withGame g1 w) in
  handlePassCards player cs w
  = if allSelected g1 then executePassing w1
    else Ret tt (addOut (stateUpdates g1) w1).
Proof.
  intros Hrej Hok Hhas g1 w1.
  assert (Hok1 : idsOk g1)
    by (eapply sameIds_idsOk; [apply selectGame_sameIds|exact Hok]).
  assert (Hhas1 : hasPlayer (p_id player) (players g1))
    by (eapply sameIds_hasPlayer; [apply selectGame_sameIds|exact Hhas]).
  destruct (getPlayer_has _ _ Hhas1) as [q1 Hq1].
  unfold passRejection in Hrej. unfold handlePassCards.
  destruct (negb (len cs =? PASS_COUNT)); [discriminate Hrej|].
  destruct (cardsToPass player); [discriminate Hrej|].
  destruct (negb (forallb _ cs)); [discriminate Hrej|].
  unfold bind at 1. cbn [modifyGame].
  change (mkWorld _ (outbox w) (timers w) (departed w)) with (withGame g1 w).
  unfold bind at 1.
  rewrite (getGameStateForPlayer_eq (withGame g1 w) (p_id player) q1 Hok1 Hq1).
  unfold bind at 1.
  change (sendToPlayer (p_id player) (GameStateUpdate (stateFor (game (withGame g1 w)) q1))
            (withGame g1 w))
    with (Ret tt (addOut [SendToPlayer (p_id player) (GameStateUpdate (stateFor g1 q1))]
                    (withGame g1 w))).
  cbv iota. unfold bind at 1. cbn [getGame].
  assert (Hw1 : w1 = addOut [SendToPlayer (p_id player) (GameStateUpdate (stateFor g1 q1))]
                       (withGame g1 w)).
  { unfold w1, selfUpdate. now rewrite Hq1. }
  rewrite <- Hw1. change (game w1) with g1. fold (allSelected g1).
  destruct (allSelected g1); [reflexivity|].
  rewrite broadcastGameState_eq by exact Hok1. reflexivity.
Qed.

Lemma handlePlayCard_reject (player : Player) (c : Card) (msg : string) (w : World) :
  playVerdict (game w) player c = Some msg ->
  handlePlayCard player c w
  = Ret tt (addOut [SendToPlayer (p_id player) (ErrorMsg msg)] w).
Proof.
  intros H. unfold handlePlayCard, isValidPlay.
  unfold bind at 1. unfold bind at 1. cbn [getGame]. rewrite H.
  reflexivity.
Qed.

Lemma playedGame_sameIds (g : Game) (pid : string) (c : Card) (h' : list Card) :
  sameIds g (playedGame g pid c h').
Proof.
  unfold playedGame. cbv zeta.
  match goal with |- context [if ?b then _ else _] => destruct b end;
    (split; [|reflexivity]); cbn [players set_players set_currentTrick set_heartsBroken];
    apply updatePlayer_ids; reflexivity.
Qed.

Lemma trickDoneGame_sameIds (g : Game) (wid : string) : sameIds g (trickDoneGame g wid).
Proof.
  unfold trickDoneGame. cbv zeta. split; [|reflexivity].
  cbn [players set_players set_currentTrick set_phase].
  apply updatePlayer_ids. reflexivity.
Qed.

Lemma endTrick_eq (w : World) (wid : string) (wc : Card) (wp : Player) :
  idsOk (game w) ->
  trickWinner (currentTrick (game w)) = inr (wid, wc) ->
  getPlayer wid (players (game w)) = Some wp ->
  endTrick w
  = Ret tt
      (mkWorld (trickDoneGame (game w) wid)
         (outbox w ++ [Broadcast (TrickWon wid (p_name wp)
                                    (trickPoints (game w))
                                    (cards (currentTrick (game w))))])
         (timers w ++ [NextTrickTimer wid]) (departed w)).
Proof.
  intros Hok Hwin Hwp. unfold endTrick, calculateTrickWinner.
  unfold bind at 1. cbn [modifyGame]. unfold bind at 1. unfold bind at 1.
  cbn [getGame game set_phase currentTrick]. rewrite Hwin. cbn [ret].
  unfold bind at 1. cbn [modifyGame]. unfold bind at 1. cbn [getGame fst game].
  cbn [players set_currentTrick set_phase]. rewrite Hwp.
  unfold bind at 1. cbn [modifyGame]. unfold bind, broadcast, emit, setTimeout.
  cbn [game outbox timers departed]. reflexivity.
Qed.

Lemma applyRoundScores_ids (ps : list Player) :
  map p_id (applyRoundScores ps) = map p_id ps.
Proof.
  unfold applyRoundScores. destruct (findShooter ps) as [sh|].
  - apply map_ids_ext. intros p. destruct (String.eqb (p_id p) (p_id sh)); reflexivity.
  - apply map_ids_ext. reflexivity.
Qed.

Lemma scoredGame_sameIds (g : Game) : sameIds g (scoredGame g).
Proof.
  unfold scoredGame. cbv zeta. split; [|reflexivity].
  cbn [players set_players set_phase]. apply applyRoundScores_ids.
Qed.

Lemma endRound_eq (w : World) :
  idsOk (game w) ->
  endRound w
  = Ret tt
      (mkWorld (scoredGame (game w))
         (outbox w ++ [Broadcast (RoundScored (publicInfo (scoredGame (game w)))
                                    (option_map p_id (findShooter (players (game w)))))])
         (timers w ++ [NextRoundTimer
                         (existsb (fun p => score p >=? SCORE_LIMIT)
                            (players (scoredGame (game w))))]) (departed w)).
Proof.
  intros Hok.
  assert (Hok' : idsOk (scoredGame (game w)))
    by (eapply sameIds_idsOk; [apply scoredGame_sameIds|exact Hok]).
  unfold endRound.
  unfold bind at 1. cbn [modifyGame]. unfold bind at 1. cbn [getGame game].
  unfold bind at 1. cbn [modifyGame game outbox timers departed].
  change (mkWorld _ (outbox w) (timers w) (departed w)) with (withGame (scoredGame (game w)) w).
  unfold bind at 1. rewrite getAllPlayerInfo_eq by exact Hok'.
  unfold bind, broadcast, emit, setTimeout, getGame.
  cbn [game outbox timers withGame set_phase players departed]. reflexivity.
Qed.

Lemma handlePlayCard_accept (player : Player) (c : Card) (h' : list Card) (w : World) :
  playVerdict (game w) player c = None ->
  removeFirst c (hand player) = Some h' ->
  idsOk (game w) ->
  let g1 := playedGame (game w) (p_id player) c h' in
  handlePlayCard player c w
  = if len (cards (currentTrick g1)) =? len (players g1)
    then endTrick (addOut (stateUpdates g1) (withGame g1 w))
    else Ret tt (addOut (stateUpdates (advancedGame g1) ++ turnNotice (advancedGame g1))
                   (withGame (advancedGame g1) w)).
Proof.
  intros Hv Hh Hok g1.
  assert (Hok1 : idsOk g1)
    by (eapply sameIds_idsOk; [apply playedGame_sameIds|exact Hok]).
  unfold handlePlayCard, isValidPlay.
  unfold bind at 1. unfold bind at 1. cbn [getGame]. rewrite Hv. cbn [ret negb].
  rewrite Hh.
  unfold bind at 1. cbn [modifyGame]. unfold bind at 1. cbn [modifyGame].
  unfold bind at 1. cbn [modifyGame]. cbn [game outbox timers departed].
  change (mkWorld _ (outbox w) (timers w) (departed w)) with (withGame g1 w).
  unfold bind at 1. cbn [getGame]. change (game (withGame g1 w)) with g1.
  destruct (len (cards (currentTrick g1)) =? len (players g1)).
  - unfold bind at 1. rewrite broadcastGameState_eq by exact Hok1. reflexivity.
  - unfold bind at 1. cbn [modifyGame].
    change (mkWorld _ (outbox (withGame g1 w)) (timers (withGame g1 w)) (departed (withGame g1 w)))
      with (withGame (advancedGame g1) w).
    assert (Hok2 : idsOk (advancedGame g1)) by exact Hok1.
    unfold bind at 1. rewrite broadcastGameState_eq by exact Hok2.
    rewrite notifyCurrentPlayerTurn_eq by exact Hok2.
    rewrite addOut_app. reflexivity.
Qed.


(** ** Passing at a table of four *)

Ltac eqb_ids :=
  repeat match goal with
    | |- context [String.eqb ?a ?a] => rewrite (String.eqb_refl a)
    | H : ?a <> ?b |- context [String.eqb ?a ?b] =>
        rewrite (proj2 (String.eqb_neq a b) H)
    end.

Ltac crunch :=
  repeat first
    [ progress cbn [game outbox timers players set_players withGame addOut updatePlayer
                    map getPlayer find p_id set_cardsToPass set_receivedCards set_hand
                    addReceivedCardsToHand receivedCards cardsToPass hand mapSet fst snd departed]
    | progress eqb_ids ].

Ltac targets :=
  repeat match goal with
    | |- context [at_ ?l ?i] =>
        let r := eval cbv -[p_id] in (at_ l i) in change (at_ l i) with r
    end.

Lemma nodup4 (a b c d : string) :
  NoDup [a; b; c; d] ->
  (a <> b /\ a <> c /\ a <> d /\ b <> c /\ b <> d /\ c <> d)
  /\ (b <> a /\ c <> a /\ d <> a /\ c <> b /\ d <> b /\ d <> c).
Proof.
  intros H. inversion H as [|? ? Ha H1]; subst. inversion H1 as [|? ? Hb H2]; subst.
  inversion H2 as [|? ? Hc H3]; subst. simpl in *.
  repeat split; intros ->; tauto.
Qed.

Lemma bind_assoc {A B C : Type} (m : M A) (k1 : A -> M B) (k2 : B -> M C) (w : World) :
  bind (bind m k1) k2 w = bind m (fun a => bind (k1 a) k2) w.
Proof. unfold bind. destruct (m w); reflexivity. Qed.

Lemma set_players_set_players (a b : list Player) (g : Game) :
  set_players a (set_players b g) = set_players a g.
Proof. reflexivity. Qed.

Lemma players_set_players (a : list Player) (g : Game) : players (set_players a g) = a.
Proof. reflexivity. Qed.

Lemma withGame_self (w : World) : withGame (game w) w = w.
Proof. now destruct w. Qed.

Ltac mstep :=
  repeat first
    [ rewrite bind_assoc
    | rewrite run_modify
    | rewrite run_get
    | rewrite run_emit
    | rewrite run_ret
    | rewrite withGame_withGame
    | rewrite withGame_addOut
    | rewrite game_withGame
    | rewrite game_addOut
    | rewrite set_players_set_players
    | rewrite players_set_players
    | rewrite addOut_app ];
  cbv beta.

Lemma passOne_eq (dir : PassingDirection) (ids : list string)
    (tr : list (string * option (list Card))) (i : Z) (id : string) (p : Player)
    (w : World) :
  getPlayer id (players (game w)) = Some p ->
  passOne dir ids tr (i, id) w
  = Ret (match at_ ids (match dir with
                        | Left => Z.rem (i + 1) (len ids)
                        | Right => Z.rem (i - 1 + len ids) (len ids)
                        | Across => Z.rem (i + 2) (len ids)
                        | Hold => i
                        end) with
         | Some t => mapSet t (t, cardsToPass p) fst tr
         | None => tr
         end)
        (withGame
           (set_players (updatePlayer id (set_cardsToPass None) (players (game w)))
              (game w)) w).
Proof.
  intros H. unfold passOne. cbn [fst snd]. rewrite run_get, H, run_modify.
  reflexivity.
Qed.

Lemma passLoop_four (dir : PassingDirection) (g : Game) (w : World)
    (p0 p1 p2 p3 : Player) :
  players g = [p0; p1; p2; p3] ->
  NoDup (map p_id [p0; p1; p2; p3]) ->
  dir <> Hold ->
  let ids := map p_id [p0; p1; p2; p3] in
  exists tr,
    passLoop dir ids (indexed 0 ids) [] (withGame g w)
    = Ret tr (withGame (set_players (map (set_cardsToPass None) [p0; p1; p2; p3]) g) w)
    /\ map (receivedFor tr) ids
       = match dir with
         | Left => [passOf p3; passOf p0; passOf p1; passOf p2]
         | Right => [passOf p1; passOf p2; passOf p3; passOf p0]
         | Across => [passOf p2; passOf p3; passOf p0; passOf p1]
         | Hold => []
         end.
Proof.
  intros Hps Hnd Hhold ids.
  destruct (nodup4 _ _ _ _ Hnd) as [[? [? [? [? [? ?]]]]] [? [? [? [? [? ?]]]]]].
  subst ids. cbn [map indexed passLoop].
  destruct dir; [| | |congruence].
  all: unfold bind at 1;
    (erewrite passOne_eq by (rewrite game_withGame, Hps; crunch; reflexivity));
    rewrite withGame_withGame, game_withGame; cbn [players set_players]; rewrite Hps;
    targets; crunch.
  all: do 3 (unfold bind at 1;
    (erewrite passOne_eq by (rewrite game_withGame; crunch; reflexivity));
    rewrite withGame_withGame, game_withGame; targets; crunch).
  all: eexists; (split; [unfold ret; reflexivity|]).
  all: unfold receivedFor, passOf; crunch; reflexivity.
Qed.

Lemma forEach_receive_four (rf : string -> list Card) (g : Game) (w : World)
    (q0 q1 q2 q3 : Player) :
  NoDup (map p_id [q0; q1; q2; q3]) ->
  forEachM (fun p =>
      modifyGame (fun g =>
        set_players
          (updatePlayer (p_id p)
             (fun q => addReceivedCardsToHand (set_receivedCards (Some (rf (p_id p))) q))
             (players g)) g) ;;
      g <- getGame ;;
      match getPlayer (p_id p) (players g) with
      | Some q => sendToPlayer (p_id p) (CardsPassed (receivedCards q))
      | None => throw typeError
      end)
    [q0; q1; q2; q3] (withGame (set_players [q0; q1; q2; q3] g) w)
  = Ret tt
      (addOut (map (fun p => SendToPlayer (p_id p) (CardsPassed None)) [q0; q1; q2; q3])
         (withGame
            (set_players
               (map (fun q => addReceivedCardsToHand
                                (set_receivedCards (Some (rf (p_id q))) q))
                    [q0; q1; q2; q3]) g) w)).
Proof.
  intros Hnd.
  destruct (nodup4 _ _ _ _ Hnd) as [[? [? [? [? [? ?]]]]] [? [? [? [? [? ?]]]]]].
  cbn [forEachM]. unfold sendToPlayer.
  do 8 (mstep; crunch).
  unfold ret. reflexivity.
Qed.

Lemma passedGame_sameIds (dir : PassingDirection) (p0 p1 p2 p3 : Player) (g : Game) :
  players g = [p0; p1; p2; p3] ->
  sameIds g (passedGame dir p0 p1 p2 p3 g).
Proof.
  intros Hps. unfold passedGame. cbv zeta. split; [|reflexivity].
  cbn [players set_currentPlayerIndex set_phase set_players]. rewrite Hps.
  destruct dir; reflexivity.
Qed.

Lemma executePassing_skip (w : World) :
  passingDirection (game w) = None \/ passingDirection (game w) = Some Hold ->
  executePassing w = Ret tt w.
Proof.
  intros [H|H]; unfold executePassing; rewrite run_get, H; reflexivity.
Qed.

Lemma executePassing_four (w : World) (dir : PassingDirection) (p0 p1 p2 p3 : Player) :
  players (game w) = [p0; p1; p2; p3] ->
  playerOrder (game w) = map p_id [p0; p1; p2; p3] ->
  NoDup (map p_id [p0; p1; p2; p3]) ->
  passingDirection (game w) = Some dir ->
  dir <> Hold ->
  executePassing w
  = Ret tt (addOut (passOuts dir p0 p1 p2 p3 (game w))
              (withGame (passedGame dir p0 p1 p2 p3 (game w)) w)).
Proof.
  intros Hps Hord Hnd Hdir Hhold.
  assert (Hok : idsOk (passedGame dir p0 p1 p2 p3 (game w))).
  { eapply sameIds_idsOk; [apply passedGame_sameIds; exact Hps|].
    apply idsOk_of_order. now rewrite Hord, Hps. }
  destruct (passLoop_four dir (game w) w p0 p1 p2 p3 Hps Hnd Hhold) as [tr [Hloop Hrf]].
  rewrite withGame_self in Hloop.
  unfold executePassing. rewrite run_get, Hdir.
  assert (Hbody :
    (tempReceived <- passLoop dir (playerOrder (game w))
                       (indexed 0 (playerOrder (game w))) [] ;;
     g <- getGame ;;
     forEachM (fun p =>
         modifyGame (fun g =>
           set_players
             (updatePlayer (p_id p)
                (fun q => addReceivedCardsToHand
                            (set_receivedCards (Some (receivedFor tempReceived (p_id p))) q))
                (players g)) g) ;;
         g <- getGame ;;
         match getPlayer (p_id p) (players g) with
         | Some q => sendToPlayer (p_id p) (CardsPassed (receivedCards q))
         | None => throw typeError
         end)
       (players g) ;;
     modifyGame (set_phase PlayingTrick) ;;
     modifyGame (fun g => set_currentPlayerIndex (findPlayerWithTwoOfClubs g) g) ;;
     broadcastGameState ;;
     notifyCurrentPlayerTurn) w
    = Ret tt (addOut (passOuts dir p0 p1 p2 p3 (game w))
                (withGame (passedGame dir p0 p1 p2 p3 (game w)) w))).
  { rewrite Hord. unfold bind at 1. rewrite Hloop.
    rewrite run_get, game_withGame, players_set_players.
    cbn [map]. unfold bind at 1.
    assert (Hnd' : NoDup (map p_id [set_cardsToPass None p0; set_cardsToPass None p1;
                                     set_cardsToPass None p2; set_cardsToPass None p3]))
      by exact Hnd.
    rewrite (forEach_receive_four (receivedFor tr) (game w) w _ _ _ _ Hnd').
    cbn [map p_id set_cardsToPass] in Hrf |- *.
    unfold passOuts. unfold passedGame in *. cbv zeta in *.
    clear Hloop. generalize dependent (game w). intros g; intros.
    destruct dir; [| | |congruence];
      injection Hrf as Hr0 Hr1 Hr2 Hr3; rewrite Hr0, Hr1, Hr2, Hr3;
      mstep;
      match goal with |- context [set_players ?l g] =>
        change l with (passedPlayers Left p0 p1 p2 p3)
        || change l with (passedPlayers Right p0 p1 p2 p3)
        || change l with (passedPlayers Across p0 p1 p2 p3)
      end;
      (rewrite run_broadcastGameState by (rewrite game_addOut, game_withGame; assumption));
      (rewrite notifyCurrentPlayerTurn_eq
         by (rewrite game_addOut, game_addOut, game_withGame; assumption));
      mstep; cbn [map]; rewrite <- ?app_assoc; reflexivity. }
  destruct dir; try exact Hbody. congruence.
Qed.


(** ** Well-formed worlds are preserved *)

Lemma trickWinner_fold (ls : Suit) (first : PlayedCard) (rest : list PlayedCard)
    (tw : option string) :
  trickWinner (mkTrick (Some ls) (first :: rest) tw)
  = inr (fold_left (challenge ls) rest (entry first)).
Proof.
  unfold trickWinner. cbn [leadingSuit cards List.length Nat.pred].
  pose proof (winnerLoop_fold ls rest [first] (entry first)) as H.
  cbn [app] in H. exact (f_equal (@inr string (string * Card)) H).
Qed.

Lemma trickWinner_in (t : Trick) (wid : string) (wc : Card) :
  trickWinner t = inr (wid, wc) ->
  exists e, In e (cards t) /\ playerId e = wid.
Proof.
  destruct t as [[ls|] [|first rest] tw]; try (unfold trickWinner; simpl; discriminate).
  rewrite trickWinner_fold. intros H. injection H as H.
  destruct (fold_challenge_origin ls rest (entry first)) as [Ho|[_ [e [Hin He]]]].
  - rewrite Ho in H. exists first. split; [now left|].
    unfold entry in H. now injection H.
  - rewrite He in H. exists e. split; [now right|].
    unfold entry in H. now injection H.
Qed.

Lemma trickWinner_total (t : Trick) :
  cards t <> [] -> leadingSuit t <> None ->
  exists wid wc, trickWinner t = inr (wid, wc).
Proof.
  destruct t as [[ls|] [|first rest] tw]; cbn [cards leadingSuit]; try congruence.
  intros _ _. rewrite trickWinner_fold.
  destruct (fold_left (challenge ls) rest (entry first)) as [wid wc].
  now exists wid, wc.
Qed.

(** The conditions under which a world built from a well-formed one is
    well-formed. *)
Lemma wf_build (w : World) (g' : Game) (out' : list Outgoing) (tm' : list Timer) {dp : list Player} :
  wf w ->
  sameIds (game w) g' ->
  (started g' -> started (game w) \/ List.length (players (game w)) = 4%nat) ->
  (cards (currentTrick g') <> [] -> leadingSuit (currentTrick g') <> None) ->
  (forall e, In e (cards (currentTrick g')) -> hasPlayer (playerId e) (players (game w))) ->
  (forall id, In (NextTrickTimer id) tm' -> hasPlayer id (players (game w))) ->
  (tm' <> [] -> started g') ->
  wf (mkWorld g' out' tm' dp).
Proof.
  intros Hwf Hs H4 Hl Ht Htm Hp. destruct Hs as [Hids Hord].
  assert (Hlen : List.length (players g') = List.length (players (game w))).
  { rewrite <- (length_map p_id (players g')), Hids. apply length_map. }
  constructor; cbn [game timers departed].
  - rewrite Hord, Hids. apply (wf_order w Hwf).
  - rewrite Hord. apply (wf_nodup w Hwf).
  - intros Hst. rewrite Hlen. destruct (H4 Hst) as [H|H]; [|exact H].
    apply (wf_four w Hwf H).
  - exact Hl.
  - intros e He. unfold hasPlayer. rewrite Hids. apply (Ht e He).
  - intros id Hid. unfold hasPlayer. rewrite Hids. apply (Htm id Hid).
  - exact Hp.
Qed.

Lemma wf_idsOk (w : World) : wf w -> idsOk (game w).
Proof. intros H. apply idsOk_of_order. apply (wf_order w H). Qed.

Lemma wf_addOut (w : World) (outs : list Outgoing) : wf w -> wf (addOut outs w).
Proof.
  intros H. destruct H. constructor; assumption.
Qed.

Lemma noErr_app (a b : list Outgoing) :
  existsb isErrorOut (a ++ b) = existsb isErrorOut a || existsb isErrorOut b.
Proof. apply existsb_app. Qed.

Lemma noErr_stateUpdatesFor (g : Game) (ps : list Player) :
  existsb isErrorOut (stateUpdatesFor g ps) = false.
Proof.
  unfold stateUpdatesFor. induction ps as [|p ps IH]; simpl; [reflexivity|].
  rewrite existsb_app, IH. destruct (getPlayer (p_id p) (players g)); reflexivity.
Qed.

Lemma noErr_stateUpdates (g : Game) : existsb isErrorOut (stateUpdates g) = false.
Proof. apply noErr_stateUpdatesFor. Qed.

Lemma noErr_turnNotice (g : Game) : existsb isErrorOut (turnNotice g) = false.
Proof.
  unfold turnNotice. destruct (getCurrentPlayerId g) as [cur|]; [|reflexivity].
  destruct (negb (String.eqb cur "") && GamePhase_beq (phase g) PlayingTrick);
    [|reflexivity].
  destruct (getPlayer cur (players g)); reflexivity.
Qed.

Lemma noErr_selfUpdate (g : Game) (pid : string) :
  existsb isErrorOut (selfUpdate g pid) = false.
Proof. unfold selfUpdate. destruct (getPlayer pid (players g)); reflexivity. Qed.

Lemma noErr_passOuts (dir : PassingDirection) (p0 p1 p2 p3 : Player) (g : Game) :
  existsb isErrorOut (passOuts dir p0 p1 p2 p3 g) = false.
Proof.
  unfold passOuts. rewrite !existsb_app, noErr_stateUpdates, noErr_turnNotice.
  reflexivity.
Qed.

Lemma noErr_roundOuts (rnd : nat -> nat) (g : Game) :
  existsb isErrorOut (roundOuts rnd g) = false.
Proof.
  unfold roundOuts. cbv zeta. rewrite existsb_app, noErr_stateUpdates.
  destruct (isHold _); [apply noErr_turnNotice|reflexivity].
Qed.

Lemma GamePhase_beq_eq (a b : GamePhase) : GamePhase_beq a b = true <-> a = b.
Proof. destruct a, b; simpl; split; intro H; try reflexivity; discriminate H. Qed.

Lemma four_players (ps : list Player) :
  List.length ps = 4%nat -> exists p0 p1 p2 p3, ps = [p0; p1; p2; p3].
Proof.
  destruct ps as [|p0 [|p1 [|p2 [|p3 [|p4 ps]]]]]; simpl; intros H; try discriminate H.
  now exists p0, p1, p2, p3.
Qed.


(** ** What the closed forms leave in place *)

Lemma selectGame_facts (g : Game) (pid : string) (cs : list Card) :
  phase (selectGame g pid cs) = phase g
  /\ currentTrick (selectGame g pid cs) = currentTrick g
  /\ passingDirection (selectGame g pid cs) = passingDirection g
  /\ playerOrder (selectGame g pid cs) = playerOrder g.
Proof. repeat split. Qed.

Lemma passedGame_facts (dir : PassingDirection) (p0 p1 p2 p3 : Player) (g : Game) :
  phase (passedGame dir p0 p1 p2 p3 g) = PlayingTrick
  /\ currentTrick (passedGame dir p0 p1 p2 p3 g) = currentTrick g
  /\ players (passedGame dir p0 p1 p2 p3 g) = passedPlayers dir p0 p1 p2 p3.
Proof. repeat split. Qed.

Lemma playedGame_facts (g : Game) (pid : string) (c : Card) (h' : list Card) :
  phase (playedGame g pid c h') = phase g
  /\ cards (currentTrick (playedGame g pid c h'))
     = cards (currentTrick g) ++ [mkPlayed pid c]
  /\ leadingSuit (currentTrick (playedGame g pid c h'))
     = (if len (cards (currentTrick g) ++ [mkPlayed pid c]) =? 1
        then Some (suit c) else leadingSuit (currentTrick g))
  /\ players (playedGame g pid c h') = updatePlayer pid (set_hand h') (players g).
Proof.
  unfold playedGame. cbv zeta.
  match goal with |- context [if ?b then _ else _] => destruct b end;
    repeat split.
Qed.

Lemma advancedGame_facts (g : Game) :
  phase (advancedGame g) = phase g
  /\ currentTrick (advancedGame g) = currentTrick g
  /\ players (advancedGame g) = players g
  /\ playerOrder (advancedGame g) = playerOrder g.
Proof. repeat split. Qed.

Lemma trickDoneGame_facts (g : Game) (wid : string) :
  phase (trickDoneGame g wid) = TrickComplete
  /\ cards (currentTrick (trickDoneGame g wid)) = cards (currentTrick g)
  /\ leadingSuit (currentTrick (trickDoneGame g wid)) = leadingSuit (currentTrick g).
Proof. repeat split. Qed.

Lemma scoredGame_facts (g : Game) :
  phase (scoredGame g) = RoundScoring
  /\ currentTrick (scoredGame g) = currentTrick g
  /\ players (scoredGame g) = applyRoundScores (players g).
Proof. repeat split. Qed.

Lemma nextTrickGame_facts (g : Game) (wid : string) :
  phase (nextTrickGame g wid) = PlayingTrick
  /\ currentTrick (nextTrickGame g wid) = createEmptyTrick
  /\ players (nextTrickGame g wid) = players g
  /\ playerOrder (nextTrickGame g wid) = playerOrder g.
Proof. repeat split. Qed.

Lemma roundGame_facts (rnd : nat -> nat) (g : Game) :
  (phase (roundGame rnd g) = Passing \/ phase (roundGame rnd g) = PlayingTrick)
  /\ currentTrick (roundGame rnd g) = createEmptyTrick
  /\ players (roundGame rnd g) = players (dealtGame rnd g).
Proof.
  unfold roundGame. cbv zeta.
  assert (Ht : currentTrick (dealtGame rnd g) = createEmptyTrick) by reflexivity.
  revert Ht. generalize (dealtGame rnd g) as d. intros d Ht.
  destruct (isHold (passingDirection d)); (split; [|split]);
    try exact Ht; try reflexivity; [now right|now left].
Qed.

Lemma joinedGame_facts (pid name : string) (g : Game) :
  phase (joinedGame pid name g) = phase g
  /\ currentTrick (joinedGame pid name g) = currentTrick g
  /\ playerOrder (joinedGame pid name g) = playerOrder g ++ [pid]
  /\ players (joinedGame pid name g) = mapSet pid (newPlayer pid name) p_id (players g).
Proof. repeat split. Qed.

Lemma started_phase (g g' : Game) : phase g' = phase g -> started g' -> started g.
Proof. unfold started. intros ->. auto. Qed.

(** ** The outcome of a command *)

Lemma tryCatch_ret (m : M unit) (h : string -> M unit) (w w' : World) (a : unit) :
  m w = Ret a w' -> final (tryCatch m h w) = w'.
Proof. intros H. unfold tryCatch. now rewrite H. Qed.

Lemma tryCatch_throw (m : M unit) (pid e : string) (w : World) :
  m w = Throw e w ->
  final (tryCatch m (fun e => sendError pid e) w)
  = addOut [SendToPlayer pid (ErrorMsg e)] w.
Proof. intros H. unfold tryCatch. now rewrite H. Qed.

Lemma handleMessage_unknown (w : World) (pid : string) (m : ClientMessage) :
  getPlayer pid (players (game w)) = None -> handleMessage pid m w = w.
Proof. intros H. unfold handleMessage. now rewrite H. Qed.

Lemma handleMessage_rejected (w : World) (pid : string) (m : ClientMessage)
    (player : Player) (reason : string) :
  getPlayer pid (players (game w)) = Some player ->
  rejection (game w) player m = Some reason ->
  handleMessage pid m w = addOut [SendToPlayer pid (ErrorMsg reason)] w.
Proof.
  intros Hp Hrej. unfold handleMessage. rewrite Hp.
  assert (Hid : p_id player = pid) by (apply getPlayer_some in Hp; tauto).
  unfold rejection in Hrej. rewrite Hid in Hrej.
  destruct m as [cs|c|].
  - destruct (GamePhase_beq (phase (game w)) Passing) eqn:Eph.
    + apply tryCatch_throw. rewrite run_get, Eph, <- Hid, String.eqb_refl.
      cbn [andb]. now apply handlePassCards_reject.
    + injection Hrej as <-. apply tryCatch_throw. rewrite run_get, Eph. reflexivity.
  - destruct (GamePhase_beq (phase (game w)) PlayingTrick
              && match getCurrentPlayerId (game w) with
                 | Some cur => String.eqb cur pid
                 | None => false
                 end) eqn:Eph.
    + erewrite tryCatch_ret;
        [|rewrite run_get, Eph; apply handlePlayCard_reject; exact Hrej].
      now rewrite Hid.
    + injection Hrej as <-. apply tryCatch_throw. rewrite run_get, Eph. reflexivity.
  - discriminate Hrej.
Qed.


Lemma noErr_cat (a b : list Outgoing) : noErr a -> noErr b -> noErr (a ++ b).
Proof. unfold noErr. intros Ha Hb. now rewrite existsb_app, Ha, Hb. Qed.

Lemma addOut_world (outs : list Outgoing) (g : Game) (w : World) :
  addOut outs (withGame g w) = mkWorld g (outbox w ++ outs) (timers w) (departed w).
Proof. reflexivity. Qed.

Lemma addOut_self (outs : list Outgoing) (w : World) :
  addOut outs w = mkWorld (game w) (outbox w ++ outs) (timers w) (departed w).
Proof. reflexivity. Qed.

Lemma addOut_mk (g g' : Game) (out outs outs' : list Outgoing) (tm : list Timer)
    {dp : list Player} :
  addOut outs' (withGame g' (mkWorld g (out ++ outs) tm dp))
  = mkWorld g' (out ++ (outs ++ outs')) tm dp.
Proof. unfold addOut, withGame. cbn [game outbox timers departed]. now rewrite app_assoc. Qed.

Lemma selectGame_wf (w : World) (pid : string) (cs : list Card) (outs : list Outgoing) :
  wf w -> wf (mkWorld (selectGame (game w) pid cs) (outbox w ++ outs) (timers w) (departed w)).
Proof.
  intros Hwf. destruct (selectGame_facts (game w) pid cs) as [Hph [Htr _]].
  apply (wf_build w); try assumption.
  - apply selectGame_sameIds.
  - intros Hs. left. now apply (started_phase _ _ Hph).
  - rewrite Htr. apply (wf_lead w Hwf).
  - rewrite Htr. apply (wf_trick w Hwf).
  - apply (wf_timer w Hwf).
  - intros Ht. unfold started. rewrite Hph. now apply (wf_pending w Hwf).
Qed.

(** An accepted pass selection. *)
Lemma handleMessage_select (w : World) (pid : string) (player : Player) (cs : list Card) :
  wf w ->
  getPlayer pid (players (game w)) = Some player ->
  rejection (game w) player (SelectCardsToPass cs) = None ->
  msgOutcome w pid player (SelectCardsToPass cs) (handleMessage pid (SelectCardsToPass cs) w).
Proof.
  intros Hwf Hp Hrej.
  assert (Hid : p_id player = pid) by (apply getPlayer_some in Hp; tauto).
  assert (Hhas : hasPlayer (p_id player) (players (game w))).
  { apply getPlayer_has_iff. rewrite Hid, Hp. discriminate. }
  unfold rejection in Hrej.
  destruct (GamePhase_beq (phase (game w)) Passing) eqn:Eph; [|discriminate Hrej].
  pose proof (handlePassCards_accept player cs w Hrej (wf_idsOk w Hwf) Hhas) as Hacc.
  cbv zeta in Hacc. rewrite Hid in Hacc.
  assert (Hcase : exists W,
            handlePassCards player cs w = Ret tt W
            /\ msgOutcome w pid player (SelectCardsToPass cs) W).
  { rewrite Hacc.
    destruct (allSelected (selectGame (game w) pid cs)) eqn:Eall.
    - set (w1 := addOut _ _).
      assert (Hwf1 : wf w1) by exact (selectGame_wf w pid cs _ Hwf).
      assert (Hw1 : w1 = mkWorld (selectGame (game w) pid cs)
                           (outbox w ++ selfUpdate (selectGame (game w) pid cs) pid)
                           (timers w) (departed w)) by reflexivity.
      destruct (passingDirection (game w1)) as [dir|] eqn:Ed.
      + destruct (PassingDirection_eq_dec dir Hold) as [->|Hne].
        * rewrite executePassing_skip by (now right). eexists. split; [reflexivity|].
          rewrite Hw1. apply out_selected; [exact Hrej|apply noErr_selfUpdate].
        * assert (Hst : started (game w1)).
          { unfold started. subst w1. rewrite game_addOut, game_withGame.
            destruct (selectGame_facts (game w) pid cs) as [-> _].
            apply GamePhase_beq_eq in Eph. rewrite Eph. discriminate. }
          destruct (four_players _ (wf_four w1 Hwf1 Hst)) as [p0 [p1 [p2 [p3 Hps]]]].
          rewrite (executePassing_four w1 dir p0 p1 p2 p3); try assumption.
          -- eexists. split; [reflexivity|].
             rewrite Hw1, addOut_mk.
             apply out_passed; try assumption.
             apply noErr_cat; [apply noErr_selfUpdate|apply noErr_passOuts].
          -- rewrite (wf_order w1 Hwf1), Hps. reflexivity.
          -- rewrite <- Hps, <- (wf_order w1 Hwf1). apply (wf_nodup w1 Hwf1).
      + rewrite executePassing_skip by (now left). eexists. split; [reflexivity|].
        rewrite Hw1. apply out_selected; [exact Hrej|apply noErr_selfUpdate].
    - eexists. split; [reflexivity|]. rewrite addOut_app, addOut_world.
      apply out_selected; [exact Hrej|].
      apply noErr_cat; [apply noErr_selfUpdate|apply noErr_stateUpdates]. }
  destruct Hcase as [W [HW Hout]].
  unfold handleMessage. rewrite Hp.
  erewrite tryCatch_ret; [exact Hout|].
  rewrite run_get, Eph, <- Hid, String.eqb_refl. cbn [andb]. exact HW.
Qed.


Lemma len_app_one {A : Type} (l : list A) (x : A) :
  (len (l ++ [x]) =? 1) = false -> l <> [].
Proof.
  intros H ->. cbn in H. discriminate H.
Qed.

(** An accepted play. *)
Lemma handleMessage_play (w : World) (pid : string) (player : Player) (c : Card) :
  wf w ->
  getPlayer pid (players (game w)) = Some player ->
  rejection (game w) player (PlayCard c) = None ->
  msgOutcome w pid player (PlayCard c) (handleMessage pid (PlayCard c) w).
Proof.
  intros Hwf Hp Hrej.
  assert (Hid : p_id player = pid) by (apply getPlayer_some in Hp; tauto).
  assert (Hhas : hasPlayer pid (players (game w))).
  { apply getPlayer_has_iff. rewrite Hp. discriminate. }
  unfold rejection in Hrej. rewrite Hid in Hrej.
  destruct (GamePhase_beq (phase (game w)) PlayingTrick
            && match getCurrentPlayerId (game w) with
               | Some cur => String.eqb cur pid
               | None => false
               end) eqn:Eph; [|discriminate Hrej].
  destruct (removeFirst_some c (hand player) (playVerdict_in_hand _ _ _ Hrej)) as [h' Hh'].
  pose proof (handlePlayCard_accept player c h' w Hrej Hh' (wf_idsOk w Hwf)) as Hacc.
  cbv zeta in Hacc. rewrite Hid in Hacc.
  assert (Hcase : exists W,
            handlePlayCard player c w = Ret tt W
            /\ msgOutcome w pid player (PlayCard c) W).
  { rewrite Hacc.
    destruct (playedGame_facts (game w) pid c h') as [Hph [Hcards [Hlead Hpl]]].
    pose proof (playedGame_sameIds (game w) pid c h') as Hsame.
    remember (playedGame (game w) pid c h') as g1 eqn:Eg1.
    destruct (len (cards (currentTrick g1)) =? len (players g1)).
    - (* the trick is complete *)
      assert (Hne : cards (currentTrick g1) <> []).
      { rewrite Hcards. intros H. now apply app_eq_nil in H. }
      assert (Hls : leadingSuit (currentTrick g1) <> None).
      { rewrite Hlead.
        destruct (len (cards (currentTrick (game w)) ++ [mkPlayed pid c]) =? 1) eqn:E1;
          [discriminate|].
        apply (wf_lead w Hwf). now apply len_app_one in E1. }
      destruct (trickWinner_total _ Hne Hls) as [wid [wc Hwin]].
      assert (Hwhas : hasPlayer wid (players (game w))).
      { destruct (trickWinner_in _ _ _ Hwin) as [e [He <-]].
        rewrite Hcards in He. apply in_app_or in He. destruct He as [He|[<-|[]]].
        - now apply (wf_trick w Hwf).
        - exact Hhas. }
      destruct (getPlayer_has wid (players g1)) as [wp Hwp].
      { eapply sameIds_hasPlayer; eauto. }
      rewrite (endTrick_eq _ wid wc wp).
      + eexists. split; [reflexivity|].
        rewrite game_addOut, game_withGame. cbn [outbox timers addOut withGame departed].
        rewrite <- app_assoc. subst g1.
        apply out_trick; try assumption.
        apply noErr_cat; [apply noErr_stateUpdates|reflexivity].
      + rewrite game_addOut, game_withGame.
        eapply sameIds_idsOk; [exact Hsame|apply (wf_idsOk w Hwf)].
      + rewrite game_addOut, game_withGame. exact Hwin.
      + rewrite game_addOut, game_withGame. exact Hwp.
    - eexists. split; [reflexivity|]. rewrite addOut_world. subst g1.
      apply out_played; try assumption.
      apply noErr_cat; [apply noErr_stateUpdates|apply noErr_turnNotice]. }
  destruct Hcase as [W [HW Hout]].
  unfold handleMessage. rewrite Hp.
  erewrite tryCatch_ret; [exact Hout|].
  rewrite run_get, Eph. exact HW.
Qed.

Lemma handleMessage_accepted (w : World) (pid : string) (player : Player)
    (m : ClientMessage) :
  wf w ->
  getPlayer pid (players (game w)) = Some player ->
  rejection (game w) player m = None ->
  msgOutcome w pid player m (handleMessage pid m w).
Proof.
  intros Hwf Hp Hrej. destruct m as [cs|c|].
  - now apply handleMessage_select.
  - now apply handleMessage_play.
  - replace (handleMessage pid OtherMessage w) with w; [constructor|].
    unfold handleMessage. rewrite Hp. reflexivity.
Qed.

Lemma msgOutcome_sent (w : World) (pid : string) (player : Player) (m : ClientMessage)
    (w' : World) :
  msgOutcome w pid player m w' ->
  exists outs, outbox w' = outbox w ++ outs /\ noErr outs.
Proof.
  intros H. destruct H; try (eexists; split; [reflexivity|assumption]).
  exists []. split; [now rewrite app_nil_r|reflexivity].
Qed.

Lemma msgOutcome_wf (w : World) (pid : string) (player : Player) (m : ClientMessage)
    (w' : World) :
  wf w ->
  getPlayer pid (players (game w)) = Some player ->
  rejection (game w) player m = None ->
  msgOutcome w pid player m w' ->
  wf w'.
Proof.
  intros Hwf Hp Hrej Hout.
  assert (Hhas : hasPlayer pid (players (game w))).
  { apply getPlayer_has_iff. rewrite Hp. discriminate. }
  assert (Hid : p_id player = pid) by (apply getPlayer_some in Hp; tauto).
  destruct Hout as [|cs outs Hr Hn|cs dir p0 p1 p2 p3 outs Hr Hps Hd Hn
                    |c h' outs Hv Hh Hn|c h' wid outs Hv Hh Hw Hn].
  - exact Hwf.
  - now apply selectGame_wf.
  - pose proof (selectGame_wf w pid cs outs Hwf) as Hwf1.
    destruct (passedGame_facts dir p0 p1 p2 p3 (selectGame (game w) pid cs))
      as [Hph [Htr _]].
    pose proof (passedGame_sameIds dir p0 p1 p2 p3 _ Hps) as Hsame.
    revert Hph Htr Hsame.
    generalize (passedGame dir p0 p1 p2 p3 (selectGame (game w) pid cs)) as g2.
    intros g2 Hph Htr Hsame.
    apply (wf_build _ g2 _ _ Hwf1); cbn [game timers departed].
    + exact Hsame.
    + intros _. left. unfold rejection in Hrej. unfold started.
      destruct (selectGame_facts (game w) pid cs) as [-> _].
      destruct (GamePhase_beq (phase (game w)) Passing) eqn:E; [|discriminate Hrej].
      apply GamePhase_beq_eq in E. rewrite E. discriminate.
    + rewrite Htr. apply (wf_lead _ Hwf1).
    + rewrite Htr. apply (wf_trick _ Hwf1).
    + apply (wf_timer _ Hwf1).
    + intros _. unfold started. rewrite Hph. discriminate.
  - destruct (playedGame_facts (game w) pid c h') as [Hph [Hcards [Hlead Hpl]]].
    pose proof (playedGame_sameIds (game w) pid c h') as Hsame.
    revert Hph Hcards Hlead Hpl Hsame.
    generalize (playedGame (game w) pid c h') as g1.
    intros g1 Hph Hcards Hlead Hpl Hsame.
    apply (wf_build w _ _ _ Hwf).
    + exact Hsame.
    + intros Hs. left. exact (started_phase _ _ Hph Hs).
    + cbn [advancedGame currentTrick set_currentPlayerIndex]. rewrite Hlead.
      intros _.
      destruct (len (cards (currentTrick (game w)) ++ [mkPlayed pid c]) =? 1) eqn:E1;
        [discriminate|].
      apply (wf_lead w Hwf). now apply len_app_one in E1.
    + cbn [advancedGame currentTrick set_currentPlayerIndex]. rewrite Hcards.
      intros e He. apply in_app_or in He. destruct He as [He|[<-|[]]].
      * now apply (wf_trick w Hwf).
      * exact Hhas.
    + apply (wf_timer w Hwf).
    + intros Ht. unfold started.
      cbn [advancedGame phase set_currentPlayerIndex]. rewrite Hph.
      now apply (wf_pending w Hwf).
  - destruct (playedGame_facts (game w) pid c h') as [Hph [Hcards [Hlead Hpl]]].
    pose proof (playedGame_sameIds (game w) pid c h') as Hsame.
    pose proof (trickDoneGame_sameIds (playedGame (game w) pid c h') wid) as Hsame2.
    destruct (trickDoneGame_facts (playedGame (game w) pid c h') wid)
      as [Hph2 [Hcards2 Hlead2]].
    revert Hph Hcards Hlead Hpl Hsame Hsame2 Hph2 Hcards2 Hlead2.
    generalize (playedGame (game w) pid c h') as g1. intros g1.
    generalize (trickDoneGame g1 wid) as g2.
    intros g2 Hph Hcards Hlead Hpl Hsame Hsame2 Hph2 Hcards2 Hlead2.
    assert (Hstarted : started (game w)).
    { unfold rejection in Hrej. unfold started.
      destruct (GamePhase_beq (phase (game w)) PlayingTrick) eqn:E;
        [|discriminate Hrej].
      apply GamePhase_beq_eq in E. rewrite E. discriminate. }
    apply (wf_build w _ _ _ Hwf).
    + eapply sameIds_trans; eauto.
    + intros _. now left.
    + rewrite Hlead2, Hlead. intros _.
      destruct (len (cards (currentTrick (game w)) ++ [mkPlayed pid c]) =? 1) eqn:E1;
        [discriminate|].
      apply (wf_lead w Hwf). now apply len_app_one in E1.
    + rewrite Hcards2, Hcards.
      intros e He. apply in_app_or in He. destruct He as [He|[<-|[]]].
      * now apply (wf_trick w Hwf).
      * exact Hhas.
    + intros id Hin. apply in_app_or in Hin. destruct Hin as [Hin|[Hin|[]]].
      * now apply (wf_timer w Hwf).
      * injection Hin as <-. exact Hw.
    + intros _. unfold started. rewrite Hph2. discriminate.
Qed.


(** ** Timers and joins *)

Lemma fireTimer_outcome (w : World) (rnd : nat -> nat) :
  wf w -> timerOutcome w rnd (fireTimer rnd w).
Proof.
  intros Hwf. unfold fireTimer.
  destruct (timers w) as [|t rest] eqn:Et; [now apply tout_idle|].
  set (w0 := mkWorld (game w) (outbox w) rest (departed w)).
  assert (Hok : idsOk (game w0)) by exact (wf_idsOk w Hwf).
  destruct t as [wid|gameOver].
  - destruct (getPlayer_has wid (players (game w))) as [wp Hwp].
    { apply (wf_timer w Hwf). rewrite Et. now left. }
    unfold timerBody. rewrite run_captured. unfold heldPlayer.
    change (game w0) with (game w). rewrite Hwp.
    destruct (len (hand wp) =? 0) eqn:Eh.
    + rewrite endRound_eq by exact Hok. cbn [final].
      subst w0. cbn [game outbox timers departed].
      eapply tout_round_end; eauto; [now apply len_zero_nil|reflexivity].
    + rewrite !run_modify, !withGame_withGame, !game_withGame.
      rewrite run_broadcastGameState
        by (rewrite game_withGame; exact Hok).
      rewrite notifyCurrentPlayerTurn_eq
        by (rewrite game_addOut, game_withGame; exact Hok).
      cbn [final]. rewrite addOut_app, game_withGame, game_addOut, game_withGame.
      subst w0. cbn [game outbox timers addOut withGame departed].
      eapply (tout_next_trick w rnd wid wp rest); eauto.
      * intros Hnil. rewrite Hnil in Eh. discriminate Eh.
      * apply noErr_cat; [apply noErr_stateUpdates|apply noErr_turnNotice].
  - unfold timerBody. destruct gameOver.
    + rewrite endGame_eq by exact Hok. cbn [final].
      subst w0. cbn [game outbox timers addOut withGame departed].
      eapply (tout_game_over w rnd rest); eauto. reflexivity.
    + assert (H4 : (len (players (game w0)) =? MAX_PLAYERS) = true).
      { assert (Hst : started (game w)) by (apply (wf_pending w Hwf); now rewrite Et).
        unfold len. change (game w0) with (game w).
        now rewrite (wf_four w Hwf Hst). }
      rewrite startNewRound_eq by assumption. cbn [final].
      subst w0. cbn [game outbox timers addOut withGame departed].
      eapply (tout_new_round w rnd rest); eauto. apply noErr_roundOuts.
Qed.

Lemma mapSet_fresh (pid : string) (v : Player) (ps : list Player) :
  ~ In pid (map p_id ps) -> mapSet pid v p_id ps = ps ++ [v].
Proof.
  induction ps as [|p ps IH]; intros Hn; simpl in *; [reflexivity|].
  destruct (String.eqb (p_id p) pid) eqn:E.
  - apply String.eqb_eq in E. tauto.
  - rewrite IH by tauto. reflexivity.
Qed.

Lemma joinedGame_order (w : World) (pid name : string) :
  wf w -> ~ In pid (playerOrder (game w)) ->
  playerOrder (joinedGame pid name (game w))
  = map p_id (players (joinedGame pid name (game w)))
  /\ NoDup (playerOrder (joinedGame pid name (game w)))
  /\ players (joinedGame pid name (game w)) = players (game w) ++ [newPlayer pid name].
Proof.
  intros Hwf Hfresh.
  destruct (joinedGame_facts pid name (game w)) as [_ [_ [Hord Hpl]]].
  rewrite Hord, Hpl.
  rewrite (wf_order w Hwf) in Hfresh |- *.
  rewrite (mapSet_fresh pid _ _ Hfresh), map_app. cbn [map newPlayer p_id].
  split; [reflexivity|]. split; [|reflexivity].
  apply NoDup_app; [rewrite <- (wf_order w Hwf); apply (wf_nodup w Hwf)| |].
  - repeat constructor. intros [].
  - intros x Hx [<-|[]]. contradiction.
Qed.

Lemma addPlayer_outcome (w : World) (pid name : string) (rnd : nat -> nat) :
  wf w -> ~ In pid (playerOrder (game w)) ->
  joinOutcome w pid name rnd (final (addPlayer pid name rnd w)).
Proof.
  intros Hwf Hfresh. unfold addPlayer. rewrite run_get.
  destruct (len (players (game w)) >=? MAX_PLAYERS) eqn:Efull.
  { apply (jout_refused w pid name rnd). now left. }
  destruct (GamePhase_beq (phase (game w)) WaitingForPlayers) eqn:Eph; cbn [negb].
  2:{ apply (jout_refused w pid name rnd). right. intros H. rewrite H in Eph. discriminate Eph. }
  apply GamePhase_beq_eq in Eph.
  destruct (joinedGame_order w pid name Hwf Hfresh) as [Hord [Hnd Hpl]].
  assert (Hok : idsOk (joinedGame pid name (game w))) by (now apply idsOk_of_order).
  rewrite !run_modify, withGame_withGame, game_withGame. cbv beta.
  change (set_playerOrder _ _) with (joinedGame pid name (game w)).
  unfold sendToPlayer. rewrite run_emit.
  rewrite run_broadcastGameState by (rewrite game_addOut, game_withGame; exact Hok).
  rewrite run_get, !game_addOut, game_withGame, addOut_app.
  destruct (len (players (joinedGame pid name (game w))) =? MAX_PLAYERS) eqn:E4.
  - unfold bind at 1.
    rewrite startNewRound_eq
      by (rewrite ?game_addOut, ?game_withGame; assumption).
    cbn [final ret]. rewrite !game_addOut, !game_withGame, withGame_addOut,
      withGame_withGame, addOut_app, addOut_world.
    apply jout_started; [exact Eph| |].
    + apply Z.eqb_eq in E4. unfold len, MAX_PLAYERS in E4. lia.
    + apply noErr_cat; [apply noErr_cat; [reflexivity|apply noErr_stateUpdates]|].
      apply noErr_roundOuts.
  - cbn [final ret bind]. rewrite addOut_world.
    apply jout_seated; [exact Eph| |].
    + apply Z.eqb_neq in E4. unfold len, MAX_PLAYERS in E4. lia.
    + apply noErr_cat; [reflexivity|apply noErr_stateUpdates].
Qed.


Lemma timerOutcome_wf (w : World) (rnd : nat -> nat) (w' : World) :
  wf w -> timerOutcome w rnd w' -> wf w'.
Proof.
  intros Hwf Hout.
  destruct Hout as [Ht|wid wp rest outs gameOver Ht Hwp Hh Hn
                    |wid wp rest outs Ht Hwp Hh Hn|rest outs Ht Hn|rest outs Ht Hn];
    [exact Hwf| | | |].
  all: assert (Hst : started (game w)) by (apply (wf_pending w Hwf); rewrite Ht; discriminate).
  all: assert (Htm : forall id, In (NextTrickTimer id) rest ->
                                hasPlayer id (players (game w)))
         by (intros id Hid; apply (wf_timer w Hwf); rewrite Ht; now right).
  - destruct (scoredGame_facts (game w)) as [Hph [Htr _]].
    pose proof (scoredGame_sameIds (game w)) as Hsame.
    revert Hph Htr Hsame. generalize (scoredGame (game w)) as g1.
    intros g1 Hph Htr Hsame.
    apply (wf_build w _ _ _ Hwf); try assumption.
    + intros _. now left.
    + rewrite Htr. apply (wf_lead w Hwf).
    + rewrite Htr. apply (wf_trick w Hwf).
    + intros id Hin. apply in_app_or in Hin. destruct Hin as [Hin|[Hin|[]]].
      * now apply Htm.
      * discriminate Hin.
    + intros _. unfold started. rewrite Hph. discriminate.
  - destruct (nextTrickGame_facts (game w) wid) as [Hph [Htr [Hpl Hord]]].
    revert Hph Htr Hpl Hord. generalize (nextTrickGame (game w) wid) as g1.
    intros g1 Hph Htr Hpl Hord.
    apply (wf_build w _ _ _ Hwf); try assumption.
    + split; [now rewrite Hpl|exact Hord].
    + intros _. now left.
    + rewrite Htr. cbn. congruence.
    + rewrite Htr. cbn. intros e [].
    + intros _. unfold started. rewrite Hph. discriminate.
  - apply (wf_build w _ _ _ Hwf); try assumption.
    + split; reflexivity.
    + intros _. now left.
    + apply (wf_lead w Hwf).
    + apply (wf_trick w Hwf).
    + intros _. unfold started. cbn. discriminate.
  - destruct (roundGame_facts rnd (game w)) as [Hph [Htr _]].
    pose proof (roundGame_sameIds rnd (game w)) as Hsame.
    revert Hph Htr Hsame. generalize (roundGame rnd (game w)) as g1.
    intros g1 Hph Htr Hsame.
    apply (wf_build w _ _ _ Hwf); try assumption.
    + intros _. now left.
    + rewrite Htr. cbn. congruence.
    + rewrite Htr. cbn. intros e [].
    + intros _. unfold started. destruct Hph as [-> | ->]; discriminate.
Qed.

Lemma joinOutcome_wf (w : World) (pid name : string) (rnd : nat -> nat) (w' : World) :
  wf w -> ~ In pid (playerOrder (game w)) -> joinOutcome w pid name rnd w' -> wf w'.
Proof.
  intros Hwf Hfresh Hout.
  assert (Hj : forall outs, phase (game w) = WaitingForPlayers ->
            wf (mkWorld (joinedGame pid name (game w)) outs (timers w) (departed w))).
  { intros outs Hph.
    destruct (joinedGame_order w pid name Hwf Hfresh) as [Hord [Hnd Hpl]].
    destruct (joinedGame_facts pid name (game w)) as [Hph' [Htr _]].
    assert (Hsup : forall id, hasPlayer id (players (game w)) ->
                              hasPlayer id (players (joinedGame pid name (game w)))).
    { intros id Hid. unfold hasPlayer in *. rewrite Hpl, map_app.
      apply in_or_app. now left. }
    revert Hord Hnd Hpl Hph' Htr Hsup. generalize (joinedGame pid name (game w)) as g1.
    intros g1 Hord Hnd Hpl Hph' Htr Hsup.
    constructor; cbn [game timers departed].
    - exact Hord.
    - exact Hnd.
    - intros Hst. exfalso. apply Hst. now rewrite Hph'.
    - rewrite Htr. apply (wf_lead w Hwf).
    - rewrite Htr. intros e He. apply Hsup. now apply (wf_trick w Hwf).
    - intros id Hid. apply Hsup. now apply (wf_timer w Hwf).
    - intros Ht. exfalso. apply (wf_pending w Hwf Ht). exact Hph. }
  destruct Hout as [_|outs Hph Hlen Hn|outs Hph Hlen Hn].
  - exact Hwf.
  - now apply Hj.
  - specialize (Hj (outbox w) Hph).
    destruct (roundGame_facts rnd (joinedGame pid name (game w))) as [Hph' [Htr _]].
    pose proof (roundGame_sameIds rnd (joinedGame pid name (game w))) as Hsame.
    revert Hph' Htr Hsame.
    generalize (roundGame rnd (joinedGame pid name (game w))) as g2.
    intros g2 Hph' Htr Hsame.
    apply (wf_build _ g2 _ _ Hj); cbn [game timers departed].
    + exact Hsame.
    + intros _. now right.
    + rewrite Htr. cbn. congruence.
    + rewrite Htr. cbn. intros e [].
    + apply (wf_timer _ Hj).
    + intros _. unfold started. destruct Hph' as [-> | ->]; discriminate.
Qed.

Lemma wf_newWorld : wf newWorld.
Proof.
  constructor; cbn.
  - reflexivity.
  - constructor.
  - intros H. exfalso. now apply H.
  - congruence.
  - intros e [].
  - intros id [].
  - congruence.
Qed.

Lemma step_message_wf (w : World) (pid : string) (m : ClientMessage) :
  wf w -> wf (handleMessage pid m w).
Proof.
  intros Hwf.
  destruct (getPlayer pid (players (game w))) as [player|] eqn:Hp.
  - destruct (rejection (game w) player m) as [reason|] eqn:Hrej.
    + rewrite (handleMessage_rejected w pid m player reason Hp Hrej).
      now apply wf_addOut.
    + eapply msgOutcome_wf; eauto. now apply handleMessage_accepted.
  - now rewrite handleMessage_unknown.
Qed.

(** Every reachable world is well-formed. *)
Lemma reach_wf (ok : ClientMessage -> Prop) (w : World) (pile : list Card) :
  reach ok w pile -> wf w.
Proof.
  induction 1 as [|w pile pid name rnd Hr IH Hfresh|w pile pid m Hr IH Hok
                  |w pile rnd Hr IH].
  - apply wf_newWorld.
  - eapply joinOutcome_wf; eauto. cbn [step]. now apply addPlayer_outcome.
  - cbn [step]. now apply step_message_wf.
  - eapply timerOutcome_wf; eauto. cbn [step]. now apply fireTimer_outcome.
Qed.

Lemma newOutput_app (w w' : World) (outs : list Outgoing) :
  outbox w' = outbox w ++ outs -> newOutput w w' = outs.
Proof.
  intros H. unfold newOutput. rewrite H, skipn_app, skipn_all, Nat.sub_diag.
  reflexivity.
Qed.

(** C8. In every reachable world, for every command of a participant: if
    the command is turned down (it comes in the wrong phase or out of turn,
    the play is illegal, or the pass selection is invalid) the game (hands,
    trick, scores, phase, turn pointer, hearts-broken flag, pass staging)
    and the pending timers are exactly as before, and the only notice sent
    is the reason, addressed to the sender; no command that is carried out
    produces an error notice, so these are all the rejections there are. A
    message of a sender who is not a participant changes nothing and is not
    answered. *)
Theorem rejected_command_changes_nothing (w : World) (pid : string) (m : ClientMessage) :
  reachable w ->
  let w' := handleMessage pid m w in
  match getPlayer pid (players (game w)) with
  | Some player =>
      match rejection (game w) player m with
      | Some reason =>
          game w' = game w /\ timers w' = timers w
          /\ newOutput w w' = [SendToPlayer pid (ErrorMsg reason)]
      | None => existsb isErrorOut (newOutput w w') = false
      end
  | None => w' = w
  end.
Proof.
  intros [pile Hreach]. cbv zeta.
  pose proof (reach_wf _ _ _ Hreach) as Hwf.
  destruct (getPlayer pid (players (game w))) as [player|] eqn:Hp.
  - destruct (rejection (game w) player m) as [reason|] eqn:Hrej.
    + rewrite (handleMessage_rejected w pid m player reason Hp Hrej).
      split; [reflexivity|]. split; [reflexivity|].
      now apply newOutput_app.
    + destruct (msgOutcome_sent _ _ _ _ _ (handleMessage_accepted w pid player m Hwf Hp Hrej))
        as [outs [Ho Hn]].
      rewrite (newOutput_app _ _ _ Ho). exact Hn.
  - now apply handleMessage_unknown.
Qed.


(** ** Moving cards around *)

Lemma flat_map_perm_ext {A : Type} (f g : A -> list Card) (l : list A) :
  (forall x, In x l -> Permutation (f x) (g x)) ->
  Permutation (flat_map f l) (flat_map g l).
Proof.
  induction l as [|x l IH]; intros H; simpl; [reflexivity|].
  apply Permutation_app; [apply H; now left|].
  apply IH. intros y Hy. apply H. now right.
Qed.

(** With distinct ids, a player found by id sits at one place of the list,
    and an update by id touches that place only. *)
Lemma update_split (pid : string) (ps : list Player) (q : Player) :
  NoDup (map p_id ps) ->
  getPlayer pid ps = Some q ->
  exists pre post,
    ps = pre ++ q :: post
    /\ forall f, updatePlayer pid f ps = pre ++ f q :: post.
Proof.
  induction ps as [|p ps IH]; intros Hnd Hq; [discriminate Hq|].
  cbn [map] in Hnd. inversion Hnd as [|x l Hnotin Hnd']; subst.
  unfold getPlayer in Hq. cbn [find] in Hq.
  destruct (String.eqb (p_id p) pid) eqn:E.
  - injection Hq as <-. apply String.eqb_eq in E.
    exists [], ps. split; [reflexivity|]. intros f. cbn [updatePlayer map app].
    rewrite (proj2 (String.eqb_eq _ _) E). f_equal.
    unfold updatePlayer in *. rewrite <- (map_id ps) at 2. apply map_ext_in.
    intros a Ha. destruct (String.eqb (p_id a) pid) eqn:Ea; [|reflexivity].
    apply String.eqb_eq in Ea. exfalso. apply Hnotin. rewrite E, <- Ea.
    now apply in_map.
  - destruct (IH Hnd' Hq) as [pre [post [Hps Hup]]].
    exists (p :: pre), post. split; [now rewrite Hps|].
    intros f. cbn [updatePlayer map app]. rewrite E. f_equal. apply Hup.
Qed.

Lemma flat_map_update_same {B : Type} (F : Player -> list B) (id : string)
    (f : Player -> Player) (ps : list Player) :
  (forall p, F (f p) = F p) ->
  flat_map F (updatePlayer id f ps) = flat_map F ps.
Proof.
  intros H. induction ps as [|p ps IH]; simpl; [reflexivity|].
  rewrite IH. destruct (String.eqb (p_id p) id); [now rewrite H|reflexivity].
Qed.

Lemma removeFirst_perm (c : Card) (h h' : list Card) :
  removeFirst c h = Some h' -> Permutation h (c :: h').
Proof.
  revert h'. induction h as [|x h IH]; intros h' H; [discriminate H|].
  cbn [removeFirst] in H. destruct (sameCard x c) eqn:E.
  - injection H as <-. apply sameCard_eq in E. now subst.
  - destruct (removeFirst c h) as [h0|]; [|discriminate H].
    injection H as <-. rewrite (IH h0 eq_refl). apply perm_swap.
Qed.

Lemma filter_partition_perm (f : Card -> bool) (h : list Card) :
  Permutation h (filter (fun x => negb (f x)) h ++ filter f h).
Proof.
  induction h as [|x h IH]; simpl; [reflexivity|].
  destruct (f x); simpl.
  - rewrite <- Permutation_middle. now constructor.
  - now constructor.
Qed.

Lemma existsb_sameCard (cs : list Card) (x : Card) :
  existsb (fun p => sameCard p x) cs = true <-> In x cs.
Proof.
  rewrite existsb_exists. split.
  - intros [p [Hin He]]. apply sameCard_eq in He. now subst.
  - intros H. exists x. split; [exact H|apply sameCard_refl].
Qed.

(** Taking a selection of distinct cards of the hand out of the hand. *)
Lemma filter_pass_perm (h cs : list Card) :
  NoDup h -> NoDup cs -> incl cs h ->
  Permutation h
    (filter (fun x => negb (existsb (fun p => sameCard p x) cs)) h ++ cs).
Proof.
  intros Hh Hcs Hin.
  rewrite (filter_partition_perm (fun x => existsb (fun p => sameCard p x) cs) h) at 1.
  apply Permutation_app_head. apply NoDup_Permutation.
  - now apply NoDup_filter.
  - exact Hcs.
  - intros x. rewrite filter_In, existsb_sameCard. split; [tauto|].
    intros Hx. split; [now apply Hin|exact Hx].
Qed.

Lemma suitStr_first (s : Suit) : exists a, suitStr s = String a EmptyString.
Proof. destruct s; eexists; reflexivity. Qed.

Lemma suitStr_inj (s t : Suit) : suitStr s = suitStr t -> s = t.
Proof. destruct s, t; simpl; intros H; try reflexivity; discriminate H. Qed.

Lemma rankStr_inj (r t : Rank) : rankStr r = rankStr t -> r = t.
Proof. destruct r, t; simpl; intros H; try reflexivity; discriminate H. Qed.

(** The string key of the hand set identifies the card. *)
Lemma cardKey_inj (c d : Card) : cardKey c = cardKey d -> c = d.
Proof.
  destruct c as [s r], d as [s' r']. unfold cardKey. cbn [suit rank].
  destruct (suitStr_first s) as [a Ha], (suitStr_first s') as [a' Ha'].
  intros H. pose proof H as H0. rewrite Ha, Ha' in H0. cbn [String.append] in H0.
  injection H0 as Hc Hr.
  assert (Hs : s = s').
  { apply suitStr_inj. rewrite Ha, Ha'. now subst. }
  subst s'. f_equal. now apply rankStr_inj.
Qed.

Lemma handSet_has (c : Card) (h : list Card) :
  existsb (String.eqb (cardKey c)) (map cardKey h) = true -> In c h.
Proof.
  rewrite existsb_exists. intros [k [Hin He]].
  apply String.eqb_eq in He. apply in_map_iff in Hin.
  destruct Hin as [d [Hd Hin]]. rewrite <- Hd in He.
  apply cardKey_inj in He. now subst.
Qed.

Lemma passRejection_none (player : Player) (cs : list Card) :
  passRejection player cs = None ->
  cardsToPass player = None /\ incl cs (hand player) /\ List.length cs = 3%nat.
Proof.
  unfold passRejection. intros H.
  destruct (len cs =? PASS_COUNT) eqn:El; cbn [negb] in H; [|discriminate H].
  destruct (cardsToPass player); [discriminate H|].
  destruct (forallb _ cs) eqn:Ef; cbn [negb] in H; [|discriminate H].
  split; [reflexivity|]. split.
  - intros c Hc. rewrite forallb_forall in Ef. apply handSet_has. now apply Ef.
  - apply Z.eqb_eq in El. unfold len, PASS_COUNT in El. lia.
Qed.


(** ** Shuffling and dealing *)

Transparent createDeck shuffleDeck dealLoop sortBy.

Lemma replace_perm (l : list Card) (i : nat) (a x : Card) :
  nth_error l i = Some a ->
  Permutation (a :: (firstn i l ++ x :: skipn (S i) l)) (x :: l).
Proof.
  intros H. destruct (nth_error_split l i H) as [l1 [l2 [Hl Hlen]]].
  subst l. rewrite <- Hlen.
  rewrite firstn_app, firstn_all, Nat.sub_diag, firstn_O, app_nil_r.
  replace (S (List.length l1)) with (List.length l1 + 1)%nat by lia.
  rewrite skipn_app, skipn_all2 by lia.
  replace (List.length l1 + 1 - List.length l1)%nat with 1%nat by lia.
  cbn [skipn app].
  rewrite <- !Permutation_middle. apply perm_swap.
Qed.

Lemma replace_nth (l : list Card) (i j : nat) (a x : Card) :
  nth_error l i = Some a ->
  nth_error (firstn i l ++ x :: skipn (S i) l) j
  = if Nat.eqb j i then Some x else nth_error l j.
Proof.
  intros H. destruct (nth_error_split l i H) as [l1 [l2 [Hl Hlen]]].
  subst l. rewrite <- Hlen.
  rewrite firstn_app, firstn_all, Nat.sub_diag, firstn_O, app_nil_r.
  replace (S (List.length l1)) with (List.length l1 + 1)%nat by lia.
  rewrite skipn_app, skipn_all2 by lia.
  replace (List.length l1 + 1 - List.length l1)%nat with 1%nat by lia.
  cbn [skipn app].
  destruct (Nat.eqb_spec j (List.length l1)) as [->|Hne].
  - rewrite nth_error_app2 by lia. now rewrite Nat.sub_diag.
  - destruct (Nat.lt_ge_cases j (List.length l1)) as [Hlt|Hge].
    + now rewrite !nth_error_app1 by lia.
    + rewrite !nth_error_app2 by lia.
      destruct (j - List.length l1)%nat as [|k] eqn:Ek; [lia|]. reflexivity.
Qed.

Lemma swap_perm (i j : nat) (l : list Card) : Permutation (swap i j l) l.
Proof.
  unfold swap.
  destruct (nth_error l i) as [ci|] eqn:Ei; [|reflexivity].
  destruct (nth_error l j) as [cj|] eqn:Ej; [|reflexivity].
  cbv zeta.
  assert (Hj : nth_error (firstn i l ++ cj :: skipn (S i) l) j = Some cj).
  { rewrite (replace_nth l i j ci cj Ei). destruct (Nat.eqb j i); [reflexivity|exact Ej]. }
  apply (Permutation_cons_inv (a := cj)).
  rewrite (replace_perm _ j cj ci Hj).
  apply (replace_perm l i ci cj Ei).
Qed.

Lemma shuffleDeck_perm (rnd : nat -> nat) (d : list Card) :
  Permutation (shuffleDeck rnd d) d.
Proof.
  unfold shuffleDeck. generalize (Nat.pred (List.length d)) as i.
  intros i. revert d. induction i as [|i IH]; intros d; simpl; [reflexivity|].
  rewrite IH. apply swap_perm.
Qed.

Lemma at_some {A : Type} (l : list A) (i : Z) :
  0 <= i < len l -> exists x, at_ l i = Some x /\ In x l.
Proof.
  intros [H0 H1]. unfold at_. destruct (Z.ltb_spec i 0) as [H|H]; [lia|].
  destruct (nth_error l (Z.to_nat i)) as [x|] eqn:E.
  - exists x. split; [reflexivity|]. now apply nth_error_In in E.
  - apply nth_error_None in E. unfold len in H1. lia.
Qed.

(** The seat served next gets the card; nobody else's hand changes. *)
Lemma push_card_perm (pid : string) (c : Card) (ps : list Player) :
  NoDup (map p_id ps) -> hasPlayer pid ps ->
  Permutation
    (flat_map hand (updatePlayer pid (fun p => set_hand (hand p ++ [c]) p) ps))
    (c :: flat_map hand ps).
Proof.
  intros Hnd Hhas. destruct (getPlayer_has pid ps Hhas) as [q Hq].
  destruct (update_split pid ps q Hnd Hq) as [pre [post [Hps Hup]]].
  rewrite Hup. rewrite Hps.
  rewrite !flat_map_app. cbn [flat_map hand set_hand].
  rewrite <- app_assoc. cbn [app].
  rewrite <- !Permutation_middle. reflexivity.
Qed.

Lemma dealLoop_perm (order : list string) (d : list Card) (ps : list Player) :
  NoDup (map p_id ps) -> order = map p_id ps -> List.length ps = 4%nat ->
  Permutation (flat_map hand (dealLoop order d ps)) (flat_map hand ps ++ d).
Proof.
  intros Hnd Hord H4. unfold dealLoop.
  assert (H : forall acc,
    0 <= fst acc -> map p_id (snd acc) = map p_id ps ->
    Permutation
      (flat_map hand (snd (fold_left
         (fun (acc : Z * list Player) c =>
            (fst acc + 1,
             match at_ order (Z.rem (fst acc) MAX_PLAYERS) with
             | Some pid => updatePlayer pid (fun p => set_hand (hand p ++ [c]) p) (snd acc)
             | None => snd acc
             end)) d acc)))
      (flat_map hand (snd acc) ++ d)).
  { induction d as [|c d IH]; intros acc Hi Hids; cbn [fold_left].
    - now rewrite app_nil_r.
    - destruct (at_some order (Z.rem (fst acc) MAX_PLAYERS)) as [pid [Hat Hin]].
      { pose proof (Z.rem_bound_pos (fst acc) MAX_PLAYERS Hi) as Hb.
        unfold MAX_PLAYERS in *. unfold len. rewrite Hord, length_map, H4.
        lia. }
      rewrite Hat. rewrite IH; cbn [fst snd].
      + rewrite push_card_perm.
        * rewrite <- Permutation_middle. reflexivity.
        * now rewrite Hids.
        * unfold hasPlayer. rewrite Hids, <- Hord. exact Hin.
      + lia.
      + rewrite updatePlayer_ids by reflexivity. exact Hids. }
  apply (H (0, ps)); [cbn; lia|reflexivity].
Qed.

Lemma dealLoop_staging (order : list string) (d : list Card) (ps : list Player) :
  Forall (fun p => cardsToPass p = None /\ receivedCards p = None) ps ->
  Forall (fun p => cardsToPass p = None /\ receivedCards p = None)
    (dealLoop order d ps).
Proof.
  unfold dealLoop. generalize 0 as i. revert ps.
  induction d as [|c d IH]; intros ps i H; cbn [fold_left snd fst]; [exact H|].
  apply IH. destruct (at_ order (Z.rem i MAX_PLAYERS)); [|exact H].
  unfold updatePlayer. rewrite Forall_map. revert H. apply Forall_impl.
  intros p Hp. destruct (String.eqb (p_id p) s); exact Hp.
Qed.

Lemma staged_none (ps : list Player) :
  Forall (fun p => cardsToPass p = None /\ receivedCards p = None) ps ->
  flat_map staged ps = [].
Proof.
  induction 1 as [|p ps [H1 H2] _ IH]; [reflexivity|].
  cbn [flat_map]. unfold staged at 1. now rewrite H1, H2, IH.
Qed.

(** A freshly dealt table of four holds the 52 cards in its hands, and
    nothing in the trick or in pass staging. *)
Lemma dealtGame_cards (rnd : nat -> nat) (g : Game) :
  playerOrder g = map p_id (players g) ->
  NoDup (playerOrder g) ->
  List.length (players g) = 4%nat ->
  Permutation (cardsInPlay (dealtGame rnd g)) createDeck
  /\ Forall (fun p => receivedCards p = None) (players (dealtGame rnd g)).
Proof.
  intros Hord Hnd H4.
  assert (Hst : Forall (fun p => cardsToPass p = None /\ receivedCards p = None)
                  (players (dealtGame rnd g))).
  { unfold dealtGame. cbn [players set_players set_deck set_passingDirection
                           set_currentTrick set_heartsBroken set_roundNumber
                           playerOrder deck].
    rewrite Forall_map.
    eapply Forall_impl; [|apply dealLoop_staging].
    - intros p Hp. exact Hp.
    - rewrite Forall_map. apply Forall_forall. intros p _. split; reflexivity. }
  split.
  - unfold cardsInPlay, allHands, allStaged, trickCards.
    rewrite (staged_none _ Hst).
    change (currentTrick (dealtGame rnd g)) with createEmptyTrick.
    cbn [cards createEmptyTrick map]. rewrite !app_nil_r.
    unfold dealtGame. cbn [players set_players set_deck set_passingDirection
                           set_currentTrick set_heartsBroken set_roundNumber
                           playerOrder deck].
    rewrite flat_map_concat_map, map_map, <- flat_map_concat_map.
    rewrite (flat_map_perm_ext _ hand)
      by (intros p _; cbn [hand set_hand]; apply sortBy_perm).
    rewrite dealLoop_perm.
    + rewrite flat_map_concat_map, map_map, <- flat_map_concat_map.
      replace (flat_map (fun x => hand (resetForNewRound x)) (players g)) with (@nil Card).
      * cbn [app]. apply shuffleDeck_perm.
      * clear. induction (players g) as [|p ps IH]; [reflexivity|]. exact IH.
    + rewrite map_ids_ext by reflexivity. now rewrite <- Hord.
    + rewrite map_ids_ext by reflexivity. exact Hord.
    + now rewrite length_map.
  - revert Hst. apply Forall_impl. tauto.
Qed.

Opaque createDeck shuffleDeck dealLoop sortBy.


(** ** Card conservation *)

Lemma count_perm (l l' : list Card) :
  Permutation l l' -> forall x, count_occ Card_eq_dec l x = count_occ Card_eq_dec l' x.
Proof. intros H. now apply (Permutation_count_occ Card_eq_dec). Qed.

Lemma perm_count (l l' : list Card) :
  (forall x, count_occ Card_eq_dec l x = count_occ Card_eq_dec l' x) -> Permutation l l'.
Proof. intros H. now apply (Permutation_count_occ Card_eq_dec). Qed.

Lemma cardsInPlay_eq (g g' : Game) :
  players g' = players g ->
  cards (currentTrick g') = cards (currentTrick g) ->
  cardsInPlay g' = cardsInPlay g.
Proof.
  intros Hp Ht. unfold cardsInPlay, allHands, allStaged, trickCards.
  now rewrite Hp, Ht.
Qed.

Lemma conserved_same (w : World) (pile : list Card) (g' : Game)
    (out' : list Outgoing) (tm' : list Timer) {dp : list Player} :
  conserved w pile ->
  players g' = players (game w) ->
  cards (currentTrick g') = cards (currentTrick (game w)) ->
  (started g' <-> started (game w)) ->
  conserved (mkWorld g' out' tm' dp) pile.
Proof.
  intros [Hc Hr Hp] Hpl Htr Hst. constructor; cbn [game].
  - intros H. rewrite (cardsInPlay_eq _ _ Hpl Htr). apply Hc. now apply Hst.
  - now rewrite Hpl.
  - intros H. apply Hp. intros H'. apply H. now apply Hst.
Qed.

Lemma NoDup_flat_map_in {A : Type} (f : A -> list Card) (pre post : list A) (q : A) :
  NoDup (flat_map f (pre ++ q :: post)) -> NoDup (f q).
Proof.
  rewrite flat_map_app. cbn [flat_map]. intros H.
  apply NoDup_app_remove_l in H. now apply NoDup_app_remove_r in H.
Qed.

(** Storing a selection of distinct cards keeps every card. *)
Lemma select_conserves (g : Game) (pid : string) (player : Player) (cs : list Card) :
  NoDup (map p_id (players g)) ->
  getPlayer pid (players g) = Some player ->
  passRejection player cs = None ->
  NoDup cs ->
  NoDup (allHands g) ->
  receivedCards player = None ->
  Permutation (cardsInPlay (selectGame g pid cs)) (cardsInPlay g)
  /\ (Forall (fun p => receivedCards p = None) (players g) ->
      Forall (fun p => receivedCards p = None) (players (selectGame g pid cs))).
Proof.
  intros Hnd Hp Hrej Hcs Hh Hrc.
  destruct (passRejection_none _ _ Hrej) as [Hnone [Hincl _]].
  destruct (update_split pid (players g) player Hnd Hp) as [pre [post [Hps Hup]]].
  unfold cardsInPlay, allHands, allStaged, trickCards in *.
  destruct (selectGame_facts g pid cs) as [_ [Htr _]]. rewrite Htr.
  unfold selectGame. cbn [players set_players]. rewrite Hup. rewrite Hps in *.
  split.
  - assert (Hs1 : staged player = []) by (unfold staged; now rewrite Hnone, Hrc).
    assert (Hs2 : forall h, staged (set_hand h (set_cardsToPass (Some cs) player)) = cs).
    { intros h. unfold staged. cbn [cardsToPass receivedCards set_hand set_cardsToPass].
      rewrite Hrc. apply app_nil_r. }
    rewrite !flat_map_app. cbn [flat_map]. rewrite Hs1, Hs2. cbn [hand set_hand].
    pose proof (filter_pass_perm (hand player) cs
                  (NoDup_flat_map_in hand pre post player Hh) Hcs Hincl) as Hperm.
    apply perm_count. intros x. pose proof (count_perm _ _ Hperm x) as Hx.
    rewrite !count_occ_app in *. cbn [count_occ]. lia.
  - rewrite !Forall_app. intros [H1 H2]. split; [exact H1|].
    inversion H2; subst. constructor; assumption.
Qed.


Lemma count_sort (l : list Card) (x : Card) :
  count_occ Card_eq_dec (sortBy compareCards l) x = count_occ Card_eq_dec l x.
Proof. apply count_perm, sortBy_perm. Qed.

Lemma Forall_update (P : Player -> Prop) (id : string) (f : Player -> Player)
    (ps : list Player) :
  (forall q, P q -> P (f q)) -> Forall P ps -> Forall P (updatePlayer id f ps).
Proof.
  intros Hf H. unfold updatePlayer. rewrite Forall_map. revert H.
  apply Forall_impl. intros p Hp. destruct (String.eqb (p_id p) id); auto.
Qed.

(** Handing the selections over keeps every card. *)
Lemma pass_conserves (dir : PassingDirection) (p0 p1 p2 p3 : Player) (g : Game) :
  players g = [p0; p1; p2; p3] ->
  Forall (fun p => receivedCards p = None) (players g) ->
  Permutation (cardsInPlay (passedGame dir p0 p1 p2 p3 g)) (cardsInPlay g)
  /\ Forall (fun p => receivedCards p = None) (players (passedGame dir p0 p1 p2 p3 g)).
Proof.
  intros Hps Hrc.
  destruct (passedGame_facts dir p0 p1 p2 p3 g) as [_ [Htr Hpl]].
  unfold cardsInPlay, allHands, allStaged, trickCards. rewrite Htr, Hpl.
  rewrite Hps in *.
  inversion Hrc as [|? ? H0 Hrc1]; subst. inversion Hrc1 as [|? ? H1 Hrc2]; subst.
  inversion Hrc2 as [|? ? H2 Hrc3]; subst. inversion Hrc3 as [|? ? H3 _]; subst.
  assert (Hst : forall p, receivedCards p = None -> staged p = passOf p).
  { intros p Hp. unfold staged, passOf. rewrite Hp. apply app_nil_r. }
  assert (Hrs : forall p src, staged (receive p src) = []) by reflexivity.
  assert (Hrh : forall p src, hand (receive p src) = sortBy compareCards (hand p ++ src))
    by reflexivity.
  split.
  - apply perm_count. intros x.
    destruct dir; cbn [passedPlayers flat_map];
      rewrite ?Hrs, ?Hrh, ?(Hst p0 H0), ?(Hst p1 H1), ?(Hst p2 H2), ?(Hst p3 H3);
      repeat (rewrite ?count_occ_app, ?count_sort; cbn [app count_occ]); lia.
  - destruct dir; cbn [passedPlayers]; repeat constructor; assumption.
Qed.

(** Moving the played card from the hand to the trick keeps every card. *)
Lemma play_conserves (g : Game) (pid : string) (player : Player) (c : Card)
    (h' : list Card) :
  NoDup (map p_id (players g)) ->
  getPlayer pid (players g) = Some player ->
  removeFirst c (hand player) = Some h' ->
  Permutation (cardsInPlay (playedGame g pid c h')) (cardsInPlay g)
  /\ (Forall (fun p => receivedCards p = None) (players g) ->
      Forall (fun p => receivedCards p = None) (players (playedGame g pid c h'))).
Proof.
  intros Hnd Hp Hh.
  destruct (playedGame_facts g pid c h') as [_ [Hcards [_ Hpl]]].
  destruct (update_split pid (players g) player Hnd Hp) as [pre [post [Hps Hup]]].
  unfold cardsInPlay, allHands, allStaged, trickCards. rewrite Hcards, Hpl.
  split.
  - rewrite (flat_map_update_same staged) by reflexivity.
    rewrite Hup, Hps. rewrite !flat_map_app. cbn [flat_map hand set_hand].
    rewrite map_app. cbn [map card].
    pose proof (removeFirst_perm c (hand player) h' Hh) as Hperm.
    apply perm_count. intros x. pose proof (count_perm _ _ Hperm x) as Hx.
    rewrite !count_occ_app in *. cbn [count_occ] in *.
    destruct (Card_eq_dec c x); lia.
  - apply Forall_update. intros q Hq. exact Hq.
Qed.

Lemma trickDone_conserves (g : Game) (wid : string) :
  cardsInPlay (trickDoneGame g wid) = cardsInPlay g
  /\ (Forall (fun p => receivedCards p = None) (players g) ->
      Forall (fun p => receivedCards p = None) (players (trickDoneGame g wid))).
Proof.
  unfold trickDoneGame. cbv zeta.
  unfold cardsInPlay, allHands, allStaged, trickCards.
  cbn [players set_players currentTrick set_currentTrick set_phase cards].
  split.
  - rewrite (flat_map_update_same hand) by reflexivity.
    rewrite (flat_map_update_same staged) by reflexivity. reflexivity.
  - apply Forall_update. intros q Hq. exact Hq.
Qed.

Lemma applyRoundScores_keeps {B : Type} (F : Player -> B) (ps : list Player) :
  (forall s p, F (set_score s p) = F p) ->
  map F (applyRoundScores ps) = map F ps.
Proof.
  intros HF. unfold applyRoundScores. destruct (findShooter ps) as [sh|];
    rewrite map_map; apply map_ext; intros p; [|apply HF].
  destruct (String.eqb (p_id p) (p_id sh)); apply HF.
Qed.

Lemma scored_conserves (g : Game) :
  cardsInPlay (scoredGame g) = cardsInPlay g
  /\ (Forall (fun p => receivedCards p = None) (players g) ->
      Forall (fun p => receivedCards p = None) (players (scoredGame g))).
Proof.
  destruct (scoredGame_facts g) as [_ [Htr Hpl]].
  unfold cardsInPlay, allHands, allStaged, trickCards. rewrite Htr, Hpl.
  split.
  - rewrite !flat_map_concat_map.
    rewrite (applyRoundScores_keeps hand) by reflexivity.
    rewrite (applyRoundScores_keeps staged) by reflexivity. reflexivity.
  - intros H. apply Forall_forall. intros p Hp.
    assert (Hin : In (receivedCards p) (map receivedCards (applyRoundScores (players g))))
      by now apply in_map.
    rewrite (applyRoundScores_keeps receivedCards) in Hin by reflexivity.
    apply in_map_iff in Hin. destruct Hin as [q [Hq Hqin]].
    rewrite Forall_forall in H. rewrite <- Hq. now apply H.
Qed.


(** ** Conservation, event by event *)

Lemma conserved_build (w : World) (pile pile' : list Card) (g' : Game)
    (out' : list Outgoing) (tm' : list Timer) {dp : list Player} :
  conserved w pile -> started (game w) -> started g' ->
  Permutation (cardsInPlay g' ++ pile') (cardsInPlay (game w) ++ pile) ->
  Forall (fun p => receivedCards p = None) (players g') ->
  conserved (mkWorld g' out' tm' dp) pile'.
Proof.
  intros [Hc Hr Hp] Hst Hst' Hperm Hrc. constructor; cbn [game].
  - intros _. rewrite Hperm. now apply Hc.
  - exact Hrc.
  - intros H. contradiction.
Qed.

Lemma conserved_hands_NoDup (w : World) (pile : list Card) :
  conserved w pile -> started (game w) -> NoDup (allHands (game w)).
Proof.
  intros Hc Hst. pose proof (cons_cards w pile Hc Hst) as Hperm.
  apply Permutation_sym in Hperm.
  pose proof (Permutation_NoDup Hperm createDeck_NoDup) as Hnd.
  unfold cardsInPlay in Hnd. rewrite <- app_assoc in Hnd.
  now apply NoDup_app_remove_r in Hnd.
Qed.

Lemma rejection_started (g : Game) (player : Player) (m : ClientMessage) :
  rejection g player m = None -> m <> OtherMessage -> started g.
Proof.
  intros Hrej Hm Hw. destruct m as [cs|c|]; [| |congruence]; cbn [rejection] in Hrej;
    rewrite Hw in Hrej; discriminate.
Qed.

Lemma msgOutcome_conserved (w : World) (pid : string) (player : Player)
    (m : ClientMessage) (w' : World) (pile : list Card) :
  wf w -> conserved w pile -> distinctSelection m ->
  getPlayer pid (players (game w)) = Some player ->
  rejection (game w) player m = None ->
  msgOutcome w pid player m w' -> conserved w' pile.
Proof.
  intros Hwf Hc Hok Hp Hrej Hout.
  assert (Hids : NoDup (map p_id (players (game w)))).
  { rewrite <- (wf_order w Hwf). apply (wf_nodup w Hwf). }
  assert (Hrc : receivedCards player = None).
  { pose proof (cons_received w pile Hc) as H. rewrite Forall_forall in H.
    apply H. now apply (getPlayer_some pid). }
  pose proof (cons_received w pile Hc) as Hall.
  destruct Hout as [|cs outs Hpr Hne|cs dir p0 p1 p2 p3 outs Hpr Hps Hdir Hne
                    |c h' outs Hv Hh Hne|c h' wid outs Hv Hh Hwid Hne].
  - exact Hc.
  - assert (Hst : started (game w)) by (eapply rejection_started; eauto; discriminate).
    destruct (select_conserves (game w) pid player cs Hids Hp Hpr Hok
                (conserved_hands_NoDup w pile Hc Hst) Hrc) as [Hperm Hrec].
    apply (conserved_build w pile); [exact Hc|exact Hst|exact Hst| |now apply Hrec].
    now apply Permutation_app_tail.
  - assert (Hst : started (game w)) by (eapply rejection_started; eauto; discriminate).
    destruct (select_conserves (game w) pid player cs Hids Hp Hpr Hok
                (conserved_hands_NoDup w pile Hc Hst) Hrc) as [Hperm Hrec].
    destruct (pass_conserves dir p0 p1 p2 p3 _ Hps (Hrec Hall)) as [Hperm2 Hrec2].
    apply (conserved_build w pile); [exact Hc|exact Hst| | |exact Hrec2].
    + unfold started.
      rewrite (proj1 (passedGame_facts dir p0 p1 p2 p3 (selectGame (game w) pid cs))).
      discriminate.
    + apply Permutation_app_tail. now rewrite Hperm2.
  - assert (Hst : started (game w)) by (eapply rejection_started; eauto; discriminate).
    destruct (play_conserves (game w) pid player c h' Hids Hp Hh) as [Hperm Hrec].
    apply (conserved_build w pile); [exact Hc|exact Hst| | |now apply Hrec].
    + unfold started.
      rewrite (proj1 (advancedGame_facts (playedGame (game w) pid c h'))).
      rewrite (proj1 (playedGame_facts (game w) pid c h')). exact Hst.
    + apply Permutation_app_tail. rewrite <- Hperm.
      now rewrite (cardsInPlay_eq (playedGame (game w) pid c h')
                     (advancedGame (playedGame (game w) pid c h'))).
  - assert (Hst : started (game w)) by (eapply rejection_started; eauto; discriminate).
    destruct (play_conserves (game w) pid player c h' Hids Hp Hh) as [Hperm Hrec].
    destruct (trickDone_conserves (playedGame (game w) pid c h') wid) as [He Hrec2].
    apply (conserved_build w pile); [exact Hc|exact Hst| | |now apply Hrec2, Hrec].
    + unfold started.
      rewrite (proj1 (trickDoneGame_facts (playedGame (game w) pid c h') wid)).
      discriminate.
    + apply Permutation_app_tail. now rewrite He.
Qed.


Lemma roundGame_cards (rnd : nat -> nat) (g : Game) :
  playerOrder g = map p_id (players g) ->
  NoDup (playerOrder g) ->
  List.length (players g) = 4%nat ->
  Permutation (cardsInPlay (roundGame rnd g)) createDeck
  /\ Forall (fun p => receivedCards p = None) (players (roundGame rnd g))
  /\ started (roundGame rnd g).
Proof.
  intros Hord Hnd H4.
  destruct (dealtGame_cards rnd g Hord Hnd H4) as [Hperm Hrc].
  destruct (roundGame_facts rnd g) as [Hph [Htr Hpl]].
  assert (Htd : currentTrick (dealtGame rnd g) = createEmptyTrick) by reflexivity.
  split; [|split].
  - rewrite (cardsInPlay_eq (dealtGame rnd g) (roundGame rnd g)); [exact Hperm|exact Hpl|].
    now rewrite Htr, Htd.
  - now rewrite Hpl.
  - unfold started. destruct Hph as [-> | ->]; discriminate.
Qed.

Lemma timerOutcome_conserved (w : World) (rnd : nat -> nat) (w' : World)
    (pile : list Card) :
  wf w -> conserved w pile -> timerOutcome w rnd w' ->
  conserved w' (pileAfterTimer w pile).
Proof.
  intros Hwf Hc Hout. unfold pileAfterTimer.
  destruct Hout as [Ht|wid wp rest outs over Ht Hp Hh Hne|wid wp rest outs Ht Hp Hh Hne
                    |rest outs Ht Hne|rest outs Ht Hne]; rewrite Ht; try rewrite Hp.
  - exact Hc.
  - assert (Hst : started (game w)) by (apply (wf_pending w Hwf); rewrite Ht; discriminate).
    rewrite Hh. cbn [len List.length Z.of_nat Z.eqb].
    destruct (scored_conserves (game w)) as [He Hrc].
    apply (conserved_build w pile);
      [exact Hc|exact Hst| | |apply Hrc, (cons_received w pile Hc)].
    + unfold started. rewrite (proj1 (scoredGame_facts (game w))). discriminate.
    + now rewrite He.
  - assert (Hst : started (game w)) by (apply (wf_pending w Hwf); rewrite Ht; discriminate).
    destruct (len (hand wp) =? 0) eqn:El; [apply len_zero_nil in El; contradiction|].
    destruct (nextTrickGame_facts (game w) wid) as [Hph [Htr [Hpl _]]].
    apply (conserved_build w pile); [exact Hc|exact Hst| | |].
    + unfold started. rewrite Hph. discriminate.
    + unfold cardsInPlay, allHands, allStaged, trickCards at 1. rewrite Htr, Hpl.
      cbn [createEmptyTrick cards map app].
      apply perm_count. intros x. rewrite !count_occ_app. lia.
    + rewrite Hpl. apply (cons_received w pile Hc).
  - assert (Hst : started (game w)) by (apply (wf_pending w Hwf); rewrite Ht; discriminate).
    apply (conserved_build w pile);
      [exact Hc|exact Hst|discriminate|reflexivity|apply (cons_received w pile Hc)].
  - assert (Hst : started (game w)) by (apply (wf_pending w Hwf); rewrite Ht; discriminate).
    destruct (roundGame_cards rnd (game w) (wf_order w Hwf) (wf_nodup w Hwf)
                (wf_four w Hwf Hst)) as [Hperm [Hrc Hst']].
    constructor; cbn [game].
    + intros _. now rewrite app_nil_r.
    + exact Hrc.
    + reflexivity.
Qed.

Lemma joinOutcome_conserved (w : World) (pid name : string) (rnd : nat -> nat)
    (w' : World) (pile : list Card) :
  wf w -> ~ In pid (playerOrder (game w)) -> conserved w pile ->
  joinOutcome w pid name rnd w' -> conserved w' pile.
Proof.
  intros Hwf Hfresh Hc Hout.
  destruct (joinedGame_order w pid name Hwf Hfresh) as [Hord [Hnd Hpl]].
  destruct Hout as [_|outs Hph Hn4 Hne|outs Hph H4 Hne].
  - exact Hc.
  - constructor; cbn [game].
    + intros Hst. exfalso. apply Hst.
      now rewrite (proj1 (joinedGame_facts pid name (game w))).
    + rewrite Hpl. apply Forall_app. split; [apply (cons_received w pile Hc)|].
      repeat constructor.
    + intros _. apply (cons_pile w pile Hc). intros Hst. now apply Hst.
  - destruct (roundGame_cards rnd (joinedGame pid name (game w)) Hord Hnd H4)
      as [Hperm [Hrc Hst']].
    assert (Hpile : pile = []).
    { apply (cons_pile w pile Hc). intros Hst. now apply Hst. }
    constructor; cbn [game].
    + intros _. now rewrite Hpile, app_nil_r.
    + exact Hrc.
    + intros H. contradiction.
Qed.

Lemma conserved_newWorld : conserved newWorld [].
Proof.
  constructor.
  - intros H. exfalso. apply H. reflexivity.
  - constructor.
  - reflexivity.
Qed.

Lemma conserved_addOut (w : World) (pile : list Card) (outs : list Outgoing) :
  conserved w pile -> conserved (addOut outs w) pile.
Proof. intros [Hc Hr Hp]. constructor; assumption. Qed.

(** Cards are conserved along every session whose pass selections name no
    card twice. *)
Lemma reach_conserved (w : World) (pile : list Card) :
  reach distinctSelection w pile -> conserved w pile.
Proof.
  induction 1 as [|w pile pid name rnd Hr IH Hfresh|w pile pid m Hr IH Hok
                  |w pile rnd Hr IH].
  - apply conserved_newWorld.
  - pose proof (reach_wf _ _ _ Hr) as Hwf.
    eapply joinOutcome_conserved; eauto. cbn [step]. now apply addPlayer_outcome.
  - pose proof (reach_wf _ _ _ Hr) as Hwf. cbn [step].
    destruct (getPlayer pid (players (game w))) as [player|] eqn:Hp.
    + destruct (rejection (game w) player m) as [reason|] eqn:Hrej.
      * rewrite (handleMessage_rejected w pid m player reason Hp Hrej).
        now apply conserved_addOut.
      * eapply msgOutcome_conserved; eauto. now apply handleMessage_accepted.
    + now rewrite handleMessage_unknown.
  - pose proof (reach_wf _ _ _ Hr) as Hwf.
    eapply timerOutcome_conserved; eauto. cbn [step]. now apply fireTimer_outcome.
Qed.


(** ** Sessions *)

Lemma reach_run (ok : ClientMessage -> Prop) (evs : list Event) :
  forall (w : World) (pile : list Card),
    reach ok w pile -> admissible ok evs w ->
    reach ok (run evs w) (pileAfter evs w pile).
Proof.
  induction evs as [|ev rest IH]; intros w pile Hr Hadm; [exact Hr|].
  destruct Hadm as [Hev Hrest].
  change (run (ev :: rest) w) with (run rest (step ev w)).
  cbn [pileAfter]. apply IH; [|exact Hrest].
  destruct ev as [pid name rnd|pid m|rnd].
  - now apply reach_join.
  - now apply reach_message.
  - apply reach_timer. exact Hr.
Qed.

Lemma reach_weaken (ok ok' : ClientMessage -> Prop) (w : World) (pile : list Card) :
  (forall m, ok m -> ok' m) -> reach ok w pile -> reach ok' w pile.
Proof.
  intros Hok. induction 1; [apply reach_new|apply reach_join|apply reach_message
                            |apply reach_timer]; auto.
Qed.

Lemma reachable_of (w : World) (pile : list Card) :
  reach distinctSelection w pile -> reachable w.
Proof. intros H. exists pile. apply (reach_weaken distinctSelection); [|exact H]. easy. Qed.

Ltac fresh_id := let H := fresh in intros H; vm_compute in H; intuition discriminate.

Ltac distinct_cards :=
  repeat (apply NoDup_cons; [let H := fresh in intros H; cbn [In] in H; intuition discriminate|]);
  apply NoDup_nil.

Lemma reach_dealtWorld : reach distinctSelection dealtWorld [].
Proof.
  apply (reach_run distinctSelection joins newWorld [] (reach_new _)).
  cbn [admissible joins]. repeat split; fresh_id.
Qed.

Lemma reach_openingWorld : reach distinctSelection openingWorld [].
Proof.
  apply (reach_run distinctSelection passes dealtWorld [] reach_dealtWorld).
  cbn [admissible passes distinctSelection]. repeat split; distinct_cards.
Qed.

Lemma reach_lastToPlayWorld : reach distinctSelection lastToPlayWorld [].
Proof.
  apply (reach_run distinctSelection firstPlays openingWorld [] reach_openingWorld).
  cbn [admissible firstPlays distinctSelection]. repeat split.
Qed.

Lemma firstTrickPile_eq :
  pileAfterTimer
    (step (Message "b" (PlayCard (mkCard Spades Queen))) lastToPlayWorld) []
  = firstTrickPile.
Proof. vm_compute. reflexivity. Qed.

Lemma run_cons (ev : Event) (rest : list Event) (w : World) :
  run (ev :: rest) w = run rest (step ev w).
Proof. reflexivity. Qed.

Lemma run_nil (w : World) : run [] w = w.
Proof. reflexivity. Qed.

Lemma reach_timer_at (ok : ClientMessage -> Prop) (w : World) (pile pile' : list Card)
    (rnd : nat -> nat) :
  reach ok w pile -> pileAfterTimer w pile = pile' ->
  reach ok (step (TimerFires rnd) w) pile'.
Proof. intros H <-. now apply reach_timer. Qed.

Lemma reach_secondTrickWorld : reach distinctSelection secondTrickWorld firstTrickPile.
Proof.
  unfold secondTrickWorld. rewrite !run_cons, run_nil.
  apply reach_timer_at with (pile := []).
  - apply reach_message; [exact reach_lastToPlayWorld|exact I].
  - exact firstTrickPile_eq.
Qed.


(** ** Card conservation *)

(** C3, counterexample. In the sample session every selection names three
    different cards; after the first trick has been resolved and cleared off
    the table the round goes on in the playing phase with 48 cards in the
    hands, the trick and the pass staging: the four cards of the first
    trick are kept nowhere in the game. *)
Lemma cards_missing_after_first_trick :
  reach distinctSelection secondTrickWorld firstTrickPile
  /\ phase (game secondTrickWorld) = PlayingTrick
  /\ List.length (cardsInPlay (game secondTrickWorld)) = 48%nat
  /\ ~ Permutation (cardsInPlay (game secondTrickWorld)) createDeck.
Proof.
  assert (Hlen : List.length (cardsInPlay (game secondTrickWorld)) = 48%nat)
    by (vm_compute; reflexivity).
  split; [exact reach_secondTrickWorld|].
  split; [vm_compute; reflexivity|]. split; [exact Hlen|].
  intros H. apply Permutation_length in H. rewrite Hlen in H.
  vm_compute in H. discriminate H.
Qed.

(** C3, amended. In every state of a started round that a session reaches
    with pass selections naming no card twice, the hands of the four seats,
    the cards of the current trick and the cards held in pass staging,
    together with the cards of the tricks of the round already cleared off
    the table, are the 52 cards of the deck, each exactly once. *)
Theorem cards_conserved_with_cleared_tricks (w : World) (pile : list Card) :
  reach distinctSelection w pile ->
  started (game w) ->
  Permutation (cardsInPlay (game w) ++ pile) createDeck
  /\ NoDup (cardsInPlay (game w) ++ pile).
Proof.
  intros Hr Hst.
  pose proof (cons_cards w pile (reach_conserved w pile Hr) Hst) as Hperm.
  split; [exact Hperm|].
  apply (Permutation_NoDup (Permutation_sym Hperm)). apply createDeck_NoDup.
Qed.

Lemma cards_conserved_with_cleared_tricks_witness :
  (reach distinctSelection secondTrickWorld firstTrickPile
   /\ started (game secondTrickWorld))
  /\ Permutation (cardsInPlay (game secondTrickWorld) ++ firstTrickPile) createDeck
  /\ NoDup (cardsInPlay (game secondTrickWorld) ++ firstTrickPile).
Proof.
  assert (Hst : started (game secondTrickWorld)) by (vm_compute; discriminate).
  split; [split; [exact reach_secondTrickWorld|exact Hst]|].
  exact (cards_conserved_with_cleared_tricks secondTrickWorld firstTrickPile
           reach_secondTrickWorld Hst).
Defined.

(** ** Pass selections *)

(** C6, the code at the failing input. In round 1 (passing to the left)
    Ann, who holds the Two of Hearts once, selects it three times over. The
    validation of [handlePassCards] has no objection, no error is sent, and
    the selection is stored. Once the three other seats have selected, the
    pass is carried out: Ann is left with 15 cards, and Bob's 13 cards hold
    the Two of Hearts three times. *)
Theorem pass_repeated_card_accepted :
  let two := mkCard Hearts Two in
  phase (game dealtWorld) = Passing
  /\ passingDirection (game dealtWorld) = Some Left
  /\ (exists ann,
        getPlayer "a" (players (game dealtWorld)) = Some ann
        /\ count_occ Card_eq_dec (hand ann) two = 1%nat
        /\ passRejection ann [two; two; two] = None)
  /\ existsb isErrorOut (newOutput dealtWorld repeatedSelectionWorld) = false
  /\ option_map cardsToPass (getPlayer "a" (players (game repeatedSelectionWorld)))
     = Some (Some [two; two; two])
  /\ phase (game repeatedPassWorld) = PlayingTrick
  /\ map (fun p => List.length (hand p)) (players (game repeatedPassWorld))
     = [15; 13; 13; 13]%nat
  /\ map (fun p => count_occ Card_eq_dec (hand p) two) (players (game repeatedPassWorld))
     = [0; 3; 0; 0]%nat.
Proof.
  cbv zeta.
  do 2 (split; [vm_compute; reflexivity|]).
  split.
  - eexists. split; [vm_compute; reflexivity|]. split; vm_compute; reflexivity.
  - do 4 (split; [vm_compute; reflexivity|]). vm_compute. reflexivity.
Qed.


(** ** The statements at sample inputs *)

Lemma valid_moves_nonempty_except_opening_witness :
  exists bob,
    getPlayer "b" (players (game lastToPlayWorld)) = Some bob
    /\ hand bob <> []
    /\ calculateValidMoves (game lastToPlayWorld) bob <> []
    /\ incl (calculateValidMoves (game lastToPlayWorld) bob) (hand bob)
    /\ (naiveMoves (game lastToPlayWorld) bob = [] ->
        calculateValidMoves (game lastToPlayWorld) bob = hand bob).
Proof.
  eexists. split; [vm_compute; reflexivity|].
  assert (E : isFirstTrick (game lastToPlayWorld) = false) by (vm_compute; reflexivity).
  match goal with
  | |- hand ?p <> [] /\ _ =>
      assert (Hne : hand p <> []) by discriminate;
      pose proof (valid_moves_nonempty_except_opening (game lastToPlayWorld) p Hne) as H
  end.
  rewrite E in H. cbn [andb] in H. split; [discriminate|exact H].
Defined.

Lemma game_over_first_lowest_witness :
  (idsOk (game tiedWorld) /\ players (game tiedWorld) <> [])
  /\ exists k p,
       firstLowest (players (game tiedWorld)) k p
       /\ exists finalScores,
            outbox (final (endGame "Score limit reached." tiedWorld))
            = outbox tiedWorld
              ++ [Broadcast (GameOverMsg (Some (getPlayerInfo p)) finalScores
                               "Score limit reached.");
                  OnGameEnd]
            /\ announcedWinners (outbox (final (endGame "Score limit reached." tiedWorld)))
               = announcedWinners (outbox tiedWorld) ++ [getPlayerInfo p].
Proof.
  assert (Hok : idsOk (game tiedWorld)).
  { intros id Hin. exact Hin. }
  assert (Hne : players (game tiedWorld) <> []) by discriminate.
  split; [split; [exact Hok|exact Hne]|].
  exact (game_over_first_lowest "Score limit reached." tiedWorld Hok Hne).
Defined.

Lemma hearts_broken_after_play_witness :
  playAccepted (game lastToPlayWorld) "b" (mkCard Spades Queen) = true
  /\ (let w' := handleMessage "b" (PlayCard (mkCard Spades Queen)) lastToPlayWorld in
      heartsBroken (game w')
      = heartsBroken (game lastToPlayWorld) || Suit_beq (suit (mkCard Spades Queen)) Hearts
      /\ (isQueenOfSpades (mkCard Spades Queen) = true ->
          heartsBroken (game w') = heartsBroken (game lastToPlayWorld))
      /\ cards (currentTrick (game w'))
         = cards (currentTrick (game lastToPlayWorld))
           ++ [mkPlayed "b" (mkCard Spades Queen)]).
Proof.
  assert (Hacc : playAccepted (game lastToPlayWorld) "b" (mkCard Spades Queen) = true)
    by (vm_compute; reflexivity).
  split; [exact Hacc|].
  exact (hearts_broken_after_play lastToPlayWorld "b" (mkCard Spades Queen) Hacc).
Defined.

Lemma rejected_command_changes_nothing_witness :
  reachable dealtWorld
  /\ (let w' := handleMessage "a" (PlayCard (mkCard Clubs Four)) dealtWorld in
      match getPlayer "a" (players (game dealtWorld)) with
      | Some player =>
          match rejection (game dealtWorld) player (PlayCard (mkCard Clubs Four)) with
          | Some reason =>
              game w' = game dealtWorld /\ timers w' = timers dealtWorld
              /\ newOutput dealtWorld w' = [SendToPlayer "a" (ErrorMsg reason)]
          | None => existsb isErrorOut (newOutput dealtWorld w') = false
          end
      | None => w' = dealtWorld
      end).
Proof.
  assert (Hr : reachable dealtWorld) by exact (reachable_of dealtWorld [] reach_dealtWorld).
  split; [exact Hr|].
  exact (rejected_command_changes_nothing dealtWorld "a" (PlayCard (mkCard Clubs Four)) Hr).
Defined.


(** * Further properties of the code *)

(** ** card.ts *)

Transparent createDeck shuffleDeck dealLoop sortBy.

(** [createDeck] builds 52 cards and holds every card exactly once. *)
Theorem createDeck_each_card_once :
  List.length createDeck = 52%nat
  /\ forall c : Card, count_occ Card_eq_dec createDeck c = 1%nat.
Proof.
  split; [reflexivity|]. intros c.
  apply (proj1 (NoDup_count_occ' Card_eq_dec createDeck) createDeck_NoDup).
  apply createDeck_all.
Qed.

Lemma swap_short (i j : nat) (l : list Card) :
  (List.length l <= i)%nat -> swap i j l = l.
Proof.
  intros H. unfold swap. now rewrite (proj2 (nth_error_None l i) H).
Qed.

(** [shuffleDeck] rearranges the deck it is given, whatever the random
    source returns: the result has the same cards, each as often as
    before, and the same length; an empty deck and a deck of one card are
    returned as they are. *)
Theorem shuffleDeck_rearranges (rnd : nat -> nat) (d : list Card) :
  Permutation (shuffleDeck rnd d) d
  /\ List.length (shuffleDeck rnd d) = List.length d
  /\ (forall c, count_occ Card_eq_dec (shuffleDeck rnd d) c = count_occ Card_eq_dec d c)
  /\ ((List.length d <= 1)%nat -> shuffleDeck rnd d = d).
Proof.
  pose proof (shuffleDeck_perm rnd d) as Hp.
  split; [exact Hp|]. split; [now apply Permutation_length|].
  split; [intros c; now apply count_perm|].
  intros Hlen. unfold shuffleDeck.
  destruct d as [|x [|y d']]; [reflexivity|reflexivity|].
  cbn [List.length] in Hlen. lia.
Qed.

Lemma suitIndex_range (s : Suit) : 0 <= suitIndex s <= 3.
Proof. destruct s; vm_compute; split; discriminate. Qed.

Lemma rankIndex_range (r : Rank) : 0 <= rankIndex r <= 12.
Proof. destruct r; vm_compute; split; discriminate. Qed.

Lemma suitIndex_inj (s t : Suit) : suitIndex s = suitIndex t -> s = t.
Proof. destruct s, t; vm_compute; intros H; first [reflexivity|discriminate H]. Qed.

Lemma rankIndex_inj (r t : Rank) : rankIndex r = rankIndex t -> r = t.
Proof. destruct r, t; vm_compute; intros H; first [reflexivity|discriminate H]. Qed.

Lemma compareCards_key (a b : Card) :
  (compareCards a b <= 0
   <-> 13 * suitIndex (suit a) + rankIndex (rank a)
       <= 13 * suitIndex (suit b) + rankIndex (rank b))
  /\ (compareCards a b = 0
      <-> 13 * suitIndex (suit a) + rankIndex (rank a)
          = 13 * suitIndex (suit b) + rankIndex (rank b))
  /\ compareCards b a = - compareCards a b.
Proof.
  unfold compareCards. cbv zeta. fold (suitIndex (suit a)) (suitIndex (suit b)).
  pose proof (suitIndex_range (suit a)). pose proof (suitIndex_range (suit b)).
  pose proof (rankIndex_range (rank a)). pose proof (rankIndex_range (rank b)).
  destruct (Z.eqb_spec (suitIndex (suit a) - suitIndex (suit b)) 0);
    destruct (Z.eqb_spec (suitIndex (suit b) - suitIndex (suit a)) 0);
    cbn [negb]; repeat split; intros; lia.
Qed.

Lemma compareCards_zero (a b : Card) : compareCards a b = 0 <-> a = b.
Proof.
  split.
  - intros H. apply (proj1 (proj1 (proj2 (compareCards_key a b)))) in H.
    pose proof (suitIndex_range (suit a)). pose proof (suitIndex_range (suit b)).
    pose proof (rankIndex_range (rank a)). pose proof (rankIndex_range (rank b)).
    assert (Hs : suitIndex (suit a) = suitIndex (suit b)) by lia.
    assert (Hr : rankIndex (rank a) = rankIndex (rank b)) by lia.
    apply suitIndex_inj in Hs. apply rankIndex_inj in Hr.
    destruct a, b. cbn in *. congruence.
  - intros ->. apply (proj2 (proj1 (proj2 (compareCards_key b b)))). reflexivity.
Qed.

(** [compareCards] is a comparator of a total order on the cards: it
    answers 0 for equal cards only, swapping the arguments negates the
    answer, and "not after" is transitive; a card of an earlier suit in the
    order clubs, diamonds, spades, hearts comes first whatever the ranks. *)
Theorem compareCards_total_order (a b c : Card) :
  (compareCards a b = 0 <-> a = b)
  /\ compareCards b a = - compareCards a b
  /\ (compareCards a b <= 0 -> compareCards b c <= 0 -> compareCards a c <= 0)
  /\ (suitIndex (suit a) < suitIndex (suit b) -> compareCards a b < 0).
Proof.
  split; [apply compareCards_zero|].
  split; [apply compareCards_key|].
  split.
  - intros H1 H2.
    apply (proj1 (compareCards_key a b)) in H1.
    apply (proj1 (compareCards_key b c)) in H2.
    apply (proj1 (compareCards_key a c)). lia.
  - intros Hs. unfold compareCards. cbv zeta.
    fold (suitIndex (suit a)) (suitIndex (suit b)).
    destruct (suitIndex (suit a) - suitIndex (suit b) =? 0) eqn:E; cbn [negb].
    + apply Z.eqb_eq in E. lia.
    + lia.
Qed.


Lemma compareCards_trans (a b c : Card) :
  compareCards a b <= 0 -> compareCards b c <= 0 -> compareCards a c <= 0.
Proof.
  intros H1 H2.
  apply (proj1 (compareCards_key a b)) in H1.
  apply (proj1 (compareCards_key b c)) in H2.
  apply (proj1 (compareCards_key a c)). lia.
Qed.

Lemma insertBy_ascending (x : Card) (l : list Card) :
  ascending l -> ascending (insertBy compareCards x l).
Proof.
  unfold ascending. induction l as [|y l IH]; intros Hs; cbn [insertBy].
  - constructor; constructor.
  - apply StronglySorted_inv in Hs. destruct Hs as [Hl Hy].
    destruct (Z.leb_spec (compareCards x y) 0) as [Hle|Hgt].
    + constructor; [constructor; assumption|].
      constructor; [exact Hle|].
      revert Hy. apply Forall_impl. intros z Hz. now apply (compareCards_trans x y z).
    + constructor; [now apply IH|].
      apply (Permutation_Forall (Permutation_sym (insertBy_perm compareCards x l))).
      constructor; [|exact Hy].
      pose proof (proj2 (proj2 (compareCards_key x y))) as Hneg. lia.
Qed.

Lemma sortBy_ascending (l : list Card) : ascending (sortBy compareCards l).
Proof.
  induction l as [|x l IH]; [constructor|].
  change (sortBy compareCards (x :: l))
    with (insertBy compareCards x (sortBy compareCards l)).
  now apply insertBy_ascending.
Qed.

Lemma points_from (l : list Card) (acc : Z) :
  fold_left (fun a c => a + getCardValue c) l acc = acc + points l.
Proof.
  unfold points. revert acc. induction l as [|c l IH]; intros acc; cbn [fold_left].
  - lia.
  - rewrite IH, (IH (0 + getCardValue c)). lia.
Qed.

Lemma points_cons (c : Card) (l : list Card) : points (c :: l) = getCardValue c + points l.
Proof. unfold points at 1. cbn [fold_left]. rewrite points_from. lia. Qed.

Lemma points_app (l l' : list Card) : points (l ++ l') = points l + points l'.
Proof.
  induction l as [|c l IH]; [reflexivity|].
  cbn [app]. rewrite !points_cons, IH. lia.
Qed.

Lemma points_perm (l l' : list Card) : Permutation l l' -> points l = points l'.
Proof.
  induction 1 as [|x l l' _ IH|x y l|l l' l'' _ IH1 _ IH2];
    rewrite ?points_cons; lia.
Qed.

(** [getCardValue] gives 13 to the Queen of Spades and to no other card,
    1 to the hearts and to no other card, and 0 to the rest; the values of
    the 52 cards of [createDeck] add up to 26, and so do the values of
    every rearrangement of the deck. *)
Theorem card_values_add_up_to_26 :
  (forall c, (getCardValue c = 13 <-> isQueenOfSpades c = true)
             /\ (getCardValue c = 1 <-> suit c = Hearts)
             /\ (getCardValue c = 0 <-> suit c <> Hearts /\ isQueenOfSpades c = false))
  /\ points createDeck = 26
  /\ (forall d, Permutation d createDeck -> points d = 26).
Proof.
  split.
  - intros [s r]. destruct s, r; vm_compute;
      repeat split; intros; try discriminate; try reflexivity; try tauto;
      match goal with
      | H : _ /\ _ |- _ => destruct H as [H1 H2]; first [discriminate H2|now elim H1]
      | _ => idtac
      end.
  - split; [reflexivity|]. intros d Hd. now rewrite (points_perm _ _ Hd).
Qed.

(** ** player.ts *)

(** [addReceivedCardsToHand] leaves a player without received cards as it
    is; otherwise the new hand holds the cards of the old hand and the
    received cards, in ascending order, and the received cards are
    cleared, so that a second call changes nothing. *)
Theorem addReceivedCardsToHand_merges (p : Player) :
  (receivedCards p = None -> addReceivedCardsToHand p = p)
  /\ (forall rc, receivedCards p = Some rc ->
        Permutation (hand (addReceivedCardsToHand p)) (hand p ++ rc)
        /\ ascending (hand (addReceivedCardsToHand p))
        /\ receivedCards (addReceivedCardsToHand p) = None
        /\ p_id (addReceivedCardsToHand p) = p_id p
        /\ score (addReceivedCardsToHand p) = score p
        /\ roundScore (addReceivedCardsToHand p) = roundScore p
        /\ cardsToPass (addReceivedCardsToHand p) = cardsToPass p)
  /\ addReceivedCardsToHand (addReceivedCardsToHand p) = addReceivedCardsToHand p.
Proof.
  unfold addReceivedCardsToHand.
  destruct (receivedCards p) as [rc|] eqn:E.
  - split; [discriminate|]. split.
    + intros rc' Hrc. injection Hrc as <-.
      cbn [hand set_hand set_receivedCards receivedCards p_id score roundScore cardsToPass].
      split; [apply sortBy_perm|]. split; [apply sortBy_ascending|]. repeat split.
    + reflexivity.
  - split; [reflexivity|]. split; [discriminate|]. now rewrite E.
Qed.


(** ** game.ts: queries *)

(** From round 1 on [getPassingDirection] goes through left, right,
    across, hold, in this order and with period 4: round [r] has the
    direction at position [(r - 1) mod 4]. *)
Theorem passing_direction_cycle (r : Z) :
  1 <= r ->
  getPassingDirection r = nth (Z.to_nat ((r - 1) mod 4)) directionCycle Hold
  /\ getPassingDirection (r + 4) = getPassingDirection r
  /\ (getPassingDirection r = Hold <-> (r mod 4 = 0)).
Proof.
  intros Hr.
  assert (Hrem : forall x, 1 <= x -> Z.rem (x - 1) 4 = (x - 1) mod 4).
  { intros x Hx. apply Z.rem_mod_nonneg; lia. }
  assert (Hdir : forall x, 1 <= x ->
            getPassingDirection x = nth (Z.to_nat ((x - 1) mod 4)) directionCycle Hold).
  { intros x Hx. unfold getPassingDirection. cbv zeta. rewrite (Hrem x Hx).
    pose proof (Z.mod_pos_bound (x - 1) 4 ltac:(lia)) as Hb.
    assert (Hc : (x - 1) mod 4 = 0 \/ (x - 1) mod 4 = 1
                 \/ (x - 1) mod 4 = 2 \/ (x - 1) mod 4 = 3) by lia.
    destruct Hc as [-> | [-> | [-> | ->]]]; reflexivity. }
  split; [now apply Hdir|]. split.
  - rewrite (Hdir (r + 4)), (Hdir r) by lia.
    replace (r + 4 - 1) with (r - 1 + 1 * 4) by lia.
    now rewrite Z.mod_add by lia.
  - rewrite (Hdir r Hr).
    pose proof (Z.mod_pos_bound (r - 1) 4 ltac:(lia)) as Hb.
    pose proof (Z.div_mod (r - 1) 4 ltac:(lia)) as Hd1.
    pose proof (Z.mod_pos_bound r 4 ltac:(lia)) as Hb2.
    pose proof (Z.div_mod r 4 ltac:(lia)) as Hd2.
    assert (Hc : (r - 1) mod 4 = 0 \/ (r - 1) mod 4 = 1
                 \/ (r - 1) mod 4 = 2 \/ (r - 1) mod 4 = 3) by lia.
    destruct Hc as [E | [E | [E | E]]]; rewrite E in *; cbn; split; intros; 
      try discriminate; try reflexivity; lia.
Qed.

Lemma passing_direction_cycle_witness :
  1 <= 6
  /\ getPassingDirection 6 = Right
  /\ getPassingDirection (6 + 4) = getPassingDirection 6
  /\ (getPassingDirection 6 = Hold <-> (6 mod 4 = 0)).
Proof.
  split; [lia|]. exact (passing_direction_cycle 6 ltac:(lia)).
Defined.

Lemma at_cons_zero {A : Type} (x : A) (l : list A) : at_ (x :: l) 0 = Some x.
Proof. reflexivity. Qed.

Lemma at_cons_succ {A : Type} (x : A) (l : list A) (j : Z) :
  0 <= j -> at_ (x :: l) (j + 1) = at_ l j.
Proof.
  intros Hj. unfold at_.
  destruct (Z.ltb_spec (j + 1) 0); [lia|]. destruct (Z.ltb_spec j 0); [lia|].
  replace (Z.to_nat (j + 1)) with (S (Z.to_nat j)) by lia. reflexivity.
Qed.

Lemma findTwoOfClubsFrom_first (ps : list Player) (h : string -> bool) (ids : list string) :
  (forall id, h id = match getPlayer id ps with
                     | Some p => existsb isTwoOfClubs (hand p)
                     | None => false
                     end) ->
  forall i,
    if existsb h ids
    then exists k id,
           findTwoOfClubsFrom ps ids i = i + k
           /\ 0 <= k < len ids
           /\ at_ ids k = Some id /\ h id = true
           /\ forall j id', 0 <= j < k -> at_ ids j = Some id' -> h id' = false
    else findTwoOfClubsFrom ps ids i = 0.
Proof.
  intros Hh. induction ids as [|x ids IH]; intros i; [reflexivity|].
  cbn [existsb findTwoOfClubsFrom]. rewrite <- (Hh x).
  destruct (h x) eqn:Ex; cbn [orb].
  - exists 0, x. split; [lia|]. split; [unfold len; cbn [List.length]; lia|].
    split; [reflexivity|]. split; [exact Ex|]. intros j id' Hj. lia.
  - specialize (IH (i + 1)). destruct (existsb h ids).
    + destruct IH as [k [id [Hf [Hk [Hat [Hid Hmin]]]]]].
      exists (k + 1), id. split; [lia|].
      split; [unfold len in *; cbn [List.length]; lia|].
      split; [rewrite at_cons_succ by lia; exact Hat|]. split; [exact Hid|].
      intros j id' Hj Hat'.
      destruct (Z.eq_dec j 0) as [->|Hnz].
      * rewrite at_cons_zero in Hat'. injection Hat' as <-. exact Ex.
      * replace j with (j - 1 + 1) in Hat' by lia.
        rewrite at_cons_succ in Hat' by lia. apply (Hmin (j - 1)); [lia|exact Hat'].
    + exact IH.
Qed.

(** [findPlayerWithTwoOfClubs] returns the index of the first seat of the
    seating order whose hand holds the Two of Clubs; when no seat holds it
    (or the holder is not in the seating order) it returns 0. *)
Theorem findPlayerWithTwoOfClubs_first_holder (g : Game) :
  if existsb (holdsTwoOfClubs g) (playerOrder g)
  then exists id,
         0 <= findPlayerWithTwoOfClubs g < len (playerOrder g)
         /\ at_ (playerOrder g) (findPlayerWithTwoOfClubs g) = Some id
         /\ holdsTwoOfClubs g id = true
         /\ forall j id', 0 <= j < findPlayerWithTwoOfClubs g ->
                          at_ (playerOrder g) j = Some id' ->
                          holdsTwoOfClubs g id' = false
  else findPlayerWithTwoOfClubs g = 0.
Proof.
  unfold findPlayerWithTwoOfClubs.
  pose proof (findTwoOfClubsFrom_first (players g) (holdsTwoOfClubs g) (playerOrder g)
                (fun id => eq_refl) 0) as H.
  destruct (existsb (holdsTwoOfClubs g) (playerOrder g)); [|exact H].
  destruct H as [k [id [Hf [Hk [Hat [Hid Hmin]]]]]].
  rewrite Hf. cbn [Z.add]. exists id. repeat split; try assumption; lia.
Qed.


(** ** game.ts: the play validator and the legal-move enumeration *)

Lemma len_nil_iff {A : Type} (l : list A) : (len l =? 0) = true <-> l = [].
Proof. split; [apply len_zero_nil|intros ->; reflexivity]. Qed.

Lemma find_twoOfClubs (h : list Card) :
  match find isTwoOfClubs h with
  | Some t => t = mkCard Clubs Two /\ In t h
  | None => ~ In (mkCard Clubs Two) h
  end.
Proof.
  destruct (find isTwoOfClubs h) as [t|] eqn:E.
  - apply find_some in E. destruct E as [Hin Ht]. split; [|exact Hin].
    now apply isTwoOfClubs_eq.
  - intros Hin. pose proof (find_none _ _ E _ Hin) as Hn. discriminate Hn.
Qed.

(** Away from the opening lead, and with no leading suit on an empty
    trick, the validator accepts exactly the cards that survive the first
    loop of the enumeration. *)
Lemma verdict_naive (g : Game) (player : Player) (c : Card) :
  (cards (currentTrick g) = [] -> leadingSuit (currentTrick g) = None) ->
  isFirstTrick g && (len (cards (currentTrick g)) =? 0) = false ->
  (playVerdict g player c = None <-> In c (naiveMoves g player)).
Proof.
  intros Hwf Hopen. unfold playVerdict, naiveMoves. cbv zeta.
  rewrite filter_In, Hopen, <- (existsb_sameCard (hand player) c).
  assert (Hte : (len (cards (currentTrick g)) =? 0) = true ->
                leadingSuit (currentTrick g) = None).
  { intros H. apply Hwf. now apply len_nil_iff. }
  destruct (existsb (fun p => sameCard p c) (hand player)); cbn [negb];
    [|split; [discriminate|intros [H _]; discriminate H]].
  destruct (isFirstTrick g); destruct (len (cards (currentTrick g)) =? 0);
    try discriminate Hopen;
    try (rewrite (Hte eq_refl));
    destruct (getCardValue c >? 0);
    destruct (forallb (fun h => getCardValue h >? 0) (hand player));
    destruct (leadingSuit (currentTrick g)) as [ls|];
    cbn [andb negb orb];
    try destruct (existsb (fun h => Suit_beq (suit h) ls) (hand player));
    try destruct (Suit_beq (suit c) ls);
    destruct (Suit_beq (suit c) Hearts);
    destruct (heartsBroken g);
    destruct (forallb (fun h => Suit_beq (suit h) Hearts) (hand player));
    cbn [andb negb orb];
    (split; [intros H; first [discriminate H|split; reflexivity]
            |intros [_ H]; first [discriminate H|reflexivity]]).
Qed.

(** The enumeration of [calculateValidMoves] against [isValidPlay]. When
    a trick without entries has no leading suit (as in every state the game
    gets into), the enumeration lists exactly the cards of the hand that
    [isValidPlay] accepts; the one exception is a non-empty hand of which
    [isValidPlay] accepts no card, for which the enumeration lists the
    whole hand. *)
Theorem valid_moves_match_validator (g : Game) (player : Player) :
  (cards (currentTrick g) = [] -> leadingSuit (currentTrick g) = None) ->
  (forall c, In c (calculateValidMoves g player) <-> playVerdict g player c = None)
  \/ (hand player <> []
      /\ calculateValidMoves g player = hand player
      /\ forall c, playVerdict g player c <> None).
Proof.
  intros Hwf.
  destruct (isFirstTrick g && (len (cards (currentTrick g)) =? 0)) eqn:Hopen.
  - left. intros c. unfold calculateValidMoves, playVerdict. cbv zeta. rewrite Hopen.
    pose proof (find_twoOfClubs (hand player)) as Hfind.
    pose proof (existsb_sameCard (hand player) c) as Hin.
    destruct (existsb (fun h => sameCard h c) (hand player)) eqn:Ein; cbn [negb].
    + assert (Hc : In c (hand player)) by now apply Hin.
      destruct c as [s r].
      destruct (find isTwoOfClubs (hand player)) as [t|].
      * destruct Hfind as [-> _]. cbn [suit rank In].
        destruct s, r; cbn; split; intros H;
          first [reflexivity|discriminate H|now left
                |destruct H as [H|[]]; discriminate H].
      * cbn [suit rank In]. destruct s, r; cbn; split; intros H;
          first [now elim H|discriminate H|now elim (Hfind Hc)].
    + split; [|discriminate]. intros H.
      assert (Hc : In c (hand player)).
      { destruct (find isTwoOfClubs (hand player)) as [t|]; [|now elim H].
        destruct Hfind as [_ Ht]. destruct H as [<-|[]]. exact Ht. }
      apply Hin in Hc. discriminate Hc.
  - pose proof (fun c => verdict_naive g player c Hwf Hopen) as HA.
    assert (Hcalc : calculateValidMoves g player = naiveMoves g player
                    \/ (naiveMoves g player = [] /\ calculateValidMoves g player = hand player)).
    { unfold calculateValidMoves. cbv zeta. rewrite Hopen.
      destruct (leadingSuit (currentTrick g)) as [ls|] eqn:El.
      - destruct (existsb (fun c => Suit_beq (suit c) ls) (hand player)) eqn:Ecf;
          cbn [negb].
        + destruct (len (naiveMoves g player) =? 0) eqn:En; cbn [andb]; [|now left].
          apply len_nil_iff in En.
          destruct (len (hand player) >? 0); [right; now split|now left].
        + assert (Hne : (len (cards (currentTrick g)) =? 0) = false).
          { destruct (len (cards (currentTrick g)) =? 0) eqn:E; [|reflexivity].
            apply len_nil_iff in E. apply Hwf in E. congruence. }
          assert (Hnf : naiveMoves g player
                        = filter (fun card =>
                            negb (isFirstTrick g && (getCardValue card >? 0)
                                  && negb (forallb (fun c => getCardValue c >? 0)
                                             (hand player))))
                            (hand player)).
          { unfold naiveMoves. cbv zeta. rewrite El, Ecf, Hne. apply filter_ext.
            intros a. cbn [andb negb]. now rewrite !andb_true_r. }
          rewrite <- Hnf.
          destruct (len (naiveMoves g player) >? 0) eqn:En; [now left|].
          apply len_pos_false_nil in En. right. now split.
      - destruct (len (naiveMoves g player) =? 0) eqn:En; cbn [andb]; [|now left].
        apply len_nil_iff in En.
        destruct (len (hand player) >? 0); [right; now split|now left]. }
    destruct Hcalc as [Hc|[Hn Hc]].
    + left. intros c. rewrite Hc. symmetry. apply HA.
    + destruct (hand player) as [|h0 hs] eqn:Eh.
      * left. intros c. rewrite Hc. rewrite HA, Hn. reflexivity.
      * right. split; [discriminate|]. split; [exact Hc|].
        intros c Hv. apply HA in Hv. rewrite Hn in Hv. exact Hv.
Qed.

Lemma valid_moves_match_validator_witness :
  exists bob,
    getPlayer "b" (players (game lastToPlayWorld)) = Some bob
    /\ (cards (currentTrick (game lastToPlayWorld)) = [] ->
        leadingSuit (currentTrick (game lastToPlayWorld)) = None)
    /\ ((forall c, In c (calculateValidMoves (game lastToPlayWorld) bob)
                   <-> playVerdict (game lastToPlayWorld) bob c = None)
        \/ (hand bob <> []
            /\ calculateValidMoves (game lastToPlayWorld) bob = hand bob
            /\ forall c, playVerdict (game lastToPlayWorld) bob c <> None)).
Proof.
  eexists. split; [vm_compute; reflexivity|].
  assert (Hwf : cards (currentTrick (game lastToPlayWorld)) = [] ->
                leadingSuit (currentTrick (game lastToPlayWorld)) = None).
  { intros H. vm_compute in H. discriminate H. }
  split; [exact Hwf|].
  exact (valid_moves_match_validator (game lastToPlayWorld) _ Hwf).
Defined.


(** What [isValidPlay] never lets through. A card it accepts is in the
    hand; at the opening lead (the first-trick test holds and the trick is
    empty) it is the Two of Clubs; while the first-trick test holds it has
    points only from a hand of point cards; on a trick in progress it is of
    the leading suit whenever the hand holds a card of that suit; and it
    leads a heart only once hearts are broken or from a hand of hearts. *)
Theorem accepted_play_is_legal (g : Game) (player : Player) (c : Card) :
  playVerdict g player c = None ->
  In c (hand player)
  /\ (isFirstTrick g = true -> cards (currentTrick g) = [] -> c = mkCard Clubs Two)
  /\ (isFirstTrick g = true -> getCardValue c > 0 ->
      forall h, In h (hand player) -> getCardValue h > 0)
  /\ (forall ls, cards (currentTrick g) <> [] ->
                 leadingSuit (currentTrick g) = Some ls ->
                 (exists h, In h (hand player) /\ suit h = ls) ->
                 suit c = ls)
  /\ (cards (currentTrick g) = [] -> suit c = Hearts ->
      heartsBroken g = true \/ forall h, In h (hand player) -> suit h = Hearts).
Proof.
  intros Hv. split; [now apply existsb_sameCard, (playVerdict_in_hand g)|].
  unfold playVerdict in Hv. cbv zeta in Hv.
  destruct (negb (existsb (fun h => sameCard h c) (hand player))); [discriminate Hv|].
  destruct (len (cards (currentTrick g)) =? 0) eqn:Ete.
  - (* leading *)
    assert (Hnil : cards (currentTrick g) = []) by now apply len_nil_iff.
    destruct (isFirstTrick g) eqn:Ef; cbn [andb negb] in Hv.
    + destruct (negb (Suit_beq (suit c) Clubs) || negb (Rank_beq (rank c) Two)) eqn:E2;
        [discriminate Hv|].
      apply orb_false_elim in E2. destruct E2 as [Es Er].
      apply negb_false_iff in Es, Er. apply Suit_beq_eq in Es. apply Rank_beq_eq in Er.
      assert (Hc : c = mkCard Clubs Two) by (destruct c; cbn in *; congruence).
      split; [intros _ _; exact Hc|]. subst c.
      split; [intros _ H; vm_compute in H; discriminate H|].
      split; [intros ls Hne; contradiction|].
      intros _ H. discriminate H.
    + split; [discriminate|]. split; [discriminate|].
      split; [intros ls Hne; contradiction|].
      intros _ Hh. apply Suit_beq_eq in Hh. rewrite Hh in Hv. cbn [andb] in Hv.
      destruct (heartsBroken g); [now left|]. cbn [negb andb] in Hv.
      destruct (forallb (fun h => Suit_beq (suit h) Hearts) (hand player)) eqn:Ea;
        [|discriminate Hv].
      right. intros h Hin. rewrite forallb_forall in Ea. now apply Suit_beq_eq, Ea.
  - (* following *)
    assert (Hne : cards (currentTrick g) <> []).
    { intros H. apply len_nil_iff in H. congruence. }
    rewrite andb_false_r in Hv. cbn [negb andb] in Hv.
    split; [intros _ H; contradiction|].
    destruct (isFirstTrick g && (getCardValue c >? 0)
              && negb (forallb (fun h => getCardValue h >? 0) (hand player))) eqn:E1;
      [discriminate Hv|].
    split.
    + intros Hf Hc h Hin. rewrite Hf in E1. cbn [andb] in E1.
      assert (Hgt : (getCardValue c >? 0) = true) by (apply Z.gtb_lt; lia).
      rewrite Hgt in E1. cbn [andb] in E1. apply negb_false_iff in E1.
      rewrite forallb_forall in E1. specialize (E1 h Hin). apply Z.gtb_lt in E1. lia.
    + split; [|intros H; contradiction].
      intros ls _ Hls [h [Hin Hs]]. rewrite Hls in Hv.
      assert (Hex : existsb (fun h => Suit_beq (suit h) ls) (hand player) = true).
      { apply existsb_exists. exists h. split; [exact Hin|]. now apply Suit_beq_eq. }
      rewrite Hex in Hv. cbn [andb] in Hv.
      destruct (Suit_beq (suit c) ls) eqn:Es; [now apply Suit_beq_eq|].
      discriminate Hv.
Qed.

Lemma accepted_play_is_legal_witness :
  exists dee,
    getPlayer "d" (players (game (run [Message "c" (PlayCard (mkCard Clubs Two))]
                                    openingWorld))) = Some dee
    /\ playVerdict (game (run [Message "c" (PlayCard (mkCard Clubs Two))] openingWorld))
         dee (mkCard Clubs Three) = None
    /\ In (mkCard Clubs Three) (hand dee).
Proof.
  eexists. split; [vm_compute; reflexivity|].
  match goal with
  | |- playVerdict ?g ?p ?c = None /\ _ =>
      assert (Hv : playVerdict g p c = None) by (vm_compute; reflexivity);
      split; [exact Hv|exact (proj1 (accepted_play_is_legal g p c Hv))]
  end.
Defined.


(** ** game.ts: the deal *)

Lemma nth_error_updatePlayer (pid : string) (f : Player -> Player) (ps : list Player)
    (k : nat) :
  nth_error (updatePlayer pid f ps) k
  = option_map (fun p => if String.eqb (p_id p) pid then f p else p) (nth_error ps k).
Proof. unfold updatePlayer. apply nth_error_map. Qed.

Lemma at_nth {A : Type} (l : list A) (i : Z) (x : A) :
  at_ l i = Some x -> 0 <= i /\ nth_error l (Z.to_nat i) = Some x.
Proof.
  unfold at_. destruct (Z.ltb_spec i 0) as [Hlt|Hge]; [discriminate|].
  intros Hx. split; [lia|exact Hx].
Qed.

Transparent dealLoop.

(** Seat by seat, the deal appends to the hand as many cards as the seat's
    turn comes up, and touches nothing else of the player. *)
Lemma dealLoop_seats (order : list string) (d : list Card) (ps : list Player) :
  NoDup (map p_id ps) -> order = map p_id ps -> List.length ps = 4%nat ->
  forall k p, nth_error ps k = Some p ->
    exists p',
      nth_error (dealLoop order d ps) k = Some p'
      /\ List.length (hand p') = (List.length (hand p) + share k 0 (List.length d))%nat
      /\ p_id p' = p_id p /\ p_name p' = p_name p /\ score p' = score p
      /\ roundScore p' = roundScore p.
Proof.
  intros Hnd Hord H4. unfold dealLoop.
  assert (H : forall acc,
    0 <= fst acc -> map p_id (snd acc) = map p_id ps ->
    forall k p, nth_error (snd acc) k = Some p ->
    exists p',
      nth_error (snd (fold_left
         (fun (acc : Z * list Player) c =>
            (fst acc + 1,
             match at_ order (Z.rem (fst acc) MAX_PLAYERS) with
             | Some pid => updatePlayer pid (fun p => set_hand (hand p ++ [c]) p) (snd acc)
             | None => snd acc
             end)) d acc)) k = Some p'
      /\ List.length (hand p')
         = (List.length (hand p) + share k (fst acc) (List.length d))%nat
      /\ p_id p' = p_id p /\ p_name p' = p_name p /\ score p' = score p
      /\ roundScore p' = roundScore p).
  { induction d as [|c d IH]; intros acc Hi Hids k p Hk; cbn [fold_left].
    - exists p. cbn [share List.length]. rewrite Nat.add_0_r. repeat split. exact Hk.
    - destruct (at_some order (Z.rem (fst acc) MAX_PLAYERS)) as [pid [Hat Hin]].
      { pose proof (Z.rem_bound_pos (fst acc) MAX_PLAYERS Hi) as Hb.
        unfold MAX_PLAYERS in *. unfold len. rewrite Hord, length_map, H4. lia. }
      rewrite Hat.
      set (q := if String.eqb (p_id p) pid then set_hand (hand p ++ [c]) p else p).
      destruct (IH (fst acc + 1, updatePlayer pid (fun p => set_hand (hand p ++ [c]) p)
                                   (snd acc)) ltac:(cbn [fst]; lia)
                  ltac:(cbn [snd]; rewrite updatePlayer_ids by reflexivity; exact Hids)
                  k q) as [p' [Hn [Hlen [R1 [R2 [R3 R4]]]]]].
      { cbn [snd]. rewrite nth_error_updatePlayer, Hk. reflexivity. }
      exists p'. cbn [fst snd] in Hn, Hlen. split; [exact Hn|].
      assert (Hq : p_id q = p_id p /\ p_name q = p_name p /\ score q = score p
                   /\ roundScore q = roundScore p).
      { unfold q. destruct (String.eqb (p_id p) pid); repeat split. }
      destruct Hq as [Q1 [Q2 [Q3 Q4]]].
      split; [|repeat split; congruence].
      rewrite Hlen. cbn [share List.length].
      (* the seat served is seat [k] exactly when its index is [k] *)
      apply at_nth in Hat. destruct Hat as [Hr0 Hat].
      assert (Hpk : nth_error (map p_id ps) k = Some (p_id p)).
      { rewrite <- Hids. now apply map_nth_error. }
      rewrite Hord in Hat.
      assert (Hiff : String.eqb (p_id p) pid
                     = (Z.rem (fst acc) MAX_PLAYERS =? Z.of_nat k)).
      { destruct (String.eqb_spec (p_id p) pid) as [E|E];
          destruct (Z.eqb_spec (Z.rem (fst acc) MAX_PLAYERS) (Z.of_nat k)) as [E'|E'];
          try reflexivity; exfalso.
        - apply E'. subst pid.
          assert (Hkk : (Z.to_nat (Z.rem (fst acc) MAX_PLAYERS)) = k).
          { apply (proj1 (NoDup_nth_error (map p_id ps)) Hnd).
            - apply nth_error_Some. rewrite Hat. discriminate.
            - now rewrite Hat, Hpk. }
          lia.
        - apply E. rewrite E' in Hat. rewrite Nat2Z.id in Hat. congruence. }
      unfold q. rewrite Hiff.
      destruct (Z.rem (fst acc) MAX_PLAYERS =? Z.of_nat k); cbn [hand set_hand].
      + rewrite length_app. cbn [List.length]. lia.
      + lia. }
  intros k p Hk. apply (H (0, ps)); [cbn; lia|reflexivity|exact Hk].
Qed.

Opaque dealLoop.

Lemma share_thirteen (k : nat) : (k < 4)%nat -> share k 0 52 = 13%nat.
Proof.
  intros Hk. destruct k as [|[|[|[|k]]]]; [reflexivity..|lia].
Qed.


Lemma createDeck_length : List.length createDeck = 52%nat.
Proof. vm_compute. reflexivity. Qed.

Lemma Forall2_of_nth {A B : Type} (R : A -> B -> Prop) (l : list A) (l' : list B) :
  List.length l' = List.length l ->
  (forall k x, nth_error l k = Some x -> exists y, nth_error l' k = Some y /\ R x y) ->
  Forall2 R l l'.
Proof.
  revert l'. induction l as [|x l IH]; intros [|y l'] Hlen H; try discriminate Hlen.
  - constructor.
  - constructor.
    + destruct (H 0%nat x eq_refl) as [y' [Hy HR]]. injection Hy as <-. exact HR.
    + apply IH; [now injection Hlen|].
      intros k z Hz. exact (H (S k) z Hz).
Qed.

Lemma getPlayer_in_nodup (ps : list Player) (p : Player) :
  NoDup (map p_id ps) -> In p ps -> getPlayer (p_id p) ps = Some p.
Proof.
  intros Hnd Hin. destruct (getPlayer (p_id p) ps) as [q|] eqn:E.
  - destruct (update_split (p_id p) ps q Hnd E) as [pre [post [Hps _]]].
    apply getPlayer_some in E. destruct E as [Hq Hid].
    f_equal. subst ps. rewrite map_app in Hnd. cbn [map] in Hnd.
    apply in_app_or in Hin. destruct Hin as [Hin|[->|Hin]]; [|reflexivity|].
    + exfalso. apply NoDup_remove_2 in Hnd. apply Hnd. apply in_or_app. left.
      rewrite Hid. now apply in_map.
    + exfalso. apply NoDup_remove_2 in Hnd. apply Hnd. apply in_or_app. right.
      rewrite Hid. now apply in_map.
  - exfalso. assert (Hhas : hasPlayer (p_id p) ps) by now apply in_map.
    apply getPlayer_has_iff in Hhas. contradiction.
Qed.

(** Every seat of a dealt table of four: thirteen cards in ascending
    order, the total carried over, the round score and the pass staging
    reset. *)
Lemma dealtGame_seats (rnd : nat -> nat) (g : Game) :
  playerOrder g = map p_id (players g) ->
  NoDup (playerOrder g) ->
  List.length (players g) = 4%nat ->
  Forall2 (fun p p' => p_id p' = p_id p /\ p_name p' = p_name p
                       /\ freshlyDealt (score p) p')
    (players g) (players (dealtGame rnd g)).
Proof.
  intros Hord Hnd H4.
  assert (Hids : map p_id (map resetForNewRound (players g)) = map p_id (players g))
    by (apply map_ids_ext; reflexivity).
  assert (Hpl : players (dealtGame rnd g)
                = map (fun p => set_hand (sortBy compareCards (hand p)) p)
                    (dealLoop (playerOrder g) (shuffleDeck rnd createDeck)
                       (map resetForNewRound (players g)))) by reflexivity.
  assert (Hst : Forall (fun p => cardsToPass p = None /\ receivedCards p = None)
                  (dealLoop (playerOrder g) (shuffleDeck rnd createDeck)
                     (map resetForNewRound (players g)))).
  { apply dealLoop_staging. rewrite Forall_map. apply Forall_forall.
    intros p _. split; reflexivity. }
  apply Forall2_of_nth.
  - destruct (dealtGame_sameIds rnd g) as [Hm _].
    apply (f_equal (@List.length string)) in Hm. now rewrite !length_map in Hm.
  - intros k p Hk.
    assert (Hk4 : (k < 4)%nat).
    { rewrite <- H4. apply nth_error_Some. rewrite Hk. discriminate. }
    destruct (dealLoop_seats (playerOrder g) (shuffleDeck rnd createDeck)
                (map resetForNewRound (players g))
                ltac:(rewrite Hids, <- Hord; exact Hnd)
                ltac:(rewrite Hids; exact Hord)
                ltac:(rewrite length_map; exact H4)
                k (resetForNewRound p) (map_nth_error resetForNewRound k _ Hk))
      as [p' [Hn [Hlen [E1 [E2 [E3 E4]]]]]].
    exists (set_hand (sortBy compareCards (hand p')) p').
    split; [rewrite Hpl;
            exact (map_nth_error (fun p => set_hand (sortBy compareCards (hand p)) p)
                     k _ Hn)|].
    rewrite Forall_forall in Hst. destruct (Hst p' (nth_error_In _ _ Hn)) as [Hc Hr].
    cbn [p_id p_name set_hand]. split; [exact E1|]. split; [exact E2|].
    unfold freshlyDealt. cbn [hand score roundScore cardsToPass receivedCards set_hand].
    split.
    + rewrite (Permutation_length (sortBy_perm compareCards (hand p'))), Hlen.
      rewrite (Permutation_length (shuffleDeck_perm rnd createDeck)), createDeck_length.
      now rewrite (share_thirteen k Hk4).
    + split; [apply sortBy_ascending|]. repeat split; assumption.
Qed.

Lemma dealtGame_fields (rnd : nat -> nat) (g : Game) :
  roundNumber (dealtGame rnd g) = roundNumber g + 1
  /\ passingDirection (dealtGame rnd g) = Some (getPassingDirection (roundNumber g + 1))
  /\ heartsBroken (dealtGame rnd g) = false
  /\ currentTrick (dealtGame rnd g) = createEmptyTrick
  /\ playerOrder (dealtGame rnd g) = playerOrder g
  /\ deck (dealtGame rnd g) = shuffleDeck rnd createDeck.
Proof. repeat split. Qed.

Lemma holder_in_order (g : Game) :
  playerOrder g = map p_id (players g) ->
  NoDup (playerOrder g) ->
  In (mkCard Clubs Two) (allHands g) ->
  existsb (holdsTwoOfClubs g) (playerOrder g) = true.
Proof.
  intros Hord Hnd Hin. unfold allHands in Hin. apply in_flat_map in Hin.
  destruct Hin as [p [Hp Hc]]. apply existsb_exists. exists (p_id p).
  split; [rewrite Hord; now apply in_map|].
  unfold holdsTwoOfClubs. rewrite getPlayer_in_nodup; [|now rewrite <- Hord|exact Hp].
  apply existsb_exists. exists (mkCard Clubs Two). split; [exact Hc|reflexivity].
Qed.


Lemma Forall2_right {A B : Type} (R : A -> B -> Prop) (P : B -> Prop)
    (l : list A) (l' : list B) :
  (forall x y, R x y -> P y) -> Forall2 R l l' -> Forall P l'.
Proof. intros HR. induction 1; constructor; eauto. Qed.

(** The game a round of four starts with. *)
Lemma roundGame_dealt (rnd : nat -> nat) (g : Game) :
  playerOrder g = map p_id (players g) ->
  NoDup (playerOrder g) ->
  List.length (players g) = 4%nat ->
  let g' := roundGame rnd g in
  let dir := getPassingDirection (roundNumber g + 1) in
  roundNumber g' = roundNumber g + 1
  /\ passingDirection g' = Some dir
  /\ heartsBroken g' = false
  /\ currentTrick g' = createEmptyTrick
  /\ playerOrder g' = playerOrder g
  /\ Forall2 (fun p p' => p_id p' = p_id p /\ p_name p' = p_name p
                          /\ freshlyDealt (score p) p')
       (players g) (players g')
  /\ Permutation (allHands g') createDeck
  /\ (dir <> Hold -> phase g' = Passing)
  /\ (dir = Hold ->
      phase g' = PlayingTrick
      /\ exists id, getCurrentPlayerId g' = Some id /\ holdsTwoOfClubs g' id = true).
Proof.
  intros Hord Hnd H4 g' dir. subst g'.
  pose proof (dealtGame_seats rnd g Hord Hnd H4) as Hseats.
  destruct (dealtGame_cards rnd g Hord Hnd H4) as [Hcards _].
  destruct (dealtGame_fields rnd g) as [F1 [F2 [F3 [F4 [F5 _]]]]].
  destruct (dealtGame_sameIds rnd g) as [Hm _].
  assert (Hstaged : allStaged (dealtGame rnd g) = []).
  { unfold allStaged. apply staged_none.
    apply (Forall2_right _ _ _ _ (fun p p' H => conj (proj1 (proj2 (proj2 (proj2 (proj2
             (proj2 (proj2 H)))))))
             (proj2 (proj2 (proj2 (proj2 (proj2 (proj2 (proj2 H)))))))) Hseats). }
  assert (Hhands : Permutation (allHands (dealtGame rnd g)) createDeck).
  { unfold cardsInPlay, trickCards in Hcards. rewrite Hstaged, F4 in Hcards.
    cbn [createEmptyTrick cards map app] in Hcards. now rewrite app_nil_r in Hcards. }
  unfold roundGame. cbv zeta. fold dir in F2.
  revert Hseats Hhands F1 F2 F3 F4 F5 Hm. clear Hcards Hstaged.
  generalize (dealtGame rnd g) as d. intros d Hseats Hhands F1 F2 F3 F4 F5 Hm.
  rewrite F2. unfold isHold.
  assert (Hall : forall g', players g' = players d -> playerOrder g' = playerOrder d ->
                   roundNumber g' = roundNumber d -> passingDirection g' = passingDirection d ->
                   heartsBroken g' = heartsBroken d -> currentTrick g' = currentTrick d ->
                   roundNumber g' = roundNumber g + 1
                   /\ passingDirection g' = Some dir
                   /\ heartsBroken g' = false
                   /\ currentTrick g' = createEmptyTrick
                   /\ playerOrder g' = playerOrder g
                   /\ Forall2 (fun p p' => p_id p' = p_id p /\ p_name p' = p_name p
                                           /\ freshlyDealt (score p) p')
                        (players g) (players g')
                   /\ Permutation (allHands g') createDeck).
  { intros g' E1 E2 E3 E4 E5 E6. unfold allHands. rewrite E1, E2, E3, E4, E5, E6.
    repeat split; assumption. }
  destruct dir eqn:Ed.
  1-3: destruct (Hall (set_phase Passing d)) as [A1 [A2 [A3 [A4 [A5 [A6 A7]]]]]];
    try reflexivity;
    repeat (split; [assumption|]);
    split; [reflexivity|discriminate].
  set (d1 := set_phase PlayingTrick d) in *.
  destruct (Hall (set_currentPlayerIndex (findPlayerWithTwoOfClubs d1) d1))
    as [A1 [A2 [A3 [A4 [A5 [A6 A7]]]]]]; try reflexivity.
  repeat (split; [assumption|]).
  split; [intros H; now elim H|].
  intros _. split; [reflexivity|].
  assert (Hord_d : playerOrder d = map p_id (players d)) by (rewrite F5, Hm; exact Hord).
  assert (Hex : existsb (holdsTwoOfClubs d) (playerOrder d) = true).
  { apply holder_in_order; [exact Hord_d|rewrite F5; exact Hnd|].
    apply (Permutation_in _ (Permutation_sym Hhands)). apply createDeck_all. }
  pose proof (findTwoOfClubsFrom_first (players d) (holdsTwoOfClubs d) (playerOrder d)
                (fun id => eq_refl) 0) as Hfind.
  rewrite Hex in Hfind. destruct Hfind as [k [id [Hf [Hk [Hat [Hid _]]]]]].
  exists id. unfold getCurrentPlayerId.
  cbn [currentPlayerIndex set_currentPlayerIndex playerOrder set_phase d1].
  unfold findPlayerWithTwoOfClubs. cbn [players playerOrder set_phase d1].
  rewrite Hf. cbn [Z.add].
  destruct (Z.ltb_spec k 0); [lia|]. destruct (Z.geb_spec k (len (playerOrder d))); [lia|].
  cbn [orb]. split; [exact Hat|exact Hid].
Qed.

(** [startNewRound] at a table of four. The round counter goes up by one
    and fixes the direction of the pass; hearts are unbroken and the trick
    is empty; every seat keeps its identity and its total and is dealt
    thirteen cards, in ascending order, out of a deck of which the four
    hands hold every card once; round scores and pass staging are reset.
    The round starts in the passing phase, except for the direction hold,
    where play starts at once and the seat to lead holds the Two of Clubs.
    No error is sent and no timer is touched. *)
Theorem startNewRound_deals (rnd : nat -> nat) (w : World) :
  playerOrder (game w) = map p_id (players (game w)) ->
  NoDup (playerOrder (game w)) ->
  List.length (players (game w)) = 4%nat ->
  let w' := final (startNewRound rnd w) in
  let dir := getPassingDirection (roundNumber (game w) + 1) in
  roundNumber (game w') = roundNumber (game w) + 1
  /\ passingDirection (game w') = Some dir
  /\ heartsBroken (game w') = false
  /\ currentTrick (game w') = createEmptyTrick
  /\ playerOrder (game w') = playerOrder (game w)
  /\ Forall2 (fun p p' => p_id p' = p_id p /\ p_name p' = p_name p
                          /\ freshlyDealt (score p) p')
       (players (game w)) (players (game w'))
  /\ Permutation (allHands (game w')) createDeck
  /\ (dir <> Hold -> phase (game w') = Passing)
  /\ (dir = Hold ->
      phase (game w') = PlayingTrick
      /\ exists id, getCurrentPlayerId (game w') = Some id
                    /\ holdsTwoOfClubs (game w') id = true)
  /\ timers w' = timers w
  /\ existsb isErrorOut (newOutput w w') = false.
Proof.
  intros Hord Hnd H4 w' dir.
  assert (Hok : idsOk (game w)) by now apply idsOk_of_order.
  assert (H4b : (len (players (game w)) =? MAX_PLAYERS) = true).
  { unfold len. rewrite H4. reflexivity. }
  assert (Hw' : w' = addOut (roundOuts rnd (game w))
                       (withGame (roundGame rnd (game w)) w)).
  { unfold w'. now rewrite (startNewRound_eq rnd w Hok H4b). }
  clearbody w'. subst w'.
  rewrite game_addOut, game_withGame.
  destruct (roundGame_dealt rnd (game w) Hord Hnd H4)
    as [A1 [A2 [A3 [A4 [A5 [A6 [A7 [A8 A9]]]]]]]].
  repeat (split; [assumption|]).
  split; [reflexivity|].
  rewrite (newOutput_app w _ (roundOuts rnd (game w))) by reflexivity.
  apply noErr_roundOuts.
Qed.

Lemma startNewRound_deals_witness :
  (playerOrder (game tiedWorld) = map p_id (players (game tiedWorld))
   /\ NoDup (playerOrder (game tiedWorld))
   /\ List.length (players (game tiedWorld)) = 4%nat)
  /\ roundNumber (game (final (startNewRound noShuffle tiedWorld))) = 6
  /\ passingDirection (game (final (startNewRound noShuffle tiedWorld))) = Some Right
  /\ phase (game (final (startNewRound noShuffle tiedWorld))) = Passing
  /\ Permutation (allHands (game (final (startNewRound noShuffle tiedWorld)))) createDeck.
Proof.
  assert (H1 : playerOrder (game tiedWorld) = map p_id (players (game tiedWorld)))
    by reflexivity.
  assert (H2 : NoDup (playerOrder (game tiedWorld))).
  { cbn. repeat (apply NoDup_cons;
                 [let H := fresh in intros H; cbn [In] in H; intuition discriminate|]).
    apply NoDup_nil. }
  assert (H3 : List.length (players (game tiedWorld)) = 4%nat) by reflexivity.
  split; [split; [exact H1|split; [exact H2|exact H3]]|].
  destruct (startNewRound_deals noShuffle tiedWorld H1 H2 H3)
    as [A1 [A2 [_ [_ [_ [_ [A7 [A8 _]]]]]]]].
  split; [exact A1|]. split; [exact A2|]. split; [|exact A7].
  apply A8. vm_compute. discriminate.
Defined.


(** ** game.ts: the passing phase *)

Lemma roundGame_passing (rnd : nat -> nat) (g : Game) :
  playerOrder g = map p_id (players g) ->
  NoDup (playerOrder g) ->
  List.length (players g) = 4%nat ->
  phase (roundGame rnd g) = Passing ->
  (exists dir, passingDirection (roundGame rnd g) = Some dir /\ dir <> Hold)
  /\ cards (currentTrick (roundGame rnd g)) = []
  /\ Forall seatInPassing (players (roundGame rnd g)).
Proof.
  intros Hord Hnd H4 Hph.
  destruct (roundGame_dealt rnd g Hord Hnd H4)
    as [_ [A2 [_ [A4 [_ [A6 [_ [_ A9]]]]]]]].
  split; [|split].
  - eexists. split; [exact A2|]. intros Hh. destruct (A9 Hh) as [Hp _]. congruence.
  - now rewrite A4.
  - apply (Forall2_right _ _ _ _ (fun p p' H => or_introl
             (conj (proj1 (proj2 (proj2 (proj2 (proj2 (proj2 (proj2 H)))))))
                   (proj1 (proj2 (proj2 H))))) A6).
Qed.

Lemma select_seats (g : Game) (pid : string) (player : Player) (cs : list Card) :
  NoDup (map p_id (players g)) ->
  getPlayer pid (players g) = Some player ->
  passRejection player cs = None ->
  NoDup cs -> NoDup (hand player) ->
  Forall seatInPassing (players g) ->
  Forall seatInPassing (players (selectGame g pid cs)).
Proof.
  intros Hnd Hp Hrej Hcs Hh Hall.
  destruct (passRejection_none _ _ Hrej) as [Hnone [Hincl Hlen]].
  destruct (update_split pid (players g) player Hnd Hp) as [pre [post [Hps Hup]]].
  unfold selectGame. cbn [players set_players]. rewrite Hup. rewrite Hps in Hall.
  rewrite Forall_app in Hall |- *. destruct Hall as [H1 H2]. split; [exact H1|].
  inversion H2 as [|? ? Hq Hpost]; subst. constructor; [|exact Hpost].
  right. exists cs. cbn [cardsToPass hand set_hand set_cardsToPass].
  split; [reflexivity|]. split; [exact Hlen|].
  destruct Hq as [[_ H13]|[cs' [Hc' _]]]; [|congruence].
  pose proof (Permutation_length (filter_pass_perm (hand player) cs Hh Hcs Hincl)) as Hl.
  rewrite length_app in Hl. lia.
Qed.

Lemma hand_NoDup (g : Game) (pid : string) (player : Player) :
  NoDup (map p_id (players g)) ->
  getPlayer pid (players g) = Some player ->
  NoDup (allHands g) -> NoDup (hand player).
Proof.
  intros Hnd Hp Hh.
  destruct (update_split pid (players g) player Hnd Hp) as [pre [post [Hps _]]].
  unfold allHands in Hh. rewrite Hps in Hh.
  now apply (NoDup_flat_map_in hand pre post player).
Qed.

Lemma msgOutcome_passingInv (w : World) (pid : string) (player : Player)
    (m : ClientMessage) (w' : World) (pile : list Card) :
  wf w -> conserved w pile -> passingInv w pile -> distinctSelection m ->
  getPlayer pid (players (game w)) = Some player ->
  rejection (game w) player m = None ->
  msgOutcome w pid player m w' -> passingInv w' pile.
Proof.
  intros Hwf Hc Hinv Hok Hp Hrej Hout.
  assert (Hids : NoDup (map p_id (players (game w)))).
  { rewrite <- (wf_order w Hwf). apply (wf_nodup w Hwf). }
  destruct Hout as [|cs outs Hpr Hne|cs dir p0 p1 p2 p3 outs Hpr Hps Hdir Hne
                    |c h' outs Hv Hh Hne|c h' wid outs Hv Hh Hwid Hne].
  - exact Hinv.
  - assert (Hst : started (game w)) by (eapply rejection_started; eauto; discriminate).
    intros Hph. cbn [game] in Hph |- *.
    destruct (selectGame_facts (game w) pid cs) as [F1 [F2 [F3 _]]].
    rewrite F1 in Hph. destruct (Hinv Hph) as [Hd [Ht [Hpile Hseats]]].
    rewrite F2, F3. repeat (split; [assumption|]).
    apply (select_seats (game w) pid player cs); try assumption.
    apply (hand_NoDup (game w) pid); try assumption.
    now apply (conserved_hands_NoDup w pile).
  - intros Hph. cbn [game] in Hph.
    rewrite (proj1 (passedGame_facts dir p0 p1 p2 p3 (selectGame (game w) pid cs))) in Hph.
    discriminate Hph.
  - intros Hph. cbn [game] in Hph.
    rewrite (proj1 (advancedGame_facts (playedGame (game w) pid c h'))) in Hph.
    rewrite (proj1 (playedGame_facts (game w) pid c h')) in Hph.
    unfold rejection in Hrej. rewrite Hph in Hrej. discriminate Hrej.
  - intros Hph. cbn [game] in Hph.
    rewrite (proj1 (trickDoneGame_facts (playedGame (game w) pid c h') wid)) in Hph.
    discriminate Hph.
Qed.

Lemma timerOutcome_passingInv (w : World) (rnd : nat -> nat) (w' : World)
    (pile : list Card) :
  wf w -> passingInv w pile -> timerOutcome w rnd w' ->
  passingInv w' (pileAfterTimer w pile).
Proof.
  intros Hwf Hinv Hout. unfold pileAfterTimer.
  destruct Hout as [Ht|wid wp rest outs over Ht Hp Hh Hne|wid wp rest outs Ht Hp Hh Hne
                    |rest outs Ht Hne|rest outs Ht Hne]; rewrite Ht; try rewrite Hp.
  - exact Hinv.
  - intros Hph. cbn [game] in Hph.
    rewrite (proj1 (scoredGame_facts (game w))) in Hph. discriminate Hph.
  - intros Hph. cbn [game] in Hph.
    rewrite (proj1 (nextTrickGame_facts (game w) wid)) in Hph. discriminate Hph.
  - intros Hph. discriminate Hph.
  - assert (Hst : started (game w)) by (apply (wf_pending w Hwf); rewrite Ht; discriminate).
    pose proof (roundGame_passing rnd (game w) (wf_order w Hwf) (wf_nodup w Hwf)
                  (wf_four w Hwf Hst)) as HR.
    unfold passingInv. cbn [game]. revert HR.
    generalize (roundGame rnd (game w)) as r. intros r HR Hph.
    destruct (HR Hph) as [Hd [Htr Hseats]].
    split; [exact Hd|]. split; [exact Htr|]. split; [reflexivity|exact Hseats].
Qed.

Lemma joinOutcome_passingInv (w : World) (pid name : string) (rnd : nat -> nat)
    (w' : World) (pile : list Card) :
  wf w -> ~ In pid (playerOrder (game w)) -> conserved w pile -> passingInv w pile ->
  joinOutcome w pid name rnd w' -> passingInv w' pile.
Proof.
  intros Hwf Hfresh Hc Hinv Hout.
  destruct (joinedGame_order w pid name Hwf Hfresh) as [Hord [Hnd Hpl]].
  destruct Hout as [_|outs Hph Hn4 Hne|outs Hph H4 Hne].
  - exact Hinv.
  - intros Hp. cbn [game] in Hp.
    rewrite (proj1 (joinedGame_facts pid name (game w))) in Hp. congruence.
  - pose proof (roundGame_passing rnd (joinedGame pid name (game w)) Hord Hnd H4) as HR.
    unfold passingInv. cbn [game]. revert HR.
    generalize (roundGame rnd (joinedGame pid name (game w))) as r. intros r HR Hp.
    destruct (HR Hp) as [Hd [Htr Hseats]].
    split; [exact Hd|]. split; [exact Htr|]. split; [|exact Hseats].
    apply (cons_pile w pile Hc). intros Hst. now apply Hst.
Qed.

Lemma reach_passingInv (w : World) (pile : list Card) :
  reach distinctSelection w pile -> passingInv w pile.
Proof.
  induction 1 as [|w pile pid name rnd Hr IH Hfresh|w pile pid m Hr IH Hok
                  |w pile rnd Hr IH].
  - intros Hph. discriminate Hph.
  - pose proof (reach_wf _ _ _ Hr) as Hwf.
    eapply joinOutcome_passingInv; eauto; [now apply reach_conserved|].
    cbn [step]. now apply addPlayer_outcome.
  - pose proof (reach_wf _ _ _ Hr) as Hwf. cbn [step].
    destruct (getPlayer pid (players (game w))) as [player|] eqn:Hp.
    + destruct (rejection (game w) player m) as [reason|] eqn:Hrej.
      * now rewrite (handleMessage_rejected w pid m player reason Hp Hrej).
      * eapply msgOutcome_passingInv; eauto; [now apply reach_conserved|].
        now apply handleMessage_accepted.
    + now rewrite handleMessage_unknown.
  - pose proof (reach_wf _ _ _ Hr) as Hwf.
    eapply timerOutcome_passingInv; eauto. cbn [step]. now apply fireTimer_outcome.
Qed.


(** An accepted pass selection, in closed form. *)
Lemma handleMessage_select_eq (w : World) (pid : string) (player : Player)
    (cs : list Card) :
  wf w ->
  getPlayer pid (players (game w)) = Some player ->
  phase (game w) = Passing ->
  passRejection player cs = None ->
  handleMessage pid (SelectCardsToPass cs) w
  = if allSelected (selectGame (game w) pid cs)
    then final (executePassing
                  (addOut (selfUpdate (selectGame (game w) pid cs) pid)
                     (withGame (selectGame (game w) pid cs) w)))
    else addOut (selfUpdate (selectGame (game w) pid cs) pid
                 ++ stateUpdates (selectGame (game w) pid cs))
           (withGame (selectGame (game w) pid cs) w).
Proof.
  intros Hwf Hp Hph Hrej.
  assert (Hid : p_id player = pid) by (apply getPlayer_some in Hp; tauto).
  assert (Hhas : hasPlayer (p_id player) (players (game w))).
  { apply getPlayer_has_iff. rewrite Hid, Hp. discriminate. }
  pose proof (handlePassCards_accept player cs w Hrej (wf_idsOk w Hwf) Hhas) as Hacc.
  cbv zeta in Hacc. rewrite Hid in Hacc.
  unfold handleMessage. rewrite Hp. unfold tryCatch.
  rewrite run_get, Hph, <- Hid, String.eqb_refl. cbn [GamePhase_beq andb].
  rewrite Hid, Hacc.
  destruct (allSelected (selectGame (game w) pid cs)).
  - destruct (executePassing _) eqn:E; [reflexivity|].
    (* [executePassing] does not throw at a well-formed table *)
    exfalso.
    set (w1 := addOut (selfUpdate (selectGame (game w) pid cs) pid)
                 (withGame (selectGame (game w) pid cs) w)) in *.
    assert (Hwf1 : wf w1) by exact (selectGame_wf w pid cs _ Hwf).
    destruct (passingDirection (game w1)) as [dir|] eqn:Ed.
    + destruct (PassingDirection_eq_dec dir Hold) as [->|Hne].
      * rewrite executePassing_skip in E by (now right). discriminate E.
      * assert (Hst : started (game w1)).
        { unfold started, w1. rewrite game_addOut, game_withGame.
          destruct (selectGame_facts (game w) pid cs) as [-> _].
          rewrite Hph. discriminate. }
        destruct (four_players _ (wf_four w1 Hwf1 Hst)) as [p0 [p1 [p2 [p3 Hps]]]].
        rewrite (executePassing_four w1 dir p0 p1 p2 p3) in E; try assumption.
        -- discriminate E.
        -- rewrite (wf_order w1 Hwf1), Hps. reflexivity.
        -- rewrite <- Hps, <- (wf_order w1 Hwf1). apply (wf_nodup w1 Hwf1).
    + rewrite executePassing_skip in E by (now left). discriminate E.
  - cbn [final]. now rewrite addOut_app.
Qed.

Lemma receive_seat (p : Player) (src : list Card) :
  List.length (hand p) = 10%nat -> List.length src = 3%nat ->
  List.length (hand (receive p src)) = 13%nat
  /\ ascending (hand (receive p src))
  /\ cardsToPass (receive p src) = None
  /\ receivedCards (receive p src) = None.
Proof.
  intros Hh Hs. unfold receive.
  cbn [hand cardsToPass receivedCards set_receivedCards set_hand set_cardsToPass].
  split; [|split; [apply sortBy_ascending|split; reflexivity]].
  rewrite (Permutation_length (sortBy_perm compareCards (hand p ++ src))), length_app.
  lia.
Qed.

Lemma selected_seat (p : Player) :
  seatInPassing p -> cardsToPass p <> None ->
  List.length (hand p) = 10%nat /\ List.length (passOf p) = 3%nat.
Proof.
  intros [[Hn _]|[cs [Hc [H3 H10]]]] Hne; [contradiction|].
  unfold passOf. rewrite Hc. now split.
Qed.

(** The pass, when every selection names three different cards. In the
    passing phase of a session with such selections, once a selection sets
    the pass off (the game goes over to the playing phase), every seat
    holds thirteen cards again, in ascending order, nothing is left in the
    pass staging, and the four hands together hold every card of the deck
    exactly once, so that no card is in two hands. *)
Theorem pass_gives_back_thirteen (w : World) (pile : list Card) (pid : string)
    (cs : list Card) :
  reach distinctSelection w pile ->
  NoDup cs ->
  phase (game w) = Passing ->
  phase (game (handleMessage pid (SelectCardsToPass cs) w)) = PlayingTrick ->
  let w' := handleMessage pid (SelectCardsToPass cs) w in
  Forall (fun p => List.length (hand p) = 13%nat /\ ascending (hand p)
                   /\ cardsToPass p = None /\ receivedCards p = None)
    (players (game w'))
  /\ Permutation (allHands (game w')) createDeck
  /\ NoDup (allHands (game w')).
Proof.
  intros Hr Hcs Hph Hph' w'.
  pose proof (reach_wf _ _ _ Hr) as Hwf.
  pose proof (reach_conserved _ _ Hr) as Hc.
  destruct (reach_passingInv _ _ Hr Hph) as [[dir [Hdir Hnh]] [Htr [Hpile Hseats]]].
  assert (Hr' : reach distinctSelection w' pile).
  { unfold w'. change (handleMessage pid (SelectCardsToPass cs) w)
      with (step (Message pid (SelectCardsToPass cs)) w).
    apply reach_message; [exact Hr|exact Hcs]. }
  assert (Hst' : started (game w')) by (unfold started, w'; rewrite Hph'; discriminate).
  pose proof (cons_cards w' pile (reach_conserved _ _ Hr') Hst') as Hperm.
  assert (Hids : NoDup (map p_id (players (game w)))).
  { rewrite <- (wf_order w Hwf). apply (wf_nodup w Hwf). }
  assert (Hstw : started (game w)) by (unfold started; rewrite Hph; discriminate).
  (* the command was carried out, and it set the pass off *)
  destruct (getPlayer pid (players (game w))) as [player|] eqn:Hp;
    [|exfalso; rewrite (handleMessage_unknown w pid _ Hp) in Hph'; congruence].
  destruct (passRejection player cs) as [reason|] eqn:Hrej.
  { exfalso.
    rewrite (handleMessage_rejected w pid _ player reason Hp) in Hph'.
    - rewrite game_addOut in Hph'. congruence.
    - unfold rejection. now rewrite Hph. }
  pose proof (handleMessage_select_eq w pid player cs Hwf Hp Hph Hrej) as Heq.
  pose proof (select_seats (game w) pid player cs Hids Hp Hrej Hcs
                (hand_NoDup (game w) pid player Hids Hp
                   (conserved_hands_NoDup w pile Hc Hstw)) Hseats) as Hseats1.
  destruct (selectGame_facts (game w) pid cs) as [F1 [F2 [F3 F4]]].
  destruct (allSelected (selectGame (game w) pid cs)) eqn:Eall.
  2:{ exfalso. rewrite Heq, game_addOut, game_withGame, F1 in Hph'. congruence. }
  set (w1 := addOut (selfUpdate (selectGame (game w) pid cs) pid)
               (withGame (selectGame (game w) pid cs) w)) in *.
  assert (Hwf1 : wf w1) by exact (selectGame_wf w pid cs _ Hwf).
  assert (Hst1 : started (game w1)).
  { unfold started, w1. rewrite game_addOut, game_withGame, F1, Hph. discriminate. }
  destruct (four_players _ (wf_four w1 Hwf1 Hst1)) as [p0 [p1 [p2 [p3 Hps]]]].
  assert (Hgame : game w' = passedGame dir p0 p1 p2 p3 (selectGame (game w) pid cs)).
  { assert (Ho1 : playerOrder (game w1) = map p_id [p0; p1; p2; p3])
      by (rewrite (wf_order w1 Hwf1), Hps; reflexivity).
    assert (Hn1 : NoDup (map p_id [p0; p1; p2; p3]))
      by (rewrite <- Hps, <- (wf_order w1 Hwf1); apply (wf_nodup w1 Hwf1)).
    assert (Hd1 : passingDirection (game w1) = Some dir)
      by (unfold w1; rewrite game_addOut, game_withGame, F3; exact Hdir).
    unfold w'. rewrite Heq.
    rewrite (executePassing_four w1 dir p0 p1 p2 p3 Hps Ho1 Hn1 Hd1 Hnh).
    reflexivity. }
  assert (Hps1 : players (selectGame (game w) pid cs) = [p0; p1; p2; p3]) by exact Hps.
  clearbody w'. clear Heq Hph'.
  (* every seat has made its selection *)
  unfold allSelected in Eall. rewrite Hps1 in Eall, Hseats1.
  rewrite forallb_forall in Eall. rewrite Forall_forall in Hseats1.
  assert (Hsel : forall p, In p [p0; p1; p2; p3] ->
                   List.length (hand p) = 10%nat /\ List.length (passOf p) = 3%nat).
  { intros p Hin. apply selected_seat; [now apply Hseats1|].
    specialize (Eall p Hin). destruct (cardsToPass p); [discriminate|discriminate Eall]. }
  destruct (Hsel p0 ltac:(cbn; tauto)) as [L0 S0].
  destruct (Hsel p1 ltac:(cbn; tauto)) as [L1 S1].
  destruct (Hsel p2 ltac:(cbn; tauto)) as [L2 S2].
  destruct (Hsel p3 ltac:(cbn; tauto)) as [L3 S3].
  destruct (passedGame_facts dir p0 p1 p2 p3 (selectGame (game w) pid cs))
    as [_ [P2 P3]].
  assert (Hseats' : Forall (fun p => List.length (hand p) = 13%nat /\ ascending (hand p)
                                     /\ cardsToPass p = None /\ receivedCards p = None)
                      (players (game w'))).
  { rewrite Hgame, P3.
    destruct dir; [| | |now elim Hnh]; cbn [passedPlayers];
      repeat (constructor; [now apply receive_seat|]); constructor. }
  split; [exact Hseats'|].
  assert (Hhands : Permutation (allHands (game w')) createDeck).
  { unfold cardsInPlay, trickCards, allStaged in Hperm.
    rewrite Hgame, P2, F2, Htr in Hperm. rewrite <- Hgame in Hperm.
    replace (flat_map staged (players (game w'))) with (@nil Card) in Hperm.
    - rewrite Hpile in Hperm. cbn [map app] in Hperm. now rewrite !app_nil_r in Hperm.
    - symmetry. apply staged_none. revert Hseats'. apply Forall_impl. tauto. }
  split; [exact Hhands|].
  apply (Permutation_NoDup (Permutation_sym Hhands)). apply createDeck_NoDup.
Qed.

Lemma reach_threeSelectedWorld : reach distinctSelection threeSelectedWorld [].
Proof.
  apply (reach_run distinctSelection (removelast passes) dealtWorld [] reach_dealtWorld).
  cbn [admissible removelast passes distinctSelection]. repeat split; distinct_cards.
Qed.

Lemma pass_gives_back_thirteen_witness :
  (reach distinctSelection threeSelectedWorld []
   /\ NoDup lastSelection
   /\ phase (game threeSelectedWorld) = Passing
   /\ phase (game (handleMessage "d" (SelectCardsToPass lastSelection) threeSelectedWorld))
      = PlayingTrick)
  /\ Forall (fun p => List.length (hand p) = 13%nat /\ ascending (hand p)
                      /\ cardsToPass p = None /\ receivedCards p = None)
       (players (game (handleMessage "d" (SelectCardsToPass lastSelection)
                         threeSelectedWorld)))
  /\ Permutation
       (allHands (game (handleMessage "d" (SelectCardsToPass lastSelection)
                          threeSelectedWorld)))
       createDeck
  /\ NoDup (allHands (game (handleMessage "d" (SelectCardsToPass lastSelection)
                              threeSelectedWorld))).
Proof.
  assert (H1 : NoDup lastSelection) by (unfold lastSelection; distinct_cards).
  assert (H2 : phase (game threeSelectedWorld) = Passing) by (vm_compute; reflexivity).
  assert (H3 : phase (game (handleMessage "d" (SelectCardsToPass lastSelection)
                              threeSelectedWorld)) = PlayingTrick)
    by (vm_compute; reflexivity).
  split; [split; [exact reach_threeSelectedWorld|split; [exact H1|split; [exact H2|exact H3]]]|].
  exact (pass_gives_back_thirteen threeSelectedWorld [] "d" lastSelection
           reach_threeSelectedWorld H1 H2 H3).
Defined.


(** ** game.ts: departures *)

Lemma getPlayer_mapDelete_other (pid id : string) (ps : list Player) :
  id <> pid -> getPlayer id (mapDelete pid p_id ps) = getPlayer id ps.
Proof.
  intros Hne. unfold getPlayer. induction ps as [|x ps IH]; [reflexivity|].
  cbn [mapDelete find].
  destruct (String.eqb_spec (p_id x) pid) as [E|E].
  - destruct (String.eqb_spec (p_id x) id) as [E'|E']; [congruence|reflexivity].
  - cbn [find]. destruct (String.eqb (p_id x) id); [reflexivity|exact IH].
Qed.

Lemma mapDelete_ids (pid : string) (ps : list Player) :
  NoDup (map p_id ps) ->
  map p_id (mapDelete pid p_id ps)
  = filter (fun id => negb (String.eqb id pid)) (map p_id ps).
Proof.
  induction ps as [|x ps IH]; intros Hnd; [reflexivity|].
  cbn [mapDelete map filter]. inversion Hnd as [|? ? Hx Hrest]; subst.
  destruct (String.eqb_spec (p_id x) pid) as [E|E]; cbn [negb].
  - symmetry. apply forallb_filter_id. apply forallb_forall.
    intros id Hin. destruct (String.eqb_spec id pid) as [E'|E']; [|reflexivity].
    exfalso. apply Hx. congruence.
  - cbn [map]. now rewrite IH.
Qed.

Lemma getPlayer_mapDelete_same (pid : string) (ps : list Player) :
  NoDup (map p_id ps) -> getPlayer pid (mapDelete pid p_id ps) = None.
Proof.
  intros Hnd. destruct (getPlayer pid (mapDelete pid p_id ps)) as [q|] eqn:E;
    [|reflexivity].
  exfalso. apply getPlayer_some in E. destruct E as [Hin Hid].
  apply (in_map p_id) in Hin. rewrite (mapDelete_ids pid ps Hnd) in Hin.
  apply filter_In in Hin. destruct Hin as [_ Hne]. rewrite Hid, String.eqb_refl in Hne.
  discriminate Hne.
Qed.

Lemma departedGame_idsOk (pid : string) (g : Game) : idsOk g -> idsOk (departedGame pid g).
Proof.
  intros Hok id Hin. unfold departedGame in *.
  cbn [playerOrder players set_playerOrder set_players] in *.
  apply filter_In in Hin. destruct Hin as [Hin Hne].
  apply negb_true_iff in Hne. apply String.eqb_neq in Hne.
  apply getPlayer_has_iff. rewrite getPlayer_mapDelete_other by exact Hne.
  apply getPlayer_has_iff. now apply Hok.
Qed.

Lemma game_leaving (p : Player) (w : World) : game (leaving p w) = game w.
Proof. reflexivity. Qed.

Lemma outbox_leaving (p : Player) (w : World) : outbox (leaving p w) = outbox w.
Proof. reflexivity. Qed.

Lemma timers_leaving (p : Player) (w : World) : timers (leaving p w) = timers w.
Proof. reflexivity. Qed.

Lemma run_deletePlayer {B : Type} (pid : string) (p : Player) (k : unit -> M B)
    (w : World) :
  getPlayer pid (players (game w)) = Some p ->
  bind (deletePlayer pid) k w
  = k tt (leaving p (withGame (set_players (mapDelete pid p_id (players (game w))) (game w)) w)).
Proof. intros Hp. unfold bind, deletePlayer. rewrite Hp. reflexivity. Qed.

(** [removePlayer] in closed form. *)
Lemma removePlayer_eq (pid : string) (w : World) :
  idsOk (game w) ->
  removePlayer pid w
  = match getPlayer pid (players (game w)) with
    | None => Ret tt w
    | Some player =>
        let g' := departedGame pid (game w) in
        if inProgress (game w) then
          Ret tt (addOut [Broadcast (GameOverMsg (lowestScorer (players g'))
                                       (publicInfo (set_phase GameOver g'))
                                       (leftReason player));
                          OnGameEnd]
                    (withGame (set_phase GameOver g') (leaving player w)))
        else if GamePhase_beq (phase (game w)) WaitingForPlayers then
          Ret tt (addOut (stateUpdates g') (withGame g' (leaving player w)))
        else Ret tt (withGame g' (leaving player w))
    end.
Proof.
  intros Hok. unfold removePlayer. rewrite run_get.
  destruct (getPlayer pid (players (game w))) as [player|] eqn:Hp; [|reflexivity].
  rewrite (run_deletePlayer pid player _ w Hp).
  change (leaving player (withGame ?g w)) with (withGame g (leaving player w)).
  rewrite !run_modify, !withGame_withGame, !game_withGame, run_get, game_withGame.
  cbn [phase playerOrder set_players set_playerOrder]. cbv zeta.
  fold (departedGame pid (game w)).
  pose proof (departedGame_idsOk pid (game w) Hok) as Hok'.
  fold (inProgress (game w)). fold (leftReason player).
  destruct (inProgress (game w)).
  - now rewrite endGame_eq.
  - destruct (GamePhase_beq (phase (game w)) WaitingForPlayers); [|reflexivity].
    now rewrite broadcastGameState_eq.
Qed.


Lemma publicInfo_ids (g : Game) (id : string) :
  In id (map i_id (publicInfo g)) -> In id (playerOrder g).
Proof.
  unfold publicInfo. rewrite in_map_iff. intros [info [Hid Hin]].
  apply in_flat_map in Hin. destruct Hin as [x [Hx Hinfo]].
  destruct (getPlayer x (players g)) as [p|] eqn:E; [|contradiction].
  destruct Hinfo as [<-|[]]. apply getPlayer_some in E. destruct E as [_ E].
  cbn [getPlayerInfo i_id] in Hid. congruence.
Qed.

Lemma departed_order (pid id : string) (g : Game) :
  In id (playerOrder (departedGame pid g)) <-> In id (playerOrder g) /\ id <> pid.
Proof.
  unfold departedGame. cbn [playerOrder set_playerOrder set_players].
  rewrite filter_In, negb_true_iff, String.eqb_neq. reflexivity.
Qed.

Lemma lowestScorer_in (ps : list Player) (info : PlayerInfo) :
  lowestScorer ps = Some info -> exists p, In p ps /\ info = getPlayerInfo p.
Proof.
  destruct ps as [|x ps]; [discriminate|]. intros H.
  destruct (lowestScorer_first (x :: ps) ltac:(discriminate)) as [k [p [[Hk _] Hl]]].
  exists p. split; [now apply nth_error_In in Hk|congruence].
Qed.

Lemma newOutput_addOut (w : World) (g : Game) (outs : list Outgoing) :
  newOutput w (addOut outs (withGame g w)) = outs.
Proof. now apply newOutput_app. Qed.

Lemma newOutput_withGame (w : World) (g : Game) : newOutput w (withGame g w) = [].
Proof. unfold newOutput, withGame. cbn [outbox]. now rewrite skipn_all. Qed.

Lemma newOutput_addOut_leaving (w : World) (p : Player) (g : Game)
    (outs : list Outgoing) :
  newOutput w (addOut outs (withGame g (leaving p w))) = outs.
Proof. exact (newOutput_addOut (leaving p w) g outs). Qed.

Lemma newOutput_withGame_leaving (w : World) (p : Player) (g : Game) :
  newOutput w (withGame g (leaving p w)) = [].
Proof. exact (newOutput_withGame (leaving p w) g). Qed.

(** What [removePlayer] leaves alone. A call for an id that is not in the
    game changes nothing. In every case the pending timers, the trick, the
    deck, the round counter and the hearts-broken flag stay as they are, no
    error is sent, no other player and no other seat is touched, the id is
    afterwards neither in the player map nor in the seating order, and the
    phase is the phase before or game over. *)
Theorem removePlayer_frame (pid : string) (w : World) :
  idsOk (game w) ->
  NoDup (map p_id (players (game w))) ->
  let w' := final (removePlayer pid w) in
  (getPlayer pid (players (game w)) = None -> w' = w)
  /\ getPlayer pid (players (game w')) = None
  /\ ~ In pid (playerOrder (game w'))
  /\ (forall id, id <> pid ->
        getPlayer id (players (game w')) = getPlayer id (players (game w))
        /\ (In id (playerOrder (game w')) <-> In id (playerOrder (game w))))
  /\ timers w' = timers w
  /\ existsb isErrorOut (newOutput w w') = false
  /\ (phase (game w') = phase (game w) \/ phase (game w') = GameOver)
  /\ currentTrick (game w') = currentTrick (game w)
  /\ deck (game w') = deck (game w)
  /\ roundNumber (game w') = roundNumber (game w)
  /\ heartsBroken (game w') = heartsBroken (game w).
Proof.
  intros Hok Hnd w'. unfold w'. clear w'. rewrite (removePlayer_eq pid w Hok).
  destruct (getPlayer pid (players (game w))) as [player|] eqn:Hp.
  - cbv zeta.
    assert (Hgone : getPlayer pid (players (departedGame pid (game w))) = None)
      by (apply getPlayer_mapDelete_same; exact Hnd).
    assert (Hord : ~ In pid (playerOrder (departedGame pid (game w)))).
    { intros H. apply departed_order in H. destruct H as [_ H]. now apply H. }
    assert (Hothers : forall id, id <> pid ->
              getPlayer id (players (departedGame pid (game w)))
              = getPlayer id (players (game w))
              /\ (In id (playerOrder (departedGame pid (game w)))
                  <-> In id (playerOrder (game w)))).
    { intros id Hne. split; [now apply getPlayer_mapDelete_other|].
      rewrite departed_order. tauto. }
    split; [discriminate|].
    destruct (inProgress (game w)); [|destruct (GamePhase_beq _ _)]; cbn [final];
      rewrite ?game_addOut, ?game_withGame;
      (split; [exact Hgone|]); (split; [exact Hord|]); (split; [exact Hothers|]);
      (split; [reflexivity|]).
    + split; [now rewrite newOutput_addOut_leaving|].
      split; [now right|]. repeat split.
    + split; [rewrite newOutput_addOut_leaving; apply noErr_stateUpdates|].
      split; [now left|]. repeat split.
    + split; [now rewrite newOutput_withGame_leaving|].
      split; [now left|]. repeat split.
  - cbn [final]. split; [reflexivity|]. split; [exact Hp|].
    split.
    + intros Hin. apply Hok in Hin. apply getPlayer_has_iff in Hin. contradiction.
    + split; [intros id _; split; reflexivity|].
      split; [reflexivity|]. split; [unfold newOutput; now rewrite skipn_all|].
      split; [now left|]. repeat split.
Qed.

Lemma removePlayer_frame_witness :
  (idsOk (game dealtWorld) /\ NoDup (map p_id (players (game dealtWorld))))
  /\ getPlayer "a" (players (game (final (removePlayer "a" dealtWorld)))) = None
  /\ timers (final (removePlayer "a" dealtWorld)) = timers dealtWorld.
Proof.
  assert (Hwf : wf dealtWorld) by exact (reach_wf _ _ _ reach_dealtWorld).
  assert (Hok : idsOk (game dealtWorld)) by exact (wf_idsOk _ Hwf).
  assert (Hnd : NoDup (map p_id (players (game dealtWorld)))).
  { rewrite <- (wf_order _ Hwf). exact (wf_nodup _ Hwf). }
  split; [split; [exact Hok|exact Hnd]|].
  destruct (removePlayer_frame "a" dealtWorld Hok Hnd) as [_ [A2 [_ [_ [A5 _]]]]].
  split; [exact A2|exact A5].
Defined.

(** A departure from a game in progress ends the game: the phase becomes
    game over and the one broadcast made is the game-over notice, followed
    by the end-of-game callback. Its reason names the player who left; its
    final scores do not list that player; its winner is the first seat with
    the lowest total among the players who remain, and nobody when no
    player remains. *)
Theorem removePlayer_ends_game (pid : string) (w : World) (player : Player) :
  idsOk (game w) ->
  NoDup (map p_id (players (game w))) ->
  getPlayer pid (players (game w)) = Some player ->
  inProgress (game w) = true ->
  let w' := final (removePlayer pid w) in
  phase (game w') = GameOver
  /\ players (game w') = mapDelete pid p_id (players (game w))
  /\ exists winner finalScores,
       newOutput w w'
       = [Broadcast (GameOverMsg winner finalScores (leftReason player)); OnGameEnd]
       /\ ~ In pid (map i_id finalScores)
       /\ (forall info, winner = Some info -> i_id info <> pid)
       /\ (players (game w') = [] -> winner = None)
       /\ (players (game w') <> [] ->
           exists k p, firstLowest (players (game w')) k p
                       /\ winner = Some (getPlayerInfo p)).
Proof.
  intros Hok Hnd Hp Hin w'. unfold w'. clear w'.
  rewrite (removePlayer_eq pid w Hok), Hp. cbv zeta. rewrite Hin. cbn [final].
  rewrite game_addOut, game_withGame.
  split; [reflexivity|]. split; [reflexivity|].
  eexists. eexists. split; [apply newOutput_addOut_leaving|].
  split; [|split; [|split]].
  - intros H. apply publicInfo_ids in H.
    change (playerOrder (set_phase GameOver (departedGame pid (game w))))
      with (playerOrder (departedGame pid (game w))) in H.
    apply departed_order in H. destruct H as [_ H]. now apply H.
  - intros info Hw. apply lowestScorer_in in Hw. destruct Hw as [p [Hpin ->]].
    cbn [getPlayerInfo i_id]. intros Hid.
    pose proof (getPlayer_mapDelete_same pid (players (game w)) Hnd) as Hgone.
    assert (Hhas : hasPlayer pid (mapDelete pid p_id (players (game w)))).
    { unfold hasPlayer. apply in_map_iff. exists p. split; [exact Hid|exact Hpin]. }
    apply getPlayer_has_iff in Hhas. contradiction.
  - cbn [players set_phase]. intros ->. reflexivity.
  - cbn [players set_phase]. intros Hne.
    destruct (lowestScorer_first _ Hne) as [k [p [H1 H2]]]. now exists k, p.
Qed.

Lemma removePlayer_ends_game_witness :
  exists ann,
    (idsOk (game dealtWorld) /\ NoDup (map p_id (players (game dealtWorld)))
     /\ getPlayer "a" (players (game dealtWorld)) = Some ann
     /\ inProgress (game dealtWorld) = true)
    /\ phase (game (final (removePlayer "a" dealtWorld))) = GameOver.
Proof.
  assert (Hwf : wf dealtWorld) by exact (reach_wf _ _ _ reach_dealtWorld).
  assert (Hok : idsOk (game dealtWorld)) by exact (wf_idsOk _ Hwf).
  assert (Hnd : NoDup (map p_id (players (game dealtWorld)))).
  { rewrite <- (wf_order _ Hwf). exact (wf_nodup _ Hwf). }
  eexists. 
  assert (Hp : getPlayer "a" (players (game dealtWorld)) = _) by (vm_compute; reflexivity).
  assert (Hin : inProgress (game dealtWorld) = true) by (vm_compute; reflexivity).
  split; [split; [exact Hok|split; [exact Hnd|split; [exact Hp|exact Hin]]]|].
  exact (proj1 (removePlayer_ends_game "a" dealtWorld _ Hok Hnd Hp Hin)).
Defined.


(** ** game.ts: joins *)

Lemma getPlayer_last (pid : string) (ps : list Player) (p : Player) :
  ~ In pid (map p_id ps) -> p_id p = pid -> getPlayer pid (ps ++ [p]) = Some p.
Proof.
  intros Hfresh Hid. unfold getPlayer. induction ps as [|x ps IH]; cbn [app find].
  - now rewrite Hid, String.eqb_refl.
  - destruct (String.eqb_spec (p_id x) pid) as [E|E].
    + exfalso. apply Hfresh. left. exact E.
    + apply IH. intros H. apply Hfresh. now right.
Qed.

(** [addPlayer] in closed form, for an id not yet in the game. *)
Lemma addPlayer_eq (w : World) (pid name : string) (rnd : nat -> nat) :
  wf w -> ~ In pid (playerOrder (game w)) ->
  addPlayer pid name rnd w
  = if (len (players (game w)) >=? MAX_PLAYERS)
       || negb (GamePhase_beq (phase (game w)) WaitingForPlayers)
    then Ret None w
    else
      if len (players (joinedGame pid name (game w))) =? MAX_PLAYERS
      then Ret (Some (returnedPlayer pid name
                        (roundGame rnd (joinedGame pid name (game w)))))
             (addOut ((SendToPlayer pid (GameJoined pid)
                       :: stateUpdates (joinedGame pid name (game w)))
                      ++ roundOuts rnd (joinedGame pid name (game w)))
                (withGame (roundGame rnd (joinedGame pid name (game w))) w))
      else Ret (Some (newPlayer pid name))
             (addOut (SendToPlayer pid (GameJoined pid)
                      :: stateUpdates (joinedGame pid name (game w)))
                (withGame (joinedGame pid name (game w)) w)).
Proof.
  intros Hwf Hfresh. unfold addPlayer. rewrite run_get.
  destruct (len (players (game w)) >=? MAX_PLAYERS) eqn:Efull; [reflexivity|].
  destruct (GamePhase_beq (phase (game w)) WaitingForPlayers) eqn:Eph; cbn [negb orb];
    [|reflexivity].
  destruct (joinedGame_order w pid name Hwf Hfresh) as [Hord [Hnd Hpl]].
  assert (Hok : idsOk (joinedGame pid name (game w))) by (now apply idsOk_of_order).
  rewrite !run_modify, withGame_withGame, game_withGame. cbv beta.
  change (set_playerOrder _ _) with (joinedGame pid name (game w)).
  unfold sendToPlayer. rewrite run_emit.
  rewrite run_broadcastGameState by (rewrite game_addOut, game_withGame; exact Hok).
  rewrite run_get, !game_addOut, game_withGame, addOut_app.
  destruct (len (players (joinedGame pid name (game w))) =? MAX_PLAYERS) eqn:E4.
  - unfold bind at 1.
    rewrite startNewRound_eq
      by (rewrite ?game_addOut, ?game_withGame; assumption).
    rewrite run_get. cbn [ret]. rewrite !game_addOut, !game_withGame, withGame_addOut,
      withGame_withGame, addOut_app. unfold returnedPlayer.
    generalize (roundOuts rnd (joinedGame pid name (game w))) as outs.
    generalize (roundGame rnd (joinedGame pid name (game w))) as r.
    intros r outs. reflexivity.
  - unfold bind at 1. cbn [ret]. rewrite run_get. cbn [ret].
    rewrite game_addOut, game_withGame, Hpl.
    rewrite (getPlayer_last pid (players (game w)) (newPlayer pid name));
      [reflexivity| |reflexivity].
    now rewrite <- (wf_order w Hwf).
Qed.

(** [addPlayer] turns a join down when four players are in the game or
    the game is no longer waiting for players: it returns no player, and
    neither the game nor the outbox nor the timers change. *)
Theorem addPlayer_refuses (w : World) (pid name : string) (rnd : nat -> nat) :
  (4 <= List.length (players (game w)))%nat \/ phase (game w) <> WaitingForPlayers ->
  addPlayer pid name rnd w = Ret None w.
Proof.
  intros H. unfold addPlayer. rewrite run_get.
  destruct (Z.geb_spec (len (players (game w))) MAX_PLAYERS) as [Hge|Hlt]; [reflexivity|].
  destruct (GamePhase_beq (phase (game w)) WaitingForPlayers) eqn:Eph; cbn [negb];
    [|reflexivity].
  apply GamePhase_beq_eq in Eph. destruct H as [H|H]; [|contradiction].
  unfold len, MAX_PLAYERS in Hlt. lia.
Qed.

Lemma addPlayer_refuses_witness :
  ((4 <= List.length (players (game dealtWorld)))%nat
   \/ phase (game dealtWorld) <> WaitingForPlayers)
  /\ addPlayer "e" "Eve" noShuffle dealtWorld = Ret None dealtWorld.
Proof.
  assert (H : (4 <= List.length (players (game dealtWorld)))%nat
              \/ phase (game dealtWorld) <> WaitingForPlayers).
  { left. vm_compute. repeat constructor. }
  split; [exact H|exact (addPlayer_refuses dealtWorld "e" "Eve" noShuffle H)].
Defined.

Lemma mapDelete_last (pid : string) (v : Player) (ps : list Player) :
  p_id v = pid -> ~ In pid (map p_id ps) -> mapDelete pid p_id (ps ++ [v]) = ps.
Proof.
  intros Hv. induction ps as [|x ps IH]; intros Hn; cbn [app mapDelete].
  - now rewrite Hv, String.eqb_refl.
  - cbn [map In] in Hn. destruct (String.eqb_spec (p_id x) pid) as [E|E]; [tauto|].
    rewrite IH by tauto. reflexivity.
Qed.

Lemma filter_last (pid : string) (l : list string) :
  ~ In pid l -> filter (fun id => negb (String.eqb id pid)) (l ++ [pid]) = l.
Proof.
  intros Hn. rewrite filter_app. cbn [filter]. rewrite String.eqb_refl. cbn [negb].
  rewrite app_nil_r. apply forallb_filter_id. apply forallb_forall.
  intros id Hin. apply negb_true_iff, String.eqb_neq. intros ->. contradiction.
Qed.

Lemma departed_joined (w : World) (pid name : string) :
  wf w -> ~ In pid (playerOrder (game w)) ->
  departedGame pid (joinedGame pid name (game w)) = game w.
Proof.
  intros Hwf Hfresh.
  destruct (joinedGame_order w pid name Hwf Hfresh) as [_ [_ Hpl]].
  destruct (joinedGame_facts pid name (game w)) as [_ [_ [Hord _]]].
  unfold departedGame. rewrite Hord, Hpl.
  rewrite filter_last by exact Hfresh.
  rewrite mapDelete_last;
    [|reflexivity|rewrite <- (wf_order w Hwf); exact Hfresh].
  destruct (game w); reflexivity.
Qed.

(** Joining and leaving in the waiting phase. A player who joins a
    waiting game in which fewer than three players are seated (so that the
    join does not start the round) is welcomed before anybody is updated,
    and is seated last; when that player leaves again the game is exactly
    as it was before the join, and the players who remain are each sent
    one update that shows it. *)
Theorem join_then_leave (w : World) (pid name : string) (rnd : nat -> nat) :
  wf w ->
  ~ In pid (playerOrder (game w)) ->
  phase (game w) = WaitingForPlayers ->
  (List.length (players (game w)) < 3)%nat ->
  let w1 := final (addPlayer pid name rnd w) in
  let w2 := final (removePlayer pid w1) in
  addPlayer pid name rnd w = Ret (Some (newPlayer pid name)) w1
  /\ playerOrder (game w1) = playerOrder (game w) ++ [pid]
  /\ players (game w1) = players (game w) ++ [newPlayer pid name]
  /\ phase (game w1) = WaitingForPlayers
  /\ (exists updates, newOutput w w1 = SendToPlayer pid (GameJoined pid) :: updates
                      /\ updates = stateUpdates (game w1))
  /\ game w2 = game w
  /\ newOutput w1 w2 = stateUpdates (game w)
  /\ timers w2 = timers w.
Proof.
  intros Hwf Hfresh Hph H3 w1 w2.
  destruct (joinedGame_order w pid name Hwf Hfresh) as [Hord [Hnd Hpl]].
  destruct (joinedGame_facts pid name (game w)) as [Fph [_ [Ford _]]].
  assert (Hadd : addPlayer pid name rnd w
                 = Ret (Some (newPlayer pid name))
                     (addOut (SendToPlayer pid (GameJoined pid)
                              :: stateUpdates (joinedGame pid name (game w)))
                        (withGame (joinedGame pid name (game w)) w))).
  { rewrite (addPlayer_eq w pid name rnd Hwf Hfresh), Hph.
    destruct (Z.geb_spec (len (players (game w))) MAX_PLAYERS) as [Hge|Hlt];
      [unfold len, MAX_PLAYERS in Hge; lia|].
    cbn [GamePhase_beq negb orb].
    destruct (Z.eqb_spec (len (players (joinedGame pid name (game w)))) MAX_PLAYERS)
      as [E|E]; [|reflexivity].
    rewrite Hpl in E. unfold len, MAX_PLAYERS in E. rewrite length_app in E.
    cbn [List.length] in E. lia. }
  assert (Hw1 : w1 = addOut (SendToPlayer pid (GameJoined pid)
                             :: stateUpdates (joinedGame pid name (game w)))
                       (withGame (joinedGame pid name (game w)) w))
    by (unfold w1; now rewrite Hadd).
  assert (Hg1 : game w1 = joinedGame pid name (game w)) by now rewrite Hw1.
  assert (Hok1 : idsOk (game w1)) by (rewrite Hg1; now apply idsOk_of_order).
  assert (Hp1 : getPlayer pid (players (game w1)) = Some (newPlayer pid name)).
  { rewrite Hg1. apply (getPlayer_in_nodup _ (newPlayer pid name)).
    - rewrite <- Hord. exact Hnd.
    - rewrite Hpl. apply in_or_app. right. now left. }
  assert (Hw2 : w2 = addOut (stateUpdates (game w))
                       (withGame (game w) (leaving (newPlayer pid name) w1))).
  { unfold w2. rewrite (removePlayer_eq pid w1 Hok1), Hp1. cbv zeta.
    unfold inProgress. rewrite Hg1, Fph, Hph. cbn [GamePhase_beq negb andb final].
    now rewrite (departed_joined w pid name Hwf Hfresh). }
  clearbody w1 w2.
  split; [now rewrite Hadd, Hw1|].
  split; [now rewrite Hg1|]. split; [now rewrite Hg1|].
  split; [now rewrite Hg1, Fph|].
  split; [eexists; split; [rewrite Hw1; apply newOutput_addOut|now rewrite Hg1]|].
  split; [now rewrite Hw2|].
  split; [rewrite Hw2; apply newOutput_addOut_leaving|].
  now rewrite Hw2, Hw1.
Qed.

Lemma join_then_leave_witness :
  (wf newWorld /\ ~ In "a"%string (playerOrder (game newWorld))
   /\ phase (game newWorld) = WaitingForPlayers
   /\ (List.length (players (game newWorld)) < 3)%nat)
  /\ game (final (removePlayer "a" (final (addPlayer "a" "Ann" noShuffle newWorld))))
     = game newWorld.
Proof.
  assert (H2 : ~ In "a"%string (playerOrder (game newWorld))) by (intros H; exact H).
  assert (H3 : phase (game newWorld) = WaitingForPlayers) by reflexivity.
  assert (H4 : (List.length (players (game newWorld)) < 3)%nat) by (cbn; lia).
  split; [split; [exact wf_newWorld|split; [exact H2|split; [exact H3|exact H4]]]|].
  destruct (join_then_leave newWorld "a" "Ann" noShuffle wf_newWorld H2 H3 H4)
    as [_ [_ [_ [_ [_ [A6 _]]]]]].
  exact A6.
Defined.


(** ** game.ts: the flow of a trick *)

Lemma getPlayer_updatePlayer (id pid : string) (f : Player -> Player) (ps : list Player) :
  (forall p, p_id (f p) = p_id p) ->
  getPlayer id (updatePlayer pid f ps)
  = option_map (fun q => if String.eqb (p_id q) pid then f q else q) (getPlayer id ps).
Proof.
  intros Hf. unfold getPlayer, updatePlayer.
  induction ps as [|x ps IH]; [reflexivity|]. cbn [map find].
  assert (Hid : p_id (if String.eqb (p_id x) pid then f x else x) = p_id x).
  { destruct (String.eqb (p_id x) pid); [apply Hf|reflexivity]. }
  rewrite Hid. destruct (String.eqb (p_id x) id); [reflexivity|exact IH].
Qed.

Lemma indexOfFrom_at (x : string) (l : list string) (i : Z) :
  In x l ->
  exists k, indexOfFrom String.eqb x l i = i + k /\ 0 <= k < len l /\ at_ l k = Some x.
Proof.
  revert i. induction l as [|y l IH]; intros i Hin; [contradiction|].
  cbn [indexOfFrom]. destruct (String.eqb_spec y x) as [E|E].
  - exists 0. subst y. split; [lia|]. split; [unfold len; cbn [List.length]; lia|].
    reflexivity.
  - destruct Hin as [Hin|Hin]; [contradiction|].
    destruct (IH (i + 1) Hin) as [k [Hk [Hr Hat]]].
    exists (k + 1). split; [lia|]. split; [unfold len in *; cbn [List.length]; lia|].
    now rewrite at_cons_succ by lia.
Qed.

Lemma trickPoints_points (g : Game) :
  trickPoints g = points (map card (cards (currentTrick g))).
Proof.
  unfold trickPoints, points. generalize 0 as acc.
  induction (cards (currentTrick g)) as [|e l IH]; intros acc; [reflexivity|].
  cbn [fold_left map]. apply IH.
Qed.

(** An accepted play that leaves the trick incomplete, in closed form. *)
Lemma handleMessage_play_on (w : World) (pid : string) (player : Player) (c : Card)
    (h' : list Card) :
  wf w ->
  getPlayer pid (players (game w)) = Some player ->
  rejection (game w) player (PlayCard c) = None ->
  removeFirst c (hand player) = Some h' ->
  (len (cards (currentTrick (playedGame (game w) pid c h')))
   =? len (players (playedGame (game w) pid c h'))) = false ->
  handleMessage pid (PlayCard c) w
  = addOut (stateUpdates (advancedGame (playedGame (game w) pid c h'))
            ++ turnNotice (advancedGame (playedGame (game w) pid c h')))
      (withGame (advancedGame (playedGame (game w) pid c h')) w).
Proof.
  intros Hwf Hp Hrej Hh Hlen.
  assert (Hid : p_id player = pid) by (apply getPlayer_some in Hp; tauto).
  unfold rejection in Hrej. rewrite Hid in Hrej.
  destruct (GamePhase_beq (phase (game w)) PlayingTrick
            && match getCurrentPlayerId (game w) with
               | Some cur => String.eqb cur pid
               | None => false
               end) eqn:Eph; [|discriminate Hrej].
  pose proof (handlePlayCard_accept player c h' w Hrej Hh (wf_idsOk w Hwf)) as Hacc.
  cbv zeta in Hacc. rewrite Hid, Hlen in Hacc.
  unfold handleMessage. rewrite Hp.
  erewrite tryCatch_ret; [reflexivity|].
  rewrite run_get, Eph. exact Hacc.
Qed.

(** An accepted play that completes the trick, in closed form. *)
Lemma handleMessage_play_last (w : World) (pid : string) (player : Player) (c : Card)
    (h' : list Card) :
  wf w ->
  getPlayer pid (players (game w)) = Some player ->
  rejection (game w) player (PlayCard c) = None ->
  removeFirst c (hand player) = Some h' ->
  (len (cards (currentTrick (playedGame (game w) pid c h')))
   =? len (players (playedGame (game w) pid c h'))) = true ->
  exists wid wc wp,
    trickWinner (currentTrick (playedGame (game w) pid c h')) = inr (wid, wc)
    /\ getPlayer wid (players (playedGame (game w) pid c h')) = Some wp
    /\ handleMessage pid (PlayCard c) w
       = mkWorld (trickDoneGame (playedGame (game w) pid c h') wid)
           (outbox w
            ++ stateUpdates (playedGame (game w) pid c h')
            ++ [Broadcast (TrickWon wid (p_name wp)
                             (trickPoints (playedGame (game w) pid c h'))
                             (cards (currentTrick (playedGame (game w) pid c h'))))])
           (timers w ++ [NextTrickTimer wid]) (departed w).
Proof.
  intros Hwf Hp Hrej Hh Hlen.
  assert (Hid : p_id player = pid) by (apply getPlayer_some in Hp; tauto).
  assert (Hhas : hasPlayer pid (players (game w))).
  { apply getPlayer_has_iff. rewrite Hp. discriminate. }
  unfold rejection in Hrej. rewrite Hid in Hrej.
  destruct (GamePhase_beq (phase (game w)) PlayingTrick
            && match getCurrentPlayerId (game w) with
               | Some cur => String.eqb cur pid
               | None => false
               end) eqn:Eph; [|discriminate Hrej].
  pose proof (handlePlayCard_accept player c h' w Hrej Hh (wf_idsOk w Hwf)) as Hacc.
  cbv zeta in Hacc. rewrite Hid, Hlen in Hacc.
  destruct (playedGame_facts (game w) pid c h') as [Hph [Hcards [Hlead Hpl]]].
  pose proof (playedGame_sameIds (game w) pid c h') as Hsame.
  revert Hacc Hph Hcards Hlead Hpl Hsame.
  generalize (playedGame (game w) pid c h') as g1.
  intros g1 Hacc Hph Hcards Hlead Hpl Hsame.
  assert (Hne : cards (currentTrick g1) <> []).
  { rewrite Hcards. intros H. now apply app_eq_nil in H. }
  assert (Hls : leadingSuit (currentTrick g1) <> None).
  { rewrite Hlead.
    destruct (len (cards (currentTrick (game w)) ++ [mkPlayed pid c]) =? 1) eqn:E1;
      [discriminate|].
    apply (wf_lead w Hwf). now apply len_app_one in E1. }
  destruct (trickWinner_total _ Hne Hls) as [wid [wc Hwin]].
  assert (Hwhas : hasPlayer wid (players (game w))).
  { destruct (trickWinner_in _ _ _ Hwin) as [e [He <-]].
    rewrite Hcards in He. apply in_app_or in He. destruct He as [He|[<-|[]]].
    - now apply (wf_trick w Hwf).
    - exact Hhas. }
  destruct (getPlayer_has wid (players g1)) as [wp Hwp].
  { eapply sameIds_hasPlayer; eauto. }
  exists wid, wc, wp. split; [exact Hwin|]. split; [exact Hwp|].
  rewrite (endTrick_eq _ wid wc wp) in Hacc.
  - unfold handleMessage. rewrite Hp.
    erewrite tryCatch_ret; [|rewrite run_get, Eph; exact Hacc].
    rewrite game_addOut, game_withGame. cbn [outbox timers addOut withGame departed].
    now rewrite <- app_assoc.
  - rewrite game_addOut, game_withGame.
    eapply sameIds_idsOk; [exact Hsame|apply (wf_idsOk w Hwf)].
  - rewrite game_addOut, game_withGame. exact Hwin.
  - rewrite game_addOut, game_withGame. exact Hwp.
Qed.


Lemma playedGame_more (g : Game) (pid : string) (c : Card) (h' : list Card) :
  currentPlayerIndex (playedGame g pid c h') = currentPlayerIndex g
  /\ playerOrder (playedGame g pid c h') = playerOrder g
  /\ roundNumber (playedGame g pid c h') = roundNumber g.
Proof.
  unfold playedGame. cbv zeta.
  match goal with |- context [if ?b then _ else _] => destruct b end; repeat split.
Qed.

Lemma trickDoneGame_more (g : Game) (wid : string) :
  players (trickDoneGame g wid)
  = updatePlayer wid (fun q => set_roundScore (roundScore q + trickPoints g) q) (players g)
  /\ trickWinnerId (currentTrick (trickDoneGame g wid)) = Some wid
  /\ playerOrder (trickDoneGame g wid) = playerOrder g.
Proof. repeat split. Qed.

Lemma lead_after_play {A : Type} (l : list PlayedCard) (e : PlayedCard) (a b : A) :
  (if len (l ++ [e]) =? 1 then a else b) = match l with [] => a | _ => b end.
Proof.
  destruct l as [|x l]; [reflexivity|].
  unfold len. cbn [app List.length]. rewrite length_app. cbn [List.length].
  destruct (Z.eqb_spec (Z.of_nat (S (List.length l + 1))) 1); [lia|reflexivity].
Qed.

Lemma accepted_play_facts (w : World) (pid : string) (player : Player) (c : Card) :
  wf w ->
  getPlayer pid (players (game w)) = Some player ->
  rejection (game w) player (PlayCard c) = None ->
  phase (game w) = PlayingTrick
  /\ getCurrentPlayerId (game w) = Some pid
  /\ 0 <= currentPlayerIndex (game w) < 4
  /\ List.length (players (game w)) = 4%nat
  /\ List.length (playerOrder (game w)) = 4%nat
  /\ exists h', removeFirst c (hand player) = Some h'.
Proof.
  intros Hwf Hp Hrej.
  assert (Hid : p_id player = pid) by (apply getPlayer_some in Hp; tauto).
  pose proof Hrej as Hv. unfold rejection in Hv. rewrite Hid in Hv.
  destruct (GamePhase_beq (phase (game w)) PlayingTrick) eqn:Eph; [|discriminate Hv].
  apply GamePhase_beq_eq in Eph. cbn [andb] in Hv.
  destruct (getCurrentPlayerId (game w)) as [cur|] eqn:Ecur; [|discriminate Hv].
  destruct (String.eqb_spec cur pid) as [->|]; [|discriminate Hv].
  assert (H4 : List.length (players (game w)) = 4%nat).
  { apply (wf_four w Hwf). unfold started. rewrite Eph. discriminate. }
  assert (Ho4 : List.length (playerOrder (game w)) = 4%nat).
  { now rewrite (wf_order w Hwf), length_map. }
  split; [exact Eph|]. split; [reflexivity|]. split; [|split; [exact H4|split; [exact Ho4|]]].
  - unfold getCurrentPlayerId in Ecur.
    destruct (Z.ltb_spec (currentPlayerIndex (game w)) 0); [discriminate Ecur|].
    destruct (Z.geb_spec (currentPlayerIndex (game w)) (len (playerOrder (game w))));
      [discriminate Ecur|].
    unfold len in *. lia.
  - apply removeFirst_some. now apply (playVerdict_in_hand (game w)).
Qed.

(** An accepted play on a trick that it leaves incomplete. The card goes
    from the hand of the player to the end of the trick, the first card of
    a trick sets the leading suit, no other player is touched, and the turn
    passes to the next seat of the seating order, going round after the
    last seat; every player is sent a state update and the player now to
    act the notice of the turn. *)
Theorem play_passes_turn (w : World) (pid : string) (player : Player) (c : Card) :
  reachable w ->
  getPlayer pid (players (game w)) = Some player ->
  rejection (game w) player (PlayCard c) = None ->
  (List.length (cards (currentTrick (game w))) < 3)%nat ->
  let w' := handleMessage pid (PlayCard c) w in
  phase (game w') = PlayingTrick
  /\ (exists h', removeFirst c (hand player) = Some h'
                 /\ getPlayer pid (players (game w')) = Some (set_hand h' player))
  /\ (forall id, id <> pid ->
        getPlayer id (players (game w')) = getPlayer id (players (game w)))
  /\ cards (currentTrick (game w')) = cards (currentTrick (game w)) ++ [mkPlayed pid c]
  /\ leadingSuit (currentTrick (game w'))
     = match cards (currentTrick (game w)) with
       | [] => Some (suit c)
       | _ => leadingSuit (currentTrick (game w))
       end
  /\ currentPlayerIndex (game w') = (currentPlayerIndex (game w) + 1) mod 4
  /\ getCurrentPlayerId (game w')
     = at_ (playerOrder (game w)) ((currentPlayerIndex (game w) + 1) mod 4)
  /\ timers w' = timers w
  /\ newOutput w w' = stateUpdates (game w') ++ turnNotice (game w').
Proof.
  intros [pile Hr] Hp Hrej Hlt w'.
  pose proof (reach_wf _ _ _ Hr) as Hwf.
  destruct (accepted_play_facts w pid player c Hwf Hp Hrej)
    as [Hph [Hcur [Hidx [H4 [Ho4 [h' Hh]]]]]].
  assert (Hid : p_id player = pid) by (apply getPlayer_some in Hp; tauto).
  destruct (playedGame_facts (game w) pid c h') as [F1 [F2 [F3 F4]]].
  destruct (playedGame_more (game w) pid c h') as [F5 [F6 _]].
  assert (Hlen : (len (cards (currentTrick (playedGame (game w) pid c h')))
                  =? len (players (playedGame (game w) pid c h'))) = false).
  { rewrite F2, F4. unfold len, updatePlayer.
    rewrite length_app, length_map, H4. cbn [List.length].
    apply Z.eqb_neq. lia. }
  assert (Hw' : w' = addOut (stateUpdates (advancedGame (playedGame (game w) pid c h'))
                             ++ turnNotice (advancedGame (playedGame (game w) pid c h')))
                       (withGame (advancedGame (playedGame (game w) pid c h')) w))
    by exact (handleMessage_play_on w pid player c h' Hwf Hp Hrej Hh Hlen).
  clearbody w'. subst w'. rewrite game_addOut, game_withGame.
  assert (Hadv : currentPlayerIndex (advancedGame (playedGame (game w) pid c h'))
                 = (currentPlayerIndex (game w) + 1) mod 4).
  { unfold advancedGame. cbn [currentPlayerIndex set_currentPlayerIndex].
    rewrite F5, F4. unfold len, updatePlayer. rewrite length_map, H4.
    apply Z.rem_mod_nonneg; lia. }
  destruct (advancedGame_facts (playedGame (game w) pid c h')) as [A1 [A2 [A3 A4]]].
  revert Hadv A1 A2 A3 A4.
  generalize (advancedGame (playedGame (game w) pid c h')) as g2.
  intros g2 Hadv A1 A2 A3 A4.
  split; [now rewrite A1, F1|].
  split.
  { exists h'. split; [exact Hh|].
    rewrite A3, F4, (getPlayer_updatePlayer pid pid (set_hand h')) by reflexivity.
    rewrite Hp. cbn [option_map]. now rewrite Hid, String.eqb_refl. }
  split.
  { intros id Hne. rewrite A3, F4.
    rewrite (getPlayer_updatePlayer id pid (set_hand h')) by reflexivity.
    destruct (getPlayer id (players (game w))) as [q|] eqn:Eq; [|reflexivity].
    cbn [option_map]. apply getPlayer_some in Eq. destruct Eq as [_ Eq].
    rewrite Eq. destruct (String.eqb_spec id pid); [contradiction|reflexivity]. }
  split; [now rewrite A2, F2|].
  split; [rewrite A2, F3; apply lead_after_play|].
  split; [exact Hadv|].
  split.
  { unfold getCurrentPlayerId. rewrite Hadv, A4, F6.
    pose proof (Z.mod_pos_bound (currentPlayerIndex (game w) + 1) 4 ltac:(lia)) as Hb.
    destruct (Z.ltb_spec ((currentPlayerIndex (game w) + 1) mod 4) 0); [lia|].
    destruct (Z.geb_spec ((currentPlayerIndex (game w) + 1) mod 4)
                (len (playerOrder (game w)))) as [Hge|Hlt2]; [|reflexivity].
    unfold len in Hge. lia. }
  split; [reflexivity|]. apply newOutput_addOut.
Qed.

Lemma play_passes_turn_witness :
  (reachable openingWorld
   /\ getPlayer "c" (players (game openingWorld)) = Some cyAtOpening
   /\ rejection (game openingWorld) cyAtOpening (PlayCard (mkCard Clubs Two)) = None
   /\ (List.length (cards (currentTrick (game openingWorld))) < 3)%nat)
  /\ phase (game (handleMessage "c" (PlayCard (mkCard Clubs Two)) openingWorld))
     = PlayingTrick
  /\ cards (currentTrick
              (game (handleMessage "c" (PlayCard (mkCard Clubs Two)) openingWorld)))
     = cards (currentTrick (game openingWorld)) ++ [mkPlayed "c" (mkCard Clubs Two)].
Proof.
  assert (Hr : reachable openingWorld)
    by exact (reachable_of openingWorld [] reach_openingWorld).
  assert (Hp : getPlayer "c" (players (game openingWorld)) = Some cyAtOpening)
    by (vm_compute; reflexivity).
  assert (Hrej : rejection (game openingWorld) cyAtOpening (PlayCard (mkCard Clubs Two))
                 = None) by (vm_compute; reflexivity).
  assert (Hlt : (List.length (cards (currentTrick (game openingWorld))) < 3)%nat)
    by (vm_compute; lia).
  split; [split; [exact Hr|split; [exact Hp|split; [exact Hrej|exact Hlt]]]|].
  destruct (play_passes_turn openingWorld "c" cyAtOpening (mkCard Clubs Two)
              Hr Hp Hrej Hlt) as [A1 [_ [_ [A4 _]]]].
  split; [exact A1|exact A4].
Defined.


Lemma trickWinner_ext (t t' : Trick) :
  leadingSuit t' = leadingSuit t -> cards t' = cards t ->
  trickWinner t' = trickWinner t.
Proof. unfold trickWinner. intros -> ->. reflexivity. Qed.

Lemma rejection_off_phase (g : Game) (player : Player) (m : ClientMessage) :
  phase g <> Passing -> phase g <> PlayingTrick -> m <> OtherMessage ->
  rejection g player m <> None.
Proof.
  intros H1 H2 Hm. destruct m as [cs|c|]; [| |congruence]; cbn [rejection].
  - destruct (GamePhase_beq (phase g) Passing) eqn:E; [|discriminate].
    apply GamePhase_beq_eq in E. contradiction.
  - destruct (GamePhase_beq (phase g) PlayingTrick) eqn:E; [|discriminate].
    apply GamePhase_beq_eq in E. contradiction.
Qed.

(** The card that completes a trick. When the fourth card of a trick is
    accepted, the trick is resolved at once: the winner the resolver names
    has played a card of the trick and is recorded in the trick; the points
    of the four cards are added to the winner's round score and to nobody
    else's, and no total changes; the result is broadcast after the state
    updates and one timer for the next trick is set. Until that timer
    expires the phase is trick-complete and every pass selection and every
    play is turned down. *)
Theorem fourth_card_completes_trick (w : World) (pid : string) (player : Player)
    (c : Card) :
  reachable w ->
  getPlayer pid (players (game w)) = Some player ->
  rejection (game w) player (PlayCard c) = None ->
  List.length (cards (currentTrick (game w))) = 3%nat ->
  let w' := handleMessage pid (PlayCard c) w in
  exists wid wc wname,
    phase (game w') = TrickComplete
    /\ cards (currentTrick (game w')) = cards (currentTrick (game w)) ++ [mkPlayed pid c]
    /\ trickWinner (currentTrick (game w')) = inr (wid, wc)
    /\ trickWinnerId (currentTrick (game w')) = Some wid
    /\ (exists e, In e (cards (currentTrick (game w'))) /\ playerId e = wid)
    /\ (forall id q, getPlayer id (players (game w)) = Some q ->
          exists q', getPlayer id (players (game w')) = Some q'
                     /\ score q' = score q
                     /\ roundScore q'
                        = roundScore q
                          + (if String.eqb id wid
                             then points (map card (cards (currentTrick (game w'))))
                             else 0))
    /\ timers w' = timers w ++ [NextTrickTimer wid]
    /\ (exists updates,
          newOutput w w'
          = updates
            ++ [Broadcast (TrickWon wid wname
                             (points (map card (cards (currentTrick (game w')))))
                             (cards (currentTrick (game w'))))]
          /\ existsb isErrorOut updates = false)
    /\ (forall player' m, m <> OtherMessage -> rejection (game w') player' m <> None).
Proof.
  intros [pile Hr] Hp Hrej H3 w'.
  pose proof (reach_wf _ _ _ Hr) as Hwf.
  destruct (accepted_play_facts w pid player c Hwf Hp Hrej)
    as [Hph [Hcur [Hidx [H4 [Ho4 [h' Hh]]]]]].
  assert (Hid : p_id player = pid) by (apply getPlayer_some in Hp; tauto).
  destruct (playedGame_facts (game w) pid c h') as [F1 [F2 [F3 F4]]].
  assert (Hlen : (len (cards (currentTrick (playedGame (game w) pid c h')))
                  =? len (players (playedGame (game w) pid c h'))) = true).
  { rewrite F2, F4. unfold len, updatePlayer.
    rewrite length_app, length_map, H4, H3. reflexivity. }
  destruct (handleMessage_play_last w pid player c h' Hwf Hp Hrej Hh Hlen)
    as [wid [wc [wp [Hwin [Hwp Hw']]]]].
  fold w' in Hw'. clearbody w'. subst w'. cbn [game outbox timers departed].
  exists wid, wc, (p_name wp).
  destruct (trickDoneGame_facts (playedGame (game w) pid c h') wid) as [D1 [D2 D3]].
  destruct (trickDoneGame_more (playedGame (game w) pid c h') wid) as [D4 [D5 _]].
  pose proof (trickPoints_points (playedGame (game w) pid c h')) as Hpts.
  revert Hwin Hwp D1 D2 D3 D4 D5 Hpts F1 F2 F3 F4.
  generalize (playedGame (game w) pid c h') as g1.
  intros g1 Hwin Hwp D1 D2 D3 D4 D5 Hpts F1 F2 F3 F4.
  revert D1 D2 D3 D4 D5. generalize (trickDoneGame g1 wid) as g2.
  intros g2 D1 D2 D3 D4 D5.
  split; [exact D1|]. split; [now rewrite D2, F2|].
  split; [rewrite (trickWinner_ext (currentTrick g1) (currentTrick g2) D3 D2); exact Hwin|].
  split; [exact D5|].
  split.
  { destruct (trickWinner_in _ _ _ Hwin) as [e [He Hpe]]. exists e.
    rewrite D2. now split. }
  split.
  { intros id q Hq. pose proof (getPlayer_some _ _ _ Hq) as [_ Hqid].
    rewrite D4, (getPlayer_updatePlayer id wid) by reflexivity.
    rewrite F4, (getPlayer_updatePlayer id pid (set_hand h')) by reflexivity.
    rewrite Hq. cbn [option_map]. eexists. split; [reflexivity|].
    rewrite D2, <- Hpts.
    assert (Hq1 : p_id (if String.eqb (p_id q) pid then set_hand h' q else q) = id).
    { destruct (String.eqb (p_id q) pid); exact Hqid. }
    rewrite Hq1.
    destruct (String.eqb id wid); destruct (String.eqb (p_id q) pid);
      cbn [score roundScore set_roundScore set_hand]; split; lia. }
  split; [reflexivity|].
  split.
  { exists (stateUpdates g1). rewrite D2, <- Hpts. split.
    - apply newOutput_app. reflexivity.
    - apply noErr_stateUpdates. }
  intros player' m Hm. apply rejection_off_phase; [rewrite D1..|exact Hm]; discriminate.
Qed.

Lemma fourth_card_completes_trick_witness :
  (reachable lastToPlayWorld
   /\ getPlayer "b" (players (game lastToPlayWorld)) = Some bobLastToPlay
   /\ rejection (game lastToPlayWorld) bobLastToPlay (PlayCard (mkCard Spades Queen)) = None
   /\ List.length (cards (currentTrick (game lastToPlayWorld))) = 3%nat)
  /\ exists wid,
       trickWinnerId (currentTrick (game firstTrickDoneWorld)) = Some wid
       /\ timers firstTrickDoneWorld = timers lastToPlayWorld ++ [NextTrickTimer wid].
Proof.
  assert (Hr : reachable lastToPlayWorld)
    by exact (reachable_of lastToPlayWorld [] reach_lastToPlayWorld).
  assert (Hp : getPlayer "b" (players (game lastToPlayWorld)) = Some bobLastToPlay)
    by (vm_compute; reflexivity).
  assert (Hrej : rejection (game lastToPlayWorld) bobLastToPlay
                   (PlayCard (mkCard Spades Queen)) = None) by (vm_compute; reflexivity).
  assert (H3 : List.length (cards (currentTrick (game lastToPlayWorld))) = 3%nat)
    by (vm_compute; reflexivity).
  split; [split; [exact Hr|split; [exact Hp|split; [exact Hrej|exact H3]]]|].
  destruct (fourth_card_completes_trick lastToPlayWorld "b" bobLastToPlay
              (mkCard Spades Queen) Hr Hp Hrej H3)
    as [wid [wc [wname [_ [_ [_ [A4 [_ [_ [A7 _]]]]]]]]]].
  exists wid. split; [exact A4|exact A7].
Defined.


(** ** game.ts: the timers *)

Lemma fireTimer_next_trick (w : World) (rnd : nat -> nat) (wid : string) (wp : Player)
    (rest : list Timer) :
  idsOk (game w) ->
  timers w = NextTrickTimer wid :: rest ->
  getPlayer wid (players (game w)) = Some wp ->
  hand wp <> [] ->
  fireTimer rnd w
  = mkWorld (nextTrickGame (game w) wid)
      (outbox w ++ stateUpdates (nextTrickGame (game w) wid)
       ++ turnNotice (nextTrickGame (game w) wid))
      rest (departed w).
Proof.
  intros Hok Et Hwp Hne. unfold fireTimer. rewrite Et.
  set (w0 := mkWorld (game w) (outbox w) rest (departed w)).
  assert (Hok0 : idsOk (game w0)) by exact Hok.
  unfold timerBody. rewrite run_captured. unfold heldPlayer.
    change (game w0) with (game w). rewrite Hwp.
  destruct (len (hand wp) =? 0) eqn:Eh; [apply len_zero_nil in Eh; contradiction|].
  rewrite !run_modify, !withGame_withGame, !game_withGame.
  rewrite run_broadcastGameState by (rewrite game_withGame; exact Hok0).
  rewrite notifyCurrentPlayerTurn_eq by (rewrite game_addOut, game_withGame; exact Hok0).
  cbn [final]. rewrite addOut_app, game_withGame, game_addOut, game_withGame.
  reflexivity.
Qed.

Lemma fireTimer_round_end (w : World) (rnd : nat -> nat) (wid : string) (wp : Player)
    (rest : list Timer) :
  idsOk (game w) ->
  timers w = NextTrickTimer wid :: rest ->
  getPlayer wid (players (game w)) = Some wp ->
  hand wp = [] ->
  fireTimer rnd w
  = mkWorld (scoredGame (game w))
      (outbox w ++ [Broadcast (RoundScored (publicInfo (scoredGame (game w)))
                                 (option_map p_id (findShooter (players (game w)))))])
      (rest ++ [NextRoundTimer
                  (existsb (fun p => score p >=? SCORE_LIMIT)
                     (players (scoredGame (game w))))]) (departed w).
Proof.
  intros Hok Et Hwp Hnil. unfold fireTimer. rewrite Et.
  set (w0 := mkWorld (game w) (outbox w) rest (departed w)).
  assert (Hok0 : idsOk (game w0)) by exact Hok.
  unfold timerBody. rewrite run_captured. unfold heldPlayer.
    change (game w0) with (game w). rewrite Hwp, Hnil.
  cbn [len List.length Z.of_nat Z.eqb].
  rewrite endRound_eq by exact Hok0. reflexivity.
Qed.

Lemma fireTimer_game_over (w : World) (rnd : nat -> nat) (rest : list Timer) :
  idsOk (game w) ->
  timers w = NextRoundTimer true :: rest ->
  fireTimer rnd w
  = mkWorld (set_phase GameOver (game w))
      (outbox w ++ [Broadcast (GameOverMsg (lowestScorer (players (game w)))
                                 (publicInfo (set_phase GameOver (game w)))
                                 "Score limit reached.");
                    OnGameEnd])
      rest (departed w).
Proof.
  intros Hok Et. unfold fireTimer. rewrite Et. unfold timerBody.
  rewrite endGame_eq by exact Hok. reflexivity.
Qed.

Lemma fireTimer_new_round (w : World) (rnd : nat -> nat) (rest : list Timer) :
  idsOk (game w) ->
  List.length (players (game w)) = 4%nat ->
  timers w = NextRoundTimer false :: rest ->
  fireTimer rnd w
  = mkWorld (roundGame rnd (game w)) (outbox w ++ roundOuts rnd (game w)) rest (departed w).
Proof.
  intros Hok H4 Et. unfold fireTimer. rewrite Et. unfold timerBody.
  rewrite startNewRound_eq; [reflexivity|exact Hok|].
  cbn [game]. unfold len. now rewrite H4.
Qed.

Lemma scoredGame_more (g : Game) :
  playerOrder (scoredGame g) = playerOrder g
  /\ roundNumber (scoredGame g) = roundNumber g
  /\ map p_id (players (scoredGame g)) = map p_id (players g).
Proof.
  split; [reflexivity|]. split; [reflexivity|]. apply applyRoundScores_ids.
Qed.

(** The timer of a trick, with cards left to play. When it expires and the
    winner of the trick still holds cards, the trick is cleared, the game
    is back in the playing phase with the winner to lead, the players and
    the hearts-broken flag are as they were, the timer is gone, and every
    player is sent a state update, followed by the notice of the turn for
    the winner. *)
Theorem winner_leads_next_trick (w : World) (rnd : nat -> nat) (wid : string)
    (wp : Player) (rest : list Timer) :
  playerOrder (game w) = map p_id (players (game w)) ->
  timers w = NextTrickTimer wid :: rest ->
  getPlayer wid (players (game w)) = Some wp ->
  hand wp <> [] ->
  let w' := fireTimer rnd w in
  phase (game w') = PlayingTrick
  /\ currentTrick (game w') = createEmptyTrick
  /\ getCurrentPlayerId (game w') = Some wid
  /\ players (game w') = players (game w)
  /\ heartsBroken (game w') = heartsBroken (game w)
  /\ timers w' = rest
  /\ newOutput w w' = stateUpdates (game w') ++ turnNotice (game w')
  /\ (wid <> EmptyString ->
      turnNotice (game w')
      = [SendToPlayer wid (YourTurn (calculateValidMoves (game w') wp))]).
Proof.
  intros Hord Et Hwp Hne w'.
  assert (Hok : idsOk (game w)) by now apply idsOk_of_order.
  assert (Hw' : w' = mkWorld (nextTrickGame (game w) wid)
                       (outbox w ++ stateUpdates (nextTrickGame (game w) wid)
                        ++ turnNotice (nextTrickGame (game w) wid)) rest (departed w))
    by exact (fireTimer_next_trick w rnd wid wp rest Hok Et Hwp Hne).
  clearbody w'. subst w'. cbn [game timers departed].
  destruct (nextTrickGame_facts (game w) wid) as [N1 [N2 [N3 N4]]].
  assert (Hin : In wid (playerOrder (game w))).
  { rewrite Hord. apply getPlayer_has_iff. rewrite Hwp. discriminate. }
  destruct (indexOfFrom_at wid (playerOrder (game w)) 0 Hin) as [k [Hk [Hr Hat]]].
  assert (Hcur : getCurrentPlayerId (nextTrickGame (game w) wid) = Some wid).
  { unfold getCurrentPlayerId, nextTrickGame. cbv zeta.
    cbn [currentPlayerIndex playerOrder set_phase set_currentTrick set_currentPlayerIndex].
    unfold indexOf. rewrite Hk. cbn [Z.add].
    destruct (Z.ltb_spec k 0); [lia|].
    destruct (Z.geb_spec k (len (playerOrder (game w)))); [lia|exact Hat]. }
  assert (Hhb : heartsBroken (nextTrickGame (game w) wid) = heartsBroken (game w))
    by reflexivity.
  revert N1 N2 N3 N4 Hcur Hhb. generalize (nextTrickGame (game w) wid) as g'.
  intros g' N1 N2 N3 N4 Hcur Hhb.
  repeat (split; [assumption|]). split; [reflexivity|].
  split; [apply newOutput_app; reflexivity|].
  intros Hwid. unfold turnNotice. rewrite Hcur, N1, N3, Hwp.
  destruct (String.eqb_spec wid EmptyString) as [E|E]; [contradiction|reflexivity].
Qed.

Lemma step_message (pid : string) (m : ClientMessage) (w : World) :
  step (Message pid m) w = handleMessage pid m w.
Proof. reflexivity. Qed.

Lemma reach_firstTrickDoneWorld : reach distinctSelection firstTrickDoneWorld [].
Proof.
  unfold firstTrickDoneWorld. rewrite <- step_message.
  apply reach_message; [exact reach_lastToPlayWorld|exact I].
Qed.

Lemma winner_leads_next_trick_witness :
  (playerOrder (game firstTrickDoneWorld) = map p_id (players (game firstTrickDoneWorld))
   /\ timers firstTrickDoneWorld = [NextTrickTimer "a"]
   /\ getPlayer "a" (players (game firstTrickDoneWorld)) = Some annAfterFirstTrick
   /\ hand annAfterFirstTrick <> [])
  /\ getCurrentPlayerId (game (fireTimer noShuffle firstTrickDoneWorld)) = Some "a"%string
  /\ currentTrick (game (fireTimer noShuffle firstTrickDoneWorld)) = createEmptyTrick.
Proof.
  assert (H1 : playerOrder (game firstTrickDoneWorld)
               = map p_id (players (game firstTrickDoneWorld)))
    by exact (wf_order _ (reach_wf _ _ _ reach_firstTrickDoneWorld)).
  assert (H2 : timers firstTrickDoneWorld = [NextTrickTimer "a"])
    by (vm_compute; reflexivity).
  assert (H3 : getPlayer "a" (players (game firstTrickDoneWorld)) = Some annAfterFirstTrick)
    by (vm_compute; reflexivity).
  assert (H4 : hand annAfterFirstTrick <> []) by discriminate.
  split; [split; [exact H1|split; [exact H2|split; [exact H3|exact H4]]]|].
  destruct (winner_leads_next_trick firstTrickDoneWorld noShuffle "a" annAfterFirstTrick []
              H1 H2 H3 H4) as [_ [A2 [A3 _]]].
  split; [exact A3|exact A2].
Defined.


(** The end of a round and the score limit. When the timer of the last
    trick expires (the winner has no card left) the round is scored, the
    scores are broadcast with the id of the seat found to have 26 points,
    and a second timer is set. When that timer expires the game is over if
    and only if the total of some seat has reached 100 at the scoring: the
    game-over notice is then broadcast and the end-of-game callback is
    called; otherwise the next round starts, with one more on the round
    counter, every seat dealt thirteen cards and its total carried over. *)
Theorem score_limit_decides (w : World) (rnd1 rnd2 : nat -> nat) (wid : string)
    (wp : Player) :
  playerOrder (game w) = map p_id (players (game w)) ->
  NoDup (playerOrder (game w)) ->
  List.length (players (game w)) = 4%nat ->
  timers w = [NextTrickTimer wid] ->
  getPlayer wid (players (game w)) = Some wp ->
  hand wp = [] ->
  let w1 := fireTimer rnd1 w in
  let w2 := fireTimer rnd2 w1 in
  let over := existsb (fun p => score p >=? SCORE_LIMIT) (players (game w1)) in
  phase (game w1) = RoundScoring
  /\ timers w1 = [NextRoundTimer over]
  /\ newOutput w w1
     = [Broadcast (RoundScored (publicInfo (game w1))
                     (option_map p_id (findShooter (players (game w)))))]
  /\ (over = true <-> exists p, In p (players (game w1)) /\ 100 <= score p)
  /\ timers w2 = []
  /\ (over = true ->
      phase (game w2) = GameOver
      /\ players (game w2) = players (game w1)
      /\ newOutput w1 w2
         = [Broadcast (GameOverMsg (lowestScorer (players (game w1)))
                         (publicInfo (game w2)) "Score limit reached.");
            OnGameEnd])
  /\ (over = false ->
      roundNumber (game w2) = roundNumber (game w) + 1
      /\ (phase (game w2) = Passing \/ phase (game w2) = PlayingTrick)
      /\ Forall2 (fun p p' => p_id p' = p_id p /\ p_name p' = p_name p
                              /\ freshlyDealt (score p) p')
           (players (game w1)) (players (game w2))
      /\ existsb isErrorOut (newOutput w1 w2) = false).
Proof.
  intros Hord Hnd H4 Et Hwp Hnil w1 w2 over.
  assert (Hok : idsOk (game w)) by now apply idsOk_of_order.
  assert (Hw1 : w1 = mkWorld (scoredGame (game w))
                       (outbox w ++ [Broadcast (RoundScored (publicInfo (scoredGame (game w)))
                                       (option_map p_id (findShooter (players (game w)))))])
                       ([] ++ [NextRoundTimer
                                 (existsb (fun p => score p >=? SCORE_LIMIT)
                                    (players (scoredGame (game w))))]) (departed w))
    by exact (fireTimer_round_end w rnd1 wid wp [] Hok Et Hwp Hnil).
  destruct (scoredGame_facts (game w)) as [S1 _].
  destruct (scoredGame_more (game w)) as [S2 [S3 S4]].
  assert (Hord1 : playerOrder (scoredGame (game w))
                  = map p_id (players (scoredGame (game w)))) by (now rewrite S2, S4).
  assert (Hnd1 : NoDup (playerOrder (scoredGame (game w)))) by (now rewrite S2).
  assert (H41 : List.length (players (scoredGame (game w))) = 4%nat).
  { apply (f_equal (@List.length string)) in S4. rewrite !length_map in S4. lia. }
  revert Hw1 S1 S3 Hord1 Hnd1 H41. generalize (scoredGame (game w)) as g1.
  intros g1 Hw1 S1 S3 Hord1 Hnd1 H41.
  assert (Hg1 : game w1 = g1) by (now rewrite Hw1).
  assert (Hok1 : idsOk (game w1)) by (rewrite Hg1; now apply idsOk_of_order).
  assert (Ht1 : timers w1 = [NextRoundTimer over]).
  { unfold over. rewrite Hw1. reflexivity. }
  split; [now rewrite Hg1|]. split; [exact Ht1|].
  split; [rewrite Hw1; apply newOutput_app; reflexivity|].
  split.
  { unfold over. rewrite existsb_exists. split; intros [p [Hin Hp]]; exists p;
      (split; [exact Hin|]); unfold SCORE_LIMIT in *.
    - apply Z.geb_le in Hp. exact Hp.
    - apply Z.geb_le. exact Hp. }
  destruct over eqn:Eover.
  - assert (Hw2 : w2 = mkWorld (set_phase GameOver (game w1))
                         (outbox w1
                          ++ [Broadcast (GameOverMsg (lowestScorer (players (game w1)))
                                           (publicInfo (set_phase GameOver (game w1)))
                                           "Score limit reached.");
                              OnGameEnd]) [] (departed w1))
      by exact (fireTimer_game_over w1 rnd2 [] Hok1 Ht1).
    clearbody w1 w2. subst w2. cbn [game timers departed].
    split; [reflexivity|]. split; [|intros H; discriminate H].
    intros _. split; [reflexivity|]. split; [reflexivity|].
    apply newOutput_app. reflexivity.
  - assert (Hw2 : w2 = mkWorld (roundGame rnd2 (game w1))
                         (outbox w1 ++ roundOuts rnd2 (game w1)) [] (departed w1)).
    { apply fireTimer_new_round; [exact Hok1|now rewrite Hg1|exact Ht1]. }
    destruct (roundGame_dealt rnd2 g1 Hord1 Hnd1 H41)
      as [A1 [A2 [_ [_ [_ [A6 [_ [A8 A9]]]]]]]].
    rewrite <- Hg1 in A1, A2, A6, A8, A9.
    revert Hw2 A1 A2 A6 A8 A9. generalize (roundGame rnd2 (game w1)) as g2.
    intros g2 Hw2 A1 A2 A6 A8 A9.
    clearbody w1 w2. subst w2. cbn [game timers departed].
    split; [reflexivity|]. split; [intros H; discriminate H|].
    intros _. split; [rewrite A1, Hg1; exact (f_equal (fun x => x + 1) S3)|].
    split.
    { destruct (PassingDirection_eq_dec
                  (getPassingDirection (roundNumber (game w1) + 1)) Hold) as [E|E].
      - right. now apply A9.
      - left. now apply A8. }
    split; [exact A6|].
    rewrite (newOutput_app w1 _ (roundOuts rnd2 (game w1))) by reflexivity.
    apply noErr_roundOuts.
Qed.

Lemma score_limit_decides_witness :
  (playerOrder (game roundEndWorld) = map p_id (players (game roundEndWorld))
   /\ NoDup (playerOrder (game roundEndWorld))
   /\ List.length (players (game roundEndWorld)) = 4%nat
   /\ timers roundEndWorld = [NextTrickTimer "n"]
   /\ getPlayer "n" (players (game roundEndWorld))
      = Some (mkPlayer "n" "North" [] 10 26 None None)
   /\ hand (mkPlayer "n" "North" [] 10 26 None None) = [])
  /\ phase (game (fireTimer noShuffle roundEndWorld)) = RoundScoring
  /\ timers (fireTimer noShuffle (fireTimer noShuffle roundEndWorld)) = [].
Proof.
  assert (H1 : playerOrder (game roundEndWorld) = map p_id (players (game roundEndWorld)))
    by reflexivity.
  assert (H2 : NoDup (playerOrder (game roundEndWorld))).
  { cbn. repeat (apply NoDup_cons;
                 [let H := fresh in intros H; cbn [In] in H; intuition discriminate|]).
    apply NoDup_nil. }
  assert (H3 : List.length (players (game roundEndWorld)) = 4%nat) by reflexivity.
  assert (H4 : timers roundEndWorld = [NextTrickTimer "n"]) by reflexivity.
  assert (H5 : getPlayer "n" (players (game roundEndWorld))
               = Some (mkPlayer "n" "North" [] 10 26 None None)) by reflexivity.
  assert (H6 : hand (mkPlayer "n" "North" [] 10 26 None None) = []) by reflexivity.
  split; [repeat (split; [assumption|]); assumption|].
  destruct (score_limit_decides roundEndWorld noShuffle noShuffle "n" _ H1 H2 H3 H4 H5 H6)
    as [A1 [_ [_ [_ [A5 _]]]]].
  split; [exact A1|exact A5].
Defined.


(** ** game.ts: the pass *)

(** [executePassing] at a table of four. For the directions left, right
    and across, the cards selected by the seat with index [i] go to the
    seat with index [i + 1], [i + 3] (one seat back) and [i + 2], modulo 4:
    the new hand of that seat is its old hand and those cards, in ascending
    order. Every seat keeps its identity and scores and ends with nothing
    selected and nothing received; the game is in the playing phase, every
    seat is told that cards were passed, and no error is sent. With the
    direction hold nothing happens at all. *)
Theorem executePassing_routes (w : World) (dir : PassingDirection)
    (p0 p1 p2 p3 : Player) :
  players (game w) = [p0; p1; p2; p3] ->
  playerOrder (game w) = map p_id [p0; p1; p2; p3] ->
  NoDup (map p_id [p0; p1; p2; p3]) ->
  passingDirection (game w) = Some dir ->
  let w' := final (executePassing w) in
  (dir = Hold -> w' = w)
  /\ (dir <> Hold ->
      phase (game w') = PlayingTrick
      /\ (forall i giver, nth_error [p0; p1; p2; p3] i = Some giver ->
            exists taker taker',
              nth_error [p0; p1; p2; p3] ((i + passOffset dir) mod 4) = Some taker
              /\ nth_error (players (game w')) ((i + passOffset dir) mod 4) = Some taker'
              /\ Permutation (hand taker') (hand taker ++ passOf giver)
              /\ ascending (hand taker')
              /\ p_id taker' = p_id taker /\ p_name taker' = p_name taker
              /\ score taker' = score taker /\ roundScore taker' = roundScore taker
              /\ cardsToPass taker' = None /\ receivedCards taker' = None)
      /\ (exists rest,
            newOutput w w'
            = map (fun p => SendToPlayer (p_id p) (CardsPassed None)) [p0; p1; p2; p3]
              ++ rest
            /\ existsb isErrorOut rest = false)
      /\ timers w' = timers w).
Proof.
  intros Hps Hord Hnd Hdir w'. split.
  - intros ->. unfold w'. now rewrite executePassing_skip by (now right).
  - intros Hne.
    assert (Hw' : w' = addOut (passOuts dir p0 p1 p2 p3 (game w))
                         (withGame (passedGame dir p0 p1 p2 p3 (game w)) w)).
    { unfold w'. now rewrite (executePassing_four w dir p0 p1 p2 p3 Hps Hord Hnd Hdir Hne). }
    clearbody w'. subst w'. rewrite game_addOut, game_withGame.
    destruct (passedGame_facts dir p0 p1 p2 p3 (game w)) as [P1 [_ P3]].
    split; [exact P1|]. split; [|split; [|reflexivity]].
    + intros i giver Hi. rewrite P3.
      assert (Hrec : forall p src,
                Permutation (hand (receive p src)) (hand p ++ src)
                /\ ascending (hand (receive p src))
                /\ p_id (receive p src) = p_id p /\ p_name (receive p src) = p_name p
                /\ score (receive p src) = score p
                /\ roundScore (receive p src) = roundScore p
                /\ cardsToPass (receive p src) = None
                /\ receivedCards (receive p src) = None).
      { intros p src. unfold receive.
        cbn [hand p_id p_name score roundScore cardsToPass receivedCards
             set_receivedCards set_hand set_cardsToPass].
        split; [apply sortBy_perm|]. split; [apply sortBy_ascending|]. repeat split. }
      destruct i as [|[|[|[|i]]]]; cbn [nth_error] in Hi;
        try (destruct i; discriminate Hi);
        injection Hi as <-;
        destruct dir; try (now elim Hne);
        cbn [passOffset passedPlayers Nat.add Nat.modulo Nat.divmod fst snd Nat.sub
             nth_error];
        eexists; eexists; (split; [reflexivity|]); (split; [reflexivity|]); apply Hrec.
    + unfold passOuts. rewrite newOutput_addOut. eexists. split; [reflexivity|].
      rewrite existsb_app, noErr_stateUpdates, noErr_turnNotice. reflexivity.
Qed.

Lemma executePassing_routes_witness :
  exists p0 p1 p2 p3,
    (players (game threeSelectedWorld) = [p0; p1; p2; p3]
     /\ playerOrder (game threeSelectedWorld) = map p_id [p0; p1; p2; p3]
     /\ NoDup (map p_id [p0; p1; p2; p3])
     /\ passingDirection (game threeSelectedWorld) = Some Left)
    /\ phase (game (final (executePassing threeSelectedWorld))) = PlayingTrick.
Proof.
  assert (Hwf : wf threeSelectedWorld) by exact (reach_wf _ _ _ reach_threeSelectedWorld).
  assert (H4 : List.length (players (game threeSelectedWorld)) = 4%nat).
  { apply (wf_four _ Hwf). vm_compute. discriminate. }
  destruct (four_players _ H4) as [p0 [p1 [p2 [p3 Hps]]]].
  exists p0, p1, p2, p3.
  assert (Hord : playerOrder (game threeSelectedWorld) = map p_id [p0; p1; p2; p3])
    by (rewrite (wf_order _ Hwf), Hps; reflexivity).
  assert (Hnd : NoDup (map p_id [p0; p1; p2; p3]))
    by (rewrite <- Hord; exact (wf_nodup _ Hwf)).
  assert (Hdir : passingDirection (game threeSelectedWorld) = Some Left)
    by (vm_compute; reflexivity).
  split; [split; [exact Hps|split; [exact Hord|split; [exact Hnd|exact Hdir]]]|].
  destruct (executePassing_routes threeSelectedWorld Left p0 p1 p2 p3 Hps Hord Hnd Hdir)
    as [_ A2].
  exact (proj1 (A2 ltac:(discriminate))).
Defined.


(** ** Timers and phases along a session *)

Lemma timerInv_idle (w : World) :
  timerInv w -> phase (game w) <> TrickComplete -> phase (game w) <> RoundScoring ->
  timers w = [].
Proof.
  unfold timerInv. intros H H1 H2.
  destruct (timers w) as [|[wid|b] [|t rest]]; try reflexivity; try contradiction.
Qed.

Lemma timerInv_build (g : Game) (out : list Outgoing) {dp : list Player} :
  phase g <> TrickComplete -> phase g <> RoundScoring -> timerInv (mkWorld g out [] dp).
Proof. intros H1 H2. unfold timerInv. cbn [timers game departed]. now split. Qed.

Lemma roundGame_phase (rnd : nat -> nat) (g : Game) :
  phase (roundGame rnd g) <> TrickComplete /\ phase (roundGame rnd g) <> RoundScoring
  /\ assignedPhase (phase (roundGame rnd g)) = true.
Proof.
  destruct (roundGame_facts rnd g) as [[H|H] _]; rewrite H;
    (split; [discriminate|split; [discriminate|reflexivity]]).
Qed.

Lemma msgOutcome_timerInv (w : World) (pid : string) (player : Player)
    (m : ClientMessage) (w' : World) :
  timerInv w ->
  rejection (game w) player m = None ->
  msgOutcome w pid player m w' ->
  timerInv w' /\ (assignedPhase (phase (game w)) = true ->
                  assignedPhase (phase (game w')) = true).
Proof.
  intros Hinv Hrej Hout.
  destruct Hout as [|cs outs Hpr Hne|cs dir p0 p1 p2 p3 outs Hpr Hps Hdir Hne
                    |c h' outs Hv Hh Hne|c h' wid outs Hv Hh Hwid Hne].
  - split; [exact Hinv|auto].
  - assert (Hph : phase (game w) = Passing).
    { cbn [rejection] in Hrej.
      destruct (GamePhase_beq (phase (game w)) Passing) eqn:E; [|discriminate Hrej].
      now apply GamePhase_beq_eq. }
    rewrite (timerInv_idle w Hinv) by (rewrite Hph; discriminate).
    split; [apply timerInv_build; rewrite (proj1 (selectGame_facts _ _ _)), Hph; discriminate|].
    cbn [game]. now rewrite (proj1 (selectGame_facts _ _ _)).
  - assert (Hph : phase (game w) = Passing).
    { cbn [rejection] in Hrej.
      destruct (GamePhase_beq (phase (game w)) Passing) eqn:E; [|discriminate Hrej].
      now apply GamePhase_beq_eq. }
    rewrite (timerInv_idle w Hinv) by (rewrite Hph; discriminate).
    split; [apply timerInv_build; rewrite (proj1 (passedGame_facts _ _ _ _ _ _)); discriminate|].
    cbn [game]. now rewrite (proj1 (passedGame_facts _ _ _ _ _ _)).
  - assert (Hph : phase (game w) = PlayingTrick).
    { cbn [rejection] in Hrej.
      destruct (GamePhase_beq (phase (game w)) PlayingTrick) eqn:E; [|discriminate Hrej].
      now apply GamePhase_beq_eq. }
    rewrite (timerInv_idle w Hinv) by (rewrite Hph; discriminate).
    assert (Hph' : phase (advancedGame (playedGame (game w) pid c h')) = PlayingTrick).
    { now rewrite (proj1 (advancedGame_facts _)), (proj1 (playedGame_facts _ _ _ _)). }
    split; [apply timerInv_build; rewrite Hph'; discriminate|].
    cbn [game]. now rewrite Hph'.
  - assert (Hph : phase (game w) = PlayingTrick).
    { cbn [rejection] in Hrej.
      destruct (GamePhase_beq (phase (game w)) PlayingTrick) eqn:E; [|discriminate Hrej].
      now apply GamePhase_beq_eq. }
    rewrite (timerInv_idle w Hinv) by (rewrite Hph; discriminate).
    split.
    + unfold timerInv. cbn [timers game app departed].
      apply (proj1 (trickDoneGame_facts _ _)).
    + cbn [game]. now rewrite (proj1 (trickDoneGame_facts _ _)).
Qed.

Lemma timerOutcome_timerInv (w : World) (rnd : nat -> nat) (w' : World) :
  timerInv w -> timerOutcome w rnd w' ->
  timerInv w' /\ (assignedPhase (phase (game w)) = true ->
                  assignedPhase (phase (game w')) = true).
Proof.
  intros Hinv Hout. unfold timerInv in Hinv.
  destruct Hout as [Ht|wid wp rest outs over Ht Hp Hh Hne|wid wp rest outs Ht Hp Hh Hne
                    |rest outs Ht Hne|rest outs Ht Hne]; rewrite Ht in Hinv.
  - split; [unfold timerInv; now rewrite Ht|auto].
  - destruct rest; [|contradiction]. split.
    + unfold timerInv. cbn [timers game app departed]. apply (proj1 (scoredGame_facts _)).
    + cbn [game]. now rewrite (proj1 (scoredGame_facts _)).
  - destruct rest; [|contradiction]. split.
    + apply timerInv_build; rewrite (proj1 (nextTrickGame_facts _ _)); discriminate.
    + cbn [game]. now rewrite (proj1 (nextTrickGame_facts _ _)).
  - destruct rest; [|contradiction]. split; [apply timerInv_build; discriminate|auto].
  - destruct rest; [|contradiction]. pose proof (roundGame_phase rnd (game w)) as HR.
    revert HR. generalize (roundGame rnd (game w)) as r. intros r [H1 [H2 H3]].
    split; [now apply timerInv_build|auto].
Qed.

Lemma joinOutcome_timerInv (w : World) (pid name : string) (rnd : nat -> nat)
    (w' : World) :
  timerInv w -> joinOutcome w pid name rnd w' ->
  timerInv w' /\ (assignedPhase (phase (game w)) = true ->
                  assignedPhase (phase (game w')) = true).
Proof.
  intros Hinv Hout.
  destruct Hout as [_|outs Hph Hn4 Hne|outs Hph H4 Hne].
  - split; [exact Hinv|auto].
  - rewrite (timerInv_idle w Hinv) by (rewrite Hph; discriminate).
    assert (Hph' : phase (joinedGame pid name (game w)) = WaitingForPlayers)
      by (now rewrite (proj1 (joinedGame_facts _ _ _))).
    split; [apply timerInv_build; rewrite Hph'; discriminate|].
    cbn [game]. now rewrite Hph'.
  - rewrite (timerInv_idle w Hinv) by (rewrite Hph; discriminate).
    pose proof (roundGame_phase rnd (joinedGame pid name (game w))) as HR.
    revert HR. generalize (roundGame rnd (joinedGame pid name (game w))) as r.
    intros r [H1 [H2 H3]].
    split; [now apply timerInv_build|auto].
Qed.

Lemma timerInv_addOut (w : World) (outs : list Outgoing) :
  timerInv w -> timerInv (addOut outs w).
Proof. intros H. exact H. Qed.

Lemma reach_timerInv (ok : ClientMessage -> Prop) (w : World) (pile : list Card) :
  reach ok w pile -> timerInv w /\ assignedPhase (phase (game w)) = true.
Proof.
  induction 1 as [|w pile pid name rnd Hr [IH1 IH2] Hfresh|w pile pid m Hr [IH1 IH2] Hok
                  |w pile rnd Hr [IH1 IH2]].
  - split; [|reflexivity]. unfold timerInv. cbn. split; discriminate.
  - pose proof (reach_wf _ _ _ Hr) as Hwf.
    destruct (joinOutcome_timerInv w pid name rnd _ IH1
                (addPlayer_outcome w pid name rnd Hwf Hfresh)) as [H1 H2].
    split; [exact H1|now apply H2].
  - pose proof (reach_wf _ _ _ Hr) as Hwf. cbn [step].
    destruct (getPlayer pid (players (game w))) as [player|] eqn:Hp.
    + destruct (rejection (game w) player m) as [reason|] eqn:Hrej.
      * rewrite (handleMessage_rejected w pid m player reason Hp Hrej). now split.
      * destruct (msgOutcome_timerInv w pid player m _ IH1 Hrej
                    (handleMessage_accepted w pid player m Hwf Hp Hrej)) as [H1 H2].
        split; [exact H1|now apply H2].
    + rewrite handleMessage_unknown by exact Hp. now split.
  - pose proof (reach_wf _ _ _ Hr) as Hwf.
    destruct (timerOutcome_timerInv w rnd _ IH1 (fireTimer_outcome w rnd Hwf)) as [H1 H2].
    split; [exact H1|now apply H2].
Qed.

(** Timers and phases in every state of a session. At most one timer is
    pending: the timer of a resolved trick exactly in the phase
    trick-complete, the timer of a scored round exactly in the phase
    round-scoring, and none in any other phase. The phases
    passing-complete and round-over of the enumeration never occur. *)
Theorem one_timer_with_its_phase (w : World) :
  reachable w ->
  (timers w = []
   /\ phase (game w) <> TrickComplete /\ phase (game w) <> RoundScoring
   \/ (exists wid, timers w = [NextTrickTimer wid] /\ phase (game w) = TrickComplete
                   /\ hasPlayer wid (players (game w)))
   \/ (exists over, timers w = [NextRoundTimer over] /\ phase (game w) = RoundScoring))
  /\ phase (game w) <> PassingComplete
  /\ phase (game w) <> RoundOver.
Proof.
  intros [pile Hr]. destruct (reach_timerInv _ _ _ Hr) as [Hinv Hph].
  pose proof (reach_wf _ _ _ Hr) as Hwf.
  split.
  - unfold timerInv in Hinv. pose proof (wf_timer w Hwf) as Hwt.
    destruct (timers w) as [|[wid|b] [|t rest]]; try contradiction.
    + left. now split.
    + right. left. exists wid. split; [reflexivity|]. split; [exact Hinv|].
      apply Hwt. now left.
    + right. right. exists b. now split.
  - split; intros E; rewrite E in Hph; discriminate Hph.
Qed.

Lemma one_timer_with_its_phase_witness :
  reachable firstTrickDoneWorld
  /\ phase (game firstTrickDoneWorld) <> PassingComplete
  /\ phase (game firstTrickDoneWorld) <> RoundOver.
Proof.
  assert (Hr : reachable firstTrickDoneWorld)
    by exact (reachable_of _ [] reach_firstTrickDoneWorld).
  split; [exact Hr|exact (proj2 (one_timer_with_its_phase firstTrickDoneWorld Hr))].
Defined.


(** ** The points of a round *)

Lemma sumRoundScores_map (ps qs : list Player) :
  map roundScore ps = map roundScore qs -> sumRoundScores ps = sumRoundScores qs.
Proof.
  revert qs. induction ps as [|p ps IH]; intros [|q qs] H; try discriminate H;
    [reflexivity|].
  cbn [map] in H. injection H as H1 H2. unfold sumRoundScores in *.
  cbn [fold_right]. rewrite H1. f_equal. now apply IH.
Qed.

Lemma sumRoundScores_update_same (id : string) (f : Player -> Player) (ps : list Player) :
  (forall p, roundScore (f p) = roundScore p) ->
  sumRoundScores (updatePlayer id f ps) = sumRoundScores ps.
Proof.
  intros Hf. apply sumRoundScores_map. unfold updatePlayer. rewrite map_map.
  apply map_ext. intros p. destruct (String.eqb (p_id p) id); [apply Hf|reflexivity].
Qed.

Lemma sumRoundScores_app (ps qs : list Player) :
  sumRoundScores (ps ++ qs) = sumRoundScores ps + sumRoundScores qs.
Proof.
  unfold sumRoundScores. induction ps as [|p ps IH]; cbn [app fold_right]; [lia|].
  rewrite IH. lia.
Qed.

Lemma sumRoundScores_credit (wid : string) (pts : Z) (ps : list Player) :
  NoDup (map p_id ps) -> hasPlayer wid ps ->
  sumRoundScores (updatePlayer wid (fun q => set_roundScore (roundScore q + pts) q) ps)
  = sumRoundScores ps + pts.
Proof.
  intros Hnd Hhas. destruct (getPlayer_has wid ps Hhas) as [q Hq].
  destruct (update_split wid ps q Hnd Hq) as [pre [post [Hps Hup]]].
  rewrite Hup, Hps, !sumRoundScores_app. unfold sumRoundScores. cbn [fold_right roundScore
    set_roundScore]. lia.
Qed.

Lemma Forall2_dealt_sum (ps ps' : list Player) :
  Forall2 (fun p p' => p_id p' = p_id p /\ p_name p' = p_name p
                       /\ freshlyDealt (score p) p') ps ps' ->
  sumRoundScores ps' = 0.
Proof.
  induction 1 as [|p p' ps ps' [_ [_ [_ [_ [_ [Hr _]]]]]] _ IH]; [reflexivity|].
  unfold sumRoundScores in *. cbn [fold_right]. rewrite Hr, IH. reflexivity.
Qed.

Lemma roundGame_taken (rnd : nat -> nat) (g : Game) :
  playerOrder g = map p_id (players g) ->
  NoDup (playerOrder g) ->
  List.length (players g) = 4%nat ->
  sumRoundScores (players (roundGame rnd g)) = 0
  /\ trickResolved (roundGame rnd g) = false.
Proof.
  intros Hord Hnd H4.
  destruct (roundGame_dealt rnd g Hord Hnd H4) as [_ [_ [_ [_ [_ [A6 _]]]]]].
  split; [exact (Forall2_dealt_sum _ _ A6)|].
  unfold trickResolved. destruct (roundGame_facts rnd g) as [[H|H] _]; now rewrite H.
Qed.

Lemma takenInv_build (w : World) (pile pile' : list Card) (g' : Game)
    (out' : list Outgoing) (tm' : list Timer) {dp : list Player} :
  takenInv w pile -> started (game w) ->
  sumRoundScores (players g') - points pile'
    - (if trickResolved g' then points (trickCards g') else 0)
  = sumRoundScores (players (game w)) - points pile
    - (if trickResolved (game w) then points (trickCards (game w)) else 0) ->
  takenInv (mkWorld g' out' tm' dp) pile'.
Proof.
  intros Hinv Hst Heq _. cbn [game]. specialize (Hinv Hst). lia.
Qed.

Lemma rejection_phase (g : Game) (player : Player) (m : ClientMessage) :
  rejection g player m = None ->
  match m with
  | SelectCardsToPass _ => phase g = Passing
  | PlayCard _ => phase g = PlayingTrick
  | OtherMessage => True
  end.
Proof.
  intros H. destruct m as [cs|c|]; [| |exact I]; cbn [rejection] in H.
  - destruct (GamePhase_beq (phase g) Passing) eqn:E; [|discriminate H].
    now apply GamePhase_beq_eq.
  - destruct (GamePhase_beq (phase g) PlayingTrick) eqn:E; [|discriminate H].
    now apply GamePhase_beq_eq.
Qed.

Lemma msgOutcome_takenInv (w : World) (pid : string) (player : Player)
    (m : ClientMessage) (w' : World) (pile : list Card) :
  wf w -> takenInv w pile ->
  getPlayer pid (players (game w)) = Some player ->
  rejection (game w) player m = None ->
  msgOutcome w pid player m w' -> takenInv w' pile.
Proof.
  intros Hwf Hinv Hp Hrej Hout.
  assert (Hids : NoDup (map p_id (players (game w)))).
  { rewrite <- (wf_order w Hwf). apply (wf_nodup w Hwf). }
  pose proof (rejection_phase _ _ _ Hrej) as Hph.
  destruct Hout as [|cs outs Hpr Hne|cs dir p0 p1 p2 p3 outs Hpr Hps Hdir Hne
                    |c h' outs Hv Hh Hne|c h' wid outs Hv Hh Hwid Hne].
  - exact Hinv.
  - assert (Hst : started (game w)) by (unfold started; rewrite Hph; discriminate).
    apply (takenInv_build w pile); [exact Hinv|exact Hst|].
    unfold trickResolved. rewrite (proj1 (selectGame_facts _ _ _)), Hph.
    unfold selectGame. cbn [players set_players].
    rewrite sumRoundScores_update_same by reflexivity. reflexivity.
  - assert (Hst : started (game w)) by (unfold started; rewrite Hph; discriminate).
    apply (takenInv_build w pile); [exact Hinv|exact Hst|].
    unfold trickResolved.
    destruct (passedGame_facts dir p0 p1 p2 p3 (selectGame (game w) pid cs)) as [P1 [_ P3]].
    rewrite P1, P3, Hph.
    assert (Hsum : sumRoundScores (passedPlayers dir p0 p1 p2 p3)
                   = sumRoundScores (players (selectGame (game w) pid cs))).
    { rewrite Hps. apply sumRoundScores_map. destruct dir; reflexivity. }
    rewrite Hsum. unfold selectGame. cbn [players set_players].
    rewrite sumRoundScores_update_same by reflexivity. reflexivity.
  - assert (Hst : started (game w)) by (unfold started; rewrite Hph; discriminate).
    apply (takenInv_build w pile); [exact Hinv|exact Hst|].
    destruct (playedGame_facts (game w) pid c h') as [F1 [_ [_ F4]]].
    destruct (advancedGame_facts (playedGame (game w) pid c h')) as [A1 [_ [A3 _]]].
    unfold trickResolved. rewrite A1, F1, Hph, A3, F4.
    rewrite sumRoundScores_update_same by reflexivity. reflexivity.
  - assert (Hst : started (game w)) by (unfold started; rewrite Hph; discriminate).
    apply (takenInv_build w pile); [exact Hinv|exact Hst|].
    destruct (playedGame_facts (game w) pid c h') as [F1 [F2 [_ F4]]].
    destruct (trickDoneGame_facts (playedGame (game w) pid c h') wid) as [D1 [D2 _]].
    destruct (trickDoneGame_more (playedGame (game w) pid c h') wid) as [D4 _].
    pose proof (trickPoints_points (playedGame (game w) pid c h')) as Hpts.
    pose proof (playedGame_sameIds (game w) pid c h') as [Hm _].
    unfold trickResolved, trickCards. rewrite D1, D2, D4, Hph.
    rewrite sumRoundScores_credit.
    + rewrite Hpts, F4. rewrite sumRoundScores_update_same by reflexivity. lia.
    + now rewrite Hm.
    + unfold hasPlayer. now rewrite Hm.
Qed.

Lemma timerOutcome_takenInv (w : World) (rnd : nat -> nat) (w' : World)
    (pile : list Card) :
  wf w -> timerInv w -> takenInv w pile -> timerOutcome w rnd w' ->
  takenInv w' (pileAfterTimer w pile).
Proof.
  intros Hwf Htm Hinv Hout. unfold pileAfterTimer. unfold timerInv in Htm.
  destruct Hout as [Ht|wid wp rest outs over Ht Hp Hh Hne|wid wp rest outs Ht Hp Hh Hne
                    |rest outs Ht Hne|rest outs Ht Hne]; rewrite Ht in *; try rewrite Hp.
  - exact Hinv.
  - destruct rest; [|contradiction].
    assert (Hst : started (game w)) by (unfold started; rewrite Htm; discriminate).
    rewrite Hh. cbn [len List.length Z.of_nat Z.eqb].
    apply (takenInv_build w pile); [exact Hinv|exact Hst|].
    destruct (scoredGame_facts (game w)) as [S1 [S2 S3]].
    unfold trickResolved, trickCards. rewrite S1, S2, S3, Htm.
    rewrite (sumRoundScores_map (applyRoundScores (players (game w))) (players (game w)))
      by (apply applyRoundScores_keeps; reflexivity).
    reflexivity.
  - destruct rest; [|contradiction].
    assert (Hst : started (game w)) by (unfold started; rewrite Htm; discriminate).
    destruct (len (hand wp) =? 0) eqn:El; [apply len_zero_nil in El; contradiction|].
    apply (takenInv_build w pile); [exact Hinv|exact Hst|].
    destruct (nextTrickGame_facts (game w) wid) as [N1 [N2 [N3 _]]].
    unfold trickResolved. rewrite N1, N3, Htm, points_app. lia.
  - destruct rest; [|contradiction].
    assert (Hst : started (game w)) by (unfold started; rewrite Htm; discriminate).
    apply (takenInv_build w pile); [exact Hinv|exact Hst|].
    unfold trickResolved. cbn [phase set_phase players]. rewrite Htm. reflexivity.
  - destruct rest; [|contradiction].
    assert (Hst : started (game w)) by (unfold started; rewrite Htm; discriminate).
    destruct (roundGame_taken rnd (game w) (wf_order w Hwf) (wf_nodup w Hwf)
                (wf_four w Hwf Hst)) as [H0 Hres].
    intros _. cbn [game]. rewrite H0, Hres. reflexivity.
Qed.

Lemma joinOutcome_takenInv (w : World) (pid name : string) (rnd : nat -> nat)
    (w' : World) (pile : list Card) :
  wf w -> ~ In pid (playerOrder (game w)) -> conserved w pile -> takenInv w pile ->
  joinOutcome w pid name rnd w' -> takenInv w' pile.
Proof.
  intros Hwf Hfresh Hc Hinv Hout.
  destruct (joinedGame_order w pid name Hwf Hfresh) as [Hord [Hnd Hpl]].
  destruct Hout as [_|outs Hph Hn4 Hne|outs Hph H4 Hne].
  - exact Hinv.
  - intros Hst. exfalso. apply Hst. cbn [game].
    now rewrite (proj1 (joinedGame_facts pid name (game w))).
  - destruct (roundGame_taken rnd (joinedGame pid name (game w)) Hord Hnd H4)
      as [H0 Hres].
    assert (Hpile : pile = []).
    { apply (cons_pile w pile Hc). intros Hst. now apply Hst. }
    intros _. cbn [game]. rewrite H0, Hres, Hpile. reflexivity.
Qed.

Lemma reach_takenInv (w : World) (pile : list Card) :
  reach distinctSelection w pile -> takenInv w pile.
Proof.
  induction 1 as [|w pile pid name rnd Hr IH Hfresh|w pile pid m Hr IH Hok
                  |w pile rnd Hr IH].
  - intros Hst. exfalso. apply Hst. reflexivity.
  - pose proof (reach_wf _ _ _ Hr) as Hwf.
    eapply joinOutcome_takenInv; eauto; [now apply reach_conserved|].
    cbn [step]. now apply addPlayer_outcome.
  - pose proof (reach_wf _ _ _ Hr) as Hwf. cbn [step].
    destruct (getPlayer pid (players (game w))) as [player|] eqn:Hp.
    + destruct (rejection (game w) player m) as [reason|] eqn:Hrej.
      * now rewrite (handleMessage_rejected w pid m player reason Hp Hrej).
      * eapply msgOutcome_takenInv; eauto. now apply handleMessage_accepted.
    + now rewrite handleMessage_unknown.
  - pose proof (reach_wf _ _ _ Hr) as Hwf.
    eapply timerOutcome_takenInv; eauto; [exact (proj1 (reach_timerInv _ _ _ Hr))|].
    cbn [step]. now apply fireTimer_outcome.
Qed.


Lemma points_nonneg (l : list Card) : 0 <= points l.
Proof.
  induction l as [|c l IH]; [reflexivity|]. rewrite points_cons.
  assert (0 <= getCardValue c).
  { unfold getCardValue. destruct (Suit_beq (suit c) Hearts); [lia|].
    destruct (Suit_beq (suit c) Spades && Rank_beq (rank c) Queen); lia. }
  lia.
Qed.

(** The points of a round. In every state of a started round that a
    session reaches with pass selections naming no card twice, the round
    scores of the seats add up to the points of the cards of the tricks
    resolved so far in the round; together with the points of the cards
    still in the hands, in the pass staging and in a trick not yet
    resolved they make 26. So the round scores never add up to more than
    26. *)
Theorem round_points_add_up (w : World) (pile : list Card) :
  reach distinctSelection w pile ->
  started (game w) ->
  sumRoundScores (players (game w))
  = points pile + (if trickResolved (game w) then points (trickCards (game w)) else 0)
  /\ sumRoundScores (players (game w))
     + points (allHands (game w)) + points (allStaged (game w))
     + (if trickResolved (game w) then 0 else points (trickCards (game w)))
     = 26
  /\ 0 <= sumRoundScores (players (game w)) <= 26.
Proof.
  intros Hr Hst.
  pose proof (reach_takenInv w pile Hr Hst) as Htaken.
  pose proof (cons_cards w pile (reach_conserved w pile Hr) Hst) as Hperm.
  apply points_perm in Hperm. unfold cardsInPlay in Hperm.
  rewrite !points_app in Hperm.
  assert (H26 : points createDeck = 26) by (vm_compute; reflexivity).
  pose proof (points_nonneg pile). pose proof (points_nonneg (allHands (game w))).
  pose proof (points_nonneg (allStaged (game w))).
  pose proof (points_nonneg (trickCards (game w))).
  destruct (trickResolved (game w)); repeat split; lia.
Qed.

Lemma round_points_add_up_witness :
  (reach distinctSelection firstTrickDoneWorld [] /\ started (game firstTrickDoneWorld))
  /\ sumRoundScores (players (game firstTrickDoneWorld))
     = points [] + (if trickResolved (game firstTrickDoneWorld)
                    then points (trickCards (game firstTrickDoneWorld)) else 0)
  /\ 0 <= sumRoundScores (players (game firstTrickDoneWorld)) <= 26.
Proof.
  assert (Hst : started (game firstTrickDoneWorld)) by (vm_compute; discriminate).
  split; [split; [exact reach_firstTrickDoneWorld|exact Hst]|].
  destruct (round_points_add_up firstTrickDoneWorld [] reach_firstTrickDoneWorld Hst)
    as [A1 [_ A3]].
  split; [exact A1|exact A3].
Defined.


(** ** game.ts: what a player is told *)

Lemma getPlayer_map (id : string) (f : Player -> Player) (ps : list Player) :
  (forall p, p_id (f p) = p_id p) ->
  getPlayer id (map f ps) = option_map f (getPlayer id ps).
Proof.
  intros Hf. unfold getPlayer. induction ps as [|x ps IH]; [reflexivity|].
  cbn [map find]. rewrite Hf. destruct (String.eqb (p_id x) id); [reflexivity|exact IH].
Qed.

Lemma mapM_info_agree (ps qs : list Player) (l : list string) (w w' : World) :
  (forall id, option_map getPlayerInfo (getPlayer id ps)
              = option_map getPlayerInfo (getPlayer id qs)) ->
  answer (mapM (fun id => match getPlayer id ps with
                          | Some p => ret (getPlayerInfo p)
                          | None => throw typeError
                          end) l w)
  = answer (mapM (fun id => match getPlayer id qs with
                            | Some p => ret (getPlayerInfo p)
                            | None => throw typeError
                            end) l w').
Proof.
  intros H. induction l as [|x l IH]; [reflexivity|].
  cbn [mapM]. unfold bind at 1 3. specialize (H x).
  destruct (getPlayer x ps) as [p|]; destruct (getPlayer x qs) as [q|];
    cbn [option_map] in H; try discriminate H; [|reflexivity].
  assert (H' : getPlayerInfo p = getPlayerInfo q) by congruence.
  rewrite H'. cbv beta iota delta [ret bind].
  destruct (mapM _ l w) as [a w1|e w1]; destruct (mapM _ l w') as [a' w1'|e' w1'];
    cbn [answer] in IH; try discriminate IH; injection IH as IH; cbn [answer].
  - now rewrite IH.
  - now rewrite IH.
Qed.

(** The state made for one player. [getGameStateForPlayer] throws for an
    id that is not in the game. The state it makes shows the hand and the
    selection of that player and never the winner of the trick; and it
    shows nothing of the other players beyond id, name and the two scores:
    replacing the hands, selections and received cards of the others by
    anything else leaves the state made for the player the same. *)
Theorem state_hides_other_hands (pid : string) (w : World) :
  (getPlayer pid (players (game w)) = None ->
   answer (getGameStateForPlayer pid w) = inl "Player not found for state generation"%string)
  /\ (forall st, answer (getGameStateForPlayer pid w) = inr st ->
        trickWinnerId (s_currentTrick st) = None
        /\ exists p, getPlayer pid (players (game w)) = Some p
                     /\ s_hand st = hand p /\ s_cardsToPass st = cardsToPass p)
  /\ (forall f : Player -> Player,
        (forall p, getPlayerInfo (f p) = getPlayerInfo p) ->
        (forall p, p_id p = pid -> hand (f p) = hand p /\ cardsToPass (f p) = cardsToPass p) ->
        answer (getGameStateForPlayer pid (mapPlayers f w))
        = answer (getGameStateForPlayer pid w)).
Proof.
  split; [|split].
  - intros Hp. unfold getGameStateForPlayer. rewrite run_get, Hp. reflexivity.
  - intros st Hst. unfold getGameStateForPlayer in Hst. rewrite run_get in Hst.
    destruct (getPlayer pid (players (game w))) as [p|] eqn:Hp; [|discriminate Hst].
    unfold bind in Hst. destruct (getAllPlayerInfo w) as [infos w1|e w1];
      [|discriminate Hst].
    cbn [ret answer] in Hst. injection Hst as <-. cbn [s_currentTrick trickWinnerId].
    split; [reflexivity|]. exists p. repeat split.
  - intros f Hinfo Hown.
    assert (Hid : forall p, p_id (f p) = p_id p).
    { intros p. exact (f_equal i_id (Hinfo p)). }
    unfold getGameStateForPlayer, mapPlayers. rewrite !run_get, game_withGame.
    cbn [players set_players]. rewrite (getPlayer_map pid f _ Hid).
    destruct (getPlayer pid (players (game w))) as [p|] eqn:Hp; cbn [option_map];
      [|reflexivity].
    pose proof (getPlayer_some _ _ _ Hp) as [_ Hpid].
    destruct (Hown p Hpid) as [Hh Hc].
    assert (Hall : answer (getAllPlayerInfo
                             (withGame (set_players (map f (players (game w))) (game w)) w))
                   = answer (getAllPlayerInfo w)).
    { unfold getAllPlayerInfo. rewrite !run_get, game_withGame.
      cbn [players playerOrder set_players].
      apply mapM_info_agree. intros id. rewrite (getPlayer_map id f _ Hid).
      destruct (getPlayer id (players (game w))) as [q|]; cbn [option_map]; [|reflexivity].
      now rewrite Hinfo. }
    unfold bind.
    destruct (getAllPlayerInfo (withGame _ w)) as [a w1|e w1];
      destruct (getAllPlayerInfo w) as [a' w1'|e' w1'];
      cbn [answer] in Hall; try discriminate Hall; injection Hall as Hall;
      cbn [ret answer].
    + rewrite Hall, Hh, Hc. reflexivity.
    + now rewrite Hall.
Qed.


(** ** game.ts: a selection cannot be changed *)

(** An accepted selection while another player has still to select: the
    three cards leave the hand of the sender and are stored as the
    selection, the other players are as before, and every later selection
    of the same player is refused with an error notice and changes nothing
    else; a later selection of three cards is refused as already made. *)
Theorem selection_is_final (w : World) (pid : string) (player : Player)
    (cs : list Card) :
  reachable w ->
  getPlayer pid (players (game w)) = Some player ->
  rejection (game w) player (SelectCardsToPass cs) = None ->
  allSelected (selectGame (game w) pid cs) = false ->
  let w' := handleMessage pid (SelectCardsToPass cs) w in
  (exists player',
     getPlayer pid (players (game w')) = Some player'
     /\ cardsToPass player' = Some cs
     /\ hand player'
        = filter (fun handCard =>
                    negb (existsb (fun passCard => sameCard passCard handCard) cs))
            (hand player))
  /\ (forall id, id <> pid ->
        getPlayer id (players (game w')) = getPlayer id (players (game w)))
  /\ phase (game w') = Passing
  /\ (forall cs2, exists reason,
        handleMessage pid (SelectCardsToPass cs2) w'
        = addOut [SendToPlayer pid (ErrorMsg reason)] w'
        /\ (len cs2 = PASS_COUNT ->
            reason = "You have already selected cards to pass."%string)).
Proof.
  intros [pile Hr] Hp Hrej Hall w'.
  pose proof (reach_wf _ _ _ Hr) as Hwf.
  assert (Hid : p_id player = pid) by (apply getPlayer_some in Hp; tauto).
  assert (Hph : phase (game w) = Passing).
  { cbn [rejection] in Hrej. destruct (phase (game w)); try discriminate Hrej. reflexivity. }
  assert (Hpr : passRejection player cs = None).
  { cbn [rejection] in Hrej. now rewrite Hph in Hrej. }
  assert (Hw' : w' = addOut (selfUpdate (selectGame (game w) pid cs) pid
                             ++ stateUpdates (selectGame (game w) pid cs))
                       (withGame (selectGame (game w) pid cs) w)).
  { unfold w'. rewrite (handleMessage_select_eq w pid player cs Hwf Hp Hph Hpr).
    now rewrite Hall. }
  assert (Hg : game w' = selectGame (game w) pid cs).
  { rewrite Hw'. reflexivity. }
  clearbody w'.
  assert (Hget : forall id,
             getPlayer id (players (game w'))
             = option_map (fun q => if String.eqb (p_id q) pid
                                    then set_hand
                                           (filter (fun handCard =>
                                              negb (existsb (fun passCard =>
                                                               sameCard passCard handCard) cs))
                                              (hand q))
                                           (set_cardsToPass (Some cs) q)
                                    else q)
                 (getPlayer id (players (game w)))).
  { intros id. rewrite Hg. unfold selectGame. cbn [players set_players].
    apply getPlayer_updatePlayer. reflexivity. }
  assert (Hown : getPlayer pid (players (game w'))
                 = Some (set_hand
                           (filter (fun handCard =>
                                      negb (existsb (fun passCard =>
                                                       sameCard passCard handCard) cs))
                              (hand player))
                           (set_cardsToPass (Some cs) player))).
  { rewrite Hget, Hp. cbn [option_map]. now rewrite Hid, String.eqb_refl. }
  split; [|split; [|split]].
  - eexists. split; [exact Hown|]. split; reflexivity.
  - intros id Hne. rewrite Hget.
    destruct (getPlayer id (players (game w))) as [q|] eqn:Hq; [|reflexivity].
    cbn [option_map]. apply getPlayer_some in Hq. destruct Hq as [_ Hq].
    destruct (String.eqb_spec (p_id q) pid) as [E|E]; [|reflexivity].
    exfalso. apply Hne. now rewrite <- Hq.
  - rewrite Hg. exact Hph.
  - intros cs2.
    assert (Hph' : phase (game w') = Passing) by (rewrite Hg; exact Hph).
    destruct (len cs2 =? PASS_COUNT) eqn:El.
    + exists "You have already selected cards to pass."%string. split; [|reflexivity].
      apply (handleMessage_rejected w' pid _ _ _ Hown).
      cbn [rejection]. rewrite Hph'. cbn [GamePhase_beq]. unfold passRejection.
      rewrite El. reflexivity.
    + exists "Invalid number of cards selected. Please select 3."%string. split.
      * apply (handleMessage_rejected w' pid _ _ _ Hown).
        cbn [rejection]. rewrite Hph'. cbn [GamePhase_beq]. unfold passRejection.
        rewrite El. reflexivity.
      * intros E. apply Z.eqb_neq in El. contradiction.
Qed.

Lemma selection_is_final_witness :
  (reachable dealtWorld
   /\ getPlayer "a" (players (game dealtWorld)) = Some annAtDeal
   /\ rejection (game dealtWorld) annAtDeal (SelectCardsToPass annSelection) = None
   /\ allSelected (selectGame (game dealtWorld) "a" annSelection) = false)
  /\ phase (game (handleMessage "a" (SelectCardsToPass annSelection) dealtWorld)) = Passing.
Proof.
  assert (Hr : reachable dealtWorld)
    by exact (reachable_of dealtWorld [] reach_dealtWorld).
  assert (Hp : getPlayer "a" (players (game dealtWorld)) = Some annAtDeal)
    by (vm_compute; reflexivity).
  assert (Hrej : rejection (game dealtWorld) annAtDeal (SelectCardsToPass annSelection)
                 = None) by (vm_compute; reflexivity).
  assert (Hall : allSelected (selectGame (game dealtWorld) "a" annSelection) = false)
    by (vm_compute; reflexivity).
  split; [split; [exact Hr|split; [exact Hp|split; [exact Hrej|exact Hall]]]|].
  destruct (selection_is_final dealtWorld "a" annAtDeal annSelection Hr Hp Hrej Hall)
    as [_ [_ [A _]]].
  exact A.
Defined.


(** ** game.ts: the fourth join *)

Lemma lobbyInv_started (g : Game) (pile : list Card) :
  phase g <> WaitingForPlayers -> lobbyInv g pile.
Proof. intros H Hph. contradiction. Qed.

Lemma joinOutcome_lobbyInv (w : World) (pid name : string) (rnd : nat -> nat)
    (w' : World) (pile : list Card) :
  wf w -> ~ In pid (playerOrder (game w)) ->
  lobbyInv (game w) pile -> joinOutcome w pid name rnd w' -> lobbyInv (game w') pile.
Proof.
  intros Hwf Hfresh Hinv Hout.
  destruct Hout as [_|outs Hph Hn4 Hne|outs Hph H4 Hne].
  - exact Hinv.
  - destruct (Hinv Hph) as [Hrn [Hlt [Hsc Hpile]]].
    destruct (joinedGame_order w pid name Hwf Hfresh) as [_ [_ Hpl]].
    intros _. cbn [game]. rewrite Hpl in Hn4 |- *.
    split; [exact Hrn|]. rewrite length_app in Hn4 |- *. cbn [List.length] in Hn4 |- *.
    split; [lia|]. split; [|exact Hpile].
    apply Forall_app. split; [exact Hsc|]. now constructor.
  - apply lobbyInv_started. cbn [game].
    destruct (roundGame_facts rnd (joinedGame pid name (game w))) as [[H|H] _];
      rewrite H; discriminate.
Qed.

Lemma msgOutcome_lobbyInv (w : World) (pid : string) (player : Player)
    (m : ClientMessage) (w' : World) (pile : list Card) :
  lobbyInv (game w) pile ->
  rejection (game w) player m = None ->
  msgOutcome w pid player m w' -> lobbyInv (game w') pile.
Proof.
  intros Hinv Hrej Hout.
  destruct Hout as [|cs outs Hpr Hne|cs dir p0 p1 p2 p3 outs Hpr Hps Hdir Hne
                    |c h' outs Hv Hh Hne|c h' wid outs Hv Hh Hwid Hne].
  - exact Hinv.
  - apply lobbyInv_started. cbn [game]. rewrite (proj1 (selectGame_facts _ _ _)).
    cbn [rejection] in Hrej. destruct (phase (game w)); discriminate.
  - apply lobbyInv_started. cbn [game]. rewrite (proj1 (passedGame_facts _ _ _ _ _ _)).
    discriminate.
  - apply lobbyInv_started. cbn [game].
    rewrite (proj1 (advancedGame_facts _)), (proj1 (playedGame_facts _ _ _ _)).
    cbn [rejection] in Hrej. destruct (phase (game w)); discriminate.
  - apply lobbyInv_started. cbn [game]. rewrite (proj1 (trickDoneGame_facts _ _)).
    discriminate.
Qed.

Lemma timerOutcome_lobbyInv (w : World) (rnd : nat -> nat) (w' : World)
    (pile : list Card) :
  lobbyInv (game w) pile -> timerOutcome w rnd w' ->
  lobbyInv (game w') (pileAfterTimer w pile).
Proof.
  intros Hinv Hout.
  destruct Hout as [Ht|wid wp rest outs over Ht Hp Hh Hne|wid wp rest outs Ht Hp Hh Hne
                    |rest outs Ht Hne|rest outs Ht Hne].
  - unfold pileAfterTimer. rewrite Ht. exact Hinv.
  - apply lobbyInv_started. cbn [game]. rewrite (proj1 (scoredGame_facts _)). discriminate.
  - apply lobbyInv_started. cbn [game]. rewrite (proj1 (nextTrickGame_facts _ _)).
    discriminate.
  - apply lobbyInv_started. cbn [game set_phase phase]. discriminate.
  - apply lobbyInv_started. cbn [game].
    destruct (roundGame_facts rnd (game w)) as [[H|H] _]; rewrite H; discriminate.
Qed.

Lemma reach_lobbyInv (ok : ClientMessage -> Prop) (w : World) (pile : list Card) :
  reach ok w pile -> lobbyInv (game w) pile.
Proof.
  induction 1 as [|w pile pid name rnd Hr IH Hfresh|w pile pid m Hr IH Hok
                  |w pile rnd Hr IH].
  - intros _. cbn. repeat split; [lia|constructor].
  - pose proof (reach_wf _ _ _ Hr) as Hwf.
    exact (joinOutcome_lobbyInv w pid name rnd _ pile Hwf Hfresh IH
             (addPlayer_outcome w pid name rnd Hwf Hfresh)).
  - pose proof (reach_wf _ _ _ Hr) as Hwf. cbn [step].
    destruct (getPlayer pid (players (game w))) as [player|] eqn:Hp.
    + destruct (rejection (game w) player m) as [reason|] eqn:Hrej.
      * rewrite (handleMessage_rejected w pid m player reason Hp Hrej). exact IH.
      * exact (msgOutcome_lobbyInv w pid player m _ pile IH Hrej
                 (handleMessage_accepted w pid player m Hwf Hp Hrej)).
    + rewrite handleMessage_unknown by exact Hp. exact IH.
  - pose proof (reach_wf _ _ _ Hr) as Hwf.
    exact (timerOutcome_lobbyInv w rnd _ pile IH (fireTimer_outcome w rnd Hwf)).
Qed.

Lemma Forall2_Forall_right {A B : Type} (R : A -> B -> Prop) (P : A -> Prop)
    (Q : B -> Prop) (l : list A) (l' : list B) :
  (forall x y, P x -> R x y -> Q y) -> Forall P l -> Forall2 R l l' -> Forall Q l'.
Proof.
  intros HR HP H. induction H as [|x y l l' Hxy H IH]; constructor.
  - apply (HR x y); [now inversion HP|exact Hxy].
  - apply IH. now inversion HP.
Qed.

Lemma Forall2_ids (R : Player -> Player -> Prop) (ps qs : list Player) :
  (forall p q, R p q -> p_id q = p_id p) ->
  Forall2 R ps qs -> map p_id qs = map p_id ps.
Proof.
  intros HR H. induction H as [|p q ps qs Hpq H IH]; [reflexivity|].
  cbn [map]. now rewrite (HR p q Hpq), IH.
Qed.

(** The fourth join in closed form. *)
Lemma fourth_join_closed (w : World) (pid name : string) (rnd : nat -> nat) :
  wf w ->
  ~ In pid (playerOrder (game w)) ->
  List.length (players (game w)) = 3%nat ->
  phase (game w) = WaitingForPlayers ->
  answer (addPlayer pid name rnd w)
  = inr (Some (returnedPlayer pid name (roundGame rnd (joinedGame pid name (game w)))))
  /\ game (final (addPlayer pid name rnd w)) = roundGame rnd (joinedGame pid name (game w))
  /\ timers (final (addPlayer pid name rnd w)) = timers w.
Proof.
  intros Hwf Hfresh H3 Hph.
  destruct (joinedGame_order w pid name Hwf Hfresh) as [_ [_ Hpl]].
  assert (H4 : List.length (players (joinedGame pid name (game w))) = 4%nat).
  { rewrite Hpl, length_app, H3. reflexivity. }
  rewrite (addPlayer_eq w pid name rnd Hwf Hfresh).
  unfold len. rewrite H3, H4, Hph. cbn [Z.of_nat Z.geb Z.compare Pos.compare
    Pos.compare_cont MAX_PLAYERS GamePhase_beq negb orb Z.eqb Pos.eqb].
  generalize (roundOuts rnd (joinedGame pid name (game w))) as outs.
  generalize (stateUpdates (joinedGame pid name (game w))) as ups.
  generalize (returnedPlayer pid name (roundGame rnd (joinedGame pid name (game w)))) as rp.
  generalize (roundGame rnd (joinedGame pid name (game w))) as r.
  intros r rp ups outs. repeat split.
Qed.

(** The join that fills the table. In a session, when three players are
    seated the game is still waiting, and the join of a fourth player with
    a new id starts round 1 at once. [addPlayer] returns the player object
    of the new player as the deal has left it: seated under the new id,
    with the given name and thirteen cards in the hand. The new player
    takes the last seat; the game is in the passing phase with the
    direction left; each of the four holds thirteen cards in ascending
    order, has the total and the round score 0 and no selection, and the
    four hands hold every card of the deck once; no timer is pending. *)
Theorem fourth_join_deals (w : World) (pid name : string) (rnd : nat -> nat) :
  reachable w ->
  ~ In pid (playerOrder (game w)) ->
  List.length (players (game w)) = 3%nat ->
  let w' := final (addPlayer pid name rnd w) in
  phase (game w) = WaitingForPlayers
  /\ (exists seated,
        answer (addPlayer pid name rnd w) = inr (Some seated)
        /\ getPlayer pid (players (game w')) = Some seated
        /\ p_name seated = name
        /\ List.length (hand seated) = 13%nat)
  /\ playerOrder (game w') = playerOrder (game w) ++ [pid]
  /\ map p_id (players (game w')) = playerOrder (game w')
  /\ phase (game w') = Passing
  /\ roundNumber (game w') = 1
  /\ passingDirection (game w') = Some Left
  /\ Forall (freshlyDealt 0) (players (game w'))
  /\ Permutation (allHands (game w')) createDeck
  /\ timers w' = [].
Proof.
  intros [pile Hr] Hfresh H3 w'.
  pose proof (reach_wf _ _ _ Hr) as Hwf.
  pose proof (reach_lobbyInv _ _ _ Hr) as Hlobby.
  assert (Hph : phase (game w) = WaitingForPlayers).
  { destruct (phase (game w)) eqn:E; try reflexivity; exfalso;
      assert (Hs : started (game w)) by (unfold started; rewrite E; discriminate);
      apply (wf_four w Hwf) in Hs; lia. }
  destruct (Hlobby Hph) as [Hrn [_ [Hsc _]]].
  assert (Ht : timers w = []).
  { destruct (timers w) as [|t rest] eqn:Et; [reflexivity|]. exfalso.
    apply (wf_pending w Hwf); [rewrite Et; discriminate|exact Hph]. }
  destruct (joinedGame_order w pid name Hwf Hfresh) as [Hord [Hnd Hpl]].
  assert (H4 : List.length (players (joinedGame pid name (game w))) = 4%nat).
  { rewrite Hpl, length_app, H3. reflexivity. }
  assert (Hsc' : Forall (fun p => score p = 0) (players (joinedGame pid name (game w)))).
  { rewrite Hpl. apply Forall_app. split; [exact Hsc|]. now constructor. }
  assert (Hrn' : roundNumber (joinedGame pid name (game w)) = 0) by exact Hrn.
  assert (Hord' : playerOrder (joinedGame pid name (game w)) = playerOrder (game w) ++ [pid])
    by reflexivity.
  assert (Hfresh' : ~ In pid (map p_id (players (game w)))).
  { now rewrite <- (wf_order w Hwf). }
  split; [exact Hph|].
  destruct (fourth_join_closed w pid name rnd Hwf Hfresh H3 Hph) as [Hans [Hg Htw]].
  fold w' in Hg, Htw. rewrite Ht in Htw. clearbody w'. rewrite Hg. clear Hg.
  pose proof (roundGame_dealt rnd _ Hord Hnd H4) as HR. cbv zeta in HR.
  pose proof (dealtGame_sameIds rnd (joinedGame pid name (game w))) as [Hm _].
  assert (Hm' : map p_id (players (roundGame rnd (joinedGame pid name (game w))))
                = map p_id (players (joinedGame pid name (game w)))).
  { unfold roundGame. cbv zeta. revert Hm.
    generalize (dealtGame rnd (joinedGame pid name (game w))) as d. intros d Hm.
    destruct (isHold (passingDirection d)); exact Hm. }
  rewrite Hrn' in HR. rewrite Hord' in HR. rewrite <- Hord in Hm'. rewrite Hord' in Hm'.
  rewrite Hpl in HR.
  revert HR Hm' Hans. generalize (roundGame rnd (joinedGame pid name (game w))) as r.
  intros r [R1 [R2 [_ [_ [R5 [R6 [R7 [R8 _]]]]]]]] Hm' Hans.
  assert (Hall : Forall (freshlyDealt 0) (players r)).
  { rewrite Hpl in Hsc'.
    apply (Forall2_Forall_right _ _ _ _ _
             (fun p p' (Hp : score p = 0)
                  (H : p_id p' = p_id p /\ p_name p' = p_name p
                       /\ freshlyDealt (score p) p') =>
                eq_ind (score p) (fun s => freshlyDealt s p') (proj2 (proj2 H)) 0 Hp)
             Hsc' R6). }
  split.
  { (* the object returned is the last seat of the table after the deal *)
    apply Forall2_app_inv_l in R6.
    destruct R6 as [qs [ql [Hqs [Hql Hr']]]].
    inversion Hql as [|x q l l' [Hqid [Hqname Hqdealt]] Hnil]; subst.
    inversion Hnil; subst.
    assert (Hidq : map p_id qs = map p_id (players (game w))).
    { apply (Forall2_ids _ _ _ (fun p q H => proj1 H) Hqs). }
    assert (Hget : getPlayer pid (players r) = Some q).
    { rewrite Hr'. apply getPlayer_last; [now rewrite Hidq|exact Hqid]. }
    exists q. unfold returnedPlayer in Hans. rewrite Hget in Hans.
    split; [exact Hans|]. split; [exact Hget|]. split; [exact Hqname|].
    exact (proj1 Hqdealt). }
  split; [exact R5|]. split; [now rewrite R5|].
  split; [apply R8; discriminate|]. split; [exact R1|]. split; [exact R2|].
  split; [exact Hall|split; [exact R7|exact Htw]].
Qed.

Lemma reach_threeSeatedWorld : reach distinctSelection threeSeatedWorld [].
Proof.
  apply (reach_run distinctSelection (removelast joins) newWorld [] (reach_new _)).
  cbn [admissible removelast joins]. repeat split; fresh_id.
Qed.

Lemma fourth_join_deals_witness :
  (reachable threeSeatedWorld
   /\ ~ In "d"%string (playerOrder (game threeSeatedWorld))
   /\ List.length (players (game threeSeatedWorld)) = 3%nat)
  /\ phase (game (final (addPlayer "d" "Dee" noShuffle threeSeatedWorld))) = Passing
  /\ exists seated,
       answer (addPlayer "d" "Dee" noShuffle threeSeatedWorld) = inr (Some seated)
       /\ List.length (hand seated) = 13%nat.
Proof.
  assert (Hr : reachable threeSeatedWorld)
    by exact (reachable_of threeSeatedWorld [] reach_threeSeatedWorld).
  assert (Hf : ~ In "d"%string (playerOrder (game threeSeatedWorld))) by fresh_id.
  assert (H3 : List.length (players (game threeSeatedWorld)) = 3%nat)
    by (vm_compute; reflexivity).
  split; [split; [exact Hr|split; [exact Hf|exact H3]]|].
  destruct (fourth_join_deals threeSeatedWorld "d" "Dee" noShuffle Hr Hf H3)
    as [_ [[seated [S1 [_ [_ S4]]]] [_ [_ [A _]]]]].
  split; [exact A|]. exists seated. split; [exact S1|exact S4].
Defined.


(** ** game.ts: hands, turns and tricks *)

Lemma seatsFrom_perm {A : Type} (lead : nat) (l : list A) :
  Permutation (seatsFrom lead l) l.
Proof.
  unfold seatsFrom. rewrite Permutation_app_comm. now rewrite firstn_skipn.
Qed.

Lemma seatsFrom_nth {A : Type} (lead k : nat) (l : list A) :
  List.length l = 4%nat -> (lead < 4)%nat -> (k < 4)%nat ->
  nth_error (seatsFrom lead l) k = nth_error l ((lead + k) mod 4).
Proof.
  intros Hl Hlead Hk.
  destruct l as [|a [|b [|c [|d [|e l]]]]]; try discriminate Hl.
  destruct lead as [|[|[|[|lead]]]]; [| | | |lia];
    (destruct k as [|[|[|[|k]]]]; [| | | |lia]); reflexivity.
Qed.

Lemma firstn_succ_nth {A : Type} (l : list A) (k : nat) (x : A) :
  nth_error l k = Some x -> firstn (S k) l = firstn k l ++ [x].
Proof.
  revert k. induction l as [|y l IH]; intros [|k] H; try discriminate H.
  - injection H as ->. reflexivity.
  - cbn [nth_error] in H. cbn [firstn app]. f_equal. now apply IH.
Qed.

Lemma firstn_fresh {A : Type} (l : list A) (k : nat) (x : A) :
  NoDup l -> nth_error l k = Some x -> ~ In x (firstn k l).
Proof.
  intros Hnd Hx Hin.
  rewrite <- (firstn_skipn (S k) l), (firstn_succ_nth l k x Hx), <- app_assoc in Hnd.
  apply NoDup_remove_2 in Hnd. apply Hnd. apply in_or_app. now left.
Qed.

Lemma hasPlayed_in (g : Game) (id : string) :
  hasPlayed g id = true <-> In id (map playerId (cards (currentTrick g))).
Proof.
  unfold hasPlayed. rewrite existsb_exists, in_map_iff. split.
  - intros [e [Hin He]]. exists e. apply String.eqb_eq in He. now split.
  - intros [e [He Hin]]. exists e. split; [exact Hin|]. now apply String.eqb_eq.
Qed.

Lemma hasPlayed_none (g : Game) (id : string) :
  cards (currentTrick g) = [] -> hasPlayed g id = false.
Proof. unfold hasPlayed. now intros ->. Qed.

Lemma removeFirst_length (c : Card) (h h' : list Card) :
  removeFirst c h = Some h' -> List.length h = S (List.length h').
Proof.
  intros H. apply removeFirst_perm in H. now rewrite (Permutation_length H).
Qed.

Lemma findTwoOfClubsFrom_range (ps : list Player) (ids : list string) (i : Z) :
  0 <= i ->
  0 <= findTwoOfClubsFrom ps ids i < Z.max 1 (i + len ids).
Proof.
  revert i. induction ids as [|id ids IH]; intros i Hi; cbn [findTwoOfClubsFrom].
  - lia.
  - unfold len in *. cbn [List.length].
    destruct (match getPlayer id ps with
              | Some p => existsb isTwoOfClubs (hand p)
              | None => false
              end).
    + lia.
    + specialize (IH (i + 1) ltac:(lia)). lia.
Qed.

(** The seat that opens a trick. *)
Lemma opening_inTrick (g : Game) (n : nat) :
  (1 <= n)%nat ->
  cards (currentTrick g) = [] ->
  0 <= currentPlayerIndex g < 4 ->
  Forall (fun p => List.length (hand p) = n) (players g) ->
  inTrick g n.
Proof.
  intros Hn Hc Hi Hh. unfold inTrick. rewrite Hc. cbn [List.length map firstn].
  split; [exact Hn|]. split; [lia|]. split.
  - exists (Z.to_nat (currentPlayerIndex g)). split; [lia|]. split; [reflexivity|].
    rewrite Nat.add_0_r, Nat.mod_small by lia. lia.
  - revert Hh. apply Forall_impl. intros p Hp. now rewrite (hasPlayed_none g _ Hc).
Qed.


Lemma next_seat (lead k : nat) :
  (lead < 4)%nat -> (k < 4)%nat ->
  Z.rem (Z.of_nat ((lead + k) mod 4) + 1) 4 = Z.of_nat ((lead + S k) mod 4).
Proof.
  intros Hlead Hk.
  destruct lead as [|[|[|[|lead]]]]; [| | | |lia];
    (destruct k as [|[|[|[|k]]]]; [| | | |lia]); reflexivity.
Qed.

(** The seat whose turn it is plays a card: where the trick and the hands
    stand afterwards. *)
Lemma played_seats (g : Game) (pid : string) (player : Player) (c : Card)
    (h' : list Card) (n : nat) :
  NoDup (playerOrder g) ->
  List.length (playerOrder g) = 4%nat ->
  inTrick g n ->
  getCurrentPlayerId g = Some pid ->
  getPlayer pid (players g) = Some player ->
  removeFirst c (hand player) = Some h' ->
  hasPlayed g pid = false
  /\ List.length (hand player) = n
  /\ (exists lead,
        (lead < 4)%nat
        /\ map playerId (cards (currentTrick g) ++ [mkPlayed pid c])
           = firstn (S (List.length (cards (currentTrick g))))
               (seatsFrom lead (playerOrder g))
        /\ currentPlayerIndex g
           = Z.of_nat ((lead + List.length (cards (currentTrick g))) mod 4))
  /\ Forall (fun p => List.length (hand p)
                      = if existsb (fun e => String.eqb (playerId e) (p_id p))
                             (cards (currentTrick g) ++ [mkPlayed pid c])
                        then (n - 1)%nat else n)
       (updatePlayer pid (set_hand h') (players g)).
Proof.
  intros Hnd H4 [Hn [Hk [[lead [Hlead [Hids Hcpi]]] Hhands]]] Hcur Hp Hh.
  destruct (getPlayer_some _ _ _ Hp) as [Hin Hid].
  assert (Hseat : nth_error (seatsFrom lead (playerOrder g))
                    (List.length (cards (currentTrick g))) = Some pid).
  { rewrite (seatsFrom_nth lead _ _ H4 Hlead Hk).
    unfold getCurrentPlayerId in Hcur.
    destruct ((currentPlayerIndex g <? 0) || (currentPlayerIndex g >=? len (playerOrder g)));
      [discriminate Hcur|].
    apply at_nth in Hcur. destruct Hcur as [_ Hcur].
    rewrite Hcpi, Nat2Z.id in Hcur. exact Hcur. }
  assert (Hfresh : hasPlayed g pid = false).
  { apply Bool.not_true_iff_false. intros Ht. apply hasPlayed_in in Ht.
    rewrite Hids in Ht. revert Ht. apply firstn_fresh; [|exact Hseat].
    apply (Permutation_NoDup (Permutation_sym (seatsFrom_perm lead _)) Hnd). }
  assert (Hlen : List.length (hand player) = n).
  { rewrite Forall_forall in Hhands. specialize (Hhands player Hin).
    now rewrite Hid, Hfresh in Hhands. }
  split; [exact Hfresh|]. split; [exact Hlen|]. split.
  - exists lead. split; [exact Hlead|]. split; [|exact Hcpi].
    rewrite map_app, Hids. cbn [map playerId]. symmetry. now apply firstn_succ_nth.
  - unfold updatePlayer. apply Forall_map. rewrite Forall_forall in Hhands |- *.
    intros q Hq. specialize (Hhands q Hq). rewrite existsb_app. cbn [existsb playerId].
    rewrite Bool.orb_false_r. fold (hasPlayed g (p_id q)) in Hhands.
    destruct (String.eqb_spec (p_id q) pid) as [E|E].
    + cbn [p_id set_hand hand]. rewrite E, String.eqb_refl, Bool.orb_true_r.
      apply removeFirst_length in Hh. lia.
    + assert (E' : String.eqb pid (p_id q) = false).
      { apply String.eqb_neq. intros X. now symmetry in X. }
      rewrite E', Bool.orb_false_r. exact Hhands.
Qed.

Lemma play_on_level (g : Game) (pid : string) (player : Player) (c : Card)
    (h' : list Card) (n : nat) :
  playerOrder g = map p_id (players g) ->
  NoDup (playerOrder g) ->
  List.length (playerOrder g) = 4%nat ->
  inTrick g n ->
  getCurrentPlayerId g = Some pid ->
  getPlayer pid (players g) = Some player ->
  removeFirst c (hand player) = Some h' ->
  S (List.length (cards (currentTrick g))) <> 4%nat ->
  inTrick (advancedGame (playedGame g pid c h')) n.
Proof.
  intros Hord Hnd H4 Hin Hcur Hp Hh Hk4.
  destruct (played_seats g pid player c h' n Hnd H4 Hin Hcur Hp Hh)
    as [_ [_ [[lead [Hlead [Hids Hcpi]]] Hhands]]].
  destruct Hin as [Hn [Hk _]].
  destruct (playedGame_facts g pid c h') as [_ [Fc [_ Fp]]].
  destruct (playedGame_more g pid c h') as [Fi [Fo _]].
  assert (Hi : currentPlayerIndex (advancedGame (playedGame g pid c h'))
               = Z.rem (currentPlayerIndex (playedGame g pid c h') + 1)
                   (len (players (playedGame g pid c h')))) by reflexivity.
  destruct (advancedGame_facts (playedGame g pid c h')) as [_ [At [Ap Ao]]].
  unfold inTrick, hasPlayed. rewrite At, Ap, Ao, Hi, Fc, Fp, Fi, Fo.
  clear Hi At Ap Ao Fc Fp Fi Fo.
  assert (Hl : List.length (cards (currentTrick g) ++ [mkPlayed pid c])
               = S (List.length (cards (currentTrick g)))).
  { rewrite length_app. cbn [List.length]. lia. }
  rewrite Hl. split; [exact Hn|]. split; [lia|]. split; [|exact Hhands].
  exists lead. split; [exact Hlead|]. split; [exact Hids|].
  unfold len, updatePlayer. rewrite length_map, <- (length_map p_id), <- Hord, H4, Hcpi.
  now apply next_seat.
Qed.

Lemma play_last_level (g : Game) (pid : string) (player : Player) (c : Card)
    (h' : list Card) (n : nat) (wid : string) :
  playerOrder g = map p_id (players g) ->
  NoDup (playerOrder g) ->
  List.length (playerOrder g) = 4%nat ->
  inTrick g n ->
  getCurrentPlayerId g = Some pid ->
  getPlayer pid (players g) = Some player ->
  removeFirst c (hand player) = Some h' ->
  S (List.length (cards (currentTrick g))) = 4%nat ->
  trickFull (trickDoneGame (playedGame g pid c h') wid) (n - 1).
Proof.
  intros Hord Hnd H4 Hin Hcur Hp Hh Hk4.
  destruct (played_seats g pid player c h' n Hnd H4 Hin Hcur Hp Hh)
    as [_ [_ [[lead [Hlead [Hids Hcpi]]] Hhands]]].
  destruct (playedGame_facts g pid c h') as [_ [Fc [_ Fp]]].
  destruct (playedGame_more g pid c h') as [_ [Fo _]].
  destruct (trickDoneGame_facts (playedGame g pid c h') wid) as [_ [Tc _]].
  destruct (trickDoneGame_more (playedGame g pid c h') wid) as [Tp [_ To]].
  unfold trickFull. rewrite Tc, Tp, To, Fc, Fp, Fo. clear Tc Tp To Fc Fp Fo.
  assert (Hperm : Permutation (map playerId (cards (currentTrick g) ++ [mkPlayed pid c]))
                    (playerOrder g)).
  { rewrite Hids, Hk4, firstn_all2.
    - apply seatsFrom_perm.
    - rewrite (Permutation_length (seatsFrom_perm lead (playerOrder g))). lia. }
  split; [rewrite length_app; cbn [List.length]; lia|]. split; [exact Hperm|].
  unfold updatePlayer at 1. apply Forall_map.
  rewrite Forall_forall in Hhands |- *. intros q Hq.
  assert (Hlen : List.length (hand q) = (n - 1)%nat).
  { rewrite (Hhands q Hq).
    assert (Hqin : In (p_id q) (map playerId (cards (currentTrick g) ++ [mkPlayed pid c]))).
    { apply (Permutation_in _ (Permutation_sym Hperm)). rewrite Hord.
      unfold updatePlayer in Hq. apply in_map_iff in Hq. destruct Hq as [q0 [Hq0 Hq0in]].
      apply in_map_iff. exists q0. split; [|exact Hq0in].
      subst q. destruct (String.eqb (p_id q0) pid); reflexivity. }
    apply in_map_iff in Hqin. destruct Hqin as [e [He Hein]].
    replace (existsb _ _) with true; [reflexivity|].
    symmetry. apply existsb_exists. exists e. split; [exact Hein|].
    now apply String.eqb_eq. }
  destruct (String.eqb (p_id q) wid); exact Hlen.
Qed.


Lemma levelInv_playing (g : Game) (o : list Outgoing) (t : list Timer)
    {dp : list Player} (pile : list Card) (n : nat) :
  phase g = PlayingTrick -> inTrick g n -> (List.length pile + 4 * n = 52)%nat ->
  levelInv (mkWorld g o t dp) pile.
Proof.
  intros Hph Hin Hp. unfold levelInv. cbn [game]. rewrite Hph.
  split; [intros _; now exists n|]. split; discriminate.
Qed.

Lemma levelInv_complete (g : Game) (o : list Outgoing) (t : list Timer)
    {dp : list Player} (pile : list Card) (n : nat) :
  phase g = TrickComplete -> trickFull g n -> (List.length pile + 4 * n + 4 = 52)%nat ->
  levelInv (mkWorld g o t dp) pile.
Proof.
  intros Hph Hin Hp. unfold levelInv. cbn [game]. rewrite Hph.
  split; [discriminate|]. split; [intros _; now exists n|discriminate].
Qed.

Lemma levelInv_scoring (g : Game) (o : list Outgoing) (t : list Timer)
    {dp : list Player} (pile : list Card) :
  phase g = RoundScoring -> trickFull g 0 -> List.length pile = 48%nat ->
  levelInv (mkWorld g o t dp) pile.
Proof.
  intros Hph Hin Hp. unfold levelInv. cbn [game]. rewrite Hph.
  split; [discriminate|]. split; [discriminate|]. now intros _.
Qed.

Lemma levelInv_other (g : Game) (o : list Outgoing) (t : list Timer)
    {dp : list Player} (pile : list Card) :
  phase g <> PlayingTrick -> phase g <> TrickComplete -> phase g <> RoundScoring ->
  levelInv (mkWorld g o t dp) pile.
Proof.
  intros H1 H2 H3. unfold levelInv. cbn [game].
  split; [intros H; contradiction|]. split; intros H; contradiction.
Qed.

Lemma nextTrick_level (g : Game) (wid : string) (wp : Player) (n : nat) :
  List.length (playerOrder g) = 4%nat ->
  In wid (playerOrder g) ->
  trickFull g n ->
  getPlayer wid (players g) = Some wp ->
  hand wp <> [] ->
  inTrick (nextTrickGame g wid) n.
Proof.
  intros H4 Hin [_ [_ Hh]] Hp Hne.
  destruct (nextTrickGame_facts g wid) as [_ [Ft [Fp Fo]]].
  assert (Fi : currentPlayerIndex (nextTrickGame g wid)
               = indexOf String.eqb wid (playerOrder g)) by reflexivity.
  apply opening_inTrick.
  - destruct (getPlayer_some _ _ _ Hp) as [Hwin _].
    rewrite Forall_forall in Hh. specialize (Hh wp Hwin).
    destruct (hand wp); [contradiction|]. cbn [List.length] in Hh. lia.
  - now rewrite Ft.
  - rewrite Fi. unfold indexOf.
    destruct (indexOfFrom_at wid (playerOrder g) 0 Hin) as [k [Hk [Hr _]]].
    rewrite Hk. unfold len in Hr. rewrite H4 in Hr. lia.
  - now rewrite Fp.
Qed.

Lemma scored_level (g : Game) (wid : string) (wp : Player) (n : nat) :
  trickFull g n ->
  getPlayer wid (players g) = Some wp ->
  hand wp = [] ->
  n = 0%nat /\ trickFull (scoredGame g) 0.
Proof.
  intros [Hc [Hperm Hh]] Hp Hnil.
  assert (Hn : n = 0%nat).
  { destruct (getPlayer_some _ _ _ Hp) as [Hwin _].
    rewrite Forall_forall in Hh. specialize (Hh wp Hwin).
    now rewrite Hnil in Hh. }
  split; [exact Hn|]. subst n.
  destruct (scoredGame_facts g) as [_ [Ft Fp]].
  destruct (scoredGame_more g) as [Fo _].
  unfold trickFull. rewrite Ft, Fp, Fo. split; [exact Hc|]. split; [exact Hperm|].
  assert (Hm : Forall (fun h => List.length h = 0%nat) (map hand (applyRoundScores (players g)))).
  { rewrite (applyRoundScores_keeps hand) by reflexivity. now apply Forall_map. }
  now apply Forall_map in Hm.
Qed.

Lemma roundGame_level (rnd : nat -> nat) (g : Game) :
  playerOrder g = map p_id (players g) ->
  NoDup (playerOrder g) ->
  List.length (players g) = 4%nat ->
  phase (roundGame rnd g) = PlayingTrick ->
  inTrick (roundGame rnd g) 13.
Proof.
  intros Hord Hnd H4.
  assert (Ho4 : List.length (playerOrder g) = 4%nat) by (now rewrite Hord, length_map).
  pose proof (roundGame_dealt rnd g Hord Hnd H4) as HR. cbv zeta in HR.
  revert HR. generalize (roundGame rnd g) as r.
  intros r [_ [_ [_ [R4 [R5 [R6 [_ [R8 R9]]]]]]]] Hph.
  destruct (PassingDirection_beq (getPassingDirection (roundNumber g + 1)) Hold) eqn:E.
  - assert (Hd : getPassingDirection (roundNumber g + 1) = Hold).
    { destruct (getPassingDirection (roundNumber g + 1)); try discriminate E; reflexivity. }
    destruct (R9 Hd) as [_ [id [Hcur _]]].
    apply opening_inTrick.
    + lia.
    + now rewrite R4.
    + unfold getCurrentPlayerId in Hcur. rewrite R5 in Hcur. unfold len in Hcur.
      rewrite Ho4 in Hcur.
      destruct (Z.ltb_spec (currentPlayerIndex r) 0); [discriminate Hcur|].
      destruct (Z.geb_spec (currentPlayerIndex r) (Z.of_nat 4)); [discriminate Hcur|].
      lia.
    + apply (Forall2_right _ _ _ _ (fun p p' H => proj1 (proj2 (proj2 H))) R6).
  - assert (Hd : getPassingDirection (roundNumber g + 1) <> Hold).
    { intros X. rewrite X in E. discriminate E. }
    rewrite (R8 Hd) in Hph. discriminate Hph.
Qed.

Lemma passedGame_more (dir : PassingDirection) (p0 p1 p2 p3 : Player) (g : Game) :
  playerOrder (passedGame dir p0 p1 p2 p3 g) = playerOrder g
  /\ currentPlayerIndex (passedGame dir p0 p1 p2 p3 g)
     = findTwoOfClubsFrom (passedPlayers dir p0 p1 p2 p3) (playerOrder g) 0.
Proof. split; reflexivity. Qed.

Lemma passed_level (dir : PassingDirection) (p0 p1 p2 p3 : Player) (g : Game) :
  List.length (playerOrder g) = 4%nat ->
  cards (currentTrick g) = [] ->
  Forall (fun p => List.length (hand p) = 13%nat) (passedPlayers dir p0 p1 p2 p3) ->
  inTrick (passedGame dir p0 p1 p2 p3 g) 13.
Proof.
  intros H4 Hc Hh.
  destruct (passedGame_facts dir p0 p1 p2 p3 g) as [_ [Ft Fp]].
  destruct (passedGame_more dir p0 p1 p2 p3 g) as [Fo Fi].
  apply opening_inTrick.
  - lia.
  - now rewrite Ft.
  - rewrite Fi.
    pose proof (findTwoOfClubsFrom_range (passedPlayers dir p0 p1 p2 p3) (playerOrder g) 0
                  ltac:(lia)) as Hr.
    unfold len in Hr. rewrite H4 in Hr. lia.
  - now rewrite Fp.
Qed.


Lemma timerOutcome_levelInv (w : World) (rnd : nat -> nat) (w' : World)
    (pile : list Card) :
  wf w -> timerInv w -> levelInv w pile -> timerOutcome w rnd w' ->
  levelInv w' (pileAfterTimer w pile).
Proof.
  intros Hwf Hti Hinv Hout. unfold timerInv in Hti.
  pose proof (proj1 (proj2 Hinv)) as Hcomplete.
  assert (Ho4 : started (game w) -> List.length (playerOrder (game w)) = 4%nat).
  { intros Hs. rewrite (wf_order w Hwf), length_map. now apply (wf_four w Hwf). }
  destruct Hout as [Ht|wid wp rest outs over Ht Hp Hh Hne|wid wp rest outs Ht Hp Hh Hne
                    |rest outs Ht Hne|rest outs Ht Hne].
  - unfold pileAfterTimer. rewrite Ht. exact Hinv.
  - rewrite Ht in Hti. destruct rest; [|contradiction].
    destruct (Hcomplete Hti) as [n [Hfull Hpile]].
    destruct (scored_level (game w) wid wp n Hfull Hp Hh) as [Hn Hfull'].
    unfold pileAfterTimer. rewrite Ht, Hp, Hh. cbn [List.length len Z.of_nat Z.eqb].
    apply levelInv_scoring; [apply (proj1 (scoredGame_facts _))|exact Hfull'|lia].
  - rewrite Ht in Hti. destruct rest; [|contradiction].
    destruct (Hcomplete Hti) as [n [Hfull Hpile]].
    assert (Hs : started (game w)) by (unfold started; rewrite Hti; discriminate).
    assert (Hin : In wid (playerOrder (game w))).
    { rewrite (wf_order w Hwf). destruct (getPlayer_some _ _ _ Hp) as [Hwin Hid].
      apply in_map_iff. now exists wp. }
    unfold pileAfterTimer. rewrite Ht, Hp.
    destruct (len (hand wp) =? 0) eqn:El; [apply len_zero_nil in El; contradiction|].
    apply (levelInv_playing _ _ _ _ n).
    + apply (proj1 (nextTrickGame_facts _ _)).
    + exact (nextTrick_level (game w) wid wp n (Ho4 Hs) Hin Hfull Hp Hh).
    + rewrite length_app. unfold trickCards. rewrite length_map.
      destruct Hfull as [Hc _]. rewrite Hc. lia.
  - apply levelInv_other; cbn [phase set_phase]; discriminate.
  - unfold pileAfterTimer. rewrite Ht.
    assert (Hs : started (game w)).
    { apply (wf_pending w Hwf). rewrite Ht. discriminate. }
    pose proof (roundGame_level rnd (game w) (wf_order w Hwf) (wf_nodup w Hwf)
                  (wf_four w Hwf Hs)) as HL.
    pose proof (roundGame_facts rnd (game w)) as [HP _].
    revert HL HP. generalize (roundGame rnd (game w)) as r. intros r HL [HP|HP].
    + apply levelInv_other; rewrite HP; discriminate.
    + apply (levelInv_playing _ _ _ _ 13); [exact HP|exact (HL HP)|reflexivity].
Qed.


Lemma joinOutcome_levelInv (w : World) (pid name : string) (rnd : nat -> nat)
    (w' : World) (pile : list Card) :
  wf w -> ~ In pid (playerOrder (game w)) -> conserved w pile ->
  levelInv w pile -> joinOutcome w pid name rnd w' -> levelInv w' pile.
Proof.
  intros Hwf Hfresh Hc Hinv Hout.
  destruct Hout as [_|outs Hph Hn4 Hne|outs Hph H4 Hne].
  - exact Hinv.
  - apply levelInv_other; rewrite (proj1 (joinedGame_facts _ _ _)), Hph; discriminate.
  - assert (Hpile : pile = []).
    { apply (cons_pile w pile Hc). unfold started. now rewrite Hph. }
    destruct (joinedGame_order w pid name Hwf Hfresh) as [Hord [Hnd _]].
    pose proof (roundGame_level rnd (joinedGame pid name (game w)) Hord Hnd H4) as HL.
    pose proof (roundGame_facts rnd (joinedGame pid name (game w))) as [HP _].
    revert HL HP. generalize (roundGame rnd (joinedGame pid name (game w))) as r.
    intros r HL [HP|HP].
    + apply levelInv_other; rewrite HP; discriminate.
    + apply (levelInv_playing _ _ _ _ 13); [exact HP|exact (HL HP)|now rewrite Hpile].
Qed.

(** A selection in a session with distinct selections: when it sets the
    pass off, every hand is back at thirteen cards for the opening lead. *)
Lemma select_levelInv (w : World) (pile : list Card) (pid : string) (player : Player)
    (cs : list Card) :
  reach distinctSelection w pile ->
  NoDup cs ->
  getPlayer pid (players (game w)) = Some player ->
  rejection (game w) player (SelectCardsToPass cs) = None ->
  levelInv (handleMessage pid (SelectCardsToPass cs) w) pile.
Proof.
  intros Hr Hcs Hp Hrej0.
  pose proof (reach_wf _ _ _ Hr) as Hwf.
  pose proof (reach_conserved _ _ Hr) as Hc.
  assert (Hph : phase (game w) = Passing).
  { cbn [rejection] in Hrej0. destruct (phase (game w)); try discriminate Hrej0. reflexivity. }
  assert (Hrej : passRejection player cs = None).
  { cbn [rejection] in Hrej0. now rewrite Hph in Hrej0. }
  destruct (reach_passingInv _ _ Hr Hph) as [[dir [Hdir Hnh]] [Htr [Hpile Hseats]]].
  assert (Hids : NoDup (map p_id (players (game w)))).
  { rewrite <- (wf_order w Hwf). apply (wf_nodup w Hwf). }
  assert (Hstw : started (game w)) by (unfold started; rewrite Hph; discriminate).
  pose proof (handleMessage_select_eq w pid player cs Hwf Hp Hph Hrej) as Heq.
  pose proof (select_seats (game w) pid player cs Hids Hp Hrej Hcs
                (hand_NoDup (game w) pid player Hids Hp
                   (conserved_hands_NoDup w pile Hc Hstw)) Hseats) as Hseats1.
  destruct (selectGame_facts (game w) pid cs) as [F1 [F2 [F3 F4]]].
  destruct (allSelected (selectGame (game w) pid cs)) eqn:Eall.
  2:{ rewrite Heq.
      apply levelInv_other; rewrite ?game_addOut, ?game_withGame, F1, Hph; discriminate. }
  set (w1 := addOut (selfUpdate (selectGame (game w) pid cs) pid)
               (withGame (selectGame (game w) pid cs) w)) in *.
  assert (Hwf1 : wf w1) by exact (selectGame_wf w pid cs _ Hwf).
  assert (Hst1 : started (game w1)).
  { unfold started, w1. rewrite game_addOut, game_withGame, F1, Hph. discriminate. }
  destruct (four_players _ (wf_four w1 Hwf1 Hst1)) as [p0 [p1 [p2 [p3 Hps]]]].
  assert (Ho1 : playerOrder (game w1) = map p_id [p0; p1; p2; p3])
    by (rewrite (wf_order w1 Hwf1), Hps; reflexivity).
  assert (Hn1 : NoDup (map p_id [p0; p1; p2; p3]))
    by (rewrite <- Hps, <- (wf_order w1 Hwf1); apply (wf_nodup w1 Hwf1)).
  assert (Hd1 : passingDirection (game w1) = Some dir)
    by (unfold w1; rewrite game_addOut, game_withGame, F3; exact Hdir).
  pose proof (executePassing_four w1 dir p0 p1 p2 p3 Hps Ho1 Hn1 Hd1 Hnh) as Hex.
  assert (Hps1 : players (selectGame (game w) pid cs) = [p0; p1; p2; p3]) by exact Hps.
  unfold allSelected in Eall. rewrite Hps1 in Eall, Hseats1.
  rewrite forallb_forall in Eall. rewrite Forall_forall in Hseats1.
  assert (Hsel : forall p, In p [p0; p1; p2; p3] ->
                   List.length (hand p) = 10%nat /\ List.length (passOf p) = 3%nat).
  { intros p Hin. apply selected_seat; [now apply Hseats1|].
    specialize (Eall p Hin). destruct (cardsToPass p); [discriminate|discriminate Eall]. }
  destruct (Hsel p0 ltac:(cbn; tauto)) as [L0 S0].
  destruct (Hsel p1 ltac:(cbn; tauto)) as [L1 S1].
  destruct (Hsel p2 ltac:(cbn; tauto)) as [L2 S2].
  destruct (Hsel p3 ltac:(cbn; tauto)) as [L3 S3].
  assert (Hh : Forall (fun p => List.length (hand p) = 13%nat)
                 (passedPlayers dir p0 p1 p2 p3)).
  { destruct dir; [| | |now elim Hnh]; cbn [passedPlayers];
      repeat (constructor; [now apply receive_seat|]); constructor. }
  assert (Ho4 : List.length (playerOrder (game w1)) = 4%nat).
  { rewrite Ho1. reflexivity. }
  assert (Htr1 : cards (currentTrick (game w1)) = []).
  { unfold w1. now rewrite game_addOut, game_withGame, F2. }
  pose proof (passed_level dir p0 p1 p2 p3 (game w1) Ho4 Htr1 Hh) as HL.
  pose proof (proj1 (passedGame_facts dir p0 p1 p2 p3 (game w1))) as HP.
  rewrite Heq, Hex. cbn [final]. clear Heq Hex.
  revert HL HP.
  generalize (passedGame dir p0 p1 p2 p3 (game w1)) as r.
  intros r HL HP.
  apply (levelInv_playing _ _ _ _ 13); [exact HP|exact HL|now rewrite Hpile].
Qed.

Lemma play_levelInv (w : World) (pile : list Card) (pid : string) (player : Player)
    (c : Card) :
  wf w -> levelInv w pile ->
  getPlayer pid (players (game w)) = Some player ->
  rejection (game w) player (PlayCard c) = None ->
  levelInv (handleMessage pid (PlayCard c) w) pile.
Proof.
  intros Hwf [Hplaying _] Hp Hrej.
  destruct (accepted_play_facts w pid player c Hwf Hp Hrej)
    as [Hph [Hcur [_ [H4 [Ho4 [h' Hh]]]]]].
  destruct (Hplaying Hph) as [n [Hin Hpile]].
  pose proof (wf_order w Hwf) as Hord. pose proof (wf_nodup w Hwf) as Hnd.
  destruct (playedGame_facts (game w) pid c h') as [Fph [Fc [_ Fp]]].
  assert (Hlen : len (players (playedGame (game w) pid c h')) = 4).
  { rewrite Fp. unfold len, updatePlayer. now rewrite length_map, H4. }
  assert (Hcl : len (cards (currentTrick (playedGame (game w) pid c h')))
                = Z.of_nat (S (List.length (cards (currentTrick (game w)))))).
  { rewrite Fc. unfold len. rewrite length_app. cbn [List.length]. f_equal. lia. }
  destruct (len (cards (currentTrick (playedGame (game w) pid c h')))
            =? len (players (playedGame (game w) pid c h'))) eqn:E.
  - assert (Hk : S (List.length (cards (currentTrick (game w)))) = 4%nat).
    { apply Z.eqb_eq in E. rewrite Hcl, Hlen in E. lia. }
    destruct (handleMessage_play_last w pid player c h' Hwf Hp Hrej Hh E)
      as [wid [wc [wp [_ [_ Heq]]]]].
    rewrite Heq.
    pose proof (play_last_level (game w) pid player c h' n wid Hord Hnd Ho4 Hin Hcur Hp Hh Hk)
      as HL.
    pose proof (proj1 (trickDoneGame_facts (playedGame (game w) pid c h') wid)) as HP.
    destruct Hin as [Hn _].
    revert HL HP. generalize (trickDoneGame (playedGame (game w) pid c h') wid) as r.
    intros r HL HP.
    apply (levelInv_complete _ _ _ _ (n - 1)); [exact HP|exact HL|lia].
  - assert (Hk : S (List.length (cards (currentTrick (game w)))) <> 4%nat).
    { apply Z.eqb_neq in E. rewrite Hcl, Hlen in E. lia. }
    rewrite (handleMessage_play_on w pid player c h' Hwf Hp Hrej Hh E).
    pose proof (play_on_level (game w) pid player c h' n Hord Hnd Ho4 Hin Hcur Hp Hh Hk)
      as HL.
    assert (HP : phase (advancedGame (playedGame (game w) pid c h')) = PlayingTrick).
    { now rewrite (proj1 (advancedGame_facts _)), Fph. }
    revert HL HP. generalize (advancedGame (playedGame (game w) pid c h')) as r.
    intros r HL HP.
    apply (levelInv_playing _ _ _ _ n); [exact HP|exact HL|exact Hpile].
Qed.

Lemma reach_levelInv (w : World) (pile : list Card) :
  reach distinctSelection w pile -> levelInv w pile.
Proof.
  induction 1 as [|w pile pid name rnd Hr IH Hfresh|w pile pid m Hr IH Hok
                  |w pile rnd Hr IH].
  - unfold levelInv. cbn. repeat split; discriminate.
  - pose proof (reach_wf _ _ _ Hr) as Hwf.
    exact (joinOutcome_levelInv w pid name rnd _ pile Hwf Hfresh
             (reach_conserved _ _ Hr) IH (addPlayer_outcome w pid name rnd Hwf Hfresh)).
  - pose proof (reach_wf _ _ _ Hr) as Hwf. cbn [step].
    destruct (getPlayer pid (players (game w))) as [player|] eqn:Hp.
    + destruct (rejection (game w) player m) as [reason|] eqn:Hrej.
      * rewrite (handleMessage_rejected w pid m player reason Hp Hrej). exact IH.
      * destruct m as [cs|c|].
        -- exact (select_levelInv w pile pid player cs Hr Hok Hp Hrej).
        -- exact (play_levelInv w pile pid player c Hwf IH Hp Hrej).
        -- replace (handleMessage pid OtherMessage w) with w; [exact IH|].
           unfold handleMessage. rewrite Hp. reflexivity.
    + rewrite handleMessage_unknown by exact Hp. exact IH.
  - pose proof (reach_wf _ _ _ Hr) as Hwf.
    exact (timerOutcome_levelInv w rnd _ pile Hwf (proj1 (reach_timerInv _ _ _ Hr)) IH
             (fireTimer_outcome w rnd Hwf)).
Qed.


Lemma NoDup_firstn_of {A : Type} (k : nat) (l : list A) : NoDup l -> NoDup (firstn k l).
Proof.
  intros H. rewrite <- (firstn_skipn k l) in H. now apply NoDup_app_remove_r in H.
Qed.

(** The turn during a trick, in a session in which every selection names
    three different cards. While a trick is played, fewer than four cards
    lie in it, each from a different player; the player whose turn it is
    exists, has not yet played to the trick and holds at least one card;
    the players who have played hold one card less than the others; and
    with [n] cards in the hand of the player to move, [13 - n] tricks of
    the round have been cleared off the table. *)
Theorem turn_holder_has_cards (w : World) (pile : list Card) :
  reach distinctSelection w pile ->
  phase (game w) = PlayingTrick ->
  exists (cur : string) (player : Player) (n : nat),
    getCurrentPlayerId (game w) = Some cur
    /\ getPlayer cur (players (game w)) = Some player
    /\ hasPlayed (game w) cur = false
    /\ List.length (hand player) = n
    /\ (1 <= n <= 13)%nat
    /\ List.length pile = (4 * (13 - n))%nat
    /\ (List.length (cards (currentTrick (game w))) < 4)%nat
    /\ NoDup (map playerId (cards (currentTrick (game w))))
    /\ Forall (fun p => List.length (hand p)
                        = if hasPlayed (game w) (p_id p) then (n - 1)%nat else n)
         (players (game w)).
Proof.
  intros Hr Hph.
  pose proof (reach_wf _ _ _ Hr) as Hwf.
  destruct (reach_levelInv _ _ Hr) as [Hplaying _].
  destruct (Hplaying Hph) as [n [Hin Hpile]].
  pose proof Hin as [Hn [Hk [[lead [Hlead [Hids Hcpi]]] Hhands]]].
  assert (Hs : started (game w)) by (unfold started; rewrite Hph; discriminate).
  assert (Ho4 : List.length (playerOrder (game w)) = 4%nat).
  { rewrite (wf_order w Hwf), length_map. now apply (wf_four w Hwf). }
  assert (Hlt : ((lead + List.length (cards (currentTrick (game w)))) mod 4 < 4)%nat)
    by (apply Nat.mod_upper_bound; lia).
  destruct (nth_error (playerOrder (game w))
              ((lead + List.length (cards (currentTrick (game w)))) mod 4))
    as [cur|] eqn:Ecur;
    [|apply nth_error_None in Ecur; lia].
  assert (Hcur : getCurrentPlayerId (game w) = Some cur).
  { unfold getCurrentPlayerId, at_, len. rewrite Hcpi, Ho4, Nat2Z.id.
    destruct (Z.ltb_spec (Z.of_nat ((lead + List.length (cards (currentTrick (game w)))) mod 4)) 0);
      [lia|].
    destruct (Z.geb_spec (Z.of_nat ((lead + List.length (cards (currentTrick (game w)))) mod 4))
                (Z.of_nat 4)); [lia|].
    exact Ecur. }
  destruct (getPlayer_has cur (players (game w))) as [player Hp].
  { apply (wf_idsOk w Hwf). apply (nth_error_In _ _ Ecur). }
  destruct (getPlayer_some _ _ _ Hp) as [Hpin Hid].
  assert (Hseat : nth_error (seatsFrom lead (playerOrder (game w)))
                    (List.length (cards (currentTrick (game w)))) = Some cur).
  { now rewrite (seatsFrom_nth lead _ _ Ho4 Hlead Hk). }
  assert (Hndo : NoDup (seatsFrom lead (playerOrder (game w)))).
  { apply (Permutation_NoDup (Permutation_sym (seatsFrom_perm lead _))).
    apply (wf_nodup w Hwf). }
  assert (Hfresh : hasPlayed (game w) cur = false).
  { apply Bool.not_true_iff_false. intros Ht. apply hasPlayed_in in Ht.
    rewrite Hids in Ht. revert Ht. now apply firstn_fresh. }
  exists cur, player, n.
  split; [exact Hcur|]. split; [exact Hp|]. split; [exact Hfresh|]. split.
  { rewrite Forall_forall in Hhands. specialize (Hhands player Hpin).
    now rewrite Hid, Hfresh in Hhands. }
  split; [lia|]. split; [lia|]. split; [exact Hk|]. split; [|exact Hhands].
  rewrite Hids. now apply NoDup_firstn_of.
Qed.

Lemma turn_holder_has_cards_witness :
  (reach distinctSelection lastToPlayWorld []
   /\ phase (game lastToPlayWorld) = PlayingTrick)
  /\ exists cur player n,
       getCurrentPlayerId (game lastToPlayWorld) = Some cur
       /\ getPlayer cur (players (game lastToPlayWorld)) = Some player
       /\ List.length (hand player) = n.
Proof.
  assert (Hph : phase (game lastToPlayWorld) = PlayingTrick) by (vm_compute; reflexivity).
  split; [split; [exact reach_lastToPlayWorld|exact Hph]|].
  destruct (turn_holder_has_cards lastToPlayWorld [] reach_lastToPlayWorld Hph)
    as [cur [player [n [A1 [A2 [_ [A4 _]]]]]]].
  exists cur, player, n. split; [exact A1|]. split; [exact A2|exact A4].
Defined.

(** The end of a trick and of a round, in a session in which every
    selection names three different cards. When a trick is complete it
    holds four cards, one from each player, and all hands are of the same
    size [n], with [12 - n] earlier tricks of the round cleared. A round is
    scored only when every hand is empty: the thirteenth trick is still on
    the table and twelve tricks have been cleared. *)
Theorem round_ends_with_empty_hands (w : World) (pile : list Card) :
  reach distinctSelection w pile ->
  (phase (game w) = TrickComplete ->
   exists n, (n <= 12)%nat
             /\ List.length pile = (4 * (12 - n))%nat
             /\ List.length (cards (currentTrick (game w))) = 4%nat
             /\ Permutation (map playerId (cards (currentTrick (game w))))
                  (playerOrder (game w))
             /\ Forall (fun p => List.length (hand p) = n) (players (game w)))
  /\ (phase (game w) = RoundScoring ->
      Forall (fun p => hand p = []) (players (game w))
      /\ List.length (cards (currentTrick (game w))) = 4%nat
      /\ List.length pile = 48%nat).
Proof.
  intros Hr. destruct (reach_levelInv _ _ Hr) as [_ [Hcomplete Hscoring]]. split.
  - intros Hph. destruct (Hcomplete Hph) as [n [[Hc [Hperm Hh]] Hpile]].
    exists n. split; [lia|]. split; [lia|]. split; [exact Hc|]. split; [exact Hperm|exact Hh].
  - intros Hph. destruct (Hscoring Hph) as [[Hc [_ Hh]] Hpile].
    split; [|split; [exact Hc|exact Hpile]].
    revert Hh. apply Forall_impl. intros p Hp. now apply length_zero_iff_nil.
Qed.

Lemma round_ends_with_empty_hands_witness :
  reach distinctSelection firstTrickDoneWorld []
  /\ (phase (game firstTrickDoneWorld) = TrickComplete ->
      exists n, (n <= 12)%nat
                /\ Forall (fun p => List.length (hand p) = n)
                     (players (game firstTrickDoneWorld))).
Proof.
  split; [exact reach_firstTrickDoneWorld|].
  intros Hph.
  destruct (proj1 (round_ends_with_empty_hands firstTrickDoneWorld []
                     reach_firstTrickDoneWorld) Hph) as [n [A1 [_ [_ [_ A5]]]]].
  exists n. split; [exact A1|exact A5].
Defined.


(** ** game.ts: the hearts-broken flag and the leading suit *)

Lemma tableInv_same (g g' : Game) (pile : list Card) :
  heartsBroken g' = heartsBroken g ->
  currentTrick g' = currentTrick g ->
  tableInv g pile -> tableInv g' pile.
Proof. unfold tableInv. intros -> ->. tauto. Qed.

Lemma tableInv_fresh (g : Game) :
  heartsBroken g = false -> currentTrick g = createEmptyTrick -> tableInv g [].
Proof. unfold tableInv. intros -> ->. split; reflexivity. Qed.

Lemma playedGame_hearts (g : Game) (pid : string) (c : Card) (h' : list Card) :
  heartsBroken (playedGame g pid c h') = heartsBroken g || isHeart c.
Proof.
  unfold playedGame, isHeart. cbv zeta.
  cbn [heartsBroken set_currentTrick set_players].
  destruct (Suit_beq (suit c) Hearts) eqn:E1, (heartsBroken g) eqn:E2;
    cbn [andb negb orb heartsBroken set_heartsBroken set_currentTrick set_players];
    rewrite ?E2; reflexivity.
Qed.

Lemma played_table (g : Game) (pid : string) (c : Card) (h' : list Card)
    (pile : list Card) :
  tableInv g pile -> tableInv (playedGame g pid c h') pile.
Proof.
  intros [Hhb Hlead].
  destruct (playedGame_facts g pid c h') as [_ [Fc [Fl _]]].
  unfold tableInv. rewrite playedGame_hearts, Fc, Fl, lead_after_play. split.
  - rewrite map_app, app_assoc, existsb_app. cbn [map existsb card].
    now rewrite Bool.orb_false_r, <- Hhb.
  - destruct (cards (currentTrick g)) as [|x l]; [reflexivity|exact Hlead].
Qed.

Lemma roundGame_table (rnd : nat -> nat) (g : Game) : tableInv (roundGame rnd g) [].
Proof.
  apply tableInv_fresh.
  - unfold roundGame. cbv zeta.
    destruct (isHold (passingDirection (dealtGame rnd g))); reflexivity.
  - apply (proj1 (proj2 (roundGame_facts rnd g))).
Qed.

Lemma msgOutcome_tableInv (w : World) (pid : string) (player : Player)
    (m : ClientMessage) (w' : World) (pile : list Card) :
  tableInv (game w) pile -> msgOutcome w pid player m w' -> tableInv (game w') pile.
Proof.
  intros Hinv Hout.
  destruct Hout as [|cs outs Hpr Hne|cs dir p0 p1 p2 p3 outs Hpr Hps Hdir Hne
                    |c h' outs Hv Hh Hne|c h' wid outs Hv Hh Hwid Hne]; cbn [game].
  - exact Hinv.
  - revert Hinv. apply tableInv_same; reflexivity.
  - revert Hinv. apply tableInv_same; reflexivity.
  - apply (played_table _ pid c h') in Hinv. revert Hinv.
    generalize (playedGame (game w) pid c h') as g1. intros g1.
    apply tableInv_same; reflexivity.
  - apply (played_table _ pid c h') in Hinv. revert Hinv.
    generalize (playedGame (game w) pid c h') as g1. intros g1 [Hhb Hlead].
    split; [exact Hhb|exact Hlead].
Qed.

Lemma timerOutcome_tableInv (w : World) (rnd : nat -> nat) (w' : World)
    (pile : list Card) :
  tableInv (game w) pile -> timerOutcome w rnd w' ->
  tableInv (game w') (pileAfterTimer w pile).
Proof.
  intros Hinv Hout.
  destruct Hout as [Ht|wid wp rest outs over Ht Hp Hh Hne|wid wp rest outs Ht Hp Hh Hne
                    |rest outs Ht Hne|rest outs Ht Hne];
    unfold pileAfterTimer; rewrite Ht; cbn [game].
  - exact Hinv.
  - rewrite Hp, Hh. cbn [len List.length Z.of_nat Z.eqb].
    revert Hinv. apply tableInv_same; reflexivity.
  - rewrite Hp.
    destruct (len (hand wp) =? 0) eqn:El; [apply len_zero_nil in El; contradiction|].
    destruct Hinv as [Hhb _]. split.
    + cbn [nextTrickGame heartsBroken set_currentTrick set_currentPlayerIndex set_phase
           currentTrick createEmptyTrick cards map].
      rewrite app_nil_r. exact Hhb.
    + reflexivity.
  - revert Hinv. apply tableInv_same; reflexivity.
  - apply roundGame_table.
Qed.

Lemma joinOutcome_tableInv (w : World) (pid name : string) (rnd : nat -> nat)
    (w' : World) (pile : list Card) :
  lobbyInv (game w) pile -> tableInv (game w) pile ->
  joinOutcome w pid name rnd w' -> tableInv (game w') pile.
Proof.
  intros Hlobby Hinv Hout.
  destruct Hout as [_|outs Hph Hn4 Hne|outs Hph H4 Hne]; cbn [game].
  - exact Hinv.
  - revert Hinv. apply tableInv_same; reflexivity.
  - destruct (Hlobby Hph) as [_ [_ [_ Hpile]]]. rewrite Hpile. apply roundGame_table.
Qed.

Lemma reach_tableInv (ok : ClientMessage -> Prop) (w : World) (pile : list Card) :
  reach ok w pile -> tableInv (game w) pile.
Proof.
  induction 1 as [|w pile pid name rnd Hr IH Hfresh|w pile pid m Hr IH Hok
                  |w pile rnd Hr IH].
  - split; reflexivity.
  - pose proof (reach_wf _ _ _ Hr) as Hwf.
    exact (joinOutcome_tableInv w pid name rnd _ pile (reach_lobbyInv _ _ _ Hr) IH
             (addPlayer_outcome w pid name rnd Hwf Hfresh)).
  - pose proof (reach_wf _ _ _ Hr) as Hwf. cbn [step].
    destruct (getPlayer pid (players (game w))) as [player|] eqn:Hp.
    + destruct (rejection (game w) player m) as [reason|] eqn:Hrej.
      * rewrite (handleMessage_rejected w pid m player reason Hp Hrej). exact IH.
      * exact (msgOutcome_tableInv w pid player m _ pile IH
                 (handleMessage_accepted w pid player m Hwf Hp Hrej)).
    + rewrite handleMessage_unknown by exact Hp. exact IH.
  - pose proof (reach_wf _ _ _ Hr) as Hwf.
    exact (timerOutcome_tableInv w rnd _ pile IH (fireTimer_outcome w rnd Hwf)).
Qed.

(** The hearts-broken flag, in every state of a session. With [pile] the
    cards of the tricks of the current round that were cleared off the
    table, the flag is set if and only if a heart lies in one of those
    tricks or in the current trick: it is set by nothing but a heart that
    was played in the round. In particular the Queen of Spades does not
    set it, and it is not set at an opening lead. *)
Theorem hearts_broken_iff_heart_played (w : World) (pile : list Card) :
  reach anyMessage w pile ->
  (heartsBroken (game w) = true
   <-> exists c, In c (pile ++ trickCards (game w)) /\ suit c = Hearts)
  /\ (pile = [] -> cards (currentTrick (game w)) = [] -> heartsBroken (game w) = false).
Proof.
  intros Hr. destruct (reach_tableInv _ _ _ Hr) as [Hhb _].
  fold (trickCards (game w)) in Hhb. split.
  - rewrite Hhb, existsb_exists. split.
    + intros [c [Hin Hc]]. exists c. split; [exact Hin|]. now apply Suit_beq_eq.
    + intros [c [Hin Hc]]. exists c. split; [exact Hin|].
      unfold isHeart. rewrite Hc. reflexivity.
  - intros Hp Hc. rewrite Hhb, Hp. unfold trickCards. now rewrite Hc.
Qed.

Lemma hearts_broken_iff_heart_played_witness :
  reach anyMessage secondTrickWorld firstTrickPile
  /\ (heartsBroken (game secondTrickWorld) = true
      <-> exists c, In c (firstTrickPile ++ trickCards (game secondTrickWorld))
                    /\ suit c = Hearts).
Proof.
  assert (Hr : reach anyMessage secondTrickWorld firstTrickPile).
  { apply (reach_weaken distinctSelection); [easy|exact reach_secondTrickWorld]. }
  split; [exact Hr|].
  exact (proj1 (hearts_broken_iff_heart_played secondTrickWorld firstTrickPile Hr)).
Defined.

(** The leading suit, in every state of a session: it is the suit of the
    first card of the current trick, and there is none while the trick is
    empty. *)
Theorem leading_suit_is_first_card (w : World) :
  reachable w ->
  leadingSuit (currentTrick (game w))
  = option_map (fun e => suit (card e)) (head (cards (currentTrick (game w)))).
Proof.
  intros [pile Hr]. exact (proj2 (reach_tableInv _ _ _ Hr)).
Qed.

Lemma leading_suit_is_first_card_witness :
  reachable lastToPlayWorld
  /\ leadingSuit (currentTrick (game lastToPlayWorld)) = Some Clubs.
Proof.
  assert (Hr : reachable lastToPlayWorld)
    by exact (reachable_of lastToPlayWorld [] reach_lastToPlayWorld).
  split; [exact Hr|].
  rewrite (leading_suit_is_first_card lastToPlayWorld Hr). vm_compute. reflexivity.
Defined.


(** ** game.ts: a timer that outlives its player *)

Lemma indexOfFrom_absent (x : string) (l : list string) (i : Z) :
  ~ In x l -> indexOfFrom String.eqb x l i = -1.
Proof.
  revert i. induction l as [|y l IH]; intros i Hni; [reflexivity|].
  cbn [indexOfFrom]. destruct (String.eqb_spec y x) as [E|E].
  - exfalso. apply Hni. now left.
  - apply IH. intros H. apply Hni. now right.
Qed.

(** The timer of a trick whose winner, in the map or not, still holds
    cards. *)
Lemma fireTimer_held (w : World) (rnd : nat -> nat) (wid : string) (wp : Player)
    (rest : list Timer) :
  idsOk (game w) ->
  timers w = NextTrickTimer wid :: rest ->
  heldPlayer wid w = Some wp ->
  hand wp <> [] ->
  fireTimer rnd w
  = mkWorld (nextTrickGame (game w) wid)
      (outbox w ++ stateUpdates (nextTrickGame (game w) wid)
       ++ turnNotice (nextTrickGame (game w) wid))
      rest (departed w).
Proof.
  intros Hok Et Hwp Hne. unfold fireTimer. rewrite Et.
  set (w0 := mkWorld (game w) (outbox w) rest (departed w)).
  assert (Hok0 : idsOk (game w0)) by exact Hok.
  unfold timerBody. rewrite run_captured.
  change (heldPlayer wid w0) with (heldPlayer wid w). rewrite Hwp.
  destruct (len (hand wp) =? 0) eqn:Eh; [apply len_zero_nil in Eh; contradiction|].
  rewrite !run_modify, !withGame_withGame, !game_withGame.
  rewrite run_broadcastGameState by (rewrite game_withGame; exact Hok0).
  rewrite notifyCurrentPlayerTurn_eq by (rewrite game_addOut, game_withGame; exact Hok0).
  cbn [final]. rewrite addOut_app, game_withGame, game_addOut, game_withGame.
  reflexivity.
Qed.

Lemma getPlayer_head (p : Player) (ps : list Player) :
  getPlayer (p_id p) (p :: ps) = Some p.
Proof. unfold getPlayer. cbn [find]. now rewrite String.eqb_refl. Qed.

(** The winner of a trick leaves while the timer of the trick is pending.
    The departure ends the game and leaves the timer pending. When the
    timer expires, its callback still holds the player object of the
    winner: if that hand is not empty the game is put back into the
    playing phase with an empty trick, although it was over; the winner is
    in no seat, so the turn index is -1 and nobody is on turn; the
    remaining players are sent a state update and no notice of a turn, and
    every play is turned down from then on. *)
Theorem timer_outlives_departure (w : World) (rnd : nat -> nat) (wid : string)
    (wp : Player) :
  idsOk (game w) ->
  NoDup (map p_id (players (game w))) ->
  phase (game w) = TrickComplete ->
  timers w = [NextTrickTimer wid] ->
  getPlayer wid (players (game w)) = Some wp ->
  hand wp <> [] ->
  let w1 := final (removePlayer wid w) in
  let w2 := fireTimer rnd w1 in
  phase (game w1) = GameOver
  /\ timers w1 = [NextTrickTimer wid]
  /\ getPlayer wid (players (game w1)) = None
  /\ phase (game w2) = PlayingTrick
  /\ currentTrick (game w2) = createEmptyTrick
  /\ players (game w2) = mapDelete wid p_id (players (game w))
  /\ currentPlayerIndex (game w2) = -1
  /\ getCurrentPlayerId (game w2) = None
  /\ timers w2 = []
  /\ newOutput w1 w2 = stateUpdates (game w2)
  /\ (forall player c,
        rejection (game w2) player (PlayCard c)
        = Some "Not your turn or not in playing phase."%string).
Proof.
  intros Hok Hnd Hph Ht Hp Hne w1 w2.
  destruct (getPlayer_some _ _ _ Hp) as [_ Hid].
  assert (Hin : inProgress (game w) = true) by (unfold inProgress; now rewrite Hph).
  pose proof (departedGame_idsOk wid (game w) Hok) as Hok'.
  assert (Hgone : getPlayer wid (players (departedGame wid (game w))) = None)
    by (apply getPlayer_mapDelete_same; exact Hnd).
  assert (Hord : ~ In wid (playerOrder (departedGame wid (game w)))).
  { intros H. apply departed_order in H. destruct H as [_ H]. now apply H. }
  assert (Hw1 : w1 = addOut [Broadcast (GameOverMsg
                                          (lowestScorer (players (departedGame wid (game w))))
                                          (publicInfo (set_phase GameOver
                                                         (departedGame wid (game w))))
                                          (leftReason wp));
                             OnGameEnd]
                       (withGame (set_phase GameOver (departedGame wid (game w)))
                          (leaving wp w))).
  { unfold w1. rewrite (removePlayer_eq wid w Hok), Hp. cbv zeta. now rewrite Hin. }
  assert (Hg1 : game w1 = set_phase GameOver (departedGame wid (game w)))
    by (now rewrite Hw1).
  assert (Ht1 : timers w1 = [NextTrickTimer wid]) by (now rewrite Hw1).
  assert (Hd1 : departed w1 = wp :: departed w) by (now rewrite Hw1).
  assert (Hok1 : idsOk (game w1)) by (rewrite Hg1; exact Hok').
  assert (Hheld : heldPlayer wid w1 = Some wp).
  { unfold heldPlayer. rewrite Hg1. cbn [players set_phase]. rewrite Hgone, Hd1, <- Hid.
    apply getPlayer_head. }
  assert (Hw2 : w2 = mkWorld (nextTrickGame (game w1) wid)
                       (outbox w1 ++ stateUpdates (nextTrickGame (game w1) wid)
                        ++ turnNotice (nextTrickGame (game w1) wid))
                       [] (departed w1))
    by exact (fireTimer_held w1 rnd wid wp [] Hok1 Ht1 Hheld Hne).
  clearbody w1 w2.
  destruct (nextTrickGame_facts (game w1) wid) as [Nph [Ntr [Npl Nord]]].
  assert (Nidx : currentPlayerIndex (nextTrickGame (game w1) wid) = -1).
  { change (currentPlayerIndex (nextTrickGame (game w1) wid))
      with (indexOf String.eqb wid (playerOrder (game w1))).
    unfold indexOf. apply indexOfFrom_absent. now rewrite Hg1. }
  assert (Ncur : getCurrentPlayerId (nextTrickGame (game w1) wid) = None).
  { unfold getCurrentPlayerId. now rewrite Nidx. }
  assert (Nturn : turnNotice (nextTrickGame (game w1) wid) = []).
  { unfold turnNotice. now rewrite Ncur. }
  assert (Hg2 : game w2 = nextTrickGame (game w1) wid) by (now rewrite Hw2).
  split; [now rewrite Hg1|]. split; [exact Ht1|].
  split; [now rewrite Hg1|].
  rewrite Hg2.
  split; [exact Nph|]. split; [exact Ntr|].
  split; [now rewrite Npl, Hg1|]. split; [exact Nidx|]. split; [exact Ncur|].
  split; [now rewrite Hw2|]. split.
  - rewrite Hw2, Nturn, app_nil_r. unfold newOutput. cbn [outbox].
    rewrite skipn_app, skipn_all, Nat.sub_diag. reflexivity.
  - intros player c. cbn [rejection]. now rewrite Nph, Ncur.
Qed.

Lemma timer_outlives_departure_witness :
  (idsOk (game firstTrickDoneWorld)
   /\ NoDup (map p_id (players (game firstTrickDoneWorld)))
   /\ phase (game firstTrickDoneWorld) = TrickComplete
   /\ timers firstTrickDoneWorld = [NextTrickTimer "a"]
   /\ getPlayer "a" (players (game firstTrickDoneWorld)) = Some annAfterFirstTrick
   /\ hand annAfterFirstTrick <> [])
  /\ phase (game (final (removePlayer "a" firstTrickDoneWorld))) = GameOver
  /\ phase (game (fireTimer noShuffle (final (removePlayer "a" firstTrickDoneWorld))))
     = PlayingTrick
  /\ getCurrentPlayerId
       (game (fireTimer noShuffle (final (removePlayer "a" firstTrickDoneWorld))))
     = None.
Proof.
  assert (Hwf : wf firstTrickDoneWorld) by exact (reach_wf _ _ _ reach_firstTrickDoneWorld).
  assert (H1 : idsOk (game firstTrickDoneWorld)) by exact (wf_idsOk _ Hwf).
  assert (H2 : NoDup (map p_id (players (game firstTrickDoneWorld)))).
  { rewrite <- (wf_order _ Hwf). exact (wf_nodup _ Hwf). }
  assert (H3 : phase (game firstTrickDoneWorld) = TrickComplete)
    by (vm_compute; reflexivity).
  assert (H4 : timers firstTrickDoneWorld = [NextTrickTimer "a"])
    by (vm_compute; reflexivity).
  assert (H5 : getPlayer "a" (players (game firstTrickDoneWorld)) = Some annAfterFirstTrick)
    by (vm_compute; reflexivity).
  assert (H6 : hand annAfterFirstTrick <> []) by discriminate.
  split; [split; [exact H1|split; [exact H2|split; [exact H3|split; [exact H4|
          split; [exact H5|exact H6]]]]]|].
  destruct (timer_outlives_departure firstTrickDoneWorld noShuffle "a" annAfterFirstTrick
              H1 H2 H3 H4 H5 H6) as [A1 [_ [_ [A4 [_ [_ [_ [A8 _]]]]]]]].
  split; [exact A1|split; [exact A4|exact A8]].
Defined.


(** ** game.ts: round scores and the scoring rule *)












